(** * Pound configuration front-end (src/config.c): a shallow embedding

    The scanner, the include stack, the table-driven section parser, the
    value parsers and the semantic builders of [config.c] are transcribed
    as Rocq functions over an explicit parser state.  Everything [config.c]
    obtains from outside itself (the file system, the resolver, the POSIX
    regex compiler, OpenSSL) is gathered in one record of operations,
    [env], so that the functions below stay executable once an [env] is
    supplied.

    Conventions.
    - A C [int] / [unsigned] / [size_t] is a [Z].  Counters that the C code
      only ever increments by one per input character (line, column) are
      left unbounded; fields on which the code does bit arithmetic keep
      their operations ([Z.lor], [Z.land], [Z.shiftl]).
    - A C string is a [string]; a NULL [char *] is [None] where the code
      tests for it and the empty string where it does not.
    - [fgetc] yields [option ascii], [None] being EOF.
    - Allocation ([xmalloc] and friends) always succeeds: on failure the C
      code calls [exit], which no claim is about. *)

From Stdlib Require Import ZArith List String Ascii Bool Lia.
From Stdlib Require Import DecimalString.
Import ListNotations.

Local Open Scope string_scope.
Local Open Scope Z_scope.

Set Implicit Arguments.

(** ** Pieces of the C library *)

Module CLib.

Definition EOF : Z := -1.

Definition code (c : ascii) : Z := Z.of_N (N_of_ascii c).

Definition chr (n : Z) : ascii := ascii_of_N (Z.to_N n).

Definition NL  : ascii := chr 10.
Definition TAB : ascii := chr 9.
Definition CR  : ascii := chr 13.
Definition NUL : ascii := chr 0.

(** <ctype.h>, "C" locale. *)
Definition isdigit (c : ascii) : bool := (48 <=? code c) && (code c <=? 57).
Definition isupper (c : ascii) : bool := (65 <=? code c) && (code c <=? 90).
Definition islower (c : ascii) : bool := (97 <=? code c) && (code c <=? 122).
Definition isalpha (c : ascii) : bool := isupper c || islower c.
Definition isspace (c : ascii) : bool :=
  (code c =? 32) || ((9 <=? code c) && (code c <=? 13)).
Definition tolower (c : ascii) : ascii :=
  if isupper c then chr (code c + 32) else c.

(** [strcmp (a, b) == 0] and [strcasecmp (a, b) == 0]. *)
Definition streq (a b : string) : bool := String.eqb a b.

Fixpoint lowercase (s : string) : string :=
  match s with
  | EmptyString => EmptyString
  | String c r => String (tolower c) (lowercase r)
  end.

Definition strcaseeq (a b : string) : bool :=
  String.eqb (lowercase a) (lowercase b).

Definition strlen (s : string) : Z := Z.of_nat (String.length s).

(** The C string that starts at the first byte of a buffer: everything up
    to the first NUL. *)
Fixpoint c_str (s : string) : string :=
  match s with
  | EmptyString => EmptyString
  | String c r => if Ascii.eqb c NUL then EmptyString else String c (c_str r)
  end.

(** [s[n] = '\0'] on a string that is longer than [n]. *)
Fixpoint truncate (n : nat) (s : string) : string :=
  match n, s with
  | O, _ => EmptyString
  | S _, EmptyString => EmptyString
  | S k, String c r => String c (truncate k r)
  end.

(** [printf]'s "%d" and "%s". *)
Definition fmt_d (n : Z) : string := NilZero.string_of_int (Z.to_int n).

Definition fmt_s (s : option string) : string :=
  match s with Some x => x | None => "(null)" end.

(** Limits of the LP64 ABI. *)
Definition INT_MAX  : Z := 2147483647.
Definition INT_MIN  : Z := -2147483648.
Definition UINT_MAX : Z := 4294967295.
Definition LONG_MAX : Z := 9223372036854775807.
Definition LONG_MIN : Z := -9223372036854775808.
Definition ULONG_MAX : Z := 18446744073709551615.

(** Conversion of a value to [int] (two's complement wrap-around). *)
Definition to_int (n : Z) : Z := (n + 2147483648) mod 4294967296 - 2147483648.

(** Conversion of a value to [uint64_t], the type of the option words of
    OpenSSL 3: an [int] passed for one is sign-extended. *)
Definition to_uint64 (n : Z) : Z := n mod 18446744073709551616.

(** The value of a run of decimal digits, most significant first; stops at
    the first character that is not a digit and returns the rest. *)
Fixpoint digits_val (acc : Z) (s : string) : Z * string :=
  match s with
  | EmptyString => (acc, EmptyString)
  | String c r =>
      if isdigit c then digits_val (10 * acc + (code c - 48)) r
      else (acc, s)
  end.

Fixpoint skip_spaces (s : string) : string :=
  match s with
  | String c r => if isspace c then skip_spaces r else s
  | EmptyString => s
  end.

(** [strtol (s, &p, 10)]: the value, the unparsed rest [p], and whether
    [errno] was set (ERANGE; the value is then clamped). *)
Definition strtol (s : string) : Z * string * bool :=
  let s1 := skip_spaces s in
  let '(neg, s2) :=
    match s1 with
    | String "-" r => (true, r)
    | String "+" r => (false, r)
    | _ => (false, s1)
    end in
  match s2 with
  | String c _ =>
      if isdigit c then
        let '(v, rest) := digits_val 0 s2 in
        let v := if neg then - v else v in
        if v >? LONG_MAX then (LONG_MAX, rest, true)
        else if v <? LONG_MIN then (LONG_MIN, rest, true)
        else (v, rest, false)
      else (0, s, false)
  | EmptyString => (0, s, false)
  end.

(** [strtoul (s, &p, 10)]; a leading minus sign negates modulo 2^64. *)
Definition strtoul (s : string) : Z * string * bool :=
  let s1 := skip_spaces s in
  let '(neg, s2) :=
    match s1 with
    | String "-" r => (true, r)
    | String "+" r => (false, r)
    | _ => (false, s1)
    end in
  match s2 with
  | String c _ =>
      if isdigit c then
        let '(v, rest) := digits_val 0 s2 in
        if v >? ULONG_MAX then (ULONG_MAX, rest, true)
        else ((if neg then (- v) mod (ULONG_MAX + 1) else v), rest, false)
      else (0, s, false)
  | EmptyString => (0, s, false)
  end.

(** [atoi (s)], which glibc defines as [(int) strtol (s, NULL, 10)]. *)
Definition atoi (s : string) : Z :=
  let '(v, _, _) := strtol s in to_int v.

End CLib.
Export CLib.

(** ** Scanner data *)

(** Token types.  A token type is an [int]: one of the values below, the
    code of a character (in practice only newline), or [EOF]. *)
Definition T__BASE   : Z := 256.
Definition T_IDENT   : Z := T__BASE.
Definition T_NUMBER  : Z := 257.
Definition T_STRING  : Z := 258.
Definition T_LITERAL : Z := 259.
Definition T__END    : Z := 260.
Definition T_ERROR   : Z := T__END.
Definition T_NEWLINE : Z := code NL.

Definition TOKENMASK := Z.

Definition T_BIT (t : Z) : TOKENMASK := Z.shiftl 1 (t - T__BASE).
Definition T_MASK_ISSET (m : TOKENMASK) (t : Z) : bool :=
  negb (Z.land m (T_BIT t) =? 0).
Definition T_ANY : TOKENMASK := 0.
Definition T_UNQ : TOKENMASK :=
  Z.lor (Z.lor (T_BIT T_IDENT) (T_BIT T_NUMBER)) (T_BIT T_LITERAL).

(** Locations in the source file. *)
Record locus_point := mk_point {
  filename : option string;
  line : Z;
  col : Z
}.

Record locus_range := mk_range {
  beg : locus_point;
  end_ : locus_point
}.

Definition zero_point : locus_point := mk_point None 0 0.
Definition zero_range : locus_range := mk_range zero_point zero_point.

Record token := mk_token {
  type : Z;
  str : string;
  locus : locus_range
}.

Definition zero_token : token := mk_token 0 "" zero_range.

(** One open input file.  [file] is what is left to read from the stream;
    [buf] is the content of the string buffer (its first [len] bytes). *)
Record input := mk_input {
  file : list ascii;
  ino : Z;
  devno : Z;
  ilocus : locus_point;
  prev_col : Z;
  itoken : token;
  ready : bool;
  buf : string
}.

(** What [stat] reports, as far as [config.c] looks at it. *)
Record stat_t := mk_stat {
  st_ino : Z;
  st_dev : Z;
  st_isdir : bool;
  st_size : Z
}.

(** ** Runtime data model (the parts of [pound.h] that [config.c] uses) *)

Record sockaddr := mk_sockaddr {
  sa_family : Z;
  sa_port : Z;
  sa_data : string
}.

Record addrinfo := mk_addrinfo {
  ai_flags : Z;
  ai_family : Z;
  ai_socktype : Z;
  ai_protocol : Z;
  ai_addrlen : Z;
  ai_addr : option sockaddr
}.

(** [memset (&addr, 0, sizeof addr)]. *)
Definition zero_addrinfo : addrinfo := mk_addrinfo 0 0 0 0 0 None.

(** <sys/socket.h>, <netdb.h> (Linux values). *)
Definition AF_UNSPEC : Z := 0.
Definition PF_UNSPEC : Z := 0.
Definition AF_UNIX : Z := 1.
Definition AF_INET : Z := 2.
Definition AF_INET6 : Z := 10.
Definition SOCK_STREAM : Z := 1.
Definition AI_NUMERICHOST : Z := 4.
Definition AI_NUMERICSERV : Z := 1024.

(** A compiled regular expression is known by the expression and the flags
    it was compiled from. *)
Record regex_t := mk_regex {
  re_expr : string;
  re_cflags : Z
}.

Definition zero_regex : regex_t := mk_regex "" 0.

(** <regex.h> (glibc values). *)
Definition REG_EXTENDED : Z := 1.
Definition REG_ICASE : Z := 2.
Definition REG_NEWLINE : Z := 4.

Record regmatch_t := mk_regmatch {
  rm_so : Z;
  rm_eo : Z
}.

(** An OpenSSL context, as the settings [config.c] applies to it. *)
Record SSL_CTX := mk_ssl_ctx {
  ctx_server : bool;
  ctx_cert_chain : option string;
  ctx_private_key : option string;
  ctx_verify_mode : Z;
  ctx_verify_cb : bool;
  ctx_verify_depth : Z;
  ctx_mode : Z;
  ctx_options : Z;
  ctx_ciphers : option string;
  ctx_client_CA : option string;
  ctx_verify_locations : list string;
  ctx_crl : list string;
  ctx_store_flags : Z;
  ctx_sid : string;
  ctx_app_data : bool;
  ctx_sni_cb : bool;
  ctx_info_cb : bool;
  ctx_pound_init : bool
}.

(** What [https_parse_cert] reads out of a certificate. *)
Record GENERAL_NAME := mk_general_name {
  gn_type : Z;
  gn_dNSName : string
}.

Record X509 := mk_x509 {
  x509_subject : string;
  x509_san_stack : option (list GENERAL_NAME)
}.

(** Back-end kinds and session types ([pound.h]). *)
Inductive BE_TYPE := BE_BACKEND | BE_REDIRECT | BE_ACME.

Inductive SESS_TYPE :=
  SESS_NONE | SESS_IP | SESS_COOKIE | SESS_URL | SESS_PARM | SESS_HEADER
| SESS_BASIC.

Definition SESS_TYPE_eqb (a b : SESS_TYPE) : bool :=
  match a, b with
  | SESS_NONE, SESS_NONE | SESS_IP, SESS_IP | SESS_COOKIE, SESS_COOKIE
  | SESS_URL, SESS_URL | SESS_PARM, SESS_PARM | SESS_HEADER, SESS_HEADER
  | SESS_BASIC, SESS_BASIC => true
  | _, _ => false
  end.

Record BACKEND := mk_backend {
  be_type : BE_TYPE;
  addr : addrinfo;
  priority : Z;
  to : Z;
  conn_to : Z;
  ws_to : Z;
  ha_addr : addrinfo;
  url : option string;
  redir_code : Z;
  redir_req : Z;
  alive : Z;
  disabled : Z;
  ctx : option SSL_CTX
}.

(** [XZALLOC (be)]. *)
Definition zero_backend : BACKEND :=
  mk_backend BE_BACKEND zero_addrinfo 0 0 0 0 zero_addrinfo None 0 0 0 0 None.

Record MATCHER := mk_matcher { pat : regex_t }.

Record SERVICE := mk_service {
  name : string;
  svc_url : list MATCHER;
  req_head : list MATCHER;
  deny_head : list MATCHER;
  backends : list BACKEND;
  emergency : option BACKEND;
  abs_pri : Z;
  tot_pri : Z;
  sess_type : SESS_TYPE;
  sess_ttl : Z;
  sess_start : regex_t;
  sess_pat : regex_t;
  svc_disabled : Z
}.

Definition zero_service : SERVICE :=
  mk_service "" [] [] [] [] None 0 0 SESS_NONE 0 zero_regex zero_regex 0.

Record POUND_CTX := mk_pound_ctx {
  pc_ctx : SSL_CTX;
  server_name : string;
  subjectAltNames : list string
}.

(** The two option words of a listener are [int]s: [https_parse_disable]
    hands the address of [ssl_op_enable] to [set_proto_opt], which takes
    an [int *]. *)
Record LISTENER := mk_listener {
  l_addr : addrinfo;
  sock : Z;
  ctx_head : list POUND_CTX;
  clnt_check : Z;
  noHTTPS11 : Z;
  add_head : option string;
  verb : regex_t;
  l_to : Z;
  has_pat : Z;
  url_pat : regex_t;
  err404 : string;
  err413 : string;
  err414 : string;
  err500 : string;
  err501 : string;
  err503 : string;
  max_req : Z;
  head_off : list MATCHER;
  rewr_loc : Z;
  rewr_dest : Z;
  l_log_level : Z;
  allow_client_reneg : Z;
  ssl_op_enable : Z;
  ssl_op_disable : Z;
  has_other : Z;
  services : list SERVICE
}.

Record POUND_DEFAULTS := mk_defaults {
  log_level : Z;
  facility : Z;
  clnt_to : Z;
  be_to : Z;
  dfl_ws_to : Z;
  be_connto : Z;
  ignore_case : Z
}.

(** The global variables that the top-level keyword table points at. *)
Record globals := mk_globals {
  user : option string;
  group : option string;
  root_jail : option string;
  ctrl_name : option string;
  daemonize : Z;
  enable_supervisor : Z;
  anonymise : Z;
  numthreads : Z;
  grace : Z;
  alive_to : Z;
  g_services : list SERVICE;
  g_listeners : list LISTENER;
  log_facility : Z
}.

(** ** Parser state and the outside world *)

(** [feature[FEATURE_DNS].enabled]. *)
Definition F_OFF : Z := 0.
Definition F_ON : Z := 1.

(** The mutable globals of [config.c]: the input stack [cur_input] (top
    first, each element's [prev] being the rest of the list), the interned
    file names, and the feature table; [log] collects what [logmsg]
    receives, oldest first, each line with its syslog priority;
    [rand_calls] counts the calls of [random] made so far. *)
Record state := mk_state {
  cur_input : list input;
  name_list : list string;
  feature_dns : Z;
  glob : globals;
  log : list (Z * string);
  rand_calls : nat
}.

(** Constants that come from system and OpenSSL headers;
    [SERVICE_NAME_SIZE] is the size of the [name] array of a SERVICE. *)
Record consts := mk_consts {
  UNIX_PATH_MAX : Z;
  SERVICE_NAME_SIZE : Z;
  SSL_OP_ALL : Z;
  SSL_OP_NO_COMPRESSION : Z;
  SSL_OP_NO_SSLv2 : Z;
  SSL_OP_NO_SSLv3 : Z;
  SSL_OP_NO_TLSv1 : Z;
  SSL_OP_NO_TLSv1_1 : Z;
  SSL_OP_NO_TLSv1_2 : Z;
  SSL_OP_CIPHER_SERVER_PREFERENCE : Z;
  SSL_OP_ALLOW_UNSAFE_LEGACY_RENEGOTIATION : Z;
  SSL_OP_LEGACY_SERVER_CONNECT : Z;
  SSL_OP_DONT_INSERT_EMPTY_FRAGMENTS : Z;
  SSL_MODE_AUTO_RETRY : Z;
  SSL_MODE_SEND_FALLBACK_SCSV : Z;
  SSL_VERIFY_NONE : Z;
  SSL_VERIFY_PEER : Z;
  SSL_VERIFY_FAIL_IF_NO_PEER_CERT : Z;
  SSL_VERIFY_CLIENT_ONCE : Z;
  X509_V_FLAG_CRL_CHECK : Z;
  X509_V_FLAG_CRL_CHECK_ALL : Z;
  GEN_DNS : Z
}.

(** Everything [config.c] calls but does not define.  A failing system
    call is [inl] of the text [strerror (errno)] would give. *)
Record env := mk_env {
  K : consts;
  (* file system *)
  stat : string -> string + stat_t;
  fopen : string -> string + list ascii;
  errno_str : string;
  (* resolver: get_host is pound's own (svc.c); it returns its status and
     what it leaves in *res *)
  get_host : string -> addrinfo -> Z -> Z * addrinfo;
  getaddrinfo : string -> addrinfo -> Z + addrinfo;
  gai_strerror : Z -> string;
  (* POSIX regex *)
  regcomp : string -> Z -> Z;
  regerror : Z -> string;
  LOCATION : regex_t;
  regexec : regex_t -> string -> Z -> option (list regmatch_t);
  (* OpenSSL *)
  SSL_CTX_new : bool -> option SSL_CTX;
  SSL_CTX_use_certificate_chain_file : string -> bool;
  SSL_CTX_use_PrivateKey_file : string -> bool;
  SSL_CTX_check_private_key : SSL_CTX -> bool;
  PEM_read_X509 : list ascii -> option X509;
  SSL_load_client_CA_file : string -> bool;
  SSL_CTX_load_verify_locations : string -> bool;
  X509_STORE_add_lookup : SSL_CTX -> bool;
  X509_load_crl_file : string -> bool;
  SSL_CTX_set_tlsext_servername : SSL_CTX -> bool;
  ERR_queue : string -> list Z;
  ERR_error_string : Z -> string;
  (* process *)
  getpid : Z;
  random : nat -> Z;
  (* sockets, for SocketFrom *)
  sys_socket : string + Z;
  sys_connect : Z -> option sockaddr -> string + unit;
  read_fd : Z -> Z;
  getsockname : Z -> string + (sockaddr * Z);
  addr2str : addrinfo -> string
}.

(** Field updates. *)
Definition set_line (v : Z) (r : locus_point) : locus_point :=
  mk_point (filename r) v (col r).
Definition set_col (v : Z) (r : locus_point) : locus_point :=
  mk_point (filename r) (line r) v.
Definition set_file (v : list ascii) (r : input) : input :=
  mk_input v (ino r) (devno r) (ilocus r) (prev_col r) (itoken r) (ready r) (buf r).
Definition set_ilocus (v : locus_point) (r : input) : input :=
  mk_input (file r) (ino r) (devno r) v (prev_col r) (itoken r) (ready r) (buf r).
Definition set_prev_col (v : Z) (r : input) : input :=
  mk_input (file r) (ino r) (devno r) (ilocus r) v (itoken r) (ready r) (buf r).
Definition set_itoken (v : token) (r : input) : input :=
  mk_input (file r) (ino r) (devno r) (ilocus r) (prev_col r) v (ready r) (buf r).
Definition set_ready (v : bool) (r : input) : input :=
  mk_input (file r) (ino r) (devno r) (ilocus r) (prev_col r) (itoken r) v (buf r).
Definition set_buf (v : string) (r : input) : input :=
  mk_input (file r) (ino r) (devno r) (ilocus r) (prev_col r) (itoken r) (ready r) v.
Definition set_sa_port (v : Z) (r : sockaddr) : sockaddr :=
  mk_sockaddr (sa_family r) v (sa_data r).
Definition set_ai_flags (v : Z) (r : addrinfo) : addrinfo :=
  mk_addrinfo v (ai_family r) (ai_socktype r) (ai_protocol r) (ai_addrlen r) (ai_addr r).
Definition set_ai_family (v : Z) (r : addrinfo) : addrinfo :=
  mk_addrinfo (ai_flags r) v (ai_socktype r) (ai_protocol r) (ai_addrlen r) (ai_addr r).
Definition set_ai_socktype (v : Z) (r : addrinfo) : addrinfo :=
  mk_addrinfo (ai_flags r) (ai_family r) v (ai_protocol r) (ai_addrlen r) (ai_addr r).
Definition set_ai_protocol (v : Z) (r : addrinfo) : addrinfo :=
  mk_addrinfo (ai_flags r) (ai_family r) (ai_socktype r) v (ai_addrlen r) (ai_addr r).
Definition set_ai_addrlen (v : Z) (r : addrinfo) : addrinfo :=
  mk_addrinfo (ai_flags r) (ai_family r) (ai_socktype r) (ai_protocol r) v (ai_addr r).
Definition set_ai_addr (v : option sockaddr) (r : addrinfo) : addrinfo :=
  mk_addrinfo (ai_flags r) (ai_family r) (ai_socktype r) (ai_protocol r) (ai_addrlen r) v.
Definition set_ctx_server (v : bool) (r : SSL_CTX) : SSL_CTX :=
  mk_ssl_ctx v (ctx_cert_chain r) (ctx_private_key r) (ctx_verify_mode r) (ctx_verify_cb r) (ctx_verify_depth r) (ctx_mode r) (ctx_options r) (ctx_ciphers r) (ctx_client_CA r) (ctx_verify_locations r) (ctx_crl r) (ctx_store_flags r) (ctx_sid r) (ctx_app_data r) (ctx_sni_cb r) (ctx_info_cb r) (ctx_pound_init r).
Definition set_ctx_cert_chain (v : option string) (r : SSL_CTX) : SSL_CTX :=
  mk_ssl_ctx (ctx_server r) v (ctx_private_key r) (ctx_verify_mode r) (ctx_verify_cb r) (ctx_verify_depth r) (ctx_mode r) (ctx_options r) (ctx_ciphers r) (ctx_client_CA r) (ctx_verify_locations r) (ctx_crl r) (ctx_store_flags r) (ctx_sid r) (ctx_app_data r) (ctx_sni_cb r) (ctx_info_cb r) (ctx_pound_init r).
Definition set_ctx_private_key (v : option string) (r : SSL_CTX) : SSL_CTX :=
  mk_ssl_ctx (ctx_server r) (ctx_cert_chain r) v (ctx_verify_mode r) (ctx_verify_cb r) (ctx_verify_depth r) (ctx_mode r) (ctx_options r) (ctx_ciphers r) (ctx_client_CA r) (ctx_verify_locations r) (ctx_crl r) (ctx_store_flags r) (ctx_sid r) (ctx_app_data r) (ctx_sni_cb r) (ctx_info_cb r) (ctx_pound_init r).
Definition set_ctx_verify_mode (v : Z) (r : SSL_CTX) : SSL_CTX :=
  mk_ssl_ctx (ctx_server r) (ctx_cert_chain r) (ctx_private_key r) v (ctx_verify_cb r) (ctx_verify_depth r) (ctx_mode r) (ctx_options r) (ctx_ciphers r) (ctx_client_CA r) (ctx_verify_locations r) (ctx_crl r) (ctx_store_flags r) (ctx_sid r) (ctx_app_data r) (ctx_sni_cb r) (ctx_info_cb r) (ctx_pound_init r).
Definition set_ctx_verify_cb (v : bool) (r : SSL_CTX) : SSL_CTX :=
  mk_ssl_ctx (ctx_server r) (ctx_cert_chain r) (ctx_private_key r) (ctx_verify_mode r) v (ctx_verify_depth r) (ctx_mode r) (ctx_options r) (ctx_ciphers r) (ctx_client_CA r) (ctx_verify_locations r) (ctx_crl r) (ctx_store_flags r) (ctx_sid r) (ctx_app_data r) (ctx_sni_cb r) (ctx_info_cb r) (ctx_pound_init r).
Definition set_ctx_verify_depth (v : Z) (r : SSL_CTX) : SSL_CTX :=
  mk_ssl_ctx (ctx_server r) (ctx_cert_chain r) (ctx_private_key r) (ctx_verify_mode r) (ctx_verify_cb r) v (ctx_mode r) (ctx_options r) (ctx_ciphers r) (ctx_client_CA r) (ctx_verify_locations r) (ctx_crl r) (ctx_store_flags r) (ctx_sid r) (ctx_app_data r) (ctx_sni_cb r) (ctx_info_cb r) (ctx_pound_init r).
Definition set_ctx_mode (v : Z) (r : SSL_CTX) : SSL_CTX :=
  mk_ssl_ctx (ctx_server r) (ctx_cert_chain r) (ctx_private_key r) (ctx_verify_mode r) (ctx_verify_cb r) (ctx_verify_depth r) v (ctx_options r) (ctx_ciphers r) (ctx_client_CA r) (ctx_verify_locations r) (ctx_crl r) (ctx_store_flags r) (ctx_sid r) (ctx_app_data r) (ctx_sni_cb r) (ctx_info_cb r) (ctx_pound_init r).
Definition set_ctx_options (v : Z) (r : SSL_CTX) : SSL_CTX :=
  mk_ssl_ctx (ctx_server r) (ctx_cert_chain r) (ctx_private_key r) (ctx_verify_mode r) (ctx_verify_cb r) (ctx_verify_depth r) (ctx_mode r) v (ctx_ciphers r) (ctx_client_CA r) (ctx_verify_locations r) (ctx_crl r) (ctx_store_flags r) (ctx_sid r) (ctx_app_data r) (ctx_sni_cb r) (ctx_info_cb r) (ctx_pound_init r).
Definition set_ctx_ciphers (v : option string) (r : SSL_CTX) : SSL_CTX :=
  mk_ssl_ctx (ctx_server r) (ctx_cert_chain r) (ctx_private_key r) (ctx_verify_mode r) (ctx_verify_cb r) (ctx_verify_depth r) (ctx_mode r) (ctx_options r) v (ctx_client_CA r) (ctx_verify_locations r) (ctx_crl r) (ctx_store_flags r) (ctx_sid r) (ctx_app_data r) (ctx_sni_cb r) (ctx_info_cb r) (ctx_pound_init r).
Definition set_ctx_client_CA (v : option string) (r : SSL_CTX) : SSL_CTX :=
  mk_ssl_ctx (ctx_server r) (ctx_cert_chain r) (ctx_private_key r) (ctx_verify_mode r) (ctx_verify_cb r) (ctx_verify_depth r) (ctx_mode r) (ctx_options r) (ctx_ciphers r) v (ctx_verify_locations r) (ctx_crl r) (ctx_store_flags r) (ctx_sid r) (ctx_app_data r) (ctx_sni_cb r) (ctx_info_cb r) (ctx_pound_init r).
Definition set_ctx_verify_locations (v : list string) (r : SSL_CTX) : SSL_CTX :=
  mk_ssl_ctx (ctx_server r) (ctx_cert_chain r) (ctx_private_key r) (ctx_verify_mode r) (ctx_verify_cb r) (ctx_verify_depth r) (ctx_mode r) (ctx_options r) (ctx_ciphers r) (ctx_client_CA r) v (ctx_crl r) (ctx_store_flags r) (ctx_sid r) (ctx_app_data r) (ctx_sni_cb r) (ctx_info_cb r) (ctx_pound_init r).
Definition set_ctx_crl (v : list string) (r : SSL_CTX) : SSL_CTX :=
  mk_ssl_ctx (ctx_server r) (ctx_cert_chain r) (ctx_private_key r) (ctx_verify_mode r) (ctx_verify_cb r) (ctx_verify_depth r) (ctx_mode r) (ctx_options r) (ctx_ciphers r) (ctx_client_CA r) (ctx_verify_locations r) v (ctx_store_flags r) (ctx_sid r) (ctx_app_data r) (ctx_sni_cb r) (ctx_info_cb r) (ctx_pound_init r).
Definition set_ctx_store_flags (v : Z) (r : SSL_CTX) : SSL_CTX :=
  mk_ssl_ctx (ctx_server r) (ctx_cert_chain r) (ctx_private_key r) (ctx_verify_mode r) (ctx_verify_cb r) (ctx_verify_depth r) (ctx_mode r) (ctx_options r) (ctx_ciphers r) (ctx_client_CA r) (ctx_verify_locations r) (ctx_crl r) v (ctx_sid r) (ctx_app_data r) (ctx_sni_cb r) (ctx_info_cb r) (ctx_pound_init r).
Definition set_ctx_sid (v : string) (r : SSL_CTX) : SSL_CTX :=
  mk_ssl_ctx (ctx_server r) (ctx_cert_chain r) (ctx_private_key r) (ctx_verify_mode r) (ctx_verify_cb r) (ctx_verify_depth r) (ctx_mode r) (ctx_options r) (ctx_ciphers r) (ctx_client_CA r) (ctx_verify_locations r) (ctx_crl r) (ctx_store_flags r) v (ctx_app_data r) (ctx_sni_cb r) (ctx_info_cb r) (ctx_pound_init r).
Definition set_ctx_app_data (v : bool) (r : SSL_CTX) : SSL_CTX :=
  mk_ssl_ctx (ctx_server r) (ctx_cert_chain r) (ctx_private_key r) (ctx_verify_mode r) (ctx_verify_cb r) (ctx_verify_depth r) (ctx_mode r) (ctx_options r) (ctx_ciphers r) (ctx_client_CA r) (ctx_verify_locations r) (ctx_crl r) (ctx_store_flags r) (ctx_sid r) v (ctx_sni_cb r) (ctx_info_cb r) (ctx_pound_init r).
Definition set_ctx_sni_cb (v : bool) (r : SSL_CTX) : SSL_CTX :=
  mk_ssl_ctx (ctx_server r) (ctx_cert_chain r) (ctx_private_key r) (ctx_verify_mode r) (ctx_verify_cb r) (ctx_verify_depth r) (ctx_mode r) (ctx_options r) (ctx_ciphers r) (ctx_client_CA r) (ctx_verify_locations r) (ctx_crl r) (ctx_store_flags r) (ctx_sid r) (ctx_app_data r) v (ctx_info_cb r) (ctx_pound_init r).
Definition set_ctx_info_cb (v : bool) (r : SSL_CTX) : SSL_CTX :=
  mk_ssl_ctx (ctx_server r) (ctx_cert_chain r) (ctx_private_key r) (ctx_verify_mode r) (ctx_verify_cb r) (ctx_verify_depth r) (ctx_mode r) (ctx_options r) (ctx_ciphers r) (ctx_client_CA r) (ctx_verify_locations r) (ctx_crl r) (ctx_store_flags r) (ctx_sid r) (ctx_app_data r) (ctx_sni_cb r) v (ctx_pound_init r).
Definition set_ctx_pound_init (v : bool) (r : SSL_CTX) : SSL_CTX :=
  mk_ssl_ctx (ctx_server r) (ctx_cert_chain r) (ctx_private_key r) (ctx_verify_mode r) (ctx_verify_cb r) (ctx_verify_depth r) (ctx_mode r) (ctx_options r) (ctx_ciphers r) (ctx_client_CA r) (ctx_verify_locations r) (ctx_crl r) (ctx_store_flags r) (ctx_sid r) (ctx_app_data r) (ctx_sni_cb r) (ctx_info_cb r) v.
Definition set_be_type (v : BE_TYPE) (r : BACKEND) : BACKEND :=
  mk_backend v (addr r) (priority r) (to r) (conn_to r) (ws_to r) (ha_addr r) (url r) (redir_code r) (redir_req r) (alive r) (disabled r) (ctx r).
Definition set_addr (v : addrinfo) (r : BACKEND) : BACKEND :=
  mk_backend (be_type r) v (priority r) (to r) (conn_to r) (ws_to r) (ha_addr r) (url r) (redir_code r) (redir_req r) (alive r) (disabled r) (ctx r).
Definition set_priority (v : Z) (r : BACKEND) : BACKEND :=
  mk_backend (be_type r) (addr r) v (to r) (conn_to r) (ws_to r) (ha_addr r) (url r) (redir_code r) (redir_req r) (alive r) (disabled r) (ctx r).
Definition set_to (v : Z) (r : BACKEND) : BACKEND :=
  mk_backend (be_type r) (addr r) (priority r) v (conn_to r) (ws_to r) (ha_addr r) (url r) (redir_code r) (redir_req r) (alive r) (disabled r) (ctx r).
Definition set_conn_to (v : Z) (r : BACKEND) : BACKEND :=
  mk_backend (be_type r) (addr r) (priority r) (to r) v (ws_to r) (ha_addr r) (url r) (redir_code r) (redir_req r) (alive r) (disabled r) (ctx r).
Definition set_ws_to (v : Z) (r : BACKEND) : BACKEND :=
  mk_backend (be_type r) (addr r) (priority r) (to r) (conn_to r) v (ha_addr r) (url r) (redir_code r) (redir_req r) (alive r) (disabled r) (ctx r).
Definition set_ha_addr (v : addrinfo) (r : BACKEND) : BACKEND :=
  mk_backend (be_type r) (addr r) (priority r) (to r) (conn_to r) (ws_to r) v (url r) (redir_code r) (redir_req r) (alive r) (disabled r) (ctx r).
Definition set_url (v : option string) (r : BACKEND) : BACKEND :=
  mk_backend (be_type r) (addr r) (priority r) (to r) (conn_to r) (ws_to r) (ha_addr r) v (redir_code r) (redir_req r) (alive r) (disabled r) (ctx r).
Definition set_redir_code (v : Z) (r : BACKEND) : BACKEND :=
  mk_backend (be_type r) (addr r) (priority r) (to r) (conn_to r) (ws_to r) (ha_addr r) (url r) v (redir_req r) (alive r) (disabled r) (ctx r).
Definition set_redir_req (v : Z) (r : BACKEND) : BACKEND :=
  mk_backend (be_type r) (addr r) (priority r) (to r) (conn_to r) (ws_to r) (ha_addr r) (url r) (redir_code r) v (alive r) (disabled r) (ctx r).
Definition set_alive (v : Z) (r : BACKEND) : BACKEND :=
  mk_backend (be_type r) (addr r) (priority r) (to r) (conn_to r) (ws_to r) (ha_addr r) (url r) (redir_code r) (redir_req r) v (disabled r) (ctx r).
Definition set_disabled (v : Z) (r : BACKEND) : BACKEND :=
  mk_backend (be_type r) (addr r) (priority r) (to r) (conn_to r) (ws_to r) (ha_addr r) (url r) (redir_code r) (redir_req r) (alive r) v (ctx r).
Definition set_ctx (v : option SSL_CTX) (r : BACKEND) : BACKEND :=
  mk_backend (be_type r) (addr r) (priority r) (to r) (conn_to r) (ws_to r) (ha_addr r) (url r) (redir_code r) (redir_req r) (alive r) (disabled r) v.
Definition set_name (v : string) (r : SERVICE) : SERVICE :=
  mk_service v (svc_url r) (req_head r) (deny_head r) (backends r) (emergency r) (abs_pri r) (tot_pri r) (sess_type r) (sess_ttl r) (sess_start r) (sess_pat r) (svc_disabled r).
Definition set_svc_url (v : list MATCHER) (r : SERVICE) : SERVICE :=
  mk_service (name r) v (req_head r) (deny_head r) (backends r) (emergency r) (abs_pri r) (tot_pri r) (sess_type r) (sess_ttl r) (sess_start r) (sess_pat r) (svc_disabled r).
Definition set_req_head (v : list MATCHER) (r : SERVICE) : SERVICE :=
  mk_service (name r) (svc_url r) v (deny_head r) (backends r) (emergency r) (abs_pri r) (tot_pri r) (sess_type r) (sess_ttl r) (sess_start r) (sess_pat r) (svc_disabled r).
Definition set_deny_head (v : list MATCHER) (r : SERVICE) : SERVICE :=
  mk_service (name r) (svc_url r) (req_head r) v (backends r) (emergency r) (abs_pri r) (tot_pri r) (sess_type r) (sess_ttl r) (sess_start r) (sess_pat r) (svc_disabled r).
Definition set_backends (v : list BACKEND) (r : SERVICE) : SERVICE :=
  mk_service (name r) (svc_url r) (req_head r) (deny_head r) v (emergency r) (abs_pri r) (tot_pri r) (sess_type r) (sess_ttl r) (sess_start r) (sess_pat r) (svc_disabled r).
Definition set_emergency (v : option BACKEND) (r : SERVICE) : SERVICE :=
  mk_service (name r) (svc_url r) (req_head r) (deny_head r) (backends r) v (abs_pri r) (tot_pri r) (sess_type r) (sess_ttl r) (sess_start r) (sess_pat r) (svc_disabled r).
Definition set_abs_pri (v : Z) (r : SERVICE) : SERVICE :=
  mk_service (name r) (svc_url r) (req_head r) (deny_head r) (backends r) (emergency r) v (tot_pri r) (sess_type r) (sess_ttl r) (sess_start r) (sess_pat r) (svc_disabled r).
Definition set_tot_pri (v : Z) (r : SERVICE) : SERVICE :=
  mk_service (name r) (svc_url r) (req_head r) (deny_head r) (backends r) (emergency r) (abs_pri r) v (sess_type r) (sess_ttl r) (sess_start r) (sess_pat r) (svc_disabled r).
Definition set_sess_type (v : SESS_TYPE) (r : SERVICE) : SERVICE :=
  mk_service (name r) (svc_url r) (req_head r) (deny_head r) (backends r) (emergency r) (abs_pri r) (tot_pri r) v (sess_ttl r) (sess_start r) (sess_pat r) (svc_disabled r).
Definition set_sess_ttl (v : Z) (r : SERVICE) : SERVICE :=
  mk_service (name r) (svc_url r) (req_head r) (deny_head r) (backends r) (emergency r) (abs_pri r) (tot_pri r) (sess_type r) v (sess_start r) (sess_pat r) (svc_disabled r).
Definition set_sess_start (v : regex_t) (r : SERVICE) : SERVICE :=
  mk_service (name r) (svc_url r) (req_head r) (deny_head r) (backends r) (emergency r) (abs_pri r) (tot_pri r) (sess_type r) (sess_ttl r) v (sess_pat r) (svc_disabled r).
Definition set_sess_pat (v : regex_t) (r : SERVICE) : SERVICE :=
  mk_service (name r) (svc_url r) (req_head r) (deny_head r) (backends r) (emergency r) (abs_pri r) (tot_pri r) (sess_type r) (sess_ttl r) (sess_start r) v (svc_disabled r).
Definition set_svc_disabled (v : Z) (r : SERVICE) : SERVICE :=
  mk_service (name r) (svc_url r) (req_head r) (deny_head r) (backends r) (emergency r) (abs_pri r) (tot_pri r) (sess_type r) (sess_ttl r) (sess_start r) (sess_pat r) v.
Definition set_pc_ctx (v : SSL_CTX) (r : POUND_CTX) : POUND_CTX :=
  mk_pound_ctx v (server_name r) (subjectAltNames r).
Definition set_l_addr (v : addrinfo) (r : LISTENER) : LISTENER :=
  mk_listener v (sock r) (ctx_head r) (clnt_check r) (noHTTPS11 r) (add_head r) (verb r) (l_to r) (has_pat r) (url_pat r) (err404 r) (err413 r) (err414 r) (err500 r) (err501 r) (err503 r) (max_req r) (head_off r) (rewr_loc r) (rewr_dest r) (l_log_level r) (allow_client_reneg r) (ssl_op_enable r) (ssl_op_disable r) (has_other r) (services r).
Definition set_sock (v : Z) (r : LISTENER) : LISTENER :=
  mk_listener (l_addr r) v (ctx_head r) (clnt_check r) (noHTTPS11 r) (add_head r) (verb r) (l_to r) (has_pat r) (url_pat r) (err404 r) (err413 r) (err414 r) (err500 r) (err501 r) (err503 r) (max_req r) (head_off r) (rewr_loc r) (rewr_dest r) (l_log_level r) (allow_client_reneg r) (ssl_op_enable r) (ssl_op_disable r) (has_other r) (services r).
Definition set_ctx_head (v : list POUND_CTX) (r : LISTENER) : LISTENER :=
  mk_listener (l_addr r) (sock r) v (clnt_check r) (noHTTPS11 r) (add_head r) (verb r) (l_to r) (has_pat r) (url_pat r) (err404 r) (err413 r) (err414 r) (err500 r) (err501 r) (err503 r) (max_req r) (head_off r) (rewr_loc r) (rewr_dest r) (l_log_level r) (allow_client_reneg r) (ssl_op_enable r) (ssl_op_disable r) (has_other r) (services r).
Definition set_clnt_check (v : Z) (r : LISTENER) : LISTENER :=
  mk_listener (l_addr r) (sock r) (ctx_head r) v (noHTTPS11 r) (add_head r) (verb r) (l_to r) (has_pat r) (url_pat r) (err404 r) (err413 r) (err414 r) (err500 r) (err501 r) (err503 r) (max_req r) (head_off r) (rewr_loc r) (rewr_dest r) (l_log_level r) (allow_client_reneg r) (ssl_op_enable r) (ssl_op_disable r) (has_other r) (services r).
Definition set_noHTTPS11 (v : Z) (r : LISTENER) : LISTENER :=
  mk_listener (l_addr r) (sock r) (ctx_head r) (clnt_check r) v (add_head r) (verb r) (l_to r) (has_pat r) (url_pat r) (err404 r) (err413 r) (err414 r) (err500 r) (err501 r) (err503 r) (max_req r) (head_off r) (rewr_loc r) (rewr_dest r) (l_log_level r) (allow_client_reneg r) (ssl_op_enable r) (ssl_op_disable r) (has_other r) (services r).
Definition set_add_head (v : option string) (r : LISTENER) : LISTENER :=
  mk_listener (l_addr r) (sock r) (ctx_head r) (clnt_check r) (noHTTPS11 r) v (verb r) (l_to r) (has_pat r) (url_pat r) (err404 r) (err413 r) (err414 r) (err500 r) (err501 r) (err503 r) (max_req r) (head_off r) (rewr_loc r) (rewr_dest r) (l_log_level r) (allow_client_reneg r) (ssl_op_enable r) (ssl_op_disable r) (has_other r) (services r).
Definition set_verb (v : regex_t) (r : LISTENER) : LISTENER :=
  mk_listener (l_addr r) (sock r) (ctx_head r) (clnt_check r) (noHTTPS11 r) (add_head r) v (l_to r) (has_pat r) (url_pat r) (err404 r) (err413 r) (err414 r) (err500 r) (err501 r) (err503 r) (max_req r) (head_off r) (rewr_loc r) (rewr_dest r) (l_log_level r) (allow_client_reneg r) (ssl_op_enable r) (ssl_op_disable r) (has_other r) (services r).
Definition set_l_to (v : Z) (r : LISTENER) : LISTENER :=
  mk_listener (l_addr r) (sock r) (ctx_head r) (clnt_check r) (noHTTPS11 r) (add_head r) (verb r) v (has_pat r) (url_pat r) (err404 r) (err413 r) (err414 r) (err500 r) (err501 r) (err503 r) (max_req r) (head_off r) (rewr_loc r) (rewr_dest r) (l_log_level r) (allow_client_reneg r) (ssl_op_enable r) (ssl_op_disable r) (has_other r) (services r).
Definition set_has_pat (v : Z) (r : LISTENER) : LISTENER :=
  mk_listener (l_addr r) (sock r) (ctx_head r) (clnt_check r) (noHTTPS11 r) (add_head r) (verb r) (l_to r) v (url_pat r) (err404 r) (err413 r) (err414 r) (err500 r) (err501 r) (err503 r) (max_req r) (head_off r) (rewr_loc r) (rewr_dest r) (l_log_level r) (allow_client_reneg r) (ssl_op_enable r) (ssl_op_disable r) (has_other r) (services r).
Definition set_url_pat (v : regex_t) (r : LISTENER) : LISTENER :=
  mk_listener (l_addr r) (sock r) (ctx_head r) (clnt_check r) (noHTTPS11 r) (add_head r) (verb r) (l_to r) (has_pat r) v (err404 r) (err413 r) (err414 r) (err500 r) (err501 r) (err503 r) (max_req r) (head_off r) (rewr_loc r) (rewr_dest r) (l_log_level r) (allow_client_reneg r) (ssl_op_enable r) (ssl_op_disable r) (has_other r) (services r).
Definition set_err404 (v : string) (r : LISTENER) : LISTENER :=
  mk_listener (l_addr r) (sock r) (ctx_head r) (clnt_check r) (noHTTPS11 r) (add_head r) (verb r) (l_to r) (has_pat r) (url_pat r) v (err413 r) (err414 r) (err500 r) (err501 r) (err503 r) (max_req r) (head_off r) (rewr_loc r) (rewr_dest r) (l_log_level r) (allow_client_reneg r) (ssl_op_enable r) (ssl_op_disable r) (has_other r) (services r).
Definition set_err413 (v : string) (r : LISTENER) : LISTENER :=
  mk_listener (l_addr r) (sock r) (ctx_head r) (clnt_check r) (noHTTPS11 r) (add_head r) (verb r) (l_to r) (has_pat r) (url_pat r) (err404 r) v (err414 r) (err500 r) (err501 r) (err503 r) (max_req r) (head_off r) (rewr_loc r) (rewr_dest r) (l_log_level r) (allow_client_reneg r) (ssl_op_enable r) (ssl_op_disable r) (has_other r) (services r).
Definition set_err414 (v : string) (r : LISTENER) : LISTENER :=
  mk_listener (l_addr r) (sock r) (ctx_head r) (clnt_check r) (noHTTPS11 r) (add_head r) (verb r) (l_to r) (has_pat r) (url_pat r) (err404 r) (err413 r) v (err500 r) (err501 r) (err503 r) (max_req r) (head_off r) (rewr_loc r) (rewr_dest r) (l_log_level r) (allow_client_reneg r) (ssl_op_enable r) (ssl_op_disable r) (has_other r) (services r).
Definition set_err500 (v : string) (r : LISTENER) : LISTENER :=
  mk_listener (l_addr r) (sock r) (ctx_head r) (clnt_check r) (noHTTPS11 r) (add_head r) (verb r) (l_to r) (has_pat r) (url_pat r) (err404 r) (err413 r) (err414 r) v (err501 r) (err503 r) (max_req r) (head_off r) (rewr_loc r) (rewr_dest r) (l_log_level r) (allow_client_reneg r) (ssl_op_enable r) (ssl_op_disable r) (has_other r) (services r).
Definition set_err501 (v : string) (r : LISTENER) : LISTENER :=
  mk_listener (l_addr r) (sock r) (ctx_head r) (clnt_check r) (noHTTPS11 r) (add_head r) (verb r) (l_to r) (has_pat r) (url_pat r) (err404 r) (err413 r) (err414 r) (err500 r) v (err503 r) (max_req r) (head_off r) (rewr_loc r) (rewr_dest r) (l_log_level r) (allow_client_reneg r) (ssl_op_enable r) (ssl_op_disable r) (has_other r) (services r).
Definition set_err503 (v : string) (r : LISTENER) : LISTENER :=
  mk_listener (l_addr r) (sock r) (ctx_head r) (clnt_check r) (noHTTPS11 r) (add_head r) (verb r) (l_to r) (has_pat r) (url_pat r) (err404 r) (err413 r) (err414 r) (err500 r) (err501 r) v (max_req r) (head_off r) (rewr_loc r) (rewr_dest r) (l_log_level r) (allow_client_reneg r) (ssl_op_enable r) (ssl_op_disable r) (has_other r) (services r).
Definition set_max_req (v : Z) (r : LISTENER) : LISTENER :=
  mk_listener (l_addr r) (sock r) (ctx_head r) (clnt_check r) (noHTTPS11 r) (add_head r) (verb r) (l_to r) (has_pat r) (url_pat r) (err404 r) (err413 r) (err414 r) (err500 r) (err501 r) (err503 r) v (head_off r) (rewr_loc r) (rewr_dest r) (l_log_level r) (allow_client_reneg r) (ssl_op_enable r) (ssl_op_disable r) (has_other r) (services r).
Definition set_head_off (v : list MATCHER) (r : LISTENER) : LISTENER :=
  mk_listener (l_addr r) (sock r) (ctx_head r) (clnt_check r) (noHTTPS11 r) (add_head r) (verb r) (l_to r) (has_pat r) (url_pat r) (err404 r) (err413 r) (err414 r) (err500 r) (err501 r) (err503 r) (max_req r) v (rewr_loc r) (rewr_dest r) (l_log_level r) (allow_client_reneg r) (ssl_op_enable r) (ssl_op_disable r) (has_other r) (services r).
Definition set_rewr_loc (v : Z) (r : LISTENER) : LISTENER :=
  mk_listener (l_addr r) (sock r) (ctx_head r) (clnt_check r) (noHTTPS11 r) (add_head r) (verb r) (l_to r) (has_pat r) (url_pat r) (err404 r) (err413 r) (err414 r) (err500 r) (err501 r) (err503 r) (max_req r) (head_off r) v (rewr_dest r) (l_log_level r) (allow_client_reneg r) (ssl_op_enable r) (ssl_op_disable r) (has_other r) (services r).
Definition set_rewr_dest (v : Z) (r : LISTENER) : LISTENER :=
  mk_listener (l_addr r) (sock r) (ctx_head r) (clnt_check r) (noHTTPS11 r) (add_head r) (verb r) (l_to r) (has_pat r) (url_pat r) (err404 r) (err413 r) (err414 r) (err500 r) (err501 r) (err503 r) (max_req r) (head_off r) (rewr_loc r) v (l_log_level r) (allow_client_reneg r) (ssl_op_enable r) (ssl_op_disable r) (has_other r) (services r).
Definition set_l_log_level (v : Z) (r : LISTENER) : LISTENER :=
  mk_listener (l_addr r) (sock r) (ctx_head r) (clnt_check r) (noHTTPS11 r) (add_head r) (verb r) (l_to r) (has_pat r) (url_pat r) (err404 r) (err413 r) (err414 r) (err500 r) (err501 r) (err503 r) (max_req r) (head_off r) (rewr_loc r) (rewr_dest r) v (allow_client_reneg r) (ssl_op_enable r) (ssl_op_disable r) (has_other r) (services r).
Definition set_allow_client_reneg (v : Z) (r : LISTENER) : LISTENER :=
  mk_listener (l_addr r) (sock r) (ctx_head r) (clnt_check r) (noHTTPS11 r) (add_head r) (verb r) (l_to r) (has_pat r) (url_pat r) (err404 r) (err413 r) (err414 r) (err500 r) (err501 r) (err503 r) (max_req r) (head_off r) (rewr_loc r) (rewr_dest r) (l_log_level r) v (ssl_op_enable r) (ssl_op_disable r) (has_other r) (services r).
Definition set_ssl_op_enable (v : Z) (r : LISTENER) : LISTENER :=
  mk_listener (l_addr r) (sock r) (ctx_head r) (clnt_check r) (noHTTPS11 r) (add_head r) (verb r) (l_to r) (has_pat r) (url_pat r) (err404 r) (err413 r) (err414 r) (err500 r) (err501 r) (err503 r) (max_req r) (head_off r) (rewr_loc r) (rewr_dest r) (l_log_level r) (allow_client_reneg r) v (ssl_op_disable r) (has_other r) (services r).
Definition set_ssl_op_disable (v : Z) (r : LISTENER) : LISTENER :=
  mk_listener (l_addr r) (sock r) (ctx_head r) (clnt_check r) (noHTTPS11 r) (add_head r) (verb r) (l_to r) (has_pat r) (url_pat r) (err404 r) (err413 r) (err414 r) (err500 r) (err501 r) (err503 r) (max_req r) (head_off r) (rewr_loc r) (rewr_dest r) (l_log_level r) (allow_client_reneg r) (ssl_op_enable r) v (has_other r) (services r).
Definition set_has_other (v : Z) (r : LISTENER) : LISTENER :=
  mk_listener (l_addr r) (sock r) (ctx_head r) (clnt_check r) (noHTTPS11 r) (add_head r) (verb r) (l_to r) (has_pat r) (url_pat r) (err404 r) (err413 r) (err414 r) (err500 r) (err501 r) (err503 r) (max_req r) (head_off r) (rewr_loc r) (rewr_dest r) (l_log_level r) (allow_client_reneg r) (ssl_op_enable r) (ssl_op_disable r) v (services r).
Definition set_services (v : list SERVICE) (r : LISTENER) : LISTENER :=
  mk_listener (l_addr r) (sock r) (ctx_head r) (clnt_check r) (noHTTPS11 r) (add_head r) (verb r) (l_to r) (has_pat r) (url_pat r) (err404 r) (err413 r) (err414 r) (err500 r) (err501 r) (err503 r) (max_req r) (head_off r) (rewr_loc r) (rewr_dest r) (l_log_level r) (allow_client_reneg r) (ssl_op_enable r) (ssl_op_disable r) (has_other r) v.
Definition set_log_level (v : Z) (r : POUND_DEFAULTS) : POUND_DEFAULTS :=
  mk_defaults v (facility r) (clnt_to r) (be_to r) (dfl_ws_to r) (be_connto r) (ignore_case r).
Definition set_facility (v : Z) (r : POUND_DEFAULTS) : POUND_DEFAULTS :=
  mk_defaults (log_level r) v (clnt_to r) (be_to r) (dfl_ws_to r) (be_connto r) (ignore_case r).
Definition set_clnt_to (v : Z) (r : POUND_DEFAULTS) : POUND_DEFAULTS :=
  mk_defaults (log_level r) (facility r) v (be_to r) (dfl_ws_to r) (be_connto r) (ignore_case r).
Definition set_be_to (v : Z) (r : POUND_DEFAULTS) : POUND_DEFAULTS :=
  mk_defaults (log_level r) (facility r) (clnt_to r) v (dfl_ws_to r) (be_connto r) (ignore_case r).
Definition set_dfl_ws_to (v : Z) (r : POUND_DEFAULTS) : POUND_DEFAULTS :=
  mk_defaults (log_level r) (facility r) (clnt_to r) (be_to r) v (be_connto r) (ignore_case r).
Definition set_be_connto (v : Z) (r : POUND_DEFAULTS) : POUND_DEFAULTS :=
  mk_defaults (log_level r) (facility r) (clnt_to r) (be_to r) (dfl_ws_to r) v (ignore_case r).
Definition set_ignore_case (v : Z) (r : POUND_DEFAULTS) : POUND_DEFAULTS :=
  mk_defaults (log_level r) (facility r) (clnt_to r) (be_to r) (dfl_ws_to r) (be_connto r) v.
Definition set_user (v : option string) (r : globals) : globals :=
  mk_globals v (group r) (root_jail r) (ctrl_name r) (daemonize r) (enable_supervisor r) (anonymise r) (numthreads r) (grace r) (alive_to r) (g_services r) (g_listeners r) (log_facility r).
Definition set_group (v : option string) (r : globals) : globals :=
  mk_globals (user r) v (root_jail r) (ctrl_name r) (daemonize r) (enable_supervisor r) (anonymise r) (numthreads r) (grace r) (alive_to r) (g_services r) (g_listeners r) (log_facility r).
Definition set_root_jail (v : option string) (r : globals) : globals :=
  mk_globals (user r) (group r) v (ctrl_name r) (daemonize r) (enable_supervisor r) (anonymise r) (numthreads r) (grace r) (alive_to r) (g_services r) (g_listeners r) (log_facility r).
Definition set_ctrl_name (v : option string) (r : globals) : globals :=
  mk_globals (user r) (group r) (root_jail r) v (daemonize r) (enable_supervisor r) (anonymise r) (numthreads r) (grace r) (alive_to r) (g_services r) (g_listeners r) (log_facility r).
Definition set_daemonize (v : Z) (r : globals) : globals :=
  mk_globals (user r) (group r) (root_jail r) (ctrl_name r) v (enable_supervisor r) (anonymise r) (numthreads r) (grace r) (alive_to r) (g_services r) (g_listeners r) (log_facility r).
Definition set_enable_supervisor (v : Z) (r : globals) : globals :=
  mk_globals (user r) (group r) (root_jail r) (ctrl_name r) (daemonize r) v (anonymise r) (numthreads r) (grace r) (alive_to r) (g_services r) (g_listeners r) (log_facility r).
Definition set_anonymise (v : Z) (r : globals) : globals :=
  mk_globals (user r) (group r) (root_jail r) (ctrl_name r) (daemonize r) (enable_supervisor r) v (numthreads r) (grace r) (alive_to r) (g_services r) (g_listeners r) (log_facility r).
Definition set_numthreads (v : Z) (r : globals) : globals :=
  mk_globals (user r) (group r) (root_jail r) (ctrl_name r) (daemonize r) (enable_supervisor r) (anonymise r) v (grace r) (alive_to r) (g_services r) (g_listeners r) (log_facility r).
Definition set_grace (v : Z) (r : globals) : globals :=
  mk_globals (user r) (group r) (root_jail r) (ctrl_name r) (daemonize r) (enable_supervisor r) (anonymise r) (numthreads r) v (alive_to r) (g_services r) (g_listeners r) (log_facility r).
Definition set_alive_to (v : Z) (r : globals) : globals :=
  mk_globals (user r) (group r) (root_jail r) (ctrl_name r) (daemonize r) (enable_supervisor r) (anonymise r) (numthreads r) (grace r) v (g_services r) (g_listeners r) (log_facility r).
Definition set_g_services (v : list SERVICE) (r : globals) : globals :=
  mk_globals (user r) (group r) (root_jail r) (ctrl_name r) (daemonize r) (enable_supervisor r) (anonymise r) (numthreads r) (grace r) (alive_to r) v (g_listeners r) (log_facility r).
Definition set_g_listeners (v : list LISTENER) (r : globals) : globals :=
  mk_globals (user r) (group r) (root_jail r) (ctrl_name r) (daemonize r) (enable_supervisor r) (anonymise r) (numthreads r) (grace r) (alive_to r) (g_services r) v (log_facility r).
Definition set_log_facility (v : Z) (r : globals) : globals :=
  mk_globals (user r) (group r) (root_jail r) (ctrl_name r) (daemonize r) (enable_supervisor r) (anonymise r) (numthreads r) (grace r) (alive_to r) (g_services r) (g_listeners r) v.
Definition set_cur_input (v : list input) (r : state) : state :=
  mk_state v (name_list r) (feature_dns r) (glob r) (log r) (rand_calls r).
Definition set_name_list (v : list string) (r : state) : state :=
  mk_state (cur_input r) v (feature_dns r) (glob r) (log r) (rand_calls r).
Definition set_feature_dns (v : Z) (r : state) : state :=
  mk_state (cur_input r) (name_list r) v (glob r) (log r) (rand_calls r).
Definition set_glob (v : globals) (r : state) : state :=
  mk_state (cur_input r) (name_list r) (feature_dns r) v (log r) (rand_calls r).
Definition set_log (v : list (Z * string)) (r : state) : state :=
  mk_state (cur_input r) (name_list r) (feature_dns r) (glob r) v (rand_calls r).
Definition set_rand_calls (v : nat) (r : state) : state :=
  mk_state (cur_input r) (name_list r) (feature_dns r) (glob r) (log r) v.

(** ** Memory

    [mem2nrealloc] computes the new number of elements of a block; the
    block itself is known by whether its pointer is NULL, and [realloc]
    by whether it succeeds for a size.  [size_t] has 64 bits, and its
    arithmetic wraps around. *)

Definition SIZE_MAX : Z := 18446744073709551615.

Definition to_size (n : Z) : Z := n mod (SIZE_MAX + 1).

Definition DEFAULT_MXFAST : Z := 64.

(** What [mem2nrealloc] does: it divides by an element size of 0, or
    returns NULL and leaves [*pn], or returns the block and stores the new
    number of elements. *)
Inductive realloc_result :=
| Division_by_zero
| Null
| Block (n : Z).

Definition mem2nrealloc (p_is_null : bool) (n s : Z) (realloc : Z -> bool)
  : realloc_result :=
  let grown :=
    if p_is_null then
      if n =? 0 then
        if s =? 0 then inl Division_by_zero
        else
          let n := DEFAULT_MXFAST / s in
          inr (to_size (n + (if n =? 0 then 1 else 0)))
      else inr n
    else
      if s =? 0 then inl Division_by_zero
      else if SIZE_MAX / 3 * 2 / s <=? n then inl Null
      else inr (to_size (n + to_size (n + 1) / 2)) in
  match grown with
  | inl r => r
  | inr n => if realloc (to_size (n * s)) then Block n else Null
  end.

(** ** Diagnostics *)

(** <syslog.h> *)
Definition LOG_CRIT : Z := 2.
Definition LOG_ERR : Z := 3.
Definition LOG_INFO : Z := 6.
Definition LOG_DEBUG : Z := 7.

Definition logmsg (prio : Z) (text : string) (st : state) : state :=
  set_log (log st ++ [(prio, text)]) st.

(** The [stringbuf_format_*] functions return what they append. *)
Definition stringbuf_format_locus_point (loc : locus_point) : string :=
  fmt_s (filename loc) ++ ":" ++ fmt_d (line loc)
  ++ (if col loc =? 0 then "" else "." ++ fmt_d (col loc)).

Definition opt_string_eqb (a b : option string) : bool :=
  match a, b with
  | None, None => true
  | Some x, Some y => streq x y
  | _, _ => false
  end.

Definition same_file (a b : locus_point) : bool :=
  opt_string_eqb (filename a) (filename b).

Definition stringbuf_format_locus_range (range : locus_range) : string :=
  stringbuf_format_locus_point (beg range)
  ++ match filename (end_ range) with
     | None => ""
     | Some _ =>
         if negb (same_file (beg range) (end_ range)) then
           "-" ++ stringbuf_format_locus_point (end_ range)
         else if negb (line (beg range) =? line (end_ range)) then
           "-" ++ fmt_d (line (end_ range))
           ++ (if col (end_ range) =? 0 then ""
               else "." ++ fmt_d (col (end_ range)))
         else if negb (col (beg range) =? 0)
                 && negb (col (beg range) =? col (end_ range)) then
           "-" ++ fmt_d (col (end_ range))
         else ""
     end.

(** The line that [vconf_error_at_locus_range] hands to [logmsg]; [msg] is
    the expanded format. *)
Definition range_error_text (loc : option locus_range) (msg : string) : string :=
  match loc with
  | Some r => stringbuf_format_locus_range r ++ ": " ++ msg
  | None => msg
  end.

Definition point_error_text (loc : option locus_point) (msg : string) : string :=
  match loc with
  | Some p => stringbuf_format_locus_point p ++ ": " ++ msg
  | None => msg
  end.

Definition conf_error_at_locus_range (loc : option locus_range) (msg : string)
    (st : state) : state :=
  logmsg LOG_ERR (range_error_text loc msg) st.

Definition conf_error_at_locus_point (loc : option locus_point) (msg : string)
    (st : state) : state :=
  logmsg LOG_ERR (point_error_text loc msg) st.

(** ** The name interner *)

Definition name_alloc (nm : string) (st : state) : state :=
  set_name_list (nm :: name_list st) st.

Definition name_list_free (st : state) : state := set_name_list [] st.

(** ** Input scanner *)

Definition input_getc (inp : input) : option ascii * input :=
  match file inp with
  | [] => (None, inp)
  | c :: rest =>
      let inp := set_file rest inp in
      let l := ilocus inp in
      if Ascii.eqb c NL then
        (Some c, set_ilocus (set_col 0 (set_line (line l + 1) l))
                   (set_prev_col (col l) inp))
      else if Ascii.eqb c TAB then
        (Some c, set_ilocus (set_col (col l + 8) l) inp)
      else
        (Some c, set_ilocus (set_col (col l + 1) l) inp)
  end.

Definition input_ungetc (inp : input) (c : option ascii) : input :=
  match c with
  | None => inp
  | Some ch =>
      let inp := set_file (ch :: file inp) inp in
      let l := ilocus inp in
      if Ascii.eqb ch NL then
        set_ilocus (set_col (prev_col inp) (set_line (line l - 1) l)) inp
      else
        set_ilocus (set_col (col l - 1) l) inp
  end.

Definition is_ident_start (c : ascii) : bool := isalpha c || Ascii.eqb c "_".
Definition is_ident_cont (c : ascii) : bool := is_ident_start c || isdigit c.

Definition stringbuf_add_char (sb : string) (c : ascii) : string :=
  sb ++ String c "".

Definition add_char (c : ascii) (inp : input) : input :=
  set_buf (stringbuf_add_char (buf inp) c) inp.

Definition set_ttype (t : Z) (inp : input) : input :=
  set_itoken (mk_token t (str (itoken inp)) (locus (itoken inp))) inp.

(** [stringbuf_add_char (&input->buf, 0); input->token.str = input->buf.base] *)
Definition finish_str (inp : input) : input :=
  let inp := add_char NUL inp in
  set_itoken (mk_token (type (itoken inp)) (c_str (buf inp))
                (locus (itoken inp))) inp.

Definition set_tbeg (p : locus_point) (inp : input) : input :=
  set_itoken (mk_token (type (itoken inp)) (str (itoken inp))
                (mk_range p (end_ (locus (itoken inp))))) inp.

Definition set_tend (p : locus_point) (inp : input) : input :=
  set_itoken (mk_token (type (itoken inp)) (str (itoken inp))
                (mk_range (beg (locus (itoken inp))) p)) inp.

Definition DQUOTE : ascii := chr 34.
Definition BACKSLASH : ascii := chr 92.
Definition HASH : ascii := chr 35.

(** [while ((c = input_getc (input)) != '\n') if (c == EOF) ...]: the
    character that ended the comment, [None] being EOF. *)
Fixpoint skip_comment (n : nat) (inp : input) : option ascii * input :=
  match n with
  | O => (None, inp)
  | S n' =>
      let '(c, inp) := input_getc inp in
      match c with
      | None => (None, inp)
      | Some ch => if Ascii.eqb ch NL then (c, inp) else skip_comment n' inp
      end
  end.

(** The body of a quoted string, after the opening quote.  The flag tells
    whether the closing quote was reached; otherwise the token type has
    been set to [T_ERROR].  [errs] collects the diagnostics. *)
Fixpoint scan_string (n : nat) (inp : input) (errs : list string)
  : bool * input * list string :=
  match n with
  | O => (false, set_ttype T_ERROR inp, errs)
  | S n' =>
      let '(c, inp) := input_getc inp in
      if match c with Some ch => Ascii.eqb ch DQUOTE | None => false end
      then (true, inp, errs)
      else
        let '(c, inp, errs) :=
          if match c with Some ch => Ascii.eqb ch BACKSLASH | None => false end
          then
            let '(c2, inp) := input_getc inp in
            let known :=
              match c2 with
              | None => true
              | Some e => Ascii.eqb e DQUOTE || Ascii.eqb e BACKSLASH
              end in
            (c2, inp,
             if known then errs
             else (errs ++ [point_error_text (Some (ilocus inp))
                              "unrecognized escape character"])%list)
          else (c, inp, errs) in
        match c with
        | None =>
            (false, set_ttype T_ERROR inp,
             (errs ++ [point_error_text (Some (ilocus inp))
                         "end of file in quoted string"])%list)
        | Some ch =>
            if Ascii.eqb ch NL then
              (false, set_ttype T_ERROR inp,
               (errs ++ [point_error_text (Some (ilocus inp))
                           "end of line in quoted string"])%list)
            else scan_string n' (add_char ch inp) errs
        end
  end.

(** [do stringbuf_add_char (c); while ((c = input_getc ()) != EOF &&
    is_ident_cont (c))]: the character that stopped the loop. *)
Fixpoint scan_ident (n : nat) (c : ascii) (inp : input) : option ascii * input :=
  let inp := add_char c inp in
  match n with
  | O => (None, inp)
  | S n' =>
      let '(c2, inp) := input_getc inp in
      match c2 with
      | Some d => if is_ident_cont d then scan_ident n' d inp else (c2, inp)
      | None => (None, inp)
      end
  end.

(** The unquoted run: [do { add c; if (!isdigit (c)) type = T_LITERAL; }
    while ((c = input_getc ()) != EOF && !isspace (c))]. *)
Fixpoint scan_literal (n : nat) (c : ascii) (inp : input) : option ascii * input :=
  let inp := add_char c inp in
  let inp := if isdigit c then inp else set_ttype T_LITERAL inp in
  match n with
  | O => (None, inp)
  | S n' =>
      let '(c2, inp) := input_getc inp in
      match c2 with
      | Some d => if isspace d then (c2, inp) else scan_literal n' d inp
      | None => (None, inp)
      end
  end.

(** The [for (;;)] loop of [input_gettkn], up to the label [end]. *)
Fixpoint scan_token (n : nat) (inp : input) (errs : list string)
  : input * list string :=
  match n with
  | O => (set_ttype EOF inp, errs)
  | S n' =>
      let '(c, inp) := input_getc inp in
      match c with
      | None => (set_ttype EOF inp, errs)
      | Some ch =>
          let '(c, inp) :=
            if Ascii.eqb ch HASH
            then skip_comment (S (List.length (file inp))) inp
            else (c, inp) in
          match c with
          | None => (set_ttype EOF inp, errs)
          | Some ch =>
              if Ascii.eqb ch NL then
                let l := ilocus inp in
                let inp :=
                  set_tbeg (set_col (prev_col inp) (set_line (line l - 1) l))
                    inp in
                (set_ttype T_NEWLINE inp, errs)
              else if isspace ch then scan_token n' inp errs
              else
                let inp := set_tbeg (ilocus inp) inp in
                if Ascii.eqb ch DQUOTE then
                  let '(closed, inp, errs) :=
                    scan_string (S (List.length (file inp))) inp errs in
                  if closed
                  then (finish_str (set_ttype T_STRING inp), errs)
                  else (inp, errs)
                else
                  let ident :=
                    if is_ident_start ch then
                      let '(c2, inp) :=
                        scan_ident (S (List.length (file inp))) ch inp in
                      if match c2 with
                         | None => true
                         | Some d => isspace d
                         end
                      then inl (finish_str
                                  (set_ttype T_IDENT (input_ungetc inp c2)))
                      else inr (c2, inp)
                    else inr (c, inp) in
                  match ident with
                  | inl inp => (inp, errs)
                  | inr (Some c, inp) =>
                      let inp :=
                        set_ttype (if isdigit c then T_NUMBER else T_LITERAL)
                          inp in
                      let '(c2, inp) :=
                        scan_literal (S (List.length (file inp))) c inp in
                      (finish_str (input_ungetc inp c2), errs)
                  | inr (None, inp) => (inp, errs)
                  end
          end
      end
  end.

(** [input_gettkn]: the token type, the input afterwards (its [itoken] is
    the [*tok] of the C code) and the diagnostics issued meanwhile. *)
Definition input_gettkn (inp : input) : Z * input * list string :=
  if ready inp then
    let inp := set_ready false inp in
    (type (itoken inp), inp, [])
  else
    let inp := set_buf "" inp in
    let '(inp, errs) := scan_token (S (List.length (file inp))) inp [] in
    let inp := set_tend (ilocus inp) inp in
    (type (itoken inp), inp, errs).

Definition input_putback (inp : input) : input := set_ready true inp.

(** ** Token descriptions *)

Definition isprint_code (t : Z) : bool := (32 <=? t) && (t <=? 126).
Definition iscntrl_code (t : Z) : bool :=
  ((0 <=? t) && (t <=? 31)) || (t =? 127).

Definition octal_digit (n : Z) : ascii := chr (Z.land n 7 + 48).

Definition token_type_str (t : Z) : string :=
  if t =? T_IDENT then "identifier"
  else if t =? T_STRING then "quoted string"
  else if t =? T_NUMBER then "number"
  else if t =? T_LITERAL then "literal"
  else if t =? code NL then "end of line"
  else if t =? code TAB then "'\t'"
  else if t =? code BACKSLASH then "'\'"
  else if t =? code DQUOTE then String "'" (String DQUOTE "'")
  else if isprint_code t then String "'" (String (chr t) "'")
  else if iscntrl_code t then String "^" (String (chr (Z.lxor t 64)) "")
  else
    String BACKSLASH
      (String "0"
         (String (octal_digit (Z.shiftr t 6))
            (String (octal_digit (Z.shiftr t 3))
               (String (octal_digit t) "")))).

(** [token_mask_str]; [size] is the size of the receiving buffer. *)
Fixpoint token_mask_loop (types : list Z) (mask : TOKENMASK) (q : string)
    (size : Z) : string :=
  match types with
  | [] => q
  | i :: rest =>
      if negb (Z.land mask (T_BIT i) =? 0) then
        let mask := Z.ldiff mask (T_BIT i) in
        let room := size - 1 - strlen q in
        let sep :=
          if 0 <? strlen q then
            if negb (mask =? 0) then
              if room <=? 2 then None else Some ", "
            else
              if room <=? 4 then None else Some " or "
          else Some "" in
        match sep with
        | None => q
        | Some s =>
            let q := q ++ s in
            let q :=
              q ++ truncate (Z.to_nat (size - 1 - strlen q)) (token_type_str i) in
            token_mask_loop rest mask q size
        end
      else token_mask_loop rest mask q size
  end.

Definition MAX_TOKEN_BUF_SIZE : Z := 45.

Definition token_mask_str (mask : TOKENMASK) (size : Z) : string :=
  token_mask_loop [T_IDENT; T_NUMBER; T_STRING; T_LITERAL] mask "" size.

(** ** Keyword tables *)

Definition kwtab := list (string * Z).

(** [kw_to_tok]: [Some tok] where the C function returns 0 and stores
    [tok], [None] where it returns -1. *)
Fixpoint kw_to_tok {A : Type} (kwt : list (string * A)) (nm : string)
    (ci : bool) : option A :=
  match kwt with
  | [] => None
  | (k, v) :: rest =>
      if (if ci then strcaseeq k nm else streq k nm) then Some v
      else kw_to_tok rest nm ci
  end.

(** ** Outcomes *)

(** What a handler returns. *)
Inductive PARSER_RES := PARSER_OK | PARSER_OK_NONL | PARSER_FAIL | PARSER_END.

(** How a run of a handler ends: it returns ([Ret]); or it makes an invalid
    memory access, through a NULL or a mistyped pointer ([Fault]), which
    C leaves undefined and which normally kills the process; or the budget
    of loop iterations given to the model did not suffice ([Fuel]), which
    says nothing about the C code. *)
Inductive result (A : Type) : Type :=
| Ret (a : A)
| Fault
| Fuel.

Arguments Ret {A} a.
Arguments Fault {A}.
Arguments Fuel {A}.

(** ** The input stack *)

Section WithEnv.

Variable E : env.

Definition last_token_locus_range (st : state) : option locus_range :=
  match cur_input st with
  | i :: _ => Some (locus (itoken i))
  | [] => None
  end.

Definition current_locus_point (st : state) : option locus_point :=
  match cur_input st with
  | i :: _ => Some (ilocus i)
  | [] => None
  end.

Definition conf_error (msg : string) (st : state) : state :=
  conf_error_at_locus_range (last_token_locus_range st) msg st.

(** [input_close] returns the previous input: the rest of the stack. *)
Definition input_close (stack : list input) : list input :=
  match stack with
  | [] => []
  | _ :: prev => prev
  end.

(** [input_open]: the new input, not yet linked into the stack. *)
Definition input_open (fname : string) (s : stat_t) (st : state)
  : option input * state :=
  match fopen E fname with
  | inl err =>
      (None, logmsg LOG_ERR ("can't open " ++ fname ++ ": " ++ err) st)
  | inr content =>
      let st := name_alloc fname st in
      (Some (mk_input content (st_ino s) (st_dev s)
               (mk_point (Some fname) 1 0) 0 zero_token false ""),
       st)
  end.

(** The search loop of [push_input]: the first input on the stack with the
    given inode and device, together with its [prev]. *)
Fixpoint find_input (stack : list input) (s : stat_t)
  : option (input * option input) :=
  match stack with
  | [] => None
  | i :: prev =>
      if (ino i =? st_ino s) && (devno i =? st_dev s)
      then Some (i, hd_error prev)
      else find_input prev s
  end.

Definition push_input (fname : string) (st : state) : Z * state :=
  match stat E fname with
  | inl err => (-1, conf_error ("can't stat " ++ fname ++ ": " ++ err) st)
  | inr s =>
      match find_input (cur_input st) s with
      | Some (_, Some prev) =>
          let st := conf_error (fname ++ " already included") st in
          let st := conf_error_at_locus_point (Some (ilocus prev))
                      "here is the place of original inclusion" st in
          (-1, st)
      | Some (_, None) =>
          (-1, conf_error (fname ++ " already included (at top level)") st)
      | None =>
          match input_open fname s st with
          | (None, st) => (-1, st)
          | (Some i, st) => (0, set_cur_input (i :: cur_input st) st)
          end
      end
  end.

Definition pop_input (st : state) : state :=
  set_cur_input (input_close (cur_input st)) st.

(** [gettkn]: read from the top input, closing it and going on with the
    previous one at EOF.  The C function returns the type and passes the
    token through [*tok]; here the type is the [type] of the token
    returned.  With no input open on entry the C function does not enter
    its loop and returns its local [t], which has no value then:
    [gettkn_open] below has a fault there, and [parser_loop] calls
    [gettkn] through it.  The handlers call [gettkn] only when the loop
    has just read a token, so with an input open; for them [gettkn_loop]
    is given an EOF token as [last]. *)
Fixpoint gettkn_loop (stack : list input) (last : token)
  : token * list input * list string :=
  match stack with
  | [] => (last, [], [])
  | i :: prev =>
      let '(t, i', errs) := input_gettkn i in
      if t =? EOF then
        let '(tok, stack', errs') := gettkn_loop prev (itoken i') in
        (tok, stack', (errs ++ errs')%list)
      else (itoken i', i' :: prev, errs)
  end.

Definition log_errors (errs : list string) (st : state) : state :=
  fold_left (fun s e => logmsg LOG_ERR e s) errs st.

Definition gettkn (st : state) : token * state :=
  let '(tok, stack, errs) :=
    gettkn_loop (cur_input st) (mk_token EOF "" zero_range) in
  (tok, log_errors errs (set_cur_input stack st)).

(** [gettkn_expect_mask]: [None] is the NULL token pointer.  For a token
    type below [T__BASE] (a newline) the shift count in [T_BIT] is
    negative; no bit of [expect] is then found set. *)
Definition gettkn_expect_mask (expect : TOKENMASK) (st : state)
  : option token * state :=
  let '(tok, st) := gettkn st in
  if type tok =? EOF then (None, conf_error "unexpected end of file" st)
  else if type tok =? T_ERROR then (None, st)
  else if expect =? 0 then (Some tok, st)
  else if negb (T_MASK_ISSET expect (type tok)) then
    (None,
     conf_error ("expected " ++ token_mask_str expect MAX_TOKEN_BUF_SIZE
                 ++ ", but found " ++ token_type_str (type tok)) st)
  else (Some tok, st).

Definition gettkn_any (st : state) : option token * state :=
  gettkn_expect_mask T_ANY st.

Definition gettkn_expect (t : Z) (st : state) : option token * state :=
  gettkn_expect_mask (T_BIT t) st.

Definition putback_tkn (st : state) : state :=
  match cur_input st with
  | i :: prev => set_cur_input (input_putback i :: prev) st
  | [] => st
  end.

(** ** The section parser *)

(** A handler works on the object its table entry points at ([call_data]
    plus offset), sees the section data, and may read tokens.  Handlers of
    sections run [parser_loop] themselves and therefore take the number of
    loop iterations they may still spend. *)
Definition PARSER (T : Type) : Type :=
  nat -> T -> POUND_DEFAULTS -> state -> result (PARSER_RES * T * state).

Record PARSER_TABLE (T : Type) := mk_entry {
  pt_name : string;
  pt_parser : PARSER T
}.

(** A handler that reads no section. *)
Definition leaf {T : Type}
    (h : T -> POUND_DEFAULTS -> state -> PARSER_RES * T * state) : PARSER T :=
  fun _ t dfl st => Ret (h t dfl st).

(** An entry whose [off] selects a field of [call_data]. *)
Definition at_field {T F : Type} (get : T -> F) (set : F -> T -> T)
    (h : PARSER F) : PARSER T :=
  fun n t dfl st =>
    match h n (get t) dfl st with
    | Ret (r, f, st') => Ret (r, set f t, st')
    | Fault => Fault
    | Fuel => Fuel
    end.

(** An entry whose [data] points at a global variable. *)
Definition at_global {T F : Type} (get : globals -> F)
    (set : F -> globals -> globals) (h : PARSER F) : PARSER T :=
  fun n t dfl st =>
    match h n (get (glob st)) dfl st with
    | Ret (r, f, st') => Ret (r, t, set_glob (set f (glob st')) st')
    | Fault => Fault
    | Fuel => Fuel
    end.

Fixpoint parser_find {T : Type} (tab : list (PARSER_TABLE T)) (nm : string)
  : option (PARSER_TABLE T) :=
  match tab with
  | [] => None
  | ent :: rest =>
      if strcaseeq (pt_name ent) nm then Some ent else parser_find rest nm
  end.

Definition range_end_of (st : state) : locus_point :=
  match last_token_locus_range st with
  | Some r => end_ r
  | None => zero_point
  end.

Definition range_beg_of (st : state) : locus_point :=
  match last_token_locus_range st with
  | Some r => beg r
  | None => zero_point
  end.

(** [gettkn] as [parser_loop] calls it: a fault when no input is open
    (the value returned is that of an uninitialised variable). *)
Definition gettkn_open (st : state) : result (token * state) :=
  match cur_input st with
  | [] => Fault
  | _ :: _ => Ret (gettkn st)
  end.

(** The [for (;;)] loop of [parser_loop].  [sd] yields the section data
    from the current [call_data]: constant inside a section, the identity
    at top level, where both pointers are [&pound_defaults]. *)
Fixpoint parser_loop_iter {T : Type} (n : nat) (ptab : list (PARSER_TABLE T))
    (call_data : T) (sd : T -> POUND_DEFAULTS) (retrange : option locus_range)
    (st : state) : result (PARSER_RES * T * option locus_range * state) :=
  match n with
  | O => Fuel
  | S n' =>
      match gettkn_open st with
      | Fuel => Fuel
      | Fault => Fault
      | Ret (tok, st) =>
      if type tok =? EOF then
        match retrange with
        | Some r =>
            Ret (PARSER_FAIL, call_data, retrange,
                  conf_error_at_locus_point (Some (beg r))
                    "unexpected end of file" st)
        | None => Ret (PARSER_OK, call_data, retrange, st)
        end
      else if type tok =? T_ERROR then
        Ret (PARSER_FAIL, call_data, retrange, st)
      else
        let retrange :=
          match retrange with
          | Some r => Some (mk_range (beg r) (range_end_of st))
          | None => None
          end in
        if type tok =? T_IDENT then
          match parser_find ptab (str tok) with
          | Some ent =>
              match pt_parser ent n' call_data (sd call_data) st with
              | Fuel => Fuel
              | Fault => Fault
              | Ret (PARSER_OK, call_data, st) =>
                  match gettkn_open st with
                  | Fuel => Fuel
                  | Fault => Fault
                  | Ret (tok, st) =>
                      if type tok =? T_ERROR then
                        Ret (PARSER_FAIL, call_data, retrange, st)
                      else if negb (type tok =? T_NEWLINE)
                              && negb (type tok =? EOF) then
                        Ret (PARSER_FAIL, call_data, retrange,
                              conf_error
                                ("unexpected " ++ token_type_str (type tok))
                                st)
                      else parser_loop_iter n' ptab call_data sd retrange st
                  end
              | Ret (PARSER_OK_NONL, call_data, st) =>
                  parser_loop_iter n' ptab call_data sd retrange st
              | Ret (PARSER_FAIL, call_data, st) =>
                  Ret (PARSER_FAIL, call_data, retrange, st)
              | Ret (PARSER_END, call_data, st) =>
                  Ret (PARSER_OK, call_data, retrange, st)
              end
          | None =>
              Ret (PARSER_FAIL, call_data, retrange,
                    conf_error_at_locus_range (Some (locus tok))
                      "unrecognized keyword" st)
          end
        else if type tok =? T_NEWLINE then
          parser_loop_iter n' ptab call_data sd retrange st
        else
          parser_loop_iter n' ptab call_data sd retrange
            (conf_error_at_locus_range (Some (locus tok)) "syntax error" st)
      end
  end.

(** [parser_loop]: [retrange] is [None] for a NULL pointer, otherwise the
    value the caller's range variable holds on entry. *)
Definition parser_loop {T : Type} (n : nat) (ptab : list (PARSER_TABLE T))
    (call_data : T) (sd : T -> POUND_DEFAULTS) (retrange : option locus_range)
    (st : state) : result (PARSER_RES * T * option locus_range * state) :=
  let retrange :=
    match retrange with
    | Some r => Some (mk_range (range_beg_of st) (end_ r))
    | None => None
    end in
  parser_loop_iter n ptab call_data sd retrange st.

(** ** Value parsers *)

Definition leaf0 {T : Type} (h : T -> state -> PARSER_RES * T * state)
  : PARSER T :=
  leaf (fun t _ st => h t st).

(** A handler that does not touch [call_data]. *)
Definition leaf_nodata {T : Type} (h : state -> PARSER_RES * state) : PARSER T :=
  leaf (fun t _ st => let '(r, st) := h st in (r, t, st)).

Definition parse_include (st : state) : PARSER_RES * state :=
  match gettkn_expect T_STRING st with
  | (None, st) => (PARSER_FAIL, st)
  | (Some tok, st) =>
      let '(rc, st) := push_input (str tok) st in
      if negb (rc =? 0) then (PARSER_FAIL, st) else (PARSER_OK_NONL, st)
  end.

Definition parse_end (st : state) : PARSER_RES * state := (PARSER_END, st).

Definition int_set_one (call_data : Z) (st : state) : PARSER_RES * Z * state :=
  (PARSER_OK, 1, st).

Definition assign_string (call_data : option string) (st : state)
  : PARSER_RES * option string * state :=
  match gettkn_expect T_STRING st with
  | (None, st) => (PARSER_FAIL, call_data, st)
  | (Some tok, st) => (PARSER_OK, Some (str tok), st)
  end.

Definition string_of_bytes (l : list ascii) : string := string_of_list_ascii l.

(** [fread (s, st.st_size, 1, fp)] returns 1 when it got one item of
    [st_size] bytes; an item of size zero is never counted. *)
Definition assign_string_from_file (call_data : string) (st : state)
  : PARSER_RES * string * state :=
  match gettkn_expect T_STRING st with
  | (None, st) => (PARSER_FAIL, call_data, st)
  | (Some tok, st) =>
      match stat E (str tok) with
      | inl err =>
          (PARSER_FAIL, call_data,
           conf_error ("can't stat " ++ str tok ++ ": " ++ err) st)
      | inr s =>
          match fopen E (str tok) with
          | inl err =>
              (PARSER_FAIL, call_data,
               conf_error ("can't open " ++ str tok ++ ": " ++ err) st)
          | inr content =>
              if (0 <? st_size s)
                 && (st_size s <=? Z.of_nat (List.length content))
              then
                (PARSER_OK,
                 c_str (string_of_bytes
                          (firstn (Z.to_nat (st_size s)) content)),
                 st)
              else
                (PARSER_FAIL, call_data,
                 conf_error (str tok ++ ": read error: " ++ errno_str E) st)
          end
      end
  end.

Definition assign_bool (call_data : Z) (st : state) : PARSER_RES * Z * state :=
  match gettkn_expect_mask T_UNQ st with
  | (None, st) => (PARSER_FAIL, call_data, st)
  | (Some tok, st) =>
      if streq (str tok) "1" || streq (str tok) "yes"
         || streq (str tok) "true" || streq (str tok) "on"
      then (PARSER_OK, 1, st)
      else if streq (str tok) "0" || streq (str tok) "no"
              || streq (str tok) "false" || streq (str tok) "off"
      then (PARSER_OK, 0, st)
      else
        let st := conf_error "not a boolean value" st in
        let st :=
          conf_error ("valid booleans are: " ++ "1, yes, true, on"
                      ++ " for true value, and " ++ "0, no, false, off"
                      ++ " for false value") st in
        (PARSER_FAIL, call_data, st)
  end.

Definition assign_unsigned (call_data : Z) (st : state)
  : PARSER_RES * Z * state :=
  match gettkn_expect T_NUMBER st with
  | (None, st) => (PARSER_FAIL, call_data, st)
  | (Some tok, st) =>
      let '(n, p, errno) := strtoul (str tok) in
      if errno || negb (streq p "") || (n >? UINT_MAX) then
        (PARSER_FAIL, call_data, conf_error "bad unsigned number" st)
      else (PARSER_OK, n, st)
  end.

Definition assign_int (call_data : Z) (st : state) : PARSER_RES * Z * state :=
  match gettkn_expect T_NUMBER st with
  | (None, st) => (PARSER_FAIL, call_data, st)
  | (Some tok, st) =>
      let '(n, p, errno) := strtol (str tok) in
      if errno || negb (streq p "") || (n <? INT_MIN) || (n >? INT_MAX) then
        (PARSER_FAIL, call_data, conf_error "bad integer number" st)
      else (PARSER_OK, n, st)
  end.

(** [assign_int_range (dst, min, max)]; the local [n] starts out
    indeterminate and is only read after [assign_int] has set it. *)
Definition assign_int_range (dst : Z) (min max : Z) (st : state)
  : PARSER_RES * Z * state :=
  match assign_int 0 st with
  | (PARSER_OK, n, st) =>
      if negb ((min <=? n) && (n <=? max)) then
        (PARSER_FAIL, dst,
         conf_error ("value out of allowed range (" ++ fmt_d min ++ ".."
                     ++ fmt_d max ++ ")") st)
      else (PARSER_OK, n, st)
  | (rc, _, st) => (rc, dst, st)
  end.

Definition assign_LONG (call_data : Z) (st : state) : PARSER_RES * Z * state :=
  match gettkn_expect T_NUMBER st with
  | (None, st) => (PARSER_FAIL, call_data, st)
  | (Some tok, st) =>
      let '(n, p, errno) := strtol (str tok) in
      if errno || negb (streq p "") then
        (PARSER_FAIL, call_data, conf_error "bad long number" st)
      else (PARSER_OK, n, st)
  end.

Definition assign_timeout := assign_unsigned.

(** <syslog.h> facilities. *)
Definition facility_table : kwtab :=
  [ ("auth", 32); ("authpriv", 80); ("cron", 72); ("daemon", 24);
    ("ftp", 88); ("kern", 0); ("lpr", 48); ("mail", 16); ("news", 56);
    ("syslog", 40); ("user", 8); ("uucp", 64);
    ("local0", 128); ("local1", 136); ("local2", 144); ("local3", 152);
    ("local4", 160); ("local5", 168); ("local6", 176); ("local7", 184) ].

Definition LOG_DAEMON : Z := 24.

(** [assign_log_facility] uses the token without testing the pointer that
    [gettkn_expect_mask] returned. *)
Definition assign_log_facility (call_data : Z) (st : state)
  : result (PARSER_RES * Z * state) :=
  match gettkn_expect_mask T_UNQ st with
  | (None, st) => Fault
  | (Some tok, st) =>
      if streq (str tok) "-" then Ret (PARSER_OK, -1, st)
      else
        match kw_to_tok facility_table (str tok) true with
        | None =>
            Ret (PARSER_FAIL, call_data,
                 conf_error "unknown log facility name" st)
        | Some n => Ret (PARSER_OK, n, st)
        end
  end.

Definition assign_log_level (call_data : Z) (st : state)
  : PARSER_RES * Z * state :=
  match assign_unsigned 0 st with
  | (PARSER_OK, n, st) =>
      if n >=? INT_MAX then
        (PARSER_FAIL, call_data,
         conf_error "log level out of allowed range" st)
      else (PARSER_OK, n, st)
  | (ret, _, st) => (ret, call_data, st)
  end.

(** ** Addresses and ports

    The [ai_flags] member marks which parts of an address have been set. *)
Definition ADDRINFO_SET_ADDRESS (a : addrinfo) : addrinfo :=
  set_ai_flags AI_NUMERICHOST a.
Definition ADDRINFO_HAS_ADDRESS (a : addrinfo) : bool :=
  negb (Z.land (ai_flags a) AI_NUMERICHOST =? 0).
Definition ADDRINFO_SET_PORT (a : addrinfo) : addrinfo :=
  set_ai_flags (Z.lor (ai_flags a) AI_NUMERICSERV) a.
Definition ADDRINFO_HAS_PORT (a : addrinfo) : bool :=
  negb (Z.land (ai_flags a) AI_NUMERICSERV =? 0).

(** [offsetof (struct sockaddr_un, sun_path)] *)
Definition SUN_PATH_OFFSET : Z := 2.

Definition feature_is_set (st : state) : bool := negb (feature_dns st =? 0).

Definition assign_address_internal (a : addrinfo) (tok : option token)
    (st : state) : PARSER_RES * addrinfo * state :=
  match tok with
  | None => (PARSER_FAIL, a, st)
  | Some tok =>
      if negb (type tok =? T_IDENT) && negb (type tok =? T_LITERAL)
         && negb (type tok =? T_STRING)
      then
        (PARSER_FAIL, a,
         conf_error_at_locus_range (Some (locus tok))
           ("expected hostname or IP address, but found "
            ++ token_type_str (type tok)) st)
      else
        let '(rc, a) := get_host E (str tok) a PF_UNSPEC in
        if negb (rc =? 0) then
          (* if we can't resolve it assume this is a UNIX domain socket *)
          let len := strlen (str tok) in
          if len >? UNIX_PATH_MAX (K E) then
            (PARSER_FAIL, a,
             conf_error_at_locus_range (Some (locus tok))
               "UNIX path name too long" st)
          else
            let len := len + SUN_PATH_OFFSET + 1 in
            let sun := mk_sockaddr AF_UNIX 0 (str tok) in
            let a := set_ai_socktype SOCK_STREAM a in
            let a := set_ai_family AF_UNIX a in
            let a := set_ai_protocol 0 a in
            let a := set_ai_addr (Some sun) a in
            let a := set_ai_addrlen len a in
            (PARSER_OK, ADDRINFO_SET_ADDRESS a, st)
        else (PARSER_OK, ADDRINFO_SET_ADDRESS a, st)
  end.

Definition assign_address (call_data : addrinfo) (st : state)
  : PARSER_RES * addrinfo * state :=
  if ADDRINFO_HAS_ADDRESS call_data then
    (PARSER_FAIL, call_data, conf_error "Duplicate Address statement" st)
  else
    let '(tok, st) := gettkn_any st in
    assign_address_internal call_data tok st.

Definition port_of (a : addrinfo) : Z :=
  match ai_addr a with
  | Some sa => sa_port sa
  | None => 0
  end.

(** [assign_port_internal].  The port is copied into the socket address,
    which [get_host] or [getsockname] supplied when the family is INET or
    INET6. *)
Definition assign_port_internal (a : addrinfo) (tok : option token)
    (st : state) : PARSER_RES * addrinfo * state :=
  match tok with
  | None => (PARSER_FAIL, a, st)
  | Some tok =>
      if negb (type tok =? T_IDENT) && negb (type tok =? T_NUMBER) then
        (PARSER_FAIL, a,
         conf_error_at_locus_range (Some (locus tok))
           ("expected port number or service name, but found "
            ++ token_type_str (type tok)) st)
      else if negb ((ai_family a =? AF_INET) || (ai_family a =? AF_INET6)) then
        (PARSER_FAIL, a,
         conf_error_at_locus_range (Some (locus tok))
           "Port is not applicable to this address family" st)
      else
        let hints :=
          mk_addrinfo (if feature_is_set st then 0 else AI_NUMERICHOST)
            (ai_family a) (ai_socktype a) (ai_protocol a) 0 None in
        match getaddrinfo E (str tok) hints with
        | inl rc =>
            (PARSER_FAIL, a,
             conf_error_at_locus_range (Some (locus tok))
               ("bad port number: " ++ gai_strerror E rc) st)
        | inr res =>
            let a :=
              set_ai_addr (option_map (set_sa_port (port_of res)) (ai_addr a))
                a in
            (PARSER_OK, ADDRINFO_SET_PORT a, st)
        end
  end.

Definition assign_port (call_data : addrinfo) (st : state)
  : PARSER_RES * addrinfo * state :=
  if ADDRINFO_HAS_PORT call_data then
    (PARSER_FAIL, call_data, conf_error "Duplicate port statement" st)
  else if negb (ADDRINFO_HAS_ADDRESS call_data) then
    (PARSER_FAIL, call_data,
     conf_error "Address statement should precede Port" st)
  else
    let '(tok, st) := gettkn_any st in
    assign_port_internal call_data tok st.

(** Built against OpenSSL 3: both statements are accepted and ignored. *)
Definition parse_ECDHCurve (st : state) : PARSER_RES * state :=
  match gettkn_expect T_STRING st with
  | (None, st) => (PARSER_FAIL, st)
  | (Some _, st) => (PARSER_OK, conf_error "statement ignored" st)
  end.

Definition parse_SSLEngine (st : state) : PARSER_RES * state :=
  match gettkn_expect T_STRING st with
  | (None, st) => (PARSER_FAIL, st)
  | (Some _, st) => (PARSER_OK, conf_error "statement ignored" st)
  end.

(** ** OpenSSL wrappers *)

(** The error queue after the failing call [msg]: [ERR_get_error] hands
    out its elements one by one and then 0. *)
Fixpoint drain_errors (loc : option locus_range) (q : list Z) (st : state)
  : state :=
  match q with
  | [] => st
  | n :: rest =>
      if n =? 0 then st
      else drain_errors loc rest
             (conf_error_at_locus_range loc (ERR_error_string E n) st)
  end.

Definition openssl_error_at_locus_range (loc : option locus_range)
    (msg : string) (st : state) : state :=
  let q := ERR_queue E msg in
  let n := hd 0 q in
  let st :=
    conf_error_at_locus_range loc (msg ++ ": " ++ ERR_error_string E n) st in
  drain_errors loc (tl q) st.

Definition conf_openssl_error (msg : string) (st : state) : state :=
  openssl_error_at_locus_range (last_token_locus_range st) msg st.

Definition SSL_CTX_set_verify (mode : Z) (cb : bool) (c : SSL_CTX) : SSL_CTX :=
  set_ctx_verify_cb cb (set_ctx_verify_mode mode c).
Definition SSL_CTX_set_verify_depth (d : Z) (c : SSL_CTX) : SSL_CTX :=
  set_ctx_verify_depth d c.
Definition SSL_CTX_set_mode (m : Z) (c : SSL_CTX) : SSL_CTX :=
  set_ctx_mode (Z.lor (ctx_mode c) m) c.
Definition SSL_CTX_set_options (o : Z) (c : SSL_CTX) : SSL_CTX :=
  set_ctx_options (Z.lor (ctx_options c) o) c.
Definition SSL_CTX_clear_options (o : Z) (c : SSL_CTX) : SSL_CTX :=
  set_ctx_options (Z.ldiff (ctx_options c) o) c.
Definition SSL_CTX_set_cipher_list (s : string) (c : SSL_CTX) : SSL_CTX :=
  set_ctx_ciphers (Some s) c.
Definition SSL_CTX_set_session_id_context (s : string) (c : SSL_CTX) : SSL_CTX :=
  set_ctx_sid s c.
Definition SSL_CTX_set_app_data (c : SSL_CTX) : SSL_CTX :=
  set_ctx_app_data true c.
Definition POUND_SSL_CTX_init (c : SSL_CTX) : SSL_CTX :=
  set_ctx_pound_init true c.

(** ["%d-Pound-%ld", getpid (), random ()] *)
Definition session_id (st : state) : string * state :=
  (fmt_d (getpid E) ++ "-Pound-" ++ fmt_d (random E (rand_calls st)),
   set_rand_calls (S (rand_calls st)) st).

(** ** Lists

    Modelled from the spec: the SLIST macros come from [pound.h], which is
    not part of the sources at hand.  The spec has statements append to
    their lists (two [Cert] statements give "two TLS contexts in order",
    the first of which receives the SNI callback), so [SLIST_PUSH] adds
    at the tail and [SLIST_FIRST] is the head of the Rocq list. *)
Definition SLIST_PUSH {A : Type} (head : list A) (elt : A) : list A :=
  (head ++ [elt])%list.

(** ** Back-ends *)

(** [backend_parse_haport].  With one argument the statement copies the
    [struct addrinfo]: [be->ha_addr = be->addr].  The copy shares the
    [sockaddr] that [ai_addr] points to, so the port that
    [assign_port_internal] then stores through [ha_addr] is stored in the
    address of the back-end as well; [shared] tells the two forms of the
    statement apart.  The addresses are values here: a Port statement
    after such an HAport writes the same [sockaddr] again, which the model
    shows in [addr] only. *)
Definition backend_parse_haport (be : BACKEND) (st : state)
  : PARSER_RES * BACKEND * state :=
  if ADDRINFO_HAS_ADDRESS (ha_addr be) then
    (PARSER_FAIL, be, conf_error "Duplicate HAport statement" st)
  else
    match gettkn_any st with
    | (None, st) => (PARSER_FAIL, be, st)
    | (Some saved_tok, st) =>
        match gettkn_any st with
        | (None, st) => (PARSER_FAIL, be, st)
        | (Some tok, st) =>
            let '(rc, be, tok, shared, st) :=
              if type tok =? T_NEWLINE then
                (PARSER_OK, set_ha_addr (addr be) be, saved_tok, true,
                 putback_tkn st)
              else
                let '(rc, a, st) :=
                  assign_address_internal (ha_addr be) (Some saved_tok) st in
                (rc, set_ha_addr a be, tok, false, st) in
            match rc with
            | PARSER_OK =>
                match assign_port_internal (ha_addr be) (Some tok) st with
                | (PARSER_OK, a, st) =>
                    let be :=
                      if shared : bool
                      then set_addr (set_ai_addr (ai_addr a) (addr be)) be
                      else be in
                    (PARSER_OK, set_ha_addr (ADDRINFO_SET_ADDRESS a) be, st)
                | (_, a, st) => (PARSER_FAIL, set_ha_addr a be, st)
                end
            | _ => (PARSER_FAIL, be, st)
            end
        end
    end.

Definition backend_parse_https (be : BACKEND) (st : state)
  : PARSER_RES * BACKEND * state :=
  match SSL_CTX_new E false with
  | None => (PARSER_FAIL, set_ctx None be, conf_openssl_error "SSL_CTX_new" st)
  | Some c =>
      let c := SSL_CTX_set_app_data c in
      let c := SSL_CTX_set_verify (SSL_VERIFY_NONE (K E)) false c in
      let c := SSL_CTX_set_mode (SSL_MODE_AUTO_RETRY (K E)) c in
      let c := SSL_CTX_set_mode (SSL_MODE_SEND_FALLBACK_SCSV (K E)) c in
      let c := SSL_CTX_set_options (SSL_OP_ALL (K E)) c in
      let c := SSL_CTX_set_options (SSL_OP_NO_COMPRESSION (K E)) c in
      let c :=
        SSL_CTX_clear_options (SSL_OP_ALLOW_UNSAFE_LEGACY_RENEGOTIATION (K E))
          c in
      let c := SSL_CTX_clear_options (SSL_OP_LEGACY_SERVER_CONNECT (K E)) c in
      let '(sid, st) := session_id st in
      let c := SSL_CTX_set_session_id_context sid c in
      let c := POUND_SSL_CTX_init c in
      (PARSER_OK, set_ctx (Some c) be, st)
  end.

Definition backend_parse_cert (be : BACKEND) (st : state)
  : PARSER_RES * BACKEND * state :=
  match ctx be with
  | None =>
      (PARSER_FAIL, be,
       conf_error "HTTPS must be used before this statement" st)
  | Some c =>
      match gettkn_expect T_STRING st with
      | (None, st) => (PARSER_FAIL, be, st)
      | (Some tok, st) =>
          if negb (SSL_CTX_use_certificate_chain_file E (str tok)) then
            (PARSER_FAIL, be,
             conf_openssl_error "SSL_CTX_use_certificate_chain_file" st)
          else
            let c := set_ctx_cert_chain (Some (str tok)) c in
            if negb (SSL_CTX_use_PrivateKey_file E (str tok)) then
              (PARSER_FAIL, set_ctx (Some c) be,
               conf_openssl_error "SSL_CTX_use_PrivateKey_file" st)
            else
              let c := set_ctx_private_key (Some (str tok)) c in
              if negb (SSL_CTX_check_private_key E c) then
                (PARSER_FAIL, set_ctx (Some c) be,
                 conf_openssl_error "SSL_CTX_check_private_key failed" st)
              else (PARSER_OK, set_ctx (Some c) be, st)
      end
  end.

Definition backend_assign_ciphers (be : BACKEND) (st : state)
  : PARSER_RES * BACKEND * state :=
  match ctx be with
  | None =>
      (PARSER_FAIL, be,
       conf_error "HTTPS must be used before this statement" st)
  | Some c =>
      match gettkn_expect T_STRING st with
      | (None, st) => (PARSER_FAIL, be, st)
      | (Some tok, st) =>
          (PARSER_OK, set_ctx (Some (SSL_CTX_set_cipher_list (str tok) c)) be,
           st)
      end
  end.

Definition backend_assign_priority (call_data : Z) (st : state)
  : PARSER_RES * Z * state :=
  assign_int_range call_data 0 9 st.

(** The protocol table of [set_proto_opt]. *)
Definition proto_kwtab : kwtab :=
  let k := K E in
  [ ("SSLv2", SSL_OP_NO_SSLv2 k);
    ("SSLv3", Z.lor (SSL_OP_NO_SSLv2 k) (SSL_OP_NO_SSLv3 k));
    ("TLSv1", Z.lor (Z.lor (SSL_OP_NO_SSLv2 k) (SSL_OP_NO_SSLv3 k))
                (SSL_OP_NO_TLSv1 k));
    ("TLSv1_1", Z.lor (Z.lor (Z.lor (SSL_OP_NO_SSLv2 k) (SSL_OP_NO_SSLv3 k))
                         (SSL_OP_NO_TLSv1 k))
                  (SSL_OP_NO_TLSv1_1 k));
    ("TLSv1_2", Z.lor (Z.lor (Z.lor (Z.lor (SSL_OP_NO_SSLv2 k)
                                       (SSL_OP_NO_SSLv3 k))
                                (SSL_OP_NO_TLSv1 k))
                         (SSL_OP_NO_TLSv1_1 k))
                  (SSL_OP_NO_TLSv1_2 k)) ].

Definition set_proto_opt (opt : Z) (st : state) : PARSER_RES * Z * state :=
  match gettkn_expect T_IDENT st with
  | (None, st) => (PARSER_FAIL, opt, st)
  | (Some tok, st) =>
      match kw_to_tok proto_kwtab (str tok) false with
      | None => (PARSER_FAIL, opt, conf_error "unrecognized protocol name" st)
      | Some n => (PARSER_OK, Z.lor opt n, st)
      end
  end.

(** [disable_proto] is entered with [call_data] pointing at the [ctx]
    member of the BACKEND (the table entry carries its offset) and takes
    that address for the context itself: it is never NULL, and
    [SSL_CTX_set_options] is applied to it. *)
Definition disable_proto (be : BACKEND) (st : state)
  : result (PARSER_RES * BACKEND * state) :=
  match set_proto_opt 0 st with
  | (PARSER_OK, n, st) => Fault
  | (_, _, st) => Ret (PARSER_FAIL, be, st)
  end.

Definition entry {T : Type} (nm : string) (p : PARSER T) : PARSER_TABLE T :=
  mk_entry nm p.

Definition backend_parsetab : list (PARSER_TABLE BACKEND) :=
  [ entry "End" (leaf_nodata parse_end);
    entry "Address" (at_field addr set_addr (leaf0 assign_address));
    entry "Port" (at_field addr set_addr (leaf0 assign_port));
    entry "Priority"
      (at_field priority set_priority (leaf0 backend_assign_priority));
    entry "TimeOut" (at_field to set_to (leaf0 assign_timeout));
    entry "WSTimeOut" (at_field ws_to set_ws_to (leaf0 assign_timeout));
    entry "ConnTO" (at_field conn_to set_conn_to (leaf0 assign_timeout));
    entry "HAport" (leaf0 backend_parse_haport);
    entry "HTTPS" (leaf0 backend_parse_https);
    entry "Cert" (leaf0 backend_parse_cert);
    entry "Ciphers" (leaf0 backend_assign_ciphers);
    entry "Disable" (fun _ be _ st => disable_proto be st) ].

Definition emergency_parsetab : list (PARSER_TABLE BACKEND) :=
  [ entry "End" (leaf_nodata parse_end);
    entry "Address" (at_field addr set_addr (leaf0 assign_address));
    entry "Port" (at_field addr set_addr (leaf0 assign_port));
    entry "TimeOut" (at_field to set_to (leaf0 assign_timeout));
    entry "WSTimeOut" (at_field ws_to set_ws_to (leaf0 assign_timeout));
    entry "ConnTO" (at_field conn_to set_conn_to (leaf0 assign_timeout));
    entry "HTTPS" (leaf0 backend_parse_https);
    entry "Cert" (leaf0 backend_parse_cert);
    entry "Ciphers" (leaf0 backend_assign_ciphers);
    entry "Disable" (fun _ be _ st => disable_proto be st) ].

Definition check_addrinfo (a : addrinfo) (range : option locus_range)
    (nm : string) (st : state) : PARSER_RES * state :=
  if ADDRINFO_HAS_ADDRESS a then
    if negb (ADDRINFO_HAS_PORT a)
       && ((ai_family a =? AF_INET) || (ai_family a =? AF_INET6))
    then
      (PARSER_FAIL,
       conf_error_at_locus_range range (nm ++ " missing Port declaration") st)
    else (PARSER_OK, st)
  else
    (PARSER_FAIL,
     conf_error_at_locus_range range (nm ++ " missing Address declaration") st).

(** [parse_backend_internal]: [None] is the NULL return.  The assignment
    of [SOCK_STREAM] to [addr.ai_socktype] precedes the [memset] of
    [addr], as in the source. *)
Definition parse_backend_internal (n : nat)
    (table : list (PARSER_TABLE BACKEND)) (dfl : POUND_DEFAULTS) (st : state)
  : result (option BACKEND * state) :=
  let be := zero_backend in
  let be := set_be_type BE_BACKEND be in
  let be := set_addr (set_ai_socktype SOCK_STREAM (addr be)) be in
  let be := set_to (be_to dfl) be in
  let be := set_conn_to (be_connto dfl) be in
  let be := set_ws_to (dfl_ws_to dfl) be in
  let be := set_alive 1 be in
  let be := set_addr zero_addrinfo be in
  let be := set_priority 5 be in
  let be := set_ha_addr zero_addrinfo be in
  let be := set_url None be in
  match parser_loop n table be (fun _ => dfl) (Some zero_range) st with
  | Fuel => Fuel
  | Fault => Fault
  | Ret (PARSER_OK, be, range, st) =>
      match check_addrinfo (addr be) range "Backend" st with
      | (PARSER_OK, st) => Ret (Some be, st)
      | (_, st) => Ret (None, st)
      end
  | Ret (_, _, _, st) => Ret (None, st)
  end.

Definition parse_backend : PARSER (list BACKEND) :=
  fun n head section_data st =>
    match parse_backend_internal n backend_parsetab section_data st with
    | Fuel => Fuel
    | Fault => Fault
    | Ret (None, st) => Ret (PARSER_FAIL, head, st)
    | Ret (Some be, st) => Ret (PARSER_OK, SLIST_PUSH head be, st)
    end.

Definition parse_emergency : PARSER (option BACKEND) :=
  fun n res_ptr section_data st =>
    let dfl := section_data in
    let dfl := set_be_to 120 dfl in
    let dfl := set_be_connto 120 dfl in
    let dfl := set_dfl_ws_to 120 dfl in
    match parse_backend_internal n emergency_parsetab dfl st with
    | Fuel => Fuel
    | Fault => Fault
    | Ret (None, st) => Ret (PARSER_FAIL, res_ptr, st)
    | Ret (Some be, st) => Ret (PARSER_OK, Some be, st)
    end.

(** ** Regular expressions *)

Definition regcomp_error_at_locus_range (loc : option locus_range) (rc : Z)
    (expr : option string) (st : state) : state :=
  let st := conf_error_at_locus_range loc (regerror E rc) st in
  match expr with
  | Some e => conf_error_at_locus_range loc ("regular expression: " ++ e) st
  | None => st
  end.

Definition conf_regcomp_error (rc : Z) (expr : option string) (st : state)
  : state :=
  regcomp_error_at_locus_range (last_token_locus_range st) rc expr st.

Definition xregcomp (rx : regex_t) (expr : string) (flags : Z) (st : state)
  : PARSER_RES * regex_t * state :=
  let rc := regcomp E expr flags in
  if negb (rc =? 0) then
    (PARSER_FAIL, rx, conf_regcomp_error rc (Some expr) st)
  else (PARSER_OK, mk_regex expr flags, st).

Definition RX_ICASE_NEWLINE_EXTENDED : Z :=
  Z.lor (Z.lor REG_ICASE REG_NEWLINE) REG_EXTENDED.

(** ** Services *)

Definition assign_token_list (head : list token) (st : state)
  : PARSER_RES * list token * state :=
  match gettkn_expect T_STRING st with
  | (None, st) => (PARSER_FAIL, head, st)
  | (Some tok, st) => (PARSER_OK, SLIST_PUSH head tok, st)
  end.

Record service_ext := mk_service_ext {
  svc : SERVICE;
  ext_url : list token;
  ext_ignore_case : Z
}.

Definition set_svc (v : SERVICE) (r : service_ext) : service_ext :=
  mk_service_ext v (ext_url r) (ext_ignore_case r).
Definition set_ext_url (v : list token) (r : service_ext) : service_ext :=
  mk_service_ext (svc r) v (ext_ignore_case r).
Definition set_ext_ignore_case (v : Z) (r : service_ext) : service_ext :=
  mk_service_ext (svc r) (ext_url r) v.

Definition assign_matcher (head : list MATCHER) (st : state)
  : PARSER_RES * list MATCHER * state :=
  match gettkn_expect T_STRING st with
  | (None, st) => (PARSER_FAIL, head, st)
  | (Some tok, st) =>
      let rc := regcomp E (str tok) RX_ICASE_NEWLINE_EXTENDED in
      if negb (rc =? 0) then
        (PARSER_FAIL, head, conf_regcomp_error rc None st)
      else
        (PARSER_OK,
         SLIST_PUSH head
           (mk_matcher (mk_regex (str tok) RX_ICASE_NEWLINE_EXTENDED)),
         st)
  end.

Definition assign_redirect (head : list BACKEND) (st : state)
  : PARSER_RES * list BACKEND * state :=
  let code := 302 in
  match gettkn_any st with
  | (None, st) => (PARSER_FAIL, head, st)
  | (Some tok, st) =>
      let status :=
        if type tok =? T_NUMBER then
          let n := atoi (str tok) in
          if (n =? 301) || (n =? 302) || (n =? 307) then
            match gettkn_any st with
            | (None, st) => inl st
            | (Some tok, st) => inr (n, tok, st)
            end
          else inl (conf_error "invalid status code" st)
        else inr (code, tok, st) in
      match status with
      | inl st => (PARSER_FAIL, head, st)
      | inr (code, tok, st) =>
          if negb (type tok =? T_STRING) then
            (PARSER_FAIL, head,
             conf_error ("expected " ++ token_type_str T_STRING
                         ++ ", but found " ++ token_type_str (type tok)) st)
          else
            let be := zero_backend in
            let be := set_be_type BE_REDIRECT be in
            let be := set_redir_code code be in
            let be := set_priority 1 be in
            let be := set_alive 1 be in
            let be := set_url (Some (str tok)) be in
            match regexec E (LOCATION E) (str tok) 4 with
            | None => (PARSER_FAIL, head, conf_error "Redirect bad URL" st)
            | Some matches =>
                let m3 := nth 3 matches (mk_regmatch (-1) (-1)) in
                let be := set_redir_req (rm_eo m3 - rm_so m3) be in
                let be :=
                  if redir_req be =? 1 then
                    (* the path is a single '/', so remove it *)
                    set_url (Some (truncate (Z.to_nat (rm_so m3)) (str tok)))
                      be
                  else be in
                (PARSER_OK, SLIST_PUSH head be, st)
            end
      end
  end.

Record service_session := mk_session {
  s_type : SESS_TYPE;
  id : option string;
  ttl : Z
}.

Definition set_s_type (v : SESS_TYPE) (r : service_session) : service_session :=
  mk_session v (id r) (ttl r).
Definition set_id (v : option string) (r : service_session) : service_session :=
  mk_session (s_type r) v (ttl r).
Definition set_ttl (v : Z) (r : service_session) : service_session :=
  mk_session (s_type r) (id r) v.

Definition session_kwtab : list (string * SESS_TYPE) :=
  [ ("IP", SESS_IP); ("COOKIE", SESS_COOKIE); ("URL", SESS_URL);
    ("PARM", SESS_PARM); ("BASIC", SESS_BASIC); ("HEADER", SESS_HEADER) ].

Definition session_type_parser (sp : service_session) (st : state)
  : PARSER_RES * service_session * state :=
  match gettkn_expect T_IDENT st with
  | (None, st) => (PARSER_FAIL, sp, st)
  | (Some tok, st) =>
      match kw_to_tok session_kwtab (str tok) true with
      | None => (PARSER_FAIL, sp, conf_error "Unknown Session type" st)
      | Some n => (PARSER_OK, set_s_type n sp, st)
      end
  end.

Definition session_parsetab : list (PARSER_TABLE service_session) :=
  [ entry "End" (leaf_nodata parse_end);
    entry "Type" (leaf0 session_type_parser);
    entry "TTL" (at_field ttl set_ttl (leaf0 assign_timeout));
    entry "ID" (at_field id set_id (leaf0 assign_string)) ].

(** The bracket expression written ["[ \t]"] in C: a blank or a tab. *)
Definition BLANK_OR_TAB : string := "[ " ++ String TAB "]".

Definition is_id_session (t : SESS_TYPE) : bool :=
  match t with
  | SESS_COOKIE | SESS_URL | SESS_HEADER => true
  | _ => false
  end.

(** The [switch] of [parse_session]: the expressions compiled for a
    session type, [None] for the types without a case. *)
Definition session_exprs (t : SESS_TYPE) (sid : option string)
  : option (string * string) :=
  match t with
  | SESS_COOKIE =>
      Some ("Cookie[^:]*:.*" ++ BLANK_OR_TAB ++ fmt_s sid ++ "=", "([^;]*)")
  | SESS_URL => Some ("[?&]" ++ fmt_s sid ++ "=", "([^&;#]*)")
  | SESS_PARM => Some (";", "([^?]*)")
  | SESS_BASIC =>
      Some ("Authorization:" ++ BLANK_OR_TAB ++ "*Basic" ++ BLANK_OR_TAB ++ "*",
            "([^ " ++ String TAB "]*)")
  | SESS_HEADER =>
      Some (fmt_s sid ++ ":" ++ BLANK_OR_TAB ++ "*", "([^ " ++ String TAB "]*)")
  | SESS_IP | SESS_NONE => None
  end.

Definition parse_session : PARSER SERVICE :=
  fun n svc section_data st =>
    let sess := mk_session SESS_NONE None 0 in
    match parser_loop n session_parsetab sess (fun _ => section_data)
            (Some zero_range) st with
    | Fuel => Fuel
    | Fault => Fault
    | Ret (PARSER_OK, sess, range, st) =>
        if SESS_TYPE_eqb (s_type sess) SESS_NONE then
          Ret (PARSER_FAIL, svc,
               conf_error_at_locus_range range "Session type not defined" st)
        else if ttl sess =? 0 then
          Ret (PARSER_FAIL, svc,
               conf_error_at_locus_range range "Session TTL not defined" st)
        else if is_id_session (s_type sess)
                && match id sess with None => true | Some _ => false end
        then
          Ret (PARSER_FAIL, svc, conf_error "Session ID not defined" st)
        else
          match session_exprs (s_type sess) (id sess) with
          | Some (e_start, e_pat) =>
              match xregcomp (sess_start svc) e_start
                      RX_ICASE_NEWLINE_EXTENDED st with
              | (PARSER_OK, rx, st) =>
                  let svc := set_sess_start rx svc in
                  match xregcomp (sess_pat svc) e_pat
                          RX_ICASE_NEWLINE_EXTENDED st with
                  | (PARSER_OK, rx, st) =>
                      let svc := set_sess_pat rx svc in
                      let svc := set_sess_ttl (ttl sess) svc in
                      let svc := set_sess_type (s_type sess) svc in
                      Ret (PARSER_OK, svc, st)
                  | (_, _, st) => Ret (PARSER_FAIL, svc, st)
                  end
              | (_, _, st) => Ret (PARSER_FAIL, svc, st)
              end
          | None =>
              let svc := set_sess_ttl (ttl sess) svc in
              let svc := set_sess_type (s_type sess) svc in
              Ret (PARSER_OK, svc, st)
          end
    | Ret (_, _, _, st) => Ret (PARSER_FAIL, svc, st)
    end.

Definition service_parsetab : list (PARSER_TABLE service_ext) :=
  let in_svc {F : Type} (get : SERVICE -> F) (set : F -> SERVICE -> SERVICE)
        (h : PARSER F) : PARSER service_ext :=
    at_field svc set_svc (at_field get set h) in
  [ entry "End" (leaf_nodata parse_end);
    entry "URL" (at_field ext_url set_ext_url (leaf0 assign_token_list));
    entry "IgnoreCase"
      (at_field ext_ignore_case set_ext_ignore_case (leaf0 assign_bool));
    entry "HeadRequire" (in_svc req_head set_req_head (leaf0 assign_matcher));
    entry "HeadDeny" (in_svc deny_head set_deny_head (leaf0 assign_matcher));
    entry "Disabled" (in_svc svc_disabled set_svc_disabled (leaf0 assign_bool));
    entry "Redirect" (in_svc backends set_backends (leaf0 assign_redirect));
    entry "Backend" (in_svc backends set_backends parse_backend);
    entry "Emergency" (in_svc emergency set_emergency parse_emergency);
    entry "Session" (at_field svc set_svc parse_session) ].

(** Addition of two [int]s. *)
Definition int_add (a b : Z) : Z := to_int (a + b).

(** The [SLIST_FOREACH] of [parse_service] that sums the priorities:
    [(tot_pri, abs_pri)] after the back-ends [bes]. *)
Fixpoint sum_priorities (bes : list BACKEND) (tot abs : Z) : Z * Z :=
  match bes with
  | [] => (tot, abs)
  | be :: rest =>
      let tot := if disabled be =? 0 then int_add tot (priority be) else tot in
      let abs := int_add abs (priority be) in
      sum_priorities rest tot abs
  end.

(** The [while (!SLIST_EMPTY (&ext.url))] loop of [parse_service]. *)
Fixpoint compile_urls (urls : list token) (flags : Z) (acc : list MATCHER)
    (st : state) : PARSER_RES * list MATCHER * state :=
  match urls with
  | [] => (PARSER_OK, acc, st)
  | te :: rest =>
      let rc := regcomp E (str te) flags in
      if negb (rc =? 0) then
        (PARSER_FAIL, acc,
         regcomp_error_at_locus_range (Some (locus te)) rc None st)
      else
        compile_urls rest flags
          (SLIST_PUSH acc (mk_matcher (mk_regex (str te) flags))) st
  end.

(** [parse_service].  The session table [lh_TABNODE_new] creates is not
    part of the model, and its creation is taken to succeed, as every
    allocation is.  Were it to fail, the C function would log "lh_new
    failed" and return -1, which is none of the codes of [PARSER_RES]; no
    statement about [parse_service] covers that case. *)
Definition parse_service : PARSER (list SERVICE) :=
  fun n head dfl st =>
    let ext := mk_service_ext zero_service [] 0 in
    match gettkn_any st with
    | (None, st) => Ret (PARSER_FAIL, head, st)
    | (Some tok, st) =>
        let ext := set_svc (set_sess_type SESS_NONE (svc ext)) ext in
        let '(ext, st) :=
          if type tok =? T_STRING then
            let st :=
              if strlen (str tok) >? SERVICE_NAME_SIZE (K E) - 1
              then conf_error "service name too long: truncated" st
              else st in
            (set_svc
               (set_name
                  (truncate (Z.to_nat (SERVICE_NAME_SIZE (K E) - 1)) (str tok))
                  (svc ext)) ext,
             st)
          else (ext, putback_tkn st) in
        let ext := set_ext_ignore_case (ignore_case dfl) ext in
        match parser_loop n service_parsetab ext (fun _ => dfl)
                (Some zero_range) st with
        | Fuel => Fuel
        | Fault => Fault
        | Ret (PARSER_OK, ext, range, st) =>
            let flags :=
              Z.lor (Z.lor REG_NEWLINE REG_EXTENDED)
                (if negb (ext_ignore_case ext =? 0) then REG_ICASE else 0) in
            let s := svc ext in
            let s := set_svc_url [] s in
            let '(s, st) :=
              match backends s with
              | [] =>
                  (s, conf_error_at_locus_range range
                        "warning: no backends defined" st)
              | _ :: _ =>
                  let '(tot, abs) :=
                    sum_priorities (backends s) (tot_pri s) (abs_pri s) in
                  (set_abs_pri abs (set_tot_pri tot s), st)
              end in
            match compile_urls (ext_url ext) flags (svc_url s) st with
            | (PARSER_OK, urls, st) =>
                Ret (PARSER_OK, SLIST_PUSH head (set_svc_url urls s), st)
            | (_, _, st) => Ret (PARSER_FAIL, head, st)
            end
        | Ret (_, _, _, st) => Ret (PARSER_FAIL, head, st)
        end
    end.

Definition re_acme : string := "^/\.well-known/acme-challenge/(.+)".
Definition suf_acme : string := "/$1".

Fixpoint last_char (s : string) : option ascii :=
  match s with
  | EmptyString => None
  | String c EmptyString => Some c
  | String _ r => last_char r
  end.

Definition parse_acme (head : list SERVICE) (st : state)
  : PARSER_RES * list SERVICE * state :=
  match gettkn_expect T_STRING st with
  | (None, st) => (PARSER_FAIL, head, st)
  | (Some tok, st) =>
      match stat E (str tok) with
      | inl err =>
          (PARSER_FAIL, head,
           conf_error ("can't stat " ++ str tok ++ ": " ++ err) st)
      | inr s =>
          if negb (st_isdir s) then
            (PARSER_FAIL, head,
             conf_error (str tok ++ " is not a directory: " ++ errno_str E) st)
          else
            let sv := zero_service in
            let rc := regcomp E re_acme REG_EXTENDED in
            if negb (rc =? 0) then
              (PARSER_FAIL, head, conf_regcomp_error rc None st)
            else
              let sv :=
                set_svc_url
                  (SLIST_PUSH (svc_url sv)
                     (mk_matcher (mk_regex re_acme REG_EXTENDED))) sv in
              let sv := set_sess_type SESS_NONE sv in
              let sv := set_tot_pri 1 sv in
              let sv := set_abs_pri 1 sv in
              let be := zero_backend in
              let be := set_be_type BE_ACME be in
              let be := set_priority 1 be in
              let be := set_alive 1 be in
              let len := String.length (str tok) in
              let len :=
                match last_char (str tok) with
                | Some c => if Ascii.eqb c "/" then pred len else len
                | None => len
                end in
              let be := set_url (Some (truncate len (str tok) ++ suf_acme)) be in
              let sv := set_backends (SLIST_PUSH (backends sv) be) sv in
              (PARSER_OK, SLIST_PUSH head sv, st)
      end
  end.

(** ** Listeners *)

Definition xhttp : list string :=
  [ "^(GET|POST|HEAD) ([^ ]+) HTTP/1.[01]$";
    "^(GET|POST|HEAD|PUT|PATCH|DELETE) ([^ ]+) HTTP/1.[01]$";
    "^(GET|POST|HEAD|PUT|PATCH|DELETE|LOCK|UNLOCK|PROPFIND|PROPPATCH|SEARCH|MKCOL|MOVE|COPY|OPTIONS|TRACE|MKACTIVITY|CHECKOUT|MERGE|REPORT) ([^ ]+) HTTP/1.[01]$";
    "^(GET|POST|HEAD|PUT|PATCH|DELETE|LOCK|UNLOCK|PROPFIND|PROPPATCH|SEARCH|MKCOL|MOVE|COPY|OPTIONS|TRACE|MKACTIVITY|CHECKOUT|MERGE|REPORT|SUBSCRIBE|UNSUBSCRIBE|BPROPPATCH|POLL|BMOVE|BCOPY|BDELETE|BPROPFIND|NOTIFY|CONNECT) ([^ ]+) HTTP/1.[01]$";
    "^(GET|POST|HEAD|PUT|PATCH|DELETE|LOCK|UNLOCK|PROPFIND|PROPPATCH|SEARCH|MKCOL|MOVE|COPY|OPTIONS|TRACE|MKACTIVITY|CHECKOUT|MERGE|REPORT|SUBSCRIBE|UNSUBSCRIBE|BPROPPATCH|POLL|BMOVE|BCOPY|BDELETE|BPROPFIND|NOTIFY|CONNECT|RPC_IN_DATA|RPC_OUT_DATA) ([^ ]+) HTTP/1.[01]$" ].

Definition listener_parse_xhttp (rx : regex_t) (st : state)
  : PARSER_RES * regex_t * state :=
  match assign_unsigned 0 st with
  | (PARSER_OK, n, st) =>
      if n >=? Z.of_nat (List.length xhttp) then
        (PARSER_FAIL, rx, conf_error "argument out of allowed range" st)
      else
        xregcomp rx (nth (Z.to_nat n) xhttp "") RX_ICASE_NEWLINE_EXTENDED st
  | (rc, _, st) => (rc, rx, st)
  end.

Definition listener_parse_checkurl (lst : LISTENER) (dfl : POUND_DEFAULTS)
    (st : state) : PARSER_RES * LISTENER * state :=
  if negb (has_pat lst =? 0) then
    (PARSER_FAIL, lst, conf_error "CheckURL multiple pattern" st)
  else
    match gettkn_expect T_STRING st with
    | (None, st) => (PARSER_FAIL, lst, st)
    | (Some tok, st) =>
        let flags :=
          Z.lor (Z.lor REG_NEWLINE REG_EXTENDED)
            (if negb (ignore_case dfl =? 0) then REG_ICASE else 0) in
        let rc := regcomp E (str tok) flags in
        if negb (rc =? 0) then
          (PARSER_FAIL, lst, conf_regcomp_error rc None st)
        else
          (PARSER_OK,
           set_has_pat 1 (set_url_pat (mk_regex (str tok) flags) lst), st)
    end.

Definition listener_parse_socket_from (lst : LISTENER) (st : state)
  : PARSER_RES * LISTENER * state :=
  if ADDRINFO_HAS_ADDRESS (l_addr lst) then
    (PARSER_FAIL, lst,
     conf_error "Duplicate Address or SocketFrom statement" st)
  else
    match gettkn_expect T_STRING st with
    | (None, st) => (PARSER_FAIL, lst, st)
    | (Some tok, st) =>
        match assign_address_internal zero_addrinfo (Some tok) st with
        | (PARSER_OK, a, st) =>
            match sys_socket E with
            | inl err => (PARSER_FAIL, lst, conf_error ("socket: " ++ err) st)
            | inr sfd =>
                match sys_connect E sfd (ai_addr a) with
                | inl err =>
                    (PARSER_FAIL, lst,
                     conf_error
                       ("connect "
                        ++ match ai_addr a with
                           | Some sa => sa_data sa
                           | None => ""
                           end
                        ++ ": " ++ err) st)
                | inr _ =>
                    let fd := read_fd E sfd in
                    if fd =? -1 then
                      (PARSER_FAIL, lst,
                       conf_error ("can't get socket: " ++ errno_str E) st)
                    else
                      match getsockname E fd with
                      | inl err =>
                          (PARSER_FAIL, lst,
                           conf_error ("can't get socket address: " ++ err) st)
                      | inr (ss, sslen) =>
                          let la := l_addr lst in
                          let la := set_ai_addr (Some ss) la in
                          let la := set_ai_addrlen sslen la in
                          let la := set_ai_family (sa_family ss) la in
                          let la := ADDRINFO_SET_ADDRESS la in
                          let la := ADDRINFO_SET_PORT la in
                          let lst := set_l_addr la lst in
                          let st :=
                            logmsg LOG_DEBUG
                              (stringbuf_format_locus_range (locus tok)
                               ++ ": obtained address " ++ addr2str E la) st in
                          (PARSER_OK, set_sock fd lst, st)
                      end
                end
            end
        | (_, _, st) => (PARSER_FAIL, lst, st)
        end
    end.

Definition parse_rewritelocation (call_data : Z) (st : state)
  : PARSER_RES * Z * state :=
  assign_int_range call_data 0 2 st.

Definition CRLF : string := String CR (String NL "").

Definition append_string_line (dst : option string) (st : state)
  : PARSER_RES * option string * state :=
  let len := match dst with Some s => strlen s | None => 0 end in
  match gettkn_expect T_STRING st with
  | (None, st) => (PARSER_FAIL, dst, st)
  | (Some tok, st) =>
      if len =? 0 then (PARSER_OK, Some (str tok), st)
      else (PARSER_OK, Some (fmt_s dst ++ CRLF ++ str tok), st)
  end.

Definition http_parsetab : list (PARSER_TABLE LISTENER) :=
  [ entry "End" (leaf_nodata parse_end);
    entry "Address" (at_field l_addr set_l_addr (leaf0 assign_address));
    entry "Port" (at_field l_addr set_l_addr (leaf0 assign_port));
    entry "SocketFrom" (leaf0 listener_parse_socket_from);
    entry "xHTTP" (at_field verb set_verb (leaf0 listener_parse_xhttp));
    entry "Client" (at_field l_to set_l_to (leaf0 assign_timeout));
    entry "CheckURL" (leaf listener_parse_checkurl);
    entry "Err404" (at_field err404 set_err404 (leaf0 assign_string_from_file));
    entry "Err413" (at_field err413 set_err413 (leaf0 assign_string_from_file));
    entry "Err414" (at_field err414 set_err414 (leaf0 assign_string_from_file));
    entry "Err500" (at_field err500 set_err500 (leaf0 assign_string_from_file));
    entry "Err501" (at_field err501 set_err501 (leaf0 assign_string_from_file));
    entry "Err503" (at_field err503 set_err503 (leaf0 assign_string_from_file));
    entry "MaxRequest" (at_field max_req set_max_req (leaf0 assign_LONG));
    entry "HeadRemove" (at_field head_off set_head_off (leaf0 assign_matcher));
    entry "RewriteLocation"
      (at_field rewr_loc set_rewr_loc (leaf0 parse_rewritelocation));
    entry "RewriteDestination"
      (at_field rewr_dest set_rewr_dest (leaf0 assign_bool));
    entry "LogLevel" (at_field l_log_level set_l_log_level (leaf0 assign_int));
    entry "AddHeader"
      (at_field add_head set_add_head (leaf0 append_string_line));
    entry "Service" (at_field services set_services parse_service);
    entry "ACME" (at_field services set_services (leaf0 parse_acme)) ].

(** [XZALLOC (lst)] *)
Definition zero_listener : LISTENER :=
  mk_listener zero_addrinfo 0 [] 0 0 None zero_regex 0 0 zero_regex
    "" "" "" "" "" "" 0 [] 0 0 0 0 0 0 0 [].

(** [listener_alloc]: [None] is the NULL return. *)
Definition listener_alloc (dfl : POUND_DEFAULTS) (st : state)
  : option LISTENER * state :=
  let lst := zero_listener in
  let lst := set_sock (-1) lst in
  let lst := set_l_to (clnt_to dfl) lst in
  let lst := set_rewr_loc 1 lst in
  let lst := set_err404 "Not Found." lst in
  let lst := set_err413 "Request too large." lst in
  let lst := set_err414 "Request URI is too long." lst in
  let lst :=
    set_err500 "An internal server error occurred. Please try again later."
      lst in
  let lst := set_err501 "This method may not be used." lst in
  let lst :=
    set_err503 "The service is not available. Please try again later." lst in
  let lst := set_l_log_level (log_level dfl) lst in
  match xregcomp (verb lst) (nth 0 xhttp "") RX_ICASE_NEWLINE_EXTENDED st with
  | (PARSER_OK, rx, st) => (Some (set_verb rx lst), st)
  | (_, _, st) => (None, st)
  end.

Definition parse_listen_http : PARSER (list LISTENER) :=
  fun n list_head dfl st =>
    match listener_alloc dfl st with
    | (None, st) => Ret (PARSER_FAIL, list_head, st)
    | (Some lst, st) =>
        match parser_loop n http_parsetab lst (fun _ => dfl)
                (Some zero_range) st with
        | Fuel => Fuel
        | Fault => Fault
        | Ret (PARSER_OK, lst, range, st) =>
            match check_addrinfo (l_addr lst) range "ListenHTTP" st with
            | (PARSER_OK, st) => Ret (PARSER_OK, SLIST_PUSH list_head lst, st)
            | (_, st) => Ret (PARSER_FAIL, list_head, st)
            end
        | Ret (_, _, _, st) => Ret (PARSER_FAIL, list_head, st)
        end
    end.

(** ** Certificates *)

(** The loop of [is_class] after the first character of the class; [prev]
    is the class character before the one looked at. *)
Fixpoint is_class_loop (c : ascii) (prev : ascii) (cls : string) : bool :=
  match cls with
  | EmptyString => false
  | String k r =>
      match r with
      | String hi r' =>
          if Ascii.eqb k "-" then
            if (code prev <=? code c) && (code c <=? code hi) then true
            else is_class_loop c hi r'
          else if Ascii.eqb c k then true
          else is_class_loop c k r
      | EmptyString => Ascii.eqb c k
      end
  end.

Definition is_class (c : ascii) (cls : string) : bool :=
  match cls with
  | EmptyString => false
  | String k r => if Ascii.eqb c k then true else is_class_loop c k r
  end.

Definition CN_CLASS : string := "-*.A-Za-z0-9".

(** The [for] loop of [extract_cn]: the number of leading characters of
    the class, and what follows them. *)
Fixpoint span_class (s : string) : nat * string :=
  match s with
  | EmptyString => (O, s)
  | String c r =>
      if is_class c CN_CLASS then
        let '(i, rest) := span_class r in (S i, rest)
      else (O, s)
  end.

Definition is_cn_prefix (s : string) : option string :=
  match s with
  | String c0 (String c1 (String c2 r)) =>
      if (Ascii.eqb c0 "c" || Ascii.eqb c0 "C")
         && (Ascii.eqb c1 "n" || Ascii.eqb c1 "N") && Ascii.eqb c2 "="
      then Some r else None
  | _ => None
  end.

Definition string_tail (s : string) : string :=
  match s with
  | EmptyString => EmptyString
  | String _ r => r
  end.

(** [extract_cn]: the common name ([*plen] characters at the returned
    pointer), or [None] for NULL. *)
Fixpoint extract_cn (n : nat) (s : string) : option string :=
  match n with
  | O => None
  | S n' =>
      match s with
      | EmptyString => None
      | String _ _ =>
          match is_cn_prefix s with
          | Some r =>
              let '(i, rest) := span_class r in
              match rest with
              | EmptyString => Some r
              | String _ _ => extract_cn n' (string_tail rest)
              end
          | None => extract_cn n' (string_tail s)
          end
      end
  end.

(** [get_subjectaltnames]: the DNS names, in the order in which
    [sk_GENERAL_NAME_pop] yields them (last entry first). *)
Fixpoint pop_altnames (names : list GENERAL_NAME) (acc : list string)
    (st : state) : list string * state :=
  match names with
  | [] => (acc, st)
  | nm :: rest =>
      if gn_type nm =? GEN_DNS (K E) then
        pop_altnames rest (acc ++ [c_str (gn_dNSName nm)])%list st
      else
        pop_altnames rest acc
          (logmsg LOG_INFO
             ("unsupported subjectAltName type encountered: "
              ++ fmt_d (gn_type nm)) st)
  end.

Definition get_subjectaltnames (x : X509) (st : state) : list string * state :=
  match x509_san_stack x with
  | None => ([], st)
  | Some stack => pop_altnames (rev stack) [] st
  end.

(** ** HTTPS listeners *)

Definition https_parse_cert (lst : LISTENER) (st : state)
  : PARSER_RES * LISTENER * state :=
  if negb (has_other lst =? 0) then
    (PARSER_FAIL, lst,
     conf_error "Cert directives MUST precede other SSL-specific directives" st)
  else
    match gettkn_expect T_STRING st with
    | (None, st) => (PARSER_FAIL, lst, st)
    | (Some tok, st) =>
        match SSL_CTX_new E true with
        | None => (PARSER_FAIL, lst, conf_openssl_error "SSL_CTX_new" st)
        | Some c =>
            if negb (SSL_CTX_use_certificate_chain_file E (str tok)) then
              (PARSER_FAIL, lst,
               conf_openssl_error "SSL_CTX_use_certificate_chain_file" st)
            else
              let c := set_ctx_cert_chain (Some (str tok)) c in
              if negb (SSL_CTX_use_PrivateKey_file E (str tok)) then
                (PARSER_FAIL, lst,
                 conf_openssl_error "SSL_CTX_use_PrivateKey_file" st)
              else
                let c := set_ctx_private_key (Some (str tok)) c in
                if negb (SSL_CTX_check_private_key E c) then
                  (PARSER_FAIL, lst,
                   conf_openssl_error "SSL_CTX_check_private_key" st)
                else
                  (* we have support for SNI *)
                  match fopen E (str tok) with
                  | inl _ =>
                      (PARSER_FAIL, lst,
                       conf_error
                         "ListenHTTPS: could not open certificate file" st)
                  | inr fcert =>
                      match PEM_read_X509 E fcert with
                      | None =>
                          (PARSER_FAIL, lst,
                           conf_error "could not get certificate subject" st)
                      | Some x509 =>
                          let sname := x509_subject x509 in
                          let '(alt, st) := get_subjectaltnames x509 st in
                          match extract_cn (S (String.length sname)) sname with
                          | None =>
                              (PARSER_FAIL, lst,
                               conf_error
                                 ("no CN in certificate subject name ("
                                  ++ sname ++ ")" ++ String NL "") st)
                          | Some cn =>
                              let pc := mk_pound_ctx c cn alt in
                              (PARSER_OK,
                               set_ctx_head (SLIST_PUSH (ctx_head lst) pc) lst,
                               st)
                          end
                      end
                  end
        end
    end.

Definition is_empty {A : Type} (l : list A) : bool :=
  match l with [] => true | _ :: _ => false end.

Definition map_ctx (f : SSL_CTX -> SSL_CTX) (l : list POUND_CTX)
  : list POUND_CTX :=
  map (fun pc => set_pc_ctx (f (pc_ctx pc)) pc) l.

Definition https_parse_client_cert (lst : LISTENER) (st : state)
  : PARSER_RES * LISTENER * state :=
  if is_empty (ctx_head lst) then
    (PARSER_FAIL, lst, conf_error "ClientCert may only be used after Cert" st)
  else
    let lst := set_has_other 1 lst in
    match assign_int_range (clnt_check lst) 0 3 st with
    | (PARSER_OK, v, st) =>
        let lst := set_clnt_check v lst in
        let '(rc, depth, st) :=
          if clnt_check lst >? 0 then assign_int 0 st
          else (PARSER_OK, 0, st) in
        match rc with
        | PARSER_OK =>
            let k := K E in
            let f :=
              if clnt_check lst =? 0 then
                (* don't ask *)
                SSL_CTX_set_verify (SSL_VERIFY_NONE k) false
              else if clnt_check lst =? 1 then
                (* ask but OK if no client certificate *)
                fun c =>
                  SSL_CTX_set_verify_depth depth
                    (SSL_CTX_set_verify
                       (Z.lor (SSL_VERIFY_PEER k) (SSL_VERIFY_CLIENT_ONCE k))
                       false c)
              else if clnt_check lst =? 2 then
                (* ask and fail if no client certificate *)
                fun c =>
                  SSL_CTX_set_verify_depth depth
                    (SSL_CTX_set_verify
                       (Z.lor (SSL_VERIFY_PEER k)
                          (SSL_VERIFY_FAIL_IF_NO_PEER_CERT k))
                       false c)
              else if clnt_check lst =? 3 then
                (* ask but do not verify client certificate *)
                fun c =>
                  SSL_CTX_set_verify_depth depth
                    (SSL_CTX_set_verify
                       (Z.lor (SSL_VERIFY_PEER k) (SSL_VERIFY_CLIENT_ONCE k))
                       true c)
              else fun c => c in
            (PARSER_OK, set_ctx_head (map_ctx f (ctx_head lst)) lst, st)
        | _ => (PARSER_FAIL, lst, st)
        end
    | (_, _, st) => (PARSER_FAIL, lst, st)
    end.

Definition https_parse_disable (lst : LISTENER) (st : state)
  : PARSER_RES * LISTENER * state :=
  let '(rc, v, st) := set_proto_opt (ssl_op_enable lst) st in
  (rc, set_ssl_op_enable v lst, st).

Definition https_parse_ciphers (lst : LISTENER) (st : state)
  : PARSER_RES * LISTENER * state :=
  if is_empty (ctx_head lst) then
    (PARSER_FAIL, lst, conf_error "Ciphers may only be used after Cert" st)
  else
    let lst := set_has_other 1 lst in
    match gettkn_expect T_STRING st with
    | (None, st) => (PARSER_FAIL, lst, st)
    | (Some tok, st) =>
        (PARSER_OK,
         set_ctx_head
           (map_ctx (SSL_CTX_set_cipher_list (str tok)) (ctx_head lst)) lst,
         st)
    end.

(** [enable |= bit; disable &= ~bit] and the converse; each result is
    stored in an [int]. *)
Definition op_enable (bit : Z) (lst : LISTENER) : LISTENER :=
  set_ssl_op_disable (to_int (Z.ldiff (ssl_op_disable lst) bit))
    (set_ssl_op_enable (to_int (Z.lor (ssl_op_enable lst) bit)) lst).
Definition op_disable (bit : Z) (lst : LISTENER) : LISTENER :=
  set_ssl_op_enable (to_int (Z.ldiff (ssl_op_enable lst) bit))
    (set_ssl_op_disable (to_int (Z.lor (ssl_op_disable lst) bit)) lst).

Definition https_parse_honor_cipher_order (lst : LISTENER) (st : state)
  : PARSER_RES * LISTENER * state :=
  match assign_bool 0 st with
  | (PARSER_OK, bv, st) =>
      if negb (bv =? 0) then
        (PARSER_OK, op_enable (SSL_OP_CIPHER_SERVER_PREFERENCE (K E)) lst, st)
      else
        (PARSER_OK, op_disable (SSL_OP_CIPHER_SERVER_PREFERENCE (K E)) lst, st)
  | (_, _, st) => (PARSER_FAIL, lst, st)
  end.

Definition https_parse_allow_client_renegotiation (lst : LISTENER)
    (st : state) : PARSER_RES * LISTENER * state :=
  match assign_int_range (allow_client_reneg lst) 0 2 st with
  | (PARSER_OK, v, st) =>
      let lst := set_allow_client_reneg v lst in
      if allow_client_reneg lst =? 2 then
        (PARSER_OK,
         op_enable (SSL_OP_ALLOW_UNSAFE_LEGACY_RENEGOTIATION (K E)) lst, st)
      else
        (PARSER_OK,
         op_disable (SSL_OP_ALLOW_UNSAFE_LEGACY_RENEGOTIATION (K E)) lst, st)
  | (_, _, st) => (PARSER_FAIL, lst, st)
  end.

Definition https_parse_calist (lst : LISTENER) (st : state)
  : PARSER_RES * LISTENER * state :=
  if is_empty (ctx_head lst) then
    (PARSER_FAIL, lst, conf_error "CAList may only be used after Cert" st)
  else
    let lst := set_has_other 1 lst in
    match gettkn_expect T_STRING st with
    | (None, st) => (PARSER_FAIL, lst, st)
    | (Some tok, st) =>
        if negb (SSL_load_client_CA_file E (str tok)) then
          (PARSER_FAIL, lst, conf_openssl_error "SSL_load_client_CA_file" st)
        else
          (PARSER_OK,
           set_ctx_head
             (map_ctx (set_ctx_client_CA (Some (str tok))) (ctx_head lst)) lst,
           st)
    end.

(** The [SLIST_FOREACH] of [https_parse_verifylist]; it stops at the first
    context that fails to load the file. *)
Fixpoint load_verify_locations (fname : string) (l : list POUND_CTX)
  : bool * list POUND_CTX :=
  match l with
  | [] => (true, [])
  | pc :: rest =>
      if negb (SSL_CTX_load_verify_locations E fname) then (false, l)
      else
        let c := pc_ctx pc in
        let pc :=
          set_pc_ctx
            (set_ctx_verify_locations
               (ctx_verify_locations c ++ [fname])%list c) pc in
        let '(ok, rest) := load_verify_locations fname rest in
        (ok, pc :: rest)
  end.

Definition https_parse_verifylist (lst : LISTENER) (st : state)
  : PARSER_RES * LISTENER * state :=
  if is_empty (ctx_head lst) then
    (PARSER_FAIL, lst, conf_error "VerifyList may only be used after Cert" st)
  else
    let lst := set_has_other 1 lst in
    match gettkn_expect T_STRING st with
    | (None, st) => (PARSER_FAIL, lst, st)
    | (Some tok, st) =>
        match load_verify_locations (str tok) (ctx_head lst) with
        | (true, l) => (PARSER_OK, set_ctx_head l lst, st)
        | (false, l) =>
            (PARSER_FAIL, set_ctx_head l lst,
             conf_openssl_error "SSL_CTX_load_verify_locations" st)
        end
    end.

(** The [SLIST_FOREACH] of [https_parse_crlist]: [inl] is the name of the
    call that failed. *)
Fixpoint load_crl (fname : string) (l : list POUND_CTX)
  : option string * list POUND_CTX :=
  match l with
  | [] => (None, [])
  | pc :: rest =>
      let c := pc_ctx pc in
      if negb (X509_STORE_add_lookup E c) then
        (Some "X509_STORE_add_lookup", l)
      else if negb (X509_load_crl_file E fname) then
        (Some "X509_load_crl_file failed", l)
      else
        let k := K E in
        let c := set_ctx_crl (ctx_crl c ++ [fname])%list c in
        let c :=
          set_ctx_store_flags
            (Z.lor (ctx_store_flags c)
               (Z.lor (X509_V_FLAG_CRL_CHECK k) (X509_V_FLAG_CRL_CHECK_ALL k)))
            c in
        let '(err, rest) := load_crl fname rest in
        (err, set_pc_ctx c pc :: rest)
  end.

Definition https_parse_crlist (lst : LISTENER) (st : state)
  : PARSER_RES * LISTENER * state :=
  if is_empty (ctx_head lst) then
    (PARSER_FAIL, lst, conf_error "CRlist may only be used after Cert" st)
  else
    let lst := set_has_other 1 lst in
    match gettkn_expect T_STRING st with
    | (None, st) => (PARSER_FAIL, lst, st)
    | (Some tok, st) =>
        match load_crl (str tok) (ctx_head lst) with
        | (None, l) => (PARSER_OK, set_ctx_head l lst, st)
        | (Some msg, l) =>
            (PARSER_FAIL, set_ctx_head l lst, conf_openssl_error msg st)
        end
    end.

Definition https_parse_nohttps11 (lst : LISTENER) (st : state)
  : PARSER_RES * LISTENER * state :=
  let '(rc, v, st) := assign_int_range (noHTTPS11 lst) 0 2 st in
  (rc, set_noHTTPS11 v lst, st).

Definition https_parsetab : list (PARSER_TABLE LISTENER) :=
  [ entry "End" (leaf_nodata parse_end);
    entry "Address" (at_field l_addr set_l_addr (leaf0 assign_address));
    entry "Port" (at_field l_addr set_l_addr (leaf0 assign_port));
    entry "SocketFrom" (leaf0 listener_parse_socket_from);
    entry "xHTTP" (at_field verb set_verb (leaf0 listener_parse_xhttp));
    entry "Client" (at_field l_to set_l_to (leaf0 assign_timeout));
    entry "CheckURL" (leaf listener_parse_checkurl);
    entry "Err404" (at_field err404 set_err404 (leaf0 assign_string_from_file));
    entry "Err413" (at_field err413 set_err413 (leaf0 assign_string_from_file));
    entry "Err414" (at_field err414 set_err414 (leaf0 assign_string_from_file));
    entry "Err500" (at_field err500 set_err500 (leaf0 assign_string_from_file));
    entry "Err501" (at_field err501 set_err501 (leaf0 assign_string_from_file));
    entry "Err503" (at_field err503 set_err503 (leaf0 assign_string_from_file));
    entry "MaxRequest" (at_field max_req set_max_req (leaf0 assign_LONG));
    entry "HeadRemove" (at_field head_off set_head_off (leaf0 assign_matcher));
    entry "RewriteLocation"
      (at_field rewr_loc set_rewr_loc (leaf0 parse_rewritelocation));
    entry "RewriteDestination"
      (at_field rewr_dest set_rewr_dest (leaf0 assign_bool));
    entry "LogLevel" (at_field l_log_level set_l_log_level (leaf0 assign_int));
    entry "AddHeader"
      (at_field add_head set_add_head (leaf0 append_string_line));
    entry "Service" (at_field services set_services parse_service);
    entry "Cert" (leaf0 https_parse_cert);
    entry "ClientCert" (leaf0 https_parse_client_cert);
    entry "Disable" (leaf0 https_parse_disable);
    entry "Ciphers" (leaf0 https_parse_ciphers);
    entry "SSLHonorCipherOrder" (leaf0 https_parse_honor_cipher_order);
    entry "SSLAllowClientRenegotiation"
      (leaf0 https_parse_allow_client_renegotiation);
    entry "CAlist" (leaf0 https_parse_calist);
    entry "VerifyList" (leaf0 https_parse_verifylist);
    entry "CRLlist" (leaf0 https_parse_crlist);
    entry "NoHTTPS11" (leaf0 https_parse_nohttps11) ].

(** The closing [SLIST_FOREACH] of [parse_listen_https].  The option
    words of the listener are [int]s and are converted to the type of the
    parameter of [SSL_CTX_set_options] and [SSL_CTX_clear_options]. *)
Fixpoint finish_contexts (lst : LISTENER) (l : list POUND_CTX) (st : state)
  : list POUND_CTX * state :=
  match l with
  | [] => ([], st)
  | pc :: rest =>
      let c := pc_ctx pc in
      let c := SSL_CTX_set_app_data c in
      let c := SSL_CTX_set_mode (SSL_MODE_AUTO_RETRY (K E)) c in
      let c := SSL_CTX_set_options (to_uint64 (ssl_op_enable lst)) c in
      let c := SSL_CTX_clear_options (to_uint64 (ssl_op_disable lst)) c in
      let '(sid, st) := session_id st in
      let c := SSL_CTX_set_session_id_context sid c in
      let c := POUND_SSL_CTX_init c in
      let c := set_ctx_info_cb true c in
      let '(rest, st) := finish_contexts lst rest st in
      (set_pc_ctx c pc :: rest, st)
  end.

Definition parse_listen_https : PARSER (list LISTENER) :=
  fun n list_head dfl st =>
    match listener_alloc dfl st with
    | (None, st) => Ret (PARSER_FAIL, list_head, st)
    | (Some lst, st) =>
        let k := K E in
        let lst := set_ssl_op_enable (to_int (SSL_OP_ALL k)) lst in
        let lst :=
          set_ssl_op_enable
            (to_int (Z.lor (ssl_op_enable lst) (SSL_OP_NO_COMPRESSION k)))
            lst in
        let lst :=
          set_ssl_op_disable
            (to_int
               (Z.lor (Z.lor (SSL_OP_ALLOW_UNSAFE_LEGACY_RENEGOTIATION k)
                         (SSL_OP_LEGACY_SERVER_CONNECT k))
                  (SSL_OP_DONT_INSERT_EMPTY_FRAGMENTS k))) lst in
        match parser_loop n https_parsetab lst (fun _ => dfl)
                (Some zero_range) st with
        | Fuel => Fuel
        | Fault => Fault
        | Ret (PARSER_OK, lst, range, st) =>
            match check_addrinfo (l_addr lst) range "ListenHTTPS" st with
            | (PARSER_OK, st) =>
                match ctx_head lst with
                | [] =>
                    Ret (PARSER_FAIL, list_head,
                         conf_error_at_locus_range range
                           "Cert statement is missing" st)
                | pc :: rest =>
                    if negb (SSL_CTX_set_tlsext_servername E (pc_ctx pc)) then
                      Ret (PARSER_FAIL, list_head,
                           conf_openssl_error "can't set SNI callback" st)
                    else
                      let pc := set_pc_ctx (set_ctx_sni_cb true (pc_ctx pc)) pc in
                      let '(l, st) := finish_contexts lst (pc :: rest) st in
                      let lst := set_ctx_head l lst in
                      Ret (PARSER_OK, SLIST_PUSH list_head lst, st)
                end
            | (_, st) => Ret (PARSER_FAIL, list_head, st)
            end
        | Ret (_, _, _, st) => Ret (PARSER_FAIL, list_head, st)
        end
    end.

(** ** Server name indication *)

(** What [SNI_server_name] returns, with the context it has selected. *)
Inductive sni_result :=
| SSL_TLSEXT_ERR_NOACK
| SSL_TLSEXT_ERR_OK (selected : SSL_CTX).

(** The [SLIST_FOREACH] of [SNI_server_name]: the context of the first
    entry whose server name or one of whose alternative names matches. *)
Fixpoint sni_search (fnmatch : string -> string -> Z) (nm : string)
    (l : list POUND_CTX) : option SSL_CTX :=
  match l with
  | [] => None
  | pc :: rest =>
      if fnmatch (server_name pc) nm =? 0 then Some (pc_ctx pc)
      else if existsb (fun alt => fnmatch alt nm =? 0) (subjectAltNames pc)
      then Some (pc_ctx pc)
      else sni_search fnmatch nm rest
  end.

(** [SNI_server_name]; [server_name] is what [SSL_get_servername] gives,
    and [fnmatch] the function of the C library, called with no flags. *)
Definition SNI_server_name (fnmatch : string -> string -> Z)
    (servername : option string) (ctx_head : list POUND_CTX)
  : result sni_result :=
  match servername with
  | None => Ret SSL_TLSEXT_ERR_NOACK
  | Some nm =>
      match sni_search fnmatch nm ctx_head with
      | Some c => Ret (SSL_TLSEXT_ERR_OK c)
      | None =>
          match ctx_head with
          | pc :: _ => Ret (SSL_TLSEXT_ERR_OK (pc_ctx pc))
          | [] => Fault
          end
      end
  end.

(** ** Top level *)

Definition top_level_parsetab : list (PARSER_TABLE POUND_DEFAULTS) :=
  [ entry "Include" (leaf_nodata parse_include);
    entry "User" (at_global user set_user (leaf0 assign_string));
    entry "Group" (at_global group set_group (leaf0 assign_string));
    entry "RootJail" (at_global root_jail set_root_jail (leaf0 assign_string));
    entry "Daemon" (at_global daemonize set_daemonize (leaf0 assign_bool));
    entry "Supervisor"
      (at_global enable_supervisor set_enable_supervisor (leaf0 assign_bool));
    entry "Threads" (at_global numthreads set_numthreads (leaf0 assign_unsigned));
    entry "Grace" (at_global grace set_grace (leaf0 assign_timeout));
    entry "LogFacility"
      (at_field facility set_facility
         (fun _ v _ st => assign_log_facility v st));
    entry "LogLevel" (at_field log_level set_log_level (leaf0 assign_log_level));
    entry "Alive" (at_global alive_to set_alive_to (leaf0 assign_timeout));
    entry "Client" (at_field clnt_to set_clnt_to (leaf0 assign_timeout));
    entry "TimeOut" (at_field be_to set_be_to (leaf0 assign_timeout));
    entry "WSTimeOut" (at_field dfl_ws_to set_dfl_ws_to (leaf0 assign_timeout));
    entry "ConnTO" (at_field be_connto set_be_connto (leaf0 assign_timeout));
    entry "IgnoreCase" (at_field ignore_case set_ignore_case (leaf0 assign_bool));
    entry "ECDHCurve" (leaf_nodata parse_ECDHCurve);
    entry "SSLEngine" (leaf_nodata parse_SSLEngine);
    entry "Control" (at_global ctrl_name set_ctrl_name (leaf0 assign_string));
    entry "Anonymise" (at_global anonymise set_anonymise (leaf0 int_set_one));
    entry "Anonymize" (at_global anonymise set_anonymise (leaf0 int_set_one));
    entry "Service" (at_global g_services set_g_services parse_service);
    entry "ListenHTTP" (at_global g_listeners set_g_listeners parse_listen_http);
    entry "ListenHTTPS"
      (at_global g_listeners set_g_listeners parse_listen_https) ].

Definition pound_defaults : POUND_DEFAULTS :=
  mk_defaults 1 LOG_DAEMON 10 15 600 15 0.

(** How [parse_config_file] ends: it returns [res], or it calls [exit]. *)
Inductive config_outcome :=
| Returned (res : Z)
| Exited (status : Z).

Definition parse_config_file (n : nat) (fname : string) (st : state)
  : result (config_outcome * state) :=
  match push_input fname st with
  | (0, st) =>
      match parser_loop n top_level_parsetab pound_defaults (fun d => d)
              None st with
      | Fuel => Fuel
      | Fault => Fault
      | Ret (PARSER_OK, dfl, _, st) =>
          match cur_input st with
          | _ :: _ => Ret (Exited 1, st)
          | [] =>
              Ret (Returned 0,
                   set_glob (set_log_facility (facility dfl) (glob st)) st)
          end
      | Ret (_, _, _, st) => Ret (Returned 2, st)
      end
  | (_, st) => Ret (Returned (-1), st)
  end.

(** ** Features *)

(** The feature table: one feature, which has no [setfn]; its [enabled]
    member is the [feature_dns] of the state. *)
Definition feature_names : list string := ["dns"].

(** [strchr (name, '=')]: the number of characters before the first '='
    and the text after it. *)
Fixpoint strchr_eq (s : string) : option (nat * string) :=
  match s with
  | EmptyString => None
  | String c r =>
      if Ascii.eqb c "=" then Some (O, r)
      else
        match strchr_eq r with
        | Some (k, v) => Some (S k, v)
        | None => None
        end
  end.

(** [memcmp (a, b, len) == 0] on strings that hold [len] characters. *)
Fixpoint memcmp_eq (a b : string) (len : nat) : bool :=
  match len with
  | O => true
  | S k =>
      match a, b with
      | String x a', String y b' => Ascii.eqb x y && memcmp_eq a' b' k
      | _, _ => false
      end
  end.

(** [strncmp (name, "no-", 3) == 0], and [name + 3]. *)
Definition strip_no (s : string) : option string :=
  match s with
  | String c0 (String c1 (String c2 r)) =>
      if Ascii.eqb c0 "n" && Ascii.eqb c1 "o" && Ascii.eqb c2 "-"
      then Some r else None
  | _ => None
  end.

(** The loop of [feature_set] over the table. *)
Fixpoint feature_loop (tab : list string) (nm : string) (len : nat)
    (val : option string) (enabled : Z) (st : state) : Z * state :=
  match tab with
  | [] => (-1, st)
  | f :: rest =>
      if Nat.eqb (String.length f) len && memcmp_eq f nm len then
        match val with
        | Some _ => (-1, st)
        | None => (0, set_feature_dns enabled st)
        end
      else feature_loop rest nm len val enabled st
  end.

Definition feature_set (nm : string) (st : state) : Z * state :=
  let '(len, val) :=
    match strchr_eq nm with
    | Some (k, v) => (k, Some v)
    | None => (String.length nm, None)
    end in
  let '(nm, len, enabled) :=
    match val, strip_no nm with
    | None, Some r => (r, (len - 3)%nat, F_OFF)
    | _, _ => (nm, len, F_ON)
    end in
  match nm with
  | EmptyString => (-1, st)
  | String _ _ => feature_loop feature_names nm len val enabled st
  end.

End WithEnv.

(** ** A concrete outside world

    A small file system, a resolver for dotted numeric addresses, a syntax
    check in place of the POSIX regex compiler, and an OpenSSL in which
    every certificate file that exists loads.  It serves to run the parser
    on configuration texts. *)

Module Demo.

(** Values of the OpenSSL 3 and Linux headers. *)
Definition consts : consts :=
  {| UNIX_PATH_MAX := 108;
     SERVICE_NAME_SIZE := 128;
     SSL_OP_ALL := 0x80000850;
     SSL_OP_NO_COMPRESSION := 0x00020000;
     SSL_OP_NO_SSLv2 := 0;
     SSL_OP_NO_SSLv3 := 0x02000000;
     SSL_OP_NO_TLSv1 := 0x04000000;
     SSL_OP_NO_TLSv1_1 := 0x10000000;
     SSL_OP_NO_TLSv1_2 := 0x08000000;
     SSL_OP_CIPHER_SERVER_PREFERENCE := 0x00400000;
     SSL_OP_ALLOW_UNSAFE_LEGACY_RENEGOTIATION := 0x00040000;
     SSL_OP_LEGACY_SERVER_CONNECT := 0x4;
     SSL_OP_DONT_INSERT_EMPTY_FRAGMENTS := 0x800;
     SSL_MODE_AUTO_RETRY := 0x4;
     SSL_MODE_SEND_FALLBACK_SCSV := 0x80;
     SSL_VERIFY_NONE := 0;
     SSL_VERIFY_PEER := 1;
     SSL_VERIFY_FAIL_IF_NO_PEER_CERT := 2;
     SSL_VERIFY_CLIENT_ONCE := 4;
     X509_V_FLAG_CRL_CHECK := 0x4;
     X509_V_FLAG_CRL_CHECK_ALL := 0x8;
     GEN_DNS := 2 |}.

(** A file: its identity and its content. *)
Record demo_file := mk_file {
  f_name : string;
  f_ino : Z;
  f_dev : Z;
  f_content : string
}.

Fixpoint lookup_file (fs : list demo_file) (nm : string) : option demo_file :=
  match fs with
  | [] => None
  | f :: rest => if streq (f_name f) nm then Some f else lookup_file rest nm
  end.

Definition ENOENT : string := "No such file or directory".

Definition demo_stat (fs : list demo_file) (nm : string) : string + stat_t :=
  match lookup_file fs nm with
  | Some f => inr (mk_stat (f_ino f) (f_dev f) false (strlen (f_content f)))
  | None => inl ENOENT
  end.

Definition demo_fopen (fs : list demo_file) (nm : string)
  : string + list ascii :=
  match lookup_file fs nm with
  | Some f => inr (list_ascii_of_string (f_content f))
  | None => inl ENOENT
  end.

(** Dotted numeric IPv4 addresses resolve; nothing else does. *)
Fixpoint all_chars (p : ascii -> bool) (s : string) : bool :=
  match s with
  | EmptyString => true
  | String c r => p c && all_chars p r
  end.

Definition is_numeric_host (s : string) : bool :=
  match s with
  | EmptyString => false
  | String c _ =>
      isdigit c && all_chars (fun c => isdigit c || Ascii.eqb c ".") s
  end.

Definition EAI_NONAME : Z := -2.
Definition IPPROTO_TCP : Z := 6.

Definition demo_get_host (nm : string) (res : addrinfo) (fam : Z)
  : Z * addrinfo :=
  if is_numeric_host nm then
    (0, mk_addrinfo 0 AF_INET SOCK_STREAM IPPROTO_TCP 16
          (Some (mk_sockaddr AF_INET 0 nm)))
  else (EAI_NONAME, res).

Definition demo_getaddrinfo (service : string) (hints : addrinfo)
  : Z + addrinfo :=
  if all_chars isdigit service && negb (streq service "") then
    inr (mk_addrinfo 0 (ai_family hints) (ai_socktype hints)
           (ai_protocol hints) 16
           (Some (mk_sockaddr (ai_family hints) (atoi service) "")))
  else inl (-8).

(** In place of [regcomp]: an expression is refused when a parenthesis
    outside a bracket expression is unmatched (REG_EPAREN, 8) or a bracket
    expression is not closed (REG_EBRACK, 7), as POSIX extended syntax
    demands; everything else compiles.  [depth] counts the open groups,
    [in_br] tells whether a bracket expression is open and [first] whether
    its first character is still to come. *)
Fixpoint regex_syntax (s : string) (depth : nat) (in_br first : bool) : Z :=
  match s with
  | EmptyString => if in_br then 7 else match depth with O => 0 | _ => 8 end
  | String c r =>
      if in_br then
        if Ascii.eqb c "]" && negb first then regex_syntax r depth false false
        else if Ascii.eqb c "^" && first then regex_syntax r depth true true
        else regex_syntax r depth true false
      else if Ascii.eqb c BACKSLASH then
        match r with
        | String _ r' => regex_syntax r' depth false false
        | EmptyString => 5
        end
      else if Ascii.eqb c "[" then regex_syntax r depth true true
      else if Ascii.eqb c "(" then regex_syntax r (S depth) false false
      else if Ascii.eqb c ")" then
        match depth with
        | O => 8
        | S d => regex_syntax r d false false
        end
      else regex_syntax r depth false false
  end.

Definition demo_regcomp (expr : string) (flags : Z) : Z :=
  regex_syntax expr O false false.

Definition demo_regerror (rc : Z) : string :=
  if rc =? 8 then "Unmatched ( or \("
  else if rc =? 7 then "Unmatched [, [^, [:, [., or [="
  else if rc =? 5 then "Trailing backslash"
  else "Unknown error".

(** Modelled from the spec: the expression [LOCATION] is compiled outside
    [config.c].  The spec has a redirect URL match a fixed
    "scheme://host[:port]/path" grammar of which the path is the third
    group; the expression below is that grammar, and [location_search] is
    its leftmost-longest match (case-insensitive, no newline matched by a
    class or a dot). *)
Definition LOCATION_expr : string := "(http|https)://([^/]+)(.*)".

Fixpoint ci_prefix (p s : string) : option string :=
  match p, s with
  | EmptyString, _ => Some s
  | String a p', String b s' =>
      if Ascii.eqb (tolower a) (tolower b) then ci_prefix p' s' else None
  | String _ _, EmptyString => None
  end.

Fixpoint span (p : ascii -> bool) (s : string) : Z * string :=
  match s with
  | EmptyString => (0, s)
  | String c r => if p c then let '(n, rest) := span p r in (n + 1, rest)
                  else (0, s)
  end.

(** A match anchored at the start of [s]: the lengths of the three groups. *)
Definition location_at (s : string) : option (Z * Z * Z) :=
  let after_scheme (len : Z) (r : string) :=
    match ci_prefix "://" r with
    | Some r2 =>
        let '(h, r3) :=
          span (fun c => negb (Ascii.eqb c "/") && negb (Ascii.eqb c NL)) r2 in
        if h =? 0 then None
        else let '(p, _) := span (fun c => negb (Ascii.eqb c NL)) r3 in
             Some (len, h, p)
    | None => None
    end in
  match ci_prefix "http" s with
  | Some r1 =>
      match after_scheme 4 r1 with
      | Some x => Some x
      | None =>
          match ci_prefix "s" r1 with
          | Some r1' => after_scheme 5 r1'
          | None => None
          end
      end
  | None => None
  end.

Fixpoint location_search (off : Z) (s : string) : option (list regmatch_t) :=
  match location_at s with
  | Some (a, h, p) =>
      Some [ mk_regmatch off (off + a + 3 + h + p);
             mk_regmatch off (off + a);
             mk_regmatch (off + a + 3) (off + a + 3 + h);
             mk_regmatch (off + a + 3 + h) (off + a + 3 + h + p) ]
  | None =>
      match s with
      | EmptyString => None
      | String _ r => location_search (off + 1) r
      end
  end.

Definition demo_regexec (rx : regex_t) (s : string) (nmatch : Z)
  : option (list regmatch_t) :=
  if streq (re_expr rx) LOCATION_expr then location_search 0 s else None.

Definition fresh_ctx (server : bool) : SSL_CTX :=
  mk_ssl_ctx server None None 0 false 100 0 0 None None [] [] 0 "" false
    false false false.

(** A certificate file holds its subject line. *)
Fixpoint first_line (l : list ascii) : string :=
  match l with
  | [] => EmptyString
  | c :: r => if Ascii.eqb c NL then EmptyString else String c (first_line r)
  end.

Definition demo_read_x509 (content : list ascii) : option X509 :=
  match content with
  | [] => None
  | _ :: _ => Some (mk_x509 (first_line content) None)
  end.

Definition is_inr {A B : Type} (x : A + B) : bool :=
  match x with inr _ => true | inl _ => false end.

Definition env (fs : list demo_file) : env :=
  {| K := consts;
     stat := demo_stat fs;
     fopen := demo_fopen fs;
     errno_str := ENOENT;
     get_host := demo_get_host;
     getaddrinfo := demo_getaddrinfo;
     gai_strerror := fun _ => "Servname not supported for ai_socktype";
     regcomp := demo_regcomp;
     regerror := demo_regerror;
     LOCATION := mk_regex LOCATION_expr RX_ICASE_NEWLINE_EXTENDED;
     regexec := demo_regexec;
     SSL_CTX_new := fun server => Some (fresh_ctx server);
     SSL_CTX_use_certificate_chain_file := fun f => is_inr (demo_stat fs f);
     SSL_CTX_use_PrivateKey_file := fun f => is_inr (demo_stat fs f);
     SSL_CTX_check_private_key := fun _ => true;
     PEM_read_X509 := demo_read_x509;
     SSL_load_client_CA_file := fun f => is_inr (demo_stat fs f);
     SSL_CTX_load_verify_locations := fun f => is_inr (demo_stat fs f);
     X509_STORE_add_lookup := fun _ => true;
     X509_load_crl_file := fun f => is_inr (demo_stat fs f);
     SSL_CTX_set_tlsext_servername := fun _ => true;
     ERR_queue := fun _ => [];
     ERR_error_string := fun _ => "error:00000000:lib(0)::reason(0)";
     getpid := 4242;
     random := fun n => Z.of_nat n;
     sys_socket := inl "Operation not permitted";
     sys_connect := fun _ _ => inl "Connection refused";
     read_fd := fun _ => -1;
     getsockname := fun _ => inl "Bad file descriptor";
     addr2str := fun _ => "" |}.

(** The state in which [parse_config_file] is entered. *)
Definition zero_globals : globals :=
  mk_globals None None None None 0 0 0 0 0 0 [] [] 0.

Definition init_state : state := mk_state [] [] F_ON zero_globals [] O.

(** Lines of a configuration text. *)
Fixpoint lines (l : list string) : string :=
  match l with
  | [] => EmptyString
  | x :: r => x ++ String NL (lines r)
  end.

Definition quoted (s : string) : string :=
  String DQUOTE s ++ String DQUOTE EmptyString.

(** A state in the middle of a parse: [main] is open and nothing of [text]
    has been read. *)
Definition reading (text : string) : state :=
  mk_state
    [mk_input (list_ascii_of_string text) 1 1 (mk_point (Some "main") 1 0)
       0 zero_token false ""]
    ["main"] F_ON zero_globals [] O.

End Demo.

(** ** Vocabulary of the properties *)

(** The token types of an unquoted word. *)
Definition unquoted (t : Z) : Prop :=
  t = T_IDENT \/ t = T_NUMBER \/ t = T_LITERAL.

(** The literals of [assign_bool]. *)
Definition bool_true_lexemes : list string := ["1"; "yes"; "true"; "on"].
Definition bool_false_lexemes : list string := ["0"; "no"; "false"; "off"].

(** All bits of [m] are set in [a]. *)
Definition covers (a m : Z) : Prop := Z.land a m = m.

(** The option mask that the claim about [set_proto_opt] tabulates for a
    protocol name: the NO-option of the protocol ORed with those of all
    older protocols. *)
Definition proto_mask (k : consts) (nm : string) : option Z :=
  if String.eqb nm "SSLv2" then Some (SSL_OP_NO_SSLv2 k)
  else if String.eqb nm "SSLv3" then
    Some (Z.lor (SSL_OP_NO_SSLv2 k) (SSL_OP_NO_SSLv3 k))
  else if String.eqb nm "TLSv1" then
    Some (Z.lor (Z.lor (SSL_OP_NO_SSLv2 k) (SSL_OP_NO_SSLv3 k))
            (SSL_OP_NO_TLSv1 k))
  else if String.eqb nm "TLSv1_1" then
    Some (Z.lor (Z.lor (Z.lor (SSL_OP_NO_SSLv2 k) (SSL_OP_NO_SSLv3 k))
                   (SSL_OP_NO_TLSv1 k))
            (SSL_OP_NO_TLSv1_1 k))
  else if String.eqb nm "TLSv1_2" then
    Some (Z.lor (Z.lor (Z.lor (Z.lor (SSL_OP_NO_SSLv2 k) (SSL_OP_NO_SSLv3 k))
                          (SSL_OP_NO_TLSv1 k))
                   (SSL_OP_NO_TLSv1_1 k))
            (SSL_OP_NO_TLSv1_2 k))
  else None.

(** The identity of an open input, and the include-stack invariant. *)
Definition input_key (i : input) : Z * Z := (devno i, ino i).

Definition stack_distinct (stack : list input) : Prop :=
  NoDup (map input_key stack).

Definition matches_stat (s : stat_t) (i : input) : Prop :=
  ino i = st_ino s /\ devno i = st_dev s.

(** The invariant as a property of the parser state. *)
Definition Istack (st : state) : Prop := stack_distinct (cur_input st).

(** A stack of two open inputs: [a.cfg], included from [main.cfg]. *)
Definition two_inputs : state :=
  mk_state
    [ mk_input [] 11 1 (mk_point (Some "a.cfg") 1 0) 0 zero_token false "";
      mk_input [] 10 1 (mk_point (Some "main.cfg") 2 0) 0 zero_token false "" ]
    ["a.cfg"; "main.cfg"] F_ON Demo.zero_globals [] O.

Definition two_files : list Demo.demo_file :=
  [ Demo.mk_file "main.cfg" 10 1 "";
    Demo.mk_file "a.cfg" 11 1 "" ].






(** The run of the section parser inside [parse_session]. *)
Definition session_loop (n : nat) (dfl : POUND_DEFAULTS) (st : state)
  : result (PARSER_RES * service_session * option locus_range * state) :=
  parser_loop n session_parsetab (mk_session SESS_NONE None 0)
    (fun _ => dfl) (Some zero_range) st.

(** The table of session expressions as the spec gives it: for a session
    type and the configured ID, the expression that finds the key and the
    expression that extracts the value; the escape written \t in the spec
    is the tab character. *)
Definition tab : string := String TAB "".

Definition session_table (t : SESS_TYPE) (ID : string)
  : option (string * string) :=
  match t with
  | SESS_COOKIE =>
      Some ("Cookie[^:]*:.*[ " ++ tab ++ "]" ++ ID ++ "=", "([^;]*)")
  | SESS_URL => Some ("[?&]" ++ ID ++ "=", "([^&;#]*)")
  | SESS_PARM => Some (";", "([^?]*)")
  | SESS_BASIC =>
      Some ("Authorization:[ " ++ tab ++ "]*Basic[ " ++ tab ++ "]*",
            "([^ " ++ tab ++ "]*)")
  | SESS_HEADER => Some (ID ++ ":[ " ++ tab ++ "]*", "([^ " ++ tab ++ "]*)")
  | SESS_IP | SESS_NONE => None
  end.

(** The three conditions under which the claim about [parse_session] has
    it fail. *)
Definition session_incomplete (sess : service_session) : Prop :=
  s_type sess = SESS_NONE \/ ttl sess = 0 \/
  (is_id_session (s_type sess) = true /\ id sess = None).

(** One of the two expressions of the session does not compile. *)
Definition session_regex_fails (E : env) (sess : service_session) : Prop :=
  exists ID e_start e_pat,
    (is_id_session (s_type sess) = true -> id sess = Some ID) /\
    session_table (s_type sess) ID = Some (e_start, e_pat) /\
    (regcomp E e_start RX_ICASE_NEWLINE_EXTENDED <> 0 \/
     regcomp E e_pat RX_ICASE_NEWLINE_EXTENDED <> 0).

Definition session_fails (E : env) (n : nat) (sv : SERVICE)
    (dfl : POUND_DEFAULTS) (st : state) : Prop :=
  exists sv' st', parse_session E n sv dfl st = Ret (PARSER_FAIL, sv', st').

(** The claim as the spec states it: once the section has been read,
    failure is equivalent to one of the three conditions. *)
Definition session_fail_iff (E : env) (n : nat) (sv : SERVICE)
    (dfl : POUND_DEFAULTS) (st : state) : Prop :=
  forall sess range st1,
    session_loop n dfl st = Ret (PARSER_OK, sess, range, st1) ->
    (session_fails E n sv dfl st <-> session_incomplete sess).

(** Session sections: the one of the spec's cookie scenario, and one whose
    ID is an opening parenthesis. *)
Definition cookie_session_text : string :=
  Demo.lines [ "Type COOKIE"; "ID " ++ Demo.quoted "JSESSIONID"; "TTL 300";
               "End" ].

Definition paren_session_text : string :=
  Demo.lines [ "Type COOKIE"; "ID " ++ Demo.quoted "("; "TTL 300"; "End" ].

Definition PARSER_RES_eq_dec (a b : PARSER_RES) : {a = b} + {a <> b}.
Proof. decide equality. Defined.

(** The value a run returned. *)
Definition returned {A : Type} (d : A) (r : result A) : A :=
  match r with
  | Ret a => a
  | Fault | Fuel => d
  end.

(** Modelled from the spec: [get_host] is defined in [svc.c], which is not
    among the sources at hand.  The spec's address specification has every
    resolved address carry socket type STREAM; this is that property of the
    resolver, for the calls that succeed. *)
Definition resolver_gives_stream (E : env) : Prop :=
  forall nm a fam a',
    get_host E nm a fam = (0, a') -> ai_socktype a' = SOCK_STREAM.

(** An address that has been set is a stream address. *)
Definition stream_if_set (a : addrinfo) : Prop :=
  ADDRINFO_HAS_ADDRESS a = true -> ai_socktype a = SOCK_STREAM.

(** What the statements that work on the whole BACKEND leave alone: the
    priority, the flags and the address, but for the port in its
    [sockaddr], which an HAport statement with one argument stores. *)
Definition same_core (a b : BACKEND) : Prop :=
  (addr b = addr a \/
   exists p,
     addr b = set_ai_addr (option_map (set_sa_port p) (ai_addr (addr a)))
                (addr a))
  /\ priority b = priority a /\ alive b = alive a
  /\ disabled b = disabled a.

Definition inet_backend_text : string :=
  Demo.lines ["Address 10.0.0.1"; "Port 8080"; "End"].

Definition unix_backend_text : string :=
  Demo.lines ["Address /run/app.sock"; "End"].

(** The sum of the priorities of a list of back-ends. *)
Definition pri_sum (bes : list BACKEND) : Z :=
  fold_right (fun be acc => priority be + acc) 0 bes.

(** The back-ends the loop of [parse_service] counts in [tot_pri]. *)
Definition enabled (be : BACKEND) : bool := disabled be =? 0.

Definition alive_enabled (be : BACKEND) : bool :=
  negb (alive be =? 0) && enabled be.

(** A back-end as the configuration creates it. *)
Definition fresh_backend (be : BACKEND) : Prop :=
  alive be = 1 /\ disabled be = 0 /\ 0 <= priority be <= 9.

Definition priorities_summed (s : SERVICE) : Prop :=
  abs_pri s = pri_sum (backends s) /\
  tot_pri s = pri_sum (filter enabled (backends s)) /\
  tot_pri s = pri_sum (filter alive_enabled (backends s)) /\
  tot_pri s <= abs_pri s /\
  (0 < tot_pri s ->
   exists be, In be (backends s) /\ disabled be = 0 /\ 0 < priority be).

(** What the statements of a Service section leave alone, bar Redirect
    and Backend. *)
Definition same_backends (a b : SERVICE) : Prop :=
  backends b = backends a /\ tot_pri b = tot_pri a /\ abs_pri b = abs_pri a.

Definition unsummed (s : SERVICE) : Prop :=
  Forall fresh_backend (backends s) /\ tot_pri s = 0 /\ abs_pri s = 0.

Definition service_text : string :=
  Demo.lines
    [ "";
      "Backend"; "Address 10.0.0.1"; "Port 8080"; "Priority 3"; "End";
      "Redirect " ++ Demo.quoted "http://example.org/moved";
      "Backend"; "Address 10.0.0.2"; "Port 8080"; "End";
      "End" ].

(** What the statements of a ListenHTTPS section that do not deal with
    certificates leave alone. *)
Definition same_tls (a b : LISTENER) : Prop :=
  has_other b = has_other a /\ ctx_head b = ctx_head a.

(** A listener that has seen one of the statements that follow Cert and
    holds [k] TLS contexts. *)
Definition cert_closed (k : nat) (lst : LISTENER) : Prop :=
  has_other lst <> 0 /\ List.length (ctx_head lst) = k.

(** The five statements that must follow Cert: the keyword of the table,
    the name the diagnostic uses, and the handler. *)
Definition after_cert_statements (E : env)
  : list (string * string
          * (LISTENER -> state -> PARSER_RES * LISTENER * state)) :=
  [ ("ClientCert", "ClientCert", https_parse_client_cert E);
    ("Ciphers", "Ciphers", https_parse_ciphers);
    ("CAlist", "CAList", https_parse_calist E);
    ("VerifyList", "VerifyList", https_parse_verifylist E);
    ("CRLlist", "CRlist", https_parse_crlist E) ].

(** The option words [parse_listen_https] gives the listener it
    allocated, and the run of its section. *)
Definition https_options (E : env) (lst : LISTENER) : LISTENER :=
  let k := K E in
  set_ssl_op_disable
    (to_int
       (Z.lor (Z.lor (SSL_OP_ALLOW_UNSAFE_LEGACY_RENEGOTIATION k)
                 (SSL_OP_LEGACY_SERVER_CONNECT k))
          (SSL_OP_DONT_INSERT_EMPTY_FRAGMENTS k)))
    (set_ssl_op_enable
       (to_int (Z.lor (to_int (SSL_OP_ALL k)) (SSL_OP_NO_COMPRESSION k)))
       lst).

Definition https_loop (E : env) (n : nat) (dfl : POUND_DEFAULTS)
    (lst : LISTENER) (st : state)
  : result (PARSER_RES * LISTENER * option locus_range * state) :=
  parser_loop n (https_parsetab E) (https_options E lst) (fun _ => dfl)
    (Some zero_range) st.

(** Certificate files, and three ListenHTTPS sections: one with two
    certificates, one with none, one with a Cert after Ciphers. *)
Definition cert_files : list Demo.demo_file :=
  [ Demo.mk_file "a.pem" 11 1 (Demo.lines ["/CN=a.example.org"]);
    Demo.mk_file "b.pem" 12 1 (Demo.lines ["/CN=b.example.org"]) ].

Definition two_certs_text : string :=
  Demo.lines
    [ ""; "Address 10.0.0.1"; "Port 443";
      "Cert " ++ Demo.quoted "a.pem"; "Cert " ++ Demo.quoted "b.pem";
      "Ciphers " ++ Demo.quoted "HIGH"; "End" ].

Definition no_cert_text : string :=
  Demo.lines [""; "Address 10.0.0.1"; "Port 443"; "End"].

Definition late_cert_text : string :=
  Demo.lines
    [ ""; "Address 10.0.0.1"; "Port 443";
      "Cert " ++ Demo.quoted "a.pem"; "Ciphers " ++ Demo.quoted "HIGH";
      "Cert " ++ Demo.quoted "b.pem"; "End" ].

(** A handler that never closes its section. *)
Definition never_ends {T : Type} (h : PARSER T) : Prop :=
  forall n t dfl st r t' st',
    h n t dfl st = Ret (r, t', st') -> r <> PARSER_END.

(** A configuration file with a line that starts with a number, and a
    Service section that the file ends in. *)
Definition stray_number_files : list Demo.demo_file :=
  [ Demo.mk_file "pound.cfg" 10 1
      (Demo.lines ["42"; "Threads 8"]) ].

Definition open_section_files : list Demo.demo_file :=
  [ Demo.mk_file "pound.cfg" 10 1
      (Demo.lines ["Service"; "Disabled yes"]) ].

(** An address that names its host and, where the family has ports, its
    port. *)
Definition address_complete (a : addrinfo) : Prop :=
  ADDRINFO_HAS_ADDRESS a = true /\
  (ADDRINFO_HAS_PORT a = true \/
   ai_family a <> AF_INET /\ ai_family a <> AF_INET6).

Definition inet_family (a : addrinfo) : Prop :=
  ai_family a = AF_INET \/ ai_family a = AF_INET6.

Definition http_listener_text : string :=
  Demo.lines [""; "Address 10.0.0.1"; "Port 8080"; "End"].

Definition host_token (s : string) : token := mk_token T_STRING s zero_range.

(** The token types an Address statement takes. *)
Definition names_host (tok : token) : Prop :=
  type tok = T_IDENT \/ type tok = T_LITERAL \/ type tok = T_STRING.

(** The UNIX-domain address built for a path. *)
Definition unix_address (path : string) (a : addrinfo) : Prop :=
  ai_family a = AF_UNIX /\ ai_socktype a = SOCK_STREAM /\
  ai_protocol a = 0 /\
  ai_addr a = Some (mk_sockaddr AF_UNIX 0 path) /\
  ai_addrlen a = strlen path + SUN_PATH_OFFSET + 1 /\
  ADDRINFO_HAS_ADDRESS a = true /\ ADDRINFO_HAS_PORT a = false.

(** What a numeric statement returns: PARSER_OK with a value between [lo]
    and [hi], or PARSER_FAIL with the value the target held. *)
Definition stores_within (lo hi old : Z) (out : PARSER_RES * Z * state)
  : Prop :=
  fst (fst out) = PARSER_OK /\ lo <= snd (fst out) <= hi \/
  fst (fst out) = PARSER_FAIL /\ snd (fst out) = old.

(** Every character of a string passes a test. *)
Definition chars_all (p : ascii -> bool) (s : string) : Prop :=
  Forall (fun c => p c = true) (list_ascii_of_string s).

Definition not_newline (c : ascii) : bool := negb (Ascii.eqb c NL).

(** The tokens of the scanner: the seven types, and what the lexeme of a
    quoted string, a number and an identifier is made of. *)
Definition lexed (tok : token) : Prop :=
  type tok = EOF \/ type tok = T_NEWLINE \/ type tok = T_ERROR \/
  type tok = T_LITERAL \/
  type tok = T_STRING /\ chars_all not_newline (str tok) \/
  type tok = T_NUMBER /\ str tok <> "" /\ chars_all isdigit (str tok) \/
  type tok = T_IDENT /\
  exists c r,
    str tok = String c r /\ is_ident_start c = true /\
    chars_all is_ident_cont r.

(** An input that has just been opened on a text. *)
Definition fresh_input (text : string) : input :=
  mk_input (list_ascii_of_string text) 1 1 (mk_point (Some "main") 1 0) 0
    zero_token false "".

(** A value in the range of [int]. *)
Definition int_word (v : Z) : Prop := INT_MIN <= v <= INT_MAX.

(** An option bit set is held by exactly one of the two option words of a
    listener. *)
Definition option_on (bit : Z) (lst : LISTENER) : Prop :=
  covers (ssl_op_enable lst) bit /\ Z.land (ssl_op_disable lst) bit = 0.

Definition option_off (bit : Z) (lst : LISTENER) : Prop :=
  covers (ssl_op_disable lst) bit /\ Z.land (ssl_op_enable lst) bit = 0.

(** The option words outside [bit] are as they were. *)
Definition other_options_kept (bit : Z) (a b : LISTENER) : Prop :=
  Z.ldiff (ssl_op_enable b) bit = Z.ldiff (ssl_op_enable a) bit /\
  Z.ldiff (ssl_op_disable b) bit = Z.ldiff (ssl_op_disable a) bit.

(** A TLS context as [parse_listen_https] leaves it for listener [lst]. *)
Definition context_finished (E : env) (lst : LISTENER) (c : SSL_CTX) : Prop :=
  Z.land (ctx_options c) (to_uint64 (ssl_op_disable lst)) = 0 /\
  covers (ctx_options c)
    (Z.ldiff (to_uint64 (ssl_op_enable lst))
       (to_uint64 (ssl_op_disable lst))) /\
  covers (ctx_mode c) (SSL_MODE_AUTO_RETRY (K E)) /\
  ctx_app_data c = true /\ ctx_info_cb c = true /\ ctx_pound_init c = true.



(** A context entry that answers for a server name. *)
Definition sni_matches (fnmatch : string -> string -> Z) (nm : string)
    (pc : POUND_CTX) : bool :=
  (fnmatch (server_name pc) nm =? 0)
  || existsb (fun alt => fnmatch alt nm =? 0) (subjectAltNames pc).

(** In place of [fnmatch]: a pattern matches the string equal to it. *)
Definition exact_match (pat s : string) : Z := if streq pat s then 0 else 1.

Definition two_contexts : list POUND_CTX :=
  [ mk_pound_ctx (Demo.fresh_ctx true) "a.example.org" [];
    mk_pound_ctx (Demo.fresh_ctx false) "b.example.org" ["c.example.org"] ].


(** An environment that differs in [stat] only. *)
Definition set_stat (f : string -> string + stat_t) (e : env) : env :=
  mk_env (K e) f (fopen e) (errno_str e) (get_host e) (getaddrinfo e)
    (gai_strerror e) (regcomp e) (regerror e) (LOCATION e) (regexec e)
    (SSL_CTX_new e) (SSL_CTX_use_certificate_chain_file e)
    (SSL_CTX_use_PrivateKey_file e) (SSL_CTX_check_private_key e)
    (PEM_read_X509 e) (SSL_load_client_CA_file e)
    (SSL_CTX_load_verify_locations e) (X509_STORE_add_lookup e)
    (X509_load_crl_file e) (SSL_CTX_set_tlsext_servername e) (ERR_queue e)
    (ERR_error_string e) (getpid e) (random e) (sys_socket e) (sys_connect e)
    (read_fd e) (getsockname e) (addr2str e).

(** An environment in which every name is a directory. *)
Definition directories : env :=
  set_stat (fun _ => inr (mk_stat 7 1 true 0)) (Demo.env []).

(** The URL of the back-end of an ACME service for a directory. *)
Definition acme_url (dir : string) : string := dir ++ "/$1".


(** An environment in which the socket named by SocketFrom is there and
    passes a descriptor bound to [ss]. *)
Definition passing_socket (ss : sockaddr) (e : env) : env :=
  mk_env (K e) (stat e) (fopen e) (errno_str e) (get_host e) (getaddrinfo e)
    (gai_strerror e) (regcomp e) (regerror e) (LOCATION e) (regexec e)
    (SSL_CTX_new e) (SSL_CTX_use_certificate_chain_file e)
    (SSL_CTX_use_PrivateKey_file e) (SSL_CTX_check_private_key e)
    (PEM_read_X509 e) (SSL_load_client_CA_file e)
    (SSL_CTX_load_verify_locations e) (X509_STORE_add_lookup e)
    (X509_load_crl_file e) (SSL_CTX_set_tlsext_servername e) (ERR_queue e)
    (ERR_error_string e) (getpid e) (random e) (inr 3) (fun _ _ => inr tt)
    (fun _ => 4) (fun _ => inr (ss, 16)) (addr2str e).

Definition socket_passed : env :=
  passing_socket (mk_sockaddr AF_INET 8080 "10.0.0.1") (Demo.env []).


(** The flags the URL patterns of a service are compiled with. *)
Definition url_flags (icase : bool) : Z :=
  Z.lor (Z.lor REG_NEWLINE REG_EXTENDED) (if icase then REG_ICASE else 0).

(** The matcher made of a URL statement. *)
Definition url_matcher (flags : Z) (te : token) : MATCHER :=
  mk_matcher (mk_regex (str te) flags).

Definition url_service_text : string :=
  Demo.lines
    [ ""; "URL " ++ Demo.quoted "^/app/"; "IgnoreCase on";
      "URL " ++ Demo.quoted "^/static/"; "End" ].


(** A TLS context as the HTTPS statement of a back-end prepares it: the
    peer is not verified and unsafe renegotiation is off. *)
Definition client_context (E : env) (c : SSL_CTX) : Prop :=
  ctx_verify_mode c = SSL_VERIFY_NONE (K E) /\ ctx_verify_cb c = false /\
  ctx_app_data c = true /\ ctx_pound_init c = true /\
  Z.land (ctx_options c) (SSL_OP_ALLOW_UNSAFE_LEGACY_RENEGOTIATION (K E)) = 0 /\
  Z.land (ctx_options c) (SSL_OP_LEGACY_SERVER_CONNECT (K E)) = 0.

Definition backend_tls (E : env) (be : BACKEND) : Prop :=
  forall c, ctx be = Some c -> client_context E c.

Definition https_backend_files : list Demo.demo_file :=
  [Demo.mk_file "/etc/pound/be.pem" 5 1 "CN=backend.example.org"].

Definition https_backend_text : string :=
  Demo.lines
    [ "Address 10.0.0.1"; "Port 8443"; "HTTPS";
      "Cert " ++ Demo.quoted "/etc/pound/be.pem";
      "Ciphers " ++ Demo.quoted "HIGH:!aNULL"; "End" ].


(** A handler that returns PARSER_END has changed nothing. *)
Definition ends_in_place {T : Type} (h : PARSER T) : Prop :=
  forall n t dfl st t' st',
    h n t dfl st = Ret (PARSER_END, t', st') -> t' = t /\ st' = st.

(** A token that begins no statement and ends no line: a number, a quoted
    string or a literal. *)
Definition stray_token (tok : token) : Prop :=
  type tok = T_NUMBER \/ type tok = T_STRING \/ type tok = T_LITERAL.

(** The range of a section once a token has been read. *)
Definition range_to (rr : option locus_range) (st : state)
  : option locus_range :=
  match rr with
  | Some r => Some (mk_range (beg r) (range_end_of st))
  | None => None
  end.

(** A configuration file whose last line has no line break. *)
Definition no_newline_files : list Demo.demo_file :=
  [ Demo.mk_file "pound.cfg" 10 1 "Threads 8" ].





(** * Properties *)

Unset Implicit Arguments.

(** ** Token masks *)

Lemma shiftl_1_neg (k : Z) : k < 0 -> Z.shiftl 1 k = 0.
Proof.
  intros Hk. rewrite Z.shiftl_div_pow2 by lia.
  apply Z.div_small. split; [lia|].
  change 1 with (2 ^ 0) at 1. apply Z.pow_lt_mono_r; lia.
Qed.

Lemma land_small_shiftl (m k : Z) :
  0 <= m -> Z.log2 m < k -> Z.land m (Z.shiftl 1 k) = 0.
Proof.
  intros Hm Hk. apply Z.bits_inj'. intros n Hn.
  rewrite Z.land_spec, Z.bits_0, Z.shiftl_spec by lia.
  destruct (Z.eq_dec n k) as [-> | Hne].
  - rewrite (Z.bits_above_log2 m k) by lia. reflexivity.
  - destruct (Z_lt_le_dec n k).
    + rewrite (Z.testbit_neg_r 1 (n - k)) by lia. apply andb_false_r.
    + rewrite (Z.bits_above_log2 1 (n - k)) by (simpl; lia).
      apply andb_false_r.
Qed.

(** The mask [T_UNQ] selects exactly identifiers, numbers and literals. *)
Lemma T_UNQ_isset (t : Z) :
  T_MASK_ISSET T_UNQ t = true <->
  t = T_IDENT \/ t = T_NUMBER \/ t = T_LITERAL.
Proof.
  unfold T_MASK_ISSET, T_BIT, T_IDENT, T_NUMBER, T_LITERAL, T__BASE.
  change T_UNQ with 11.
  split.
  - intros H. apply negb_true_iff, Z.eqb_neq in H.
    destruct (Z_lt_le_dec (t - 256) 0) as [Hneg|Hpos].
    + rewrite shiftl_1_neg in H by lia. exfalso. apply H. reflexivity.
    + destruct (Z_lt_le_dec 3 (t - 256)) as [Hbig|Hsmall].
      * rewrite land_small_shiftl in H by (simpl; lia).
        exfalso. apply H. reflexivity.
      * assert (Hc : t = 256 \/ t = 257 \/ t = 258 \/ t = 259) by lia.
        destruct Hc as [-> | [-> | [-> | ->]]]; auto.
        exfalso. apply H. reflexivity.
  - intros [-> | [-> | ->]]; reflexivity.
Qed.

(** A single-type mask selects that type only. *)
Lemma T_BIT_isset (u t : Z) :
  T__BASE <= u -> T_MASK_ISSET (T_BIT u) t = true <-> t = u.
Proof.
  intros Hu. unfold T_MASK_ISSET, T_BIT, T__BASE in *. split.
  - intros H. apply negb_true_iff, Z.eqb_neq in H.
    destruct (Z.eq_dec t u) as [|Hne]; [assumption|].
    exfalso. apply H. apply Z.bits_inj'. intros n Hn.
    rewrite Z.land_spec, Z.bits_0.
    destruct (Z_lt_le_dec (t - 256) 0).
    + rewrite (shiftl_1_neg (t - 256)) by lia.
      rewrite Z.bits_0. apply andb_false_r.
    + rewrite !Z.shiftl_spec by lia.
      destruct (Z.eq_dec n (u - 256)) as [-> | ].
      * replace (u - 256 - (t - 256)) with (u - t) by lia.
        destruct (Z_lt_le_dec (u - t) 0).
        -- rewrite (Z.testbit_neg_r 1 (u - t)) by lia. apply andb_false_r.
        -- rewrite (Z.bits_above_log2 1 (u - t)) by (simpl; lia).
           apply andb_false_r.
      * destruct (Z_lt_le_dec (n - (u - 256)) 0).
        -- rewrite (Z.testbit_neg_r 1 (n - (u - 256))) by lia. reflexivity.
        -- rewrite (Z.bits_above_log2 1 (n - (u - 256))) by (simpl; lia).
           reflexivity.
  - intros ->. apply negb_true_iff, Z.eqb_neq.
    rewrite Z.land_diag. rewrite Z.shiftl_1_l.
    apply Z.pow_nonzero; lia.
Qed.

(** ** Reading a token *)

Lemma conf_error_log (msg : string) (st : state) :
  log (conf_error msg st)
  = (log st ++ [(LOG_ERR, range_error_text (last_token_locus_range st) msg)])%list.
Proof. reflexivity. Qed.

Lemma conf_error_cur_input (msg : string) (st : state) :
  cur_input (conf_error msg st) = cur_input st.
Proof. reflexivity. Qed.

(** What [gettkn_expect_mask] returns, by the token [gettkn] reads. *)
Lemma gettkn_expect_mask_cases (expect : TOKENMASK) (st : state) :
  let tok := fst (gettkn st) in
  let st1 := snd (gettkn st) in
  if type tok =? EOF then
    gettkn_expect_mask expect st
    = (None, conf_error "unexpected end of file" st1)
  else if type tok =? T_ERROR then gettkn_expect_mask expect st = (None, st1)
  else if (expect =? 0) || T_MASK_ISSET expect (type tok) then
    gettkn_expect_mask expect st = (Some tok, st1)
  else
    gettkn_expect_mask expect st
    = (None,
       conf_error ("expected " ++ token_mask_str expect MAX_TOKEN_BUF_SIZE
                   ++ ", but found " ++ token_type_str (type tok)) st1).
Proof.
  unfold gettkn_expect_mask. destruct (gettkn st) as [tok st1]. simpl.
  destruct (type tok =? EOF); [reflexivity|].
  destruct (type tok =? T_ERROR); [reflexivity|].
  destruct (expect =? 0); [reflexivity|]. simpl.
  destruct (T_MASK_ISSET expect (type tok)); reflexivity.
Qed.

Lemma unquoted_not_special (t : Z) :
  unquoted t -> (t =? EOF) = false /\ (t =? T_ERROR) = false.
Proof. intros [-> | [-> | ->]]; split; reflexivity. Qed.

Lemma gettkn_expect_mask_unq (st : state) (tok : token) (st1 : state) :
  gettkn st = (tok, st1) ->
  (unquoted (type tok) -> gettkn_expect_mask T_UNQ st = (Some tok, st1)) /\
  (~ unquoted (type tok) ->
   exists st', gettkn_expect_mask T_UNQ st = (None, st')).
Proof.
  intros H. pose proof (gettkn_expect_mask_cases T_UNQ st) as C.
  rewrite H in C. simpl in C. split.
  - intros U. destruct (unquoted_not_special _ U) as [E1 E2].
    rewrite E1, E2 in C.
    apply T_UNQ_isset in U. rewrite U in C. exact C.
  - intros U.
    destruct (type tok =? EOF); [eauto|].
    destruct (type tok =? T_ERROR); [eauto|].
    destruct (T_MASK_ISSET T_UNQ (type tok)) eqn:M.
    + apply T_UNQ_isset in M. contradiction.
    + simpl in C. eauto.
Qed.

Lemma gettkn_expect_type (u : Z) (st : state) (tok : token) (st1 : state) :
  T__BASE <= u < T__END ->
  gettkn st = (tok, st1) ->
  (type tok = u -> gettkn_expect u st = (Some tok, st1)) /\
  (type tok <> u -> exists st', gettkn_expect u st = (None, st')).
Proof.
  intros Hu H. unfold gettkn_expect.
  pose proof (gettkn_expect_mask_cases (T_BIT u) st) as C.
  rewrite H in C. simpl in C.
  assert (Hnz : (T_BIT u =? 0) = false).
  { apply Z.eqb_neq. unfold T_BIT. rewrite Z.shiftl_1_l.
    apply Z.pow_nonzero; unfold T__BASE, T__END in *; lia. }
  rewrite Hnz in C. simpl in C. split.
  - intros Ht.
    assert (E1 : (type tok =? EOF) = false)
        by (apply Z.eqb_neq; unfold EOF, T__BASE in *; lia).
    assert (E2 : (type tok =? T_ERROR) = false)
        by (apply Z.eqb_neq; unfold T_ERROR, T__END in *; lia).
    assert (E3 : T_MASK_ISSET (T_BIT u) (type tok) = true)
        by (apply T_BIT_isset; [lia | assumption]).
    rewrite E1, E2, E3 in C. exact C.
  - intros Ht.
    destruct (type tok =? EOF); [eauto|].
    destruct (type tok =? T_ERROR); [eauto|].
    destruct (T_MASK_ISSET (T_BIT u) (type tok)) eqn:M.
    + apply T_BIT_isset in M; [contradiction | lia].
    + eauto.
Qed.

(** ** Booleans *)

Lemma in_lexemes_true (s : string) :
  In s bool_true_lexemes <->
  (streq s "1" || streq s "yes" || streq s "true" || streq s "on") = true.
Proof.
  unfold bool_true_lexemes, streq. simpl.
  rewrite !orb_true_iff, !String.eqb_eq. intuition congruence.
Qed.

Lemma in_lexemes_false (s : string) :
  In s bool_false_lexemes <->
  (streq s "0" || streq s "no" || streq s "false" || streq s "off") = true.
Proof.
  unfold bool_false_lexemes, streq. simpl.
  rewrite !orb_true_iff, !String.eqb_eq. intuition congruence.
Qed.

Lemma lexemes_disjoint (s : string) :
  In s bool_false_lexemes -> ~ In s bool_true_lexemes.
Proof.
  unfold bool_true_lexemes, bool_false_lexemes. simpl.
  intuition (subst; discriminate).
Qed.

(** C4: [assign_bool] demands an unquoted token; the lexemes 1, yes, true
    and on (compared as they are written) give 1; the lexemes 0, no, false
    and off give 0; any other lexeme makes it log "not a boolean value"
    and then the line that lists the accepted literals, and return
    PARSER_FAIL; whenever it fails the target keeps its value. *)
Theorem assign_bool_spec (v : Z) (st : state) (tok : token) (st1 : state) :
  gettkn st = (tok, st1) ->
  (~ unquoted (type tok) ->
   exists st', assign_bool v st = (PARSER_FAIL, v, st')) /\
  (unquoted (type tok) ->
   (In (str tok) bool_true_lexemes ->
    assign_bool v st = (PARSER_OK, 1, st1)) /\
   (In (str tok) bool_false_lexemes ->
    assign_bool v st = (PARSER_OK, 0, st1)) /\
   (~ In (str tok) (bool_true_lexemes ++ bool_false_lexemes) ->
    exists st',
      assign_bool v st = (PARSER_FAIL, v, st') /\
      cur_input st' = cur_input st1 /\
      log st'
      = (log st1
         ++ [ (LOG_ERR,
               range_error_text (last_token_locus_range st1)
                 "not a boolean value");
              (LOG_ERR,
               range_error_text (last_token_locus_range st1)
                 "valid booleans are: 1, yes, true, on for true value, and 0, no, false, off for false value")
            ])%list)).
Proof.
  intros H. destruct (gettkn_expect_mask_unq st tok st1 H) as [HU HN]. split.
  - intros U. destruct (HN U) as [st' E']. exists st'.
    unfold assign_bool. rewrite E'. reflexivity.
  - intros U. specialize (HU U). unfold assign_bool. rewrite HU.
    split; [|split].
    + intros I. apply in_lexemes_true in I. rewrite I. reflexivity.
    + intros I. pose proof (lexemes_disjoint _ I) as NI.
      apply in_lexemes_false in I. rewrite I.
      destruct (streq (str tok) "1" || streq (str tok) "yes"
                || streq (str tok) "true" || streq (str tok) "on") eqn:T.
      * apply in_lexemes_true in T. contradiction.
      * reflexivity.
    + intros NI.
      destruct (streq (str tok) "1" || streq (str tok) "yes"
                || streq (str tok) "true" || streq (str tok) "on") eqn:T.
      { exfalso. apply NI, in_or_app. left. apply in_lexemes_true, T. }
      destruct (streq (str tok) "0" || streq (str tok) "no"
                || streq (str tok) "false" || streq (str tok) "off") eqn:F.
      { exfalso. apply NI, in_or_app. right. apply in_lexemes_false, F. }
      eexists. split; [reflexivity|]. split; [reflexivity|].
      simpl. rewrite <- app_assoc. reflexivity.
Qed.

Lemma assign_bool_spec_witness :
  let st := Demo.reading (Demo.lines ["yes"]) in
  gettkn st = (fst (gettkn st), snd (gettkn st)) /\
  unquoted (type (fst (gettkn st))) /\
  In (str (fst (gettkn st))) bool_true_lexemes /\
  assign_bool 7 st = (PARSER_OK, 1, snd (gettkn st)).
Proof.
  intro st.
  assert (H : gettkn st = (fst (gettkn st), snd (gettkn st)))
    by apply surjective_pairing.
  assert (U : unquoted (type (fst (gettkn st)))) by (left; reflexivity).
  assert (I : In (str (fst (gettkn st))) bool_true_lexemes)
    by (right; left; reflexivity).
  split; [exact H|]. split; [exact U|]. split; [exact I|].
  exact (proj1 (proj2 (assign_bool_spec 7 st _ _ H) U) I).
Defined.

(** ** Protocol options *)

Lemma land_lor_absorb (a m : Z) : Z.land (Z.lor a m) m = m.
Proof.
  apply Z.bits_inj'. intros n _.
  rewrite Z.land_spec, Z.lor_spec.
  destruct (Z.testbit a n), (Z.testbit m n); reflexivity.
Qed.

Lemma lor_keeps_bits (a b n : Z) :
  Z.testbit a n = true -> Z.testbit (Z.lor a b) n = true.
Proof. intros H. rewrite Z.lor_spec, H. reflexivity. Qed.

Lemma covers_lor_l (a b m : Z) : covers a m -> covers (Z.lor a b) m.
Proof.
  unfold covers. intros H. apply Z.bits_inj'. intros n _.
  rewrite Z.land_spec, Z.lor_spec.
  assert (T : Z.testbit (Z.land a m) n = Z.testbit m n) by (rewrite H; reflexivity).
  rewrite Z.land_spec in T.
  destruct (Z.testbit a n), (Z.testbit b n), (Z.testbit m n);
    simpl in *; congruence.
Qed.

Lemma covers_lor_r (a b m : Z) : covers b m -> covers (Z.lor a b) m.
Proof. intros H. rewrite Z.lor_comm. apply covers_lor_l, H. Qed.

Lemma covers_refl (m : Z) : covers m m.
Proof. apply Z.land_diag. Qed.

Lemma kw_to_tok_proto (E : env) (s : string) :
  kw_to_tok (proto_kwtab E) s false = proto_mask (K E) s.
Proof.
  unfold proto_kwtab, proto_mask, kw_to_tok, streq.
  rewrite !(String.eqb_sym _ s).
  destruct (String.eqb s "SSLv2"); [reflexivity|].
  destruct (String.eqb s "SSLv3"); [reflexivity|].
  destruct (String.eqb s "TLSv1"); [reflexivity|].
  destruct (String.eqb s "TLSv1_1"); [reflexivity|].
  destruct (String.eqb s "TLSv1_2"); reflexivity.
Qed.

(** C5: [set_proto_opt] demands an identifier; a protocol name yields the
    OR of the NO-option of that protocol and of all older ones, which is
    ORed into the option word; any other identifier fails, leaving the
    word as it was.  Hence no bit of the option word is ever cleared
    (repeated Disable statements accumulate), and after "TLSv1_1" the
    NO-options of SSLv2, SSLv3, TLSv1 and TLSv1_1 are all set. *)
Theorem set_proto_opt_spec (E : env) (opt : Z) (st : state) (tok : token)
    (st1 : state) :
  gettkn st = (tok, st1) ->
  (type tok <> T_IDENT ->
   exists st', set_proto_opt E opt st = (PARSER_FAIL, opt, st')) /\
  (type tok = T_IDENT ->
   match proto_mask (K E) (str tok) with
   | Some m => set_proto_opt E opt st = (PARSER_OK, Z.lor opt m, st1)
   | None =>
       set_proto_opt E opt st
       = (PARSER_FAIL, opt, conf_error "unrecognized protocol name" st1)
   end) /\
  (forall r opt' st',
     set_proto_opt E opt st = (r, opt', st') ->
     forall n, Z.testbit opt n = true -> Z.testbit opt' n = true) /\
  (type tok = T_IDENT -> str tok = "TLSv1_1" ->
   exists opt',
     set_proto_opt E opt st = (PARSER_OK, opt', st1) /\
     covers opt' (SSL_OP_NO_SSLv2 (K E)) /\
     covers opt' (SSL_OP_NO_SSLv3 (K E)) /\
     covers opt' (SSL_OP_NO_TLSv1 (K E)) /\
     covers opt' (SSL_OP_NO_TLSv1_1 (K E))).
Proof.
  intros H.
  assert (HI : T__BASE <= T_IDENT < T__END) by (unfold T_IDENT, T__BASE, T__END; lia).
  destruct (gettkn_expect_type T_IDENT st tok st1 HI H) as [HS HN].
  assert (Hid : type tok = T_IDENT ->
          match proto_mask (K E) (str tok) with
          | Some m => set_proto_opt E opt st = (PARSER_OK, Z.lor opt m, st1)
          | None =>
              set_proto_opt E opt st
              = (PARSER_FAIL, opt, conf_error "unrecognized protocol name" st1)
          end).
  { intros T. unfold set_proto_opt. rewrite (HS T), kw_to_tok_proto.
    destruct (proto_mask (K E) (str tok)); reflexivity. }
  split; [|split; [exact Hid|split]].
  - intros T. destruct (HN T) as [st' E']. exists st'.
    unfold set_proto_opt. rewrite E'. reflexivity.
  - intros r opt' st' R n B.
    destruct (Z.eq_dec (type tok) T_IDENT) as [T|T].
    + specialize (Hid T). destruct (proto_mask (K E) (str tok)).
      * rewrite Hid in R. inversion R; subst. apply lor_keeps_bits, B.
      * rewrite Hid in R. inversion R; subst. exact B.
    + destruct (HN T) as [st'' E'']. unfold set_proto_opt in R.
      rewrite E'' in R. inversion R; subst. exact B.
  - intros T S. specialize (Hid T). rewrite S in Hid. simpl in Hid.
    eexists. split; [exact Hid|].
    split; [|split; [|split]]; apply covers_lor_r.
    + apply covers_lor_l, covers_lor_l, covers_lor_l, covers_refl.
    + apply covers_lor_l, covers_lor_l, covers_lor_r, covers_refl.
    + apply covers_lor_l, covers_lor_r, covers_refl.
    + apply covers_lor_r, covers_refl.
Qed.

Lemma set_proto_opt_spec_witness :
  let E := Demo.env [] in
  let st := Demo.reading (Demo.lines ["TLSv1_1"]) in
  gettkn st = (fst (gettkn st), snd (gettkn st)) /\
  type (fst (gettkn st)) = T_IDENT /\
  str (fst (gettkn st)) = "TLSv1_1" /\
  exists opt',
    set_proto_opt E 0 st = (PARSER_OK, opt', snd (gettkn st)) /\
    covers opt' (SSL_OP_NO_SSLv2 (K E)) /\
    covers opt' (SSL_OP_NO_SSLv3 (K E)) /\
    covers opt' (SSL_OP_NO_TLSv1 (K E)) /\
    covers opt' (SSL_OP_NO_TLSv1_1 (K E)).
Proof.
  intros E st.
  assert (H : gettkn st = (fst (gettkn st), snd (gettkn st)))
    by apply surjective_pairing.
  assert (T : type (fst (gettkn st)) = T_IDENT) by reflexivity.
  assert (S : str (fst (gettkn st)) = "TLSv1_1") by reflexivity.
  split; [exact H|]. split; [exact T|]. split; [exact S|].
  exact (proj2 (proj2 (proj2 (set_proto_opt_spec E 0 st _ _ H))) T S).
Defined.

(** ** The log facility *)

(** C10: whenever the token after LogFacility is not an unquoted word
    (end of file, a malformed token, a newline, a quoted string),
    [gettkn_expect_mask] returns NULL and [assign_log_facility]
    dereferences it: the handler does not return PARSER_FAIL. *)
Theorem assign_log_facility_null_token (v : Z) (st : state) (tok : token)
    (st1 : state) :
  gettkn st = (tok, st1) ->
  ~ unquoted (type tok) ->
  assign_log_facility v st = Fault.
Proof.
  intros H U.
  destruct (proj2 (gettkn_expect_mask_unq st tok st1 H) U) as [st' E'].
  unfold assign_log_facility. rewrite E'. reflexivity.
Qed.

Lemma assign_log_facility_null_token_witness :
  let st := Demo.reading (Demo.lines [""]) in
  gettkn st = (fst (gettkn st), snd (gettkn st)) /\
  ~ unquoted (type (fst (gettkn st))) /\
  assign_log_facility 24 st = Fault.
Proof.
  intro st.
  assert (H : gettkn st = (fst (gettkn st), snd (gettkn st)))
    by apply surjective_pairing.
  assert (U : ~ unquoted (type (fst (gettkn st))))
    by (intros [X | [X | X]]; discriminate X).
  split; [exact H|]. split; [exact U|].
  exact (assign_log_facility_null_token 24 st _ _ H U).
Defined.

(** The same on a whole configuration file: a file that consists of the
    line "LogFacility" makes the parser fault. *)
Example logfacility_alone_faults :
  parse_config_file
    (Demo.env [Demo.mk_file "pound.cfg" 10 1 (Demo.lines ["LogFacility"])])
    10 "pound.cfg" Demo.init_state
  = Fault.
Proof. vm_compute. reflexivity. Qed.

(** A sibling handler on the same input returns PARSER_FAIL. *)
Example daemon_alone_fails :
  exists st,
    parse_config_file
      (Demo.env [Demo.mk_file "pound.cfg" 10 1 (Demo.lines ["Daemon"])])
      10 "pound.cfg" Demo.init_state
    = Ret (Returned 2, st).
Proof. eexists. vm_compute. reflexivity. Qed.

(** ** Invariants of the section parser *)

Lemma parser_find_In {T : Type} (tab : list (PARSER_TABLE T)) (nm : string)
    (ent : PARSER_TABLE T) :
  parser_find tab nm = Some ent -> In ent tab.
Proof.
  induction tab as [|e tab IH]; simpl; [discriminate|].
  destruct (strcaseeq (pt_name e) nm).
  - intros [= ->]. left. reflexivity.
  - intros H. right. apply IH, H.
Qed.

Section LoopInvariant.

Context {T : Type}.

(** [J] relates the object under construction and the parser state.
    With [strict] it is to hold after a handler whatever the handler
    returns, without [strict] only after a handler that does not fail. *)
Variable J : T -> state -> Prop.
Variable strict : bool.

Definition keeps (h : PARSER T) : Prop :=
  forall n t dfl st r t' st',
    h n t dfl st = Ret (r, t', st') ->
    strict = true \/ r <> PARSER_FAIL ->
    J t st -> J t' st'.

Hypothesis J_gettkn : forall t st, J t st -> J t (snd (gettkn st)).
Hypothesis J_log : forall t st p m, J t st -> J t (logmsg p m st).

Lemma parser_loop_iter_keeps (ptab : list (PARSER_TABLE T))
    (sd : T -> POUND_DEFAULTS) :
  Forall (fun e => keeps (pt_parser e)) ptab ->
  forall n t rr st r t' rr' st',
    parser_loop_iter n ptab t sd rr st = Ret (r, t', rr', st') ->
    strict = true \/ r = PARSER_OK ->
    J t st -> J t' st'.
Proof.
  intros HK. rewrite Forall_forall in HK.
  induction n as [|n IH]; intros t rr st r t' rr' st' H S Jt;
    [discriminate|].
  simpl in H. unfold gettkn_open in H.
  destruct (cur_input st) as [|i0 s0]; [discriminate H|].
  pose proof (J_gettkn t st Jt) as J1.
  destruct (gettkn st) as [tok st1]. simpl in J1.
  destruct (type tok =? EOF).
  { destruct rr; inversion H; subst; auto.
    apply J_log, J1. }
  destruct (type tok =? T_ERROR).
  { inversion H; subst; auto. }
  destruct (type tok =? T_IDENT).
  - destruct (parser_find ptab (str tok)) as [ent|] eqn:F.
    + apply parser_find_In in F. specialize (HK ent F).
      destruct (pt_parser ent n t (sd t) st1) as [[[r1 t1] st2]| |] eqn:P;
        try discriminate.
      assert (J2 : strict = true \/ r1 <> PARSER_FAIL -> J t1 st2)
        by (intros X; eapply HK; eauto).
      destruct r1.
      * assert (J3 : J t1 st2) by (apply J2; right; discriminate).
        pose proof (J_gettkn t1 st2 J3) as J4.
        destruct (cur_input st2) as [|i2 s2]; [discriminate H|].
        destruct (gettkn st2) as [tok2 st3]. simpl in J4.
        destruct (type tok2 =? T_ERROR).
        { inversion H; subst; auto. }
        destruct (negb (type tok2 =? T_NEWLINE) && negb (type tok2 =? EOF)).
        { inversion H; subst. apply J_log, J4. }
        eapply IH; eauto.
      * eapply IH; [eassumption | assumption |].
        apply J2. right. discriminate.
      * inversion H; subst. apply J2.
        destruct S as [S|S]; [left; exact S | discriminate S].
      * inversion H; subst. apply J2. right. discriminate.
    + inversion H; subst. apply J_log, J1.
  - destruct (type tok =? T_NEWLINE).
    + eapply IH; eauto.
    + eapply IH; [eassumption | assumption | apply J_log, J1].
Qed.

Lemma parser_loop_keeps (ptab : list (PARSER_TABLE T))
    (sd : T -> POUND_DEFAULTS) :
  Forall (fun e => keeps (pt_parser e)) ptab ->
  forall n t rr st r t' rr' st',
    parser_loop n ptab t sd rr st = Ret (r, t', rr', st') ->
    strict = true \/ r = PARSER_OK ->
    J t st -> J t' st'.
Proof.
  intros HK n t rr st r t' rr' st' H. unfold parser_loop in H.
  eapply parser_loop_iter_keeps; eauto.
Qed.

End LoopInvariant.

(** ** The include stack *)

(** The scanner never changes the identity of the input it reads. *)
Definition same_id (i j : input) : Prop := input_key j = input_key i.

Lemma same_id_refl (i : input) : same_id i i.
Proof. reflexivity. Qed.

Lemma same_id_trans (i j k : input) : same_id i j -> same_id j k -> same_id i k.
Proof. unfold same_id. congruence. Qed.

Lemma input_getc_id (i : input) : same_id i (snd (input_getc i)).
Proof.
  unfold input_getc. destruct (file i) as [|c rest]; [reflexivity|].
  destruct (Ascii.eqb c NL); [reflexivity|].
  destruct (Ascii.eqb c TAB); reflexivity.
Qed.

Lemma input_ungetc_id (i : input) (c : option ascii) :
  same_id i (input_ungetc i c).
Proof.
  unfold input_ungetc. destruct c as [ch|]; [|reflexivity].
  destruct (Ascii.eqb ch NL); reflexivity.
Qed.

Lemma add_char_id (c : ascii) (i : input) : same_id i (add_char c i).
Proof. reflexivity. Qed.

Lemma set_ttype_id (t : Z) (i : input) : same_id i (set_ttype t i).
Proof. reflexivity. Qed.

Lemma finish_str_id (i : input) : same_id i (finish_str i).
Proof. reflexivity. Qed.

Lemma set_tbeg_id (p : locus_point) (i : input) : same_id i (set_tbeg p i).
Proof. reflexivity. Qed.

Lemma set_tend_id (p : locus_point) (i : input) : same_id i (set_tend p i).
Proof. reflexivity. Qed.

(** Reads one character from [i] in hypothesis or goal and records that the
    identity is unchanged. *)
Ltac getc_step i :=
  let G := fresh "G" in
  pose proof (input_getc_id i) as G;
  destruct (input_getc i) as [? ?]; simpl in G.

Lemma skip_comment_id (n : nat) (i : input) :
  same_id i (snd (skip_comment n i)).
Proof.
  revert i. induction n as [|n IH]; intros i; simpl; [reflexivity|].
  getc_step i. destruct o as [ch|]; [|exact G].
  destruct (Ascii.eqb ch NL); [exact G|].
  eapply same_id_trans; [| apply IH]; exact G.
Qed.

Lemma scan_string_id (n : nat) (i : input) (errs : list string) :
  same_id i (snd (fst (scan_string n i errs))).
Proof.
  revert i errs. induction n as [|n IH]; intros i errs; simpl; [reflexivity|].
  getc_step i.
  destruct (match o with Some ch => Ascii.eqb ch DQUOTE | None => false end);
    [exact G|].
  destruct (match o with Some ch => Ascii.eqb ch BACKSLASH | None => false end).
  - getc_step i0.
    assert (G1 : same_id i i1) by (eapply same_id_trans; eauto).
    destruct o0 as [e|]; [|exact G1].
    destruct (Ascii.eqb e DQUOTE || Ascii.eqb e BACKSLASH);
      (destruct (Ascii.eqb e NL); [exact G1|];
       eapply same_id_trans; [| apply IH]; exact G1).
  - destruct o as [ch|]; [|exact G].
    destruct (Ascii.eqb ch NL); [exact G|].
    eapply same_id_trans; [| apply IH]; exact G.
Qed.

Lemma scan_ident_id (n : nat) (c : ascii) (i : input) :
  same_id i (snd (scan_ident n c i)).
Proof.
  revert c i. induction n as [|n IH]; intros c i; simpl; [reflexivity|].
  getc_step (add_char c i). destruct o as [d|]; [|exact G].
  destruct (is_ident_cont d); [|exact G].
  eapply same_id_trans; [| apply IH]; exact G.
Qed.

Lemma scan_literal_id (n : nat) (c : ascii) (i : input) :
  same_id i (snd (scan_literal n c i)).
Proof.
  revert c i. induction n as [|n IH]; intros c i; simpl.
  - destruct (isdigit c); reflexivity.
  - set (i' := if isdigit c then add_char c i
               else set_ttype T_LITERAL (add_char c i)).
    assert (G0 : same_id i i') by (subst i'; destruct (isdigit c); reflexivity).
    getc_step i'.
    assert (G1 : same_id i i0) by (eapply same_id_trans; eauto).
    destruct o as [d|]; [|exact G1].
    destruct (isspace d); [exact G1|].
    eapply same_id_trans; [| apply IH]; exact G1.
Qed.

(** One step through a scanner function in the goal: name the result of
    the call and keep the fact that the identity is unchanged. *)
Ltac scan_step :=
  match goal with
  | |- context [input_getc ?i] =>
      let G := fresh "G" in
      pose proof (input_getc_id i) as G;
      destruct (input_getc i) as [? ?]; simpl in G
  | |- context [skip_comment ?n ?i] =>
      let G := fresh "G" in
      pose proof (skip_comment_id n i) as G;
      destruct (skip_comment n i) as [? ?]; simpl in G
  | |- context [scan_string ?n ?i ?e] =>
      let G := fresh "G" in
      pose proof (scan_string_id n i e) as G;
      destruct (scan_string n i e) as [[? ?] ?]; simpl in G
  | |- context [scan_ident ?n ?c ?i] =>
      let G := fresh "G" in
      pose proof (scan_ident_id n c i) as G;
      destruct (scan_ident n c i) as [? ?]; simpl in G
  | |- context [scan_literal ?n ?c ?i] =>
      let G := fresh "G" in
      pose proof (scan_literal_id n c i) as G;
      destruct (scan_literal n c i) as [? ?]; simpl in G
  | |- context [match ?x with _ => _ end] => destruct x
  end.

Ltac same_id_done :=
  unfold same_id, input_key in *; simpl in *; congruence.

Lemma scan_token_id (n : nat) (i : input) (errs : list string) :
  same_id i (fst (scan_token n i errs)).
Proof.
  revert i errs. induction n as [|n IH]; intros i errs; [reflexivity|].
  cbn [scan_token].
  scan_step. destruct o as [ch|]; [|same_id_done].
  destruct (Ascii.eqb ch HASH).
  - scan_step. destruct o as [ch2|]; [|same_id_done].
    destruct (Ascii.eqb ch2 NL); [same_id_done|].
    destruct (isspace ch2).
    { eapply same_id_trans; [|apply IH]. same_id_done. }
    destruct (Ascii.eqb ch2 DQUOTE).
    { scan_step. destruct b; same_id_done. }
    destruct (is_ident_start ch2).
    + scan_step.
      destruct (match o with None => true | Some d => isspace d end).
      * pose proof (input_ungetc_id i2 o). same_id_done.
      * destruct o as [d|]; [|same_id_done].
        scan_step. pose proof (input_ungetc_id i3 o). same_id_done.
    + scan_step. pose proof (input_ungetc_id i2 o). same_id_done.
  - destruct (Ascii.eqb ch NL); [same_id_done|].
    destruct (isspace ch).
    { eapply same_id_trans; [|apply IH]. same_id_done. }
    destruct (Ascii.eqb ch DQUOTE).
    { scan_step. destruct b; same_id_done. }
    destruct (is_ident_start ch).
    + scan_step.
      destruct (match o with None => true | Some d => isspace d end).
      * pose proof (input_ungetc_id i1 o). same_id_done.
      * destruct o as [d|]; [|same_id_done].
        scan_step. pose proof (input_ungetc_id i2 o). same_id_done.
    + scan_step. pose proof (input_ungetc_id i1 o). same_id_done.
Qed.

Lemma input_gettkn_id (i : input) :
  same_id i (snd (fst (input_gettkn i))).
Proof.
  unfold input_gettkn. destruct (ready i); [reflexivity|].
  pose proof (scan_token_id (S (List.length (file (set_buf "" i))))
                (set_buf "" i) []) as G.
  destruct (scan_token _ _ _) as [i1 errs]. simpl in *. same_id_done.
Qed.

(** [gettkn] leaves a suffix of the stack, the top of which it may have
    advanced. *)
Lemma gettkn_loop_suffix (stack : list input) (last : token) :
  exists k,
    map input_key (snd (fst (gettkn_loop stack last)))
    = skipn k (map input_key stack).
Proof.
  revert last. induction stack as [|i prev IH]; intros last; simpl.
  - exists O. reflexivity.
  - pose proof (input_gettkn_id i) as G.
    destruct (input_gettkn i) as [[t i'] errs]. simpl in G.
    destruct (t =? EOF).
    + destruct (IH (itoken i')) as [k Hk].
      destruct (gettkn_loop prev (itoken i')) as [[tok stack'] errs'].
      simpl in *. exists (S k). exact Hk.
    + exists O. simpl. rewrite G. reflexivity.
Qed.

Lemma NoDup_skipn {A : Type} (k : nat) (l : list A) :
  NoDup l -> NoDup (skipn k l).
Proof.
  revert l. induction k as [|k IH]; intros l H; simpl; [exact H|].
  destruct l as [|x l]; [exact H|]. apply IH. inversion H; assumption.
Qed.

Lemma log_errors_cur_input (errs : list string) (st : state) :
  cur_input (log_errors errs st) = cur_input st.
Proof.
  revert st. induction errs as [|e errs IH]; intros st; simpl; [reflexivity|].
  unfold log_errors in IH. rewrite IH. reflexivity.
Qed.

Lemma gettkn_distinct (st : state) :
  stack_distinct (cur_input st) ->
  stack_distinct (cur_input (snd (gettkn st))).
Proof.
  unfold gettkn, stack_distinct. intros H.
  destruct (gettkn_loop_suffix (cur_input st) (mk_token EOF "" zero_range))
    as [k Hk].
  destruct (gettkn_loop _ _) as [[tok stack] errs]. simpl in *.
  rewrite log_errors_cur_input. simpl. rewrite Hk. apply NoDup_skipn, H.
Qed.

(** Operations that keep the stack invariant: those that return a value
    next to the state, and those that return the state alone. *)
Class StackSafe {A : Type} (m : state -> A * state) : Prop :=
  stack_safe : forall st, Istack st -> Istack (snd (m st)).

Class StackSafe1 (f : state -> state) : Prop :=
  stack_safe1 : forall st, Istack st -> Istack (f st).

(** One step through a handler in the goal: record that a state the goal
    mentions keeps the invariant, name the result of a call that keeps it,
    or split a case distinction (the inner one first). *)
Ltac stack_step :=
  match goal with
  | HI : Istack ?st |- context [?g ?st] =>
      lazymatch goal with
      | _ : Istack (g st) |- _ => fail
      | _ => idtac
      end;
      assert (Istack (g st)) by (apply (stack_safe1 (f := g)); exact HI)
  | HI : Istack ?st |- context [?f ?st] =>
      let S := fresh "S" in
      assert (S : Istack (snd (f st)))
        by (apply (stack_safe (m := f)); exact HI);
      destruct (f st) as [? ?]; simpl in S
  | |- context [?f ?a] =>
      match a with
      | match ?y with _ => _ end =>
          let ty := type of a in
          match ty with
          | state => destruct y
          end
      end
  | |- context [match ?x with _ => _ end] =>
      match x with
      | match ?y with _ => _ end => destruct y
      end
  | |- context [match ?x with _ => _ end] => destruct x
  end;
  cbn beta iota.

Ltac stack_close :=
  simpl;
  repeat match goal with
         | |- Istack (?f ?st) => apply (stack_safe1 (f := f))
         end;
  try assumption.

Ltac stack_safe_tac := repeat stack_step; stack_close.

#[local] Instance logmsg_safe p m : StackSafe1 (logmsg p m).
Proof. intros st H. exact H. Qed.

#[local] Instance conf_error_at_locus_range_safe loc m :
  StackSafe1 (conf_error_at_locus_range loc m).
Proof. intros st H. exact H. Qed.

#[local] Instance conf_error_at_locus_point_safe loc m :
  StackSafe1 (conf_error_at_locus_point loc m).
Proof. intros st H. exact H. Qed.

#[local] Instance conf_error_safe m : StackSafe1 (conf_error m).
Proof. intros st H. exact H. Qed.

#[local] Instance name_alloc_safe nm : StackSafe1 (name_alloc nm).
Proof. intros st H. exact H. Qed.

#[local] Instance gettkn_safe : StackSafe gettkn.
Proof. intros st H. apply gettkn_distinct, H. Qed.

#[local] Instance gettkn_expect_mask_safe m : StackSafe (gettkn_expect_mask m).
Proof.
  intros st H. unfold gettkn_expect_mask. stack_safe_tac.
Qed.

#[local] Instance gettkn_any_safe : StackSafe gettkn_any.
Proof. apply gettkn_expect_mask_safe. Qed.

#[local] Instance gettkn_expect_safe t : StackSafe (gettkn_expect t).
Proof. apply gettkn_expect_mask_safe. Qed.

#[local] Instance putback_tkn_safe : StackSafe1 putback_tkn.
Proof.
  intros st H. unfold putback_tkn.
  destruct (cur_input st) as [|i prev] eqn:C; [exact H|].
  unfold Istack in *. rewrite C in H. exact H.
Qed.

Lemma find_input_none (stack : list input) (s : stat_t) :
  find_input stack s = None ->
  ~ In (st_dev s, st_ino s) (map input_key stack).
Proof.
  induction stack as [|i prev IH]; simpl; [tauto|].
  destruct ((ino i =? st_ino s) && (devno i =? st_dev s)) eqn:M;
    [discriminate|].
  intros F [K|K]; [|exact (IH F K)].
  unfold input_key in K. inversion K as [[D N]].
  rewrite D, N, !Z.eqb_refl in M. discriminate.
Qed.

#[local] Instance push_input_safe E fname : StackSafe (push_input E fname).
Proof.
  intros st H. unfold push_input.
  destruct (stat E fname) as [err|s]; [exact H|].
  destruct (find_input (cur_input st) s) as [[i [prev|]]|] eqn:F;
    [exact H | exact H |].
  unfold input_open. destruct (fopen E fname) as [err|content]; [exact H|].
  simpl. unfold Istack, stack_distinct in *. simpl.
  constructor; [|exact H]. apply find_input_none, F.
Qed.

#[local] Instance pop_input_safe : StackSafe1 pop_input.
Proof.
  intros st H. unfold pop_input, Istack, stack_distinct in *. simpl.
  destruct (cur_input st) as [|i prev] eqn:C; simpl in *; [constructor|].
  inversion H; assumption.
Qed.

#[local] Instance drain_errors_safe E loc q : StackSafe1 (drain_errors E loc q).
Proof.
  induction q as [|n q IH]; intros st H; simpl; [exact H|].
  destruct (n =? 0); [exact H|]. apply IH. exact H.
Qed.

#[local] Instance openssl_error_at_locus_range_safe E loc msg :
  StackSafe1 (openssl_error_at_locus_range E loc msg).
Proof.
  intros st H. unfold openssl_error_at_locus_range.
  apply drain_errors_safe. exact H.
Qed.

#[local] Instance conf_openssl_error_safe E msg :
  StackSafe1 (conf_openssl_error E msg).
Proof. intros st H. apply openssl_error_at_locus_range_safe, H. Qed.

#[local] Instance regcomp_error_at_locus_range_safe E loc rc expr :
  StackSafe1 (regcomp_error_at_locus_range E loc rc expr).
Proof.
  intros st H. unfold regcomp_error_at_locus_range.
  destruct expr; exact H.
Qed.

#[local] Instance conf_regcomp_error_safe E rc expr :
  StackSafe1 (conf_regcomp_error E rc expr).
Proof. intros st H. apply regcomp_error_at_locus_range_safe, H. Qed.

#[local] Instance pop_altnames_safe E names acc :
  StackSafe (pop_altnames E names acc).
Proof.
  revert acc. induction names as [|nm names IH]; intros acc st H; simpl;
    [exact H|].
  destruct (gn_type nm =? GEN_DNS (K E)); apply IH; exact H.
Qed.

#[local] Instance compile_urls_safe E urls flags acc :
  StackSafe (compile_urls E urls flags acc).
Proof.
  revert acc. induction urls as [|te urls IH]; intros acc st H; simpl;
    [exact H|].
  destruct (negb (regcomp E (str te) flags =? 0)).
  - exact H.
  - apply IH, H.
Qed.

#[local] Instance parse_include_safe E : StackSafe (parse_include E).
Proof. intros st H. unfold parse_include. stack_safe_tac. Qed.

#[local] Instance parse_end_safe : StackSafe (parse_end).
Proof. intros st H. unfold parse_end. stack_safe_tac. Qed.

#[local] Instance int_set_one_safe v : StackSafe (int_set_one v).
Proof. intros st H. unfold int_set_one. stack_safe_tac. Qed.

#[local] Instance assign_string_safe v : StackSafe (assign_string v).
Proof. intros st H. unfold assign_string. stack_safe_tac. Qed.

#[local] Instance assign_string_from_file_safe E v : StackSafe (assign_string_from_file E v).
Proof. intros st H. unfold assign_string_from_file. stack_safe_tac. Qed.

#[local] Instance assign_bool_safe v : StackSafe (assign_bool v).
Proof. intros st H. unfold assign_bool. stack_safe_tac. Qed.

#[local] Instance assign_unsigned_safe v : StackSafe (assign_unsigned v).
Proof. intros st H. unfold assign_unsigned. stack_safe_tac. Qed.

#[local] Instance assign_timeout_safe v : StackSafe (assign_timeout v).
Proof. intros st H. unfold assign_timeout. stack_safe_tac. Qed.

#[local] Instance assign_int_safe v : StackSafe (assign_int v).
Proof. intros st H. unfold assign_int. stack_safe_tac. Qed.

#[local] Instance assign_int_range_safe dst lo hi : StackSafe (assign_int_range dst lo hi).
Proof. intros st H. unfold assign_int_range. stack_safe_tac. Qed.

#[local] Instance assign_LONG_safe v : StackSafe (assign_LONG v).
Proof. intros st H. unfold assign_LONG. stack_safe_tac. Qed.

#[local] Instance assign_log_level_safe v : StackSafe (assign_log_level v).
Proof. intros st H. unfold assign_log_level. stack_safe_tac. Qed.

#[local] Instance assign_address_internal_safe E a tok : StackSafe (assign_address_internal E a tok).
Proof. intros st H. unfold assign_address_internal. stack_safe_tac. Qed.

#[local] Instance assign_address_safe E a : StackSafe (assign_address E a).
Proof. intros st H. unfold assign_address. stack_safe_tac. Qed.

#[local] Instance assign_port_internal_safe E a tok : StackSafe (assign_port_internal E a tok).
Proof. intros st H. unfold assign_port_internal. stack_safe_tac. Qed.

#[local] Instance assign_port_safe E a : StackSafe (assign_port E a).
Proof. intros st H. unfold assign_port. stack_safe_tac. Qed.

#[local] Instance parse_ECDHCurve_safe : StackSafe (parse_ECDHCurve).
Proof. intros st H. unfold parse_ECDHCurve. stack_safe_tac. Qed.

#[local] Instance parse_SSLEngine_safe : StackSafe (parse_SSLEngine).
Proof. intros st H. unfold parse_SSLEngine. stack_safe_tac. Qed.

#[local] Instance session_id_safe E : StackSafe (session_id E).
Proof. intros st H. unfold session_id. stack_safe_tac. Qed.

#[local] Instance backend_parse_haport_safe E be : StackSafe (backend_parse_haport E be).
Proof. intros st H. unfold backend_parse_haport. stack_safe_tac. Qed.

#[local] Instance backend_parse_https_safe E be : StackSafe (backend_parse_https E be).
Proof. intros st H. unfold backend_parse_https. stack_safe_tac. Qed.

#[local] Instance backend_parse_cert_safe E be : StackSafe (backend_parse_cert E be).
Proof. intros st H. unfold backend_parse_cert. stack_safe_tac. Qed.

#[local] Instance backend_assign_ciphers_safe be : StackSafe (backend_assign_ciphers be).
Proof. intros st H. unfold backend_assign_ciphers. stack_safe_tac. Qed.

#[local] Instance backend_assign_priority_safe v : StackSafe (backend_assign_priority v).
Proof. intros st H. unfold backend_assign_priority. stack_safe_tac. Qed.

#[local] Instance set_proto_opt_safe E opt : StackSafe (set_proto_opt E opt).
Proof. intros st H. unfold set_proto_opt. stack_safe_tac. Qed.

#[local] Instance check_addrinfo_safe a range nm : StackSafe (check_addrinfo a range nm).
Proof. intros st H. unfold check_addrinfo. stack_safe_tac. Qed.

#[local] Instance xregcomp_safe E rx expr flags : StackSafe (xregcomp E rx expr flags).
Proof. intros st H. unfold xregcomp. stack_safe_tac. Qed.

#[local] Instance assign_token_list_safe head : StackSafe (assign_token_list head).
Proof. intros st H. unfold assign_token_list. stack_safe_tac. Qed.

#[local] Instance assign_matcher_safe E head : StackSafe (assign_matcher E head).
Proof. intros st H. unfold assign_matcher. stack_safe_tac. Qed.

#[local] Instance assign_redirect_safe E head : StackSafe (assign_redirect E head).
Proof. intros st H. unfold assign_redirect. stack_safe_tac. Qed.

#[local] Instance session_type_parser_safe sp : StackSafe (session_type_parser sp).
Proof. intros st H. unfold session_type_parser. stack_safe_tac. Qed.

#[local] Instance parse_acme_safe E head : StackSafe (parse_acme E head).
Proof. intros st H. unfold parse_acme. stack_safe_tac. Qed.

#[local] Instance listener_parse_xhttp_safe E rx : StackSafe (listener_parse_xhttp E rx).
Proof. intros st H. unfold listener_parse_xhttp. stack_safe_tac. Qed.

#[local] Instance listener_parse_checkurl_safe E lst dfl : StackSafe (listener_parse_checkurl E lst dfl).
Proof. intros st H. unfold listener_parse_checkurl. stack_safe_tac. Qed.

#[local] Instance listener_parse_socket_from_safe E lst : StackSafe (listener_parse_socket_from E lst).
Proof. intros st H. unfold listener_parse_socket_from. stack_safe_tac. Qed.

#[local] Instance parse_rewritelocation_safe v : StackSafe (parse_rewritelocation v).
Proof. intros st H. unfold parse_rewritelocation. stack_safe_tac. Qed.

#[local] Instance append_string_line_safe dst : StackSafe (append_string_line dst).
Proof. intros st H. unfold append_string_line. stack_safe_tac. Qed.

#[local] Instance listener_alloc_safe E dfl : StackSafe (listener_alloc E dfl).
Proof. intros st H. unfold listener_alloc. stack_safe_tac. Qed.

#[local] Instance get_subjectaltnames_safe E x : StackSafe (get_subjectaltnames E x).
Proof. intros st H. unfold get_subjectaltnames. stack_safe_tac. Qed.

#[local] Instance https_parse_cert_safe E lst : StackSafe (https_parse_cert E lst).
Proof. intros st H. unfold https_parse_cert. stack_safe_tac. Qed.

#[local] Instance https_parse_client_cert_safe E lst : StackSafe (https_parse_client_cert E lst).
Proof. intros st H. unfold https_parse_client_cert. stack_safe_tac. Qed.

#[local] Instance https_parse_disable_safe E lst : StackSafe (https_parse_disable E lst).
Proof. intros st H. unfold https_parse_disable. stack_safe_tac. Qed.

#[local] Instance https_parse_ciphers_safe lst : StackSafe (https_parse_ciphers lst).
Proof. intros st H. unfold https_parse_ciphers. stack_safe_tac. Qed.

#[local] Instance https_parse_honor_cipher_order_safe E lst : StackSafe (https_parse_honor_cipher_order E lst).
Proof. intros st H. unfold https_parse_honor_cipher_order. stack_safe_tac. Qed.

#[local] Instance https_parse_allow_client_renegotiation_safe E lst : StackSafe (https_parse_allow_client_renegotiation E lst).
Proof. intros st H. unfold https_parse_allow_client_renegotiation. stack_safe_tac. Qed.

#[local] Instance https_parse_calist_safe E lst : StackSafe (https_parse_calist E lst).
Proof. intros st H. unfold https_parse_calist. stack_safe_tac. Qed.

#[local] Instance https_parse_verifylist_safe E lst : StackSafe (https_parse_verifylist E lst).
Proof. intros st H. unfold https_parse_verifylist. stack_safe_tac. Qed.

#[local] Instance https_parse_crlist_safe E lst : StackSafe (https_parse_crlist E lst).
Proof. intros st H. unfold https_parse_crlist. stack_safe_tac. Qed.

#[local] Instance https_parse_nohttps11_safe lst : StackSafe (https_parse_nohttps11 lst).
Proof. intros st H. unfold https_parse_nohttps11. stack_safe_tac. Qed.

#[local] Instance finish_contexts_safe E lst l : StackSafe (finish_contexts E lst l).
Proof.
  induction l as [|pc rest IH]; intros st H; [exact H|].
  cbn [finish_contexts].
  pose proof (session_id_safe E st H) as S.
  destruct (session_id E st) as [sid st1]. cbn [snd] in S.
  specialize (IH st1 S). destruct (finish_contexts E lst rest st1) as [r st2].
  exact IH.
Qed.

(** The stack invariant through the keyword tables. *)
Definition keeps_stack {T : Type} (h : PARSER T) : Prop :=
  keeps (fun (_ : T) st => Istack st) true h.

Lemma keeps_stack_leaf {T : Type}
    (h : T -> POUND_DEFAULTS -> state -> PARSER_RES * T * state) :
  (forall t dfl, StackSafe (h t dfl)) -> keeps_stack (leaf h).
Proof.
  intros S n t dfl st r t' st' H _ I. unfold leaf in H.
  inversion H as [H']. pose proof (S t dfl st I) as X.
  rewrite H' in X. exact X.
Qed.

Lemma keeps_stack_leaf0 {T : Type} (h : T -> state -> PARSER_RES * T * state) :
  (forall t, StackSafe (h t)) -> keeps_stack (leaf0 h).
Proof. intros S. apply keeps_stack_leaf. intros t dfl. apply S. Qed.

Lemma keeps_stack_leaf_nodata {T : Type} (h : state -> PARSER_RES * state) :
  StackSafe h -> keeps_stack (leaf_nodata (T := T) h).
Proof.
  intros S. apply keeps_stack_leaf. intros t dfl st I.
  pose proof (S st I) as X. destruct (h st) as [r st']. exact X.
Qed.

Lemma keeps_stack_at_field {T F : Type} (get : T -> F) (set : F -> T -> T)
    (h : PARSER F) :
  keeps_stack h -> keeps_stack (at_field get set h).
Proof.
  intros K n t dfl st r t' st' H S I. unfold at_field in H.
  destruct (h n (get t) dfl st) as [[[r1 f] st1]| |] eqn:P; try discriminate.
  inversion H; subst. eapply K; eauto.
Qed.

Lemma keeps_stack_at_global {T F : Type} (get : globals -> F)
    (set : F -> globals -> globals) (h : PARSER F) :
  keeps_stack h -> keeps_stack (at_global (T := T) get set h).
Proof.
  intros K n t dfl st r t' st' H S I. unfold at_global in H.
  destruct (h n (get (glob st)) dfl st) as [[[r1 f] st1]| |] eqn:P;
    try discriminate.
  inversion H; subst. unfold Istack. simpl. eapply K; eauto.
Qed.

Lemma parser_loop_stack {T : Type} (ptab : list (PARSER_TABLE T))
    (sd : T -> POUND_DEFAULTS) :
  Forall (fun e => keeps_stack (pt_parser e)) ptab ->
  forall n t rr st r t' rr' st',
    parser_loop n ptab t sd rr st = Ret (r, t', rr', st') ->
    Istack st -> Istack st'.
Proof.
  intros HK n t rr st r t' rr' st' H I.
  refine (parser_loop_keeps (fun (_ : T) st => Istack st) true _ _ ptab sd HK
            n t rr st r t' rr' st' H (or_introl eq_refl) I).
  - intros _ s Hs. apply gettkn_safe, Hs.
  - intros _ s p m Hs. exact Hs.
Qed.

Create HintDb keeps_stack.

#[local] Hint Resolve keeps_stack_leaf keeps_stack_leaf0 keeps_stack_leaf_nodata
  keeps_stack_at_field keeps_stack_at_global : keeps_stack.

(** Every entry of a table keeps the stack invariant. *)
Ltac table_keeps_stack :=
  repeat constructor; cbn [pt_parser entry];
  auto with keeps_stack typeclass_instances.

Lemma disable_proto_keeps_stack E :
  keeps_stack (fun _ be _ st => disable_proto E be st).
Proof.
  intros n t dfl st r t' st' H _ I. unfold disable_proto in H.
  pose proof (set_proto_opt_safe E 0 st I) as S.
  destruct (set_proto_opt E 0 st) as [[r1 v] st1]. simpl in S.
  destruct r1; inversion H; subst; exact S.
Qed.

#[local] Hint Resolve disable_proto_keeps_stack : keeps_stack.

(** The same for what returns a [result]. *)
Definition ret_ok {A : Type} (r : result (A * state)) : Prop :=
  match r with
  | Ret (_, st') => Istack st'
  | Fault | Fuel => True
  end.

Class StackSafeR {A : Type} (m : state -> result (A * state)) : Prop :=
  stack_safeR : forall st, Istack st -> ret_ok (m st).

Class TableSafe {T : Type} (tab : list (PARSER_TABLE T)) : Prop :=
  table_safe : Forall (fun e => keeps_stack (pt_parser e)) tab.

Lemma keeps_stack_of_safeR {T : Type} (h : PARSER T) :
  (forall n t dfl, StackSafeR (h n t dfl)) -> keeps_stack h.
Proof.
  intros S n t dfl st r t' st' H _ I.
  pose proof (S n t dfl st I) as X. rewrite H in X. exact X.
Qed.

#[local] Instance parser_loop_safeR {T : Type} n (tab : list (PARSER_TABLE T))
    t sd rr :
  TableSafe tab -> StackSafeR (parser_loop n tab t sd rr).
Proof.
  intros HK st I. unfold ret_ok.
  destruct (parser_loop n tab t sd rr st) as [[[[r t'] rr'] st']| |] eqn:P;
    [|exact Logic.I|exact Logic.I].
  exact (parser_loop_stack tab sd HK n t rr st r t' rr' st' P I).
Qed.

(** As [stack_step], with calls that return a [result]. *)
Ltac stack_stepR :=
  match goal with
  | HI : Istack ?st |- context [?f ?st] =>
      let S := fresh "S" in
      assert (S : ret_ok (f st))
        by (apply (stack_safeR (m := f)); exact HI);
      destruct (f st) as [[? ?]| |]; cbn [ret_ok] in S
  | _ => stack_step
  end.

Ltac stack_safeR_tac :=
  repeat stack_stepR; cbn [ret_ok]; try exact Logic.I; stack_close.

#[local] Instance backend_parsetab_safe E : TableSafe (backend_parsetab E).
Proof. unfold TableSafe. table_keeps_stack. Qed.

#[local] Instance emergency_parsetab_safe E : TableSafe (emergency_parsetab E).
Proof. unfold TableSafe. table_keeps_stack. Qed.

#[local] Instance parse_backend_internal_safeR n table dfl :
  TableSafe table -> StackSafeR (parse_backend_internal n table dfl).
Proof.
  intros HK st I. unfold parse_backend_internal. stack_safeR_tac.
Qed.

#[local] Instance parse_backend_safeR E n head dfl :
  StackSafeR (parse_backend E n head dfl).
Proof. intros st I. unfold parse_backend. stack_safeR_tac. Qed.

#[local] Instance parse_emergency_safeR E n res dfl :
  StackSafeR (parse_emergency E n res dfl).
Proof. intros st I. unfold parse_emergency. stack_safeR_tac. Qed.

Lemma parse_backend_keeps_stack E : keeps_stack (parse_backend E).
Proof. apply keeps_stack_of_safeR. intros. exact _. Qed.

Lemma parse_emergency_keeps_stack E : keeps_stack (parse_emergency E).
Proof. apply keeps_stack_of_safeR. intros. exact _. Qed.

#[local] Hint Resolve parse_backend_keeps_stack parse_emergency_keeps_stack
  : keeps_stack.

#[local] Instance session_parsetab_safe : TableSafe session_parsetab.
Proof. unfold TableSafe. table_keeps_stack. Qed.

#[local] Instance parse_session_safeR E n sv dfl :
  StackSafeR (parse_session E n sv dfl).
Proof. intros st I. unfold parse_session. stack_safeR_tac. Qed.

Lemma parse_session_keeps_stack E : keeps_stack (parse_session E).
Proof. apply keeps_stack_of_safeR. intros. exact _. Qed.

#[local] Hint Resolve parse_session_keeps_stack : keeps_stack.

#[local] Instance service_parsetab_safe E : TableSafe (service_parsetab E).
Proof. unfold TableSafe. table_keeps_stack. Qed.

#[local] Instance parse_service_safeR E n head dfl :
  StackSafeR (parse_service E n head dfl).
Proof. intros st I. unfold parse_service. stack_safeR_tac. Qed.

Lemma parse_service_keeps_stack E : keeps_stack (parse_service E).
Proof. apply keeps_stack_of_safeR. intros. exact _. Qed.

#[local] Hint Resolve parse_service_keeps_stack : keeps_stack.

#[local] Instance http_parsetab_safe E : TableSafe (http_parsetab E).
Proof. unfold TableSafe. table_keeps_stack. Qed.

#[local] Instance https_parsetab_safe E : TableSafe (https_parsetab E).
Proof. unfold TableSafe. table_keeps_stack. Qed.

#[local] Instance parse_listen_http_safeR E n head dfl :
  StackSafeR (parse_listen_http E n head dfl).
Proof. intros st I. unfold parse_listen_http. stack_safeR_tac. Qed.

#[local] Instance parse_listen_https_safeR E n head dfl :
  StackSafeR (parse_listen_https E n head dfl).
Proof. intros st I. unfold parse_listen_https. stack_safeR_tac. Qed.

Lemma parse_listen_http_keeps_stack E : keeps_stack (parse_listen_http E).
Proof. apply keeps_stack_of_safeR. intros. exact _. Qed.

Lemma parse_listen_https_keeps_stack E : keeps_stack (parse_listen_https E).
Proof. apply keeps_stack_of_safeR. intros. exact _. Qed.

#[local] Hint Resolve parse_listen_http_keeps_stack
  parse_listen_https_keeps_stack : keeps_stack.

Lemma assign_log_facility_keeps_stack :
  keeps_stack (fun _ v _ st => assign_log_facility v st).
Proof.
  intros n t dfl st r t' st' H _ I. unfold assign_log_facility in H.
  pose proof (gettkn_expect_mask_safe T_UNQ st I) as S.
  destruct (gettkn_expect_mask T_UNQ st) as [[tok|] st1]; [|discriminate].
  simpl in S. destruct (streq (str tok) "-"); [inversion H; subst; exact S|].
  destruct (kw_to_tok facility_table (str tok) true);
    inversion H; subst; exact S.
Qed.

#[local] Hint Resolve assign_log_facility_keeps_stack : keeps_stack.

#[local] Instance top_level_parsetab_safe E : TableSafe (top_level_parsetab E).
Proof. unfold TableSafe. table_keeps_stack. Qed.

Lemma matches_stat_eqb (s : stat_t) (i : input) :
  ((ino i =? st_ino s) && (devno i =? st_dev s)) = true <-> matches_stat s i.
Proof.
  unfold matches_stat. rewrite andb_true_iff, !Z.eqb_eq. tauto.
Qed.

Lemma find_input_found (above : list input) (i : input) (below : list input)
    (s : stat_t) :
  (forall j, In j above -> ~ matches_stat s j) ->
  matches_stat s i ->
  find_input (above ++ i :: below) s = Some (i, hd_error below).
Proof.
  intros HA Hi. induction above as [|j above IH]; simpl.
  - apply matches_stat_eqb in Hi. rewrite Hi. reflexivity.
  - destruct ((ino j =? st_ino s) && (devno j =? st_dev s)) eqn:M.
    + apply matches_stat_eqb in M. exfalso. apply (HA j); [left; reflexivity|exact M].
    + apply IH. intros k Hk. apply HA. right. exact Hk.
Qed.

Lemma find_input_absent (stack : list input) (s : stat_t) :
  (forall j, In j stack -> ~ matches_stat s j) -> find_input stack s = None.
Proof.
  induction stack as [|j stack IH]; intros HA; simpl; [reflexivity|].
  destruct ((ino j =? st_ino s) && (devno j =? st_dev s)) eqn:M.
  - apply matches_stat_eqb in M. exfalso. apply (HA j); [left; reflexivity|exact M].
  - apply IH. intros k Hk. apply HA. right. exact Hk.
Qed.

(** On a stack of distinct inputs nothing above a matching input matches. *)
Lemma distinct_above (above : list input) (i : input) (below : list input)
    (s : stat_t) :
  stack_distinct (above ++ i :: below) ->
  matches_stat s i ->
  forall j, In j above -> ~ matches_stat s j.
Proof.
  unfold stack_distinct. intros ND [Hi1 Hi2] j Hj [Hj1 Hj2].
  rewrite map_app in ND. simpl in ND.
  apply NoDup_remove_2 in ND. apply ND, in_or_app. left.
  apply in_map_iff. exists j. split; [|exact Hj].
  unfold input_key. congruence.
Qed.

(** C1: on a stack whose entries have pairwise distinct (device, inode),
    [push_input] keeps them distinct whatever it returns.  If the target
    is the file of an input [i] anywhere on the stack, it returns -1,
    leaves the stack as it is and logs "already included", with the
    place of the original inclusion when [i] has a predecessor and with
    "(at top level)" when [i] is the root.  If the target is on the stack
    nowhere and can be opened, the new input goes on top.  Reading a
    token, closing an input and every statement of the top-level table
    (so every section nested in it) keep the entries distinct, and so
    does a whole run of [parse_config_file]. *)
Theorem include_stack_distinct (E : env) (st : state) :
  Istack st ->
  (forall fname, Istack (snd (push_input E fname st))) /\
  (forall fname s above i below,
     stat E fname = inr s ->
     cur_input st = (above ++ i :: below)%list ->
     matches_stat s i ->
     exists st',
       push_input E fname st = (-1, st') /\
       cur_input st' = cur_input st /\
       log st'
       = (log st
          ++ match below with
             | [] =>
                 [(LOG_ERR,
                   range_error_text (last_token_locus_range st)
                     (fname ++ " already included (at top level)"))]
             | prev :: _ =>
                 [(LOG_ERR,
                   range_error_text (last_token_locus_range st)
                     (fname ++ " already included"));
                  (LOG_ERR,
                   point_error_text (Some (ilocus prev))
                     "here is the place of original inclusion")]
             end)%list) /\
  (forall fname s content,
     stat E fname = inr s ->
     (forall j, In j (cur_input st) -> ~ matches_stat s j) ->
     fopen E fname = inr content ->
     exists new st',
       push_input E fname st = (0, st') /\
       cur_input st' = new :: cur_input st /\
       matches_stat s new /\ file new = content) /\
  Istack (snd (gettkn st)) /\
  Istack (pop_input st) /\
  Forall (fun e => keeps_stack (pt_parser e)) (top_level_parsetab E) /\
  (forall n fname o st',
     parse_config_file E n fname st = Ret (o, st') -> Istack st').
Proof.
  intros I. repeat split.
  - intros fname. apply push_input_safe, I.
  - intros fname s above i below HS HC HM.
    assert (HA : forall j, In j above -> ~ matches_stat s j).
    { apply (distinct_above above i below s); [|exact HM].
      unfold Istack in I. rewrite HC in I. exact I. }
    unfold push_input. rewrite HS, HC, (find_input_found above i below s HA HM).
    rewrite <- HC.
    destruct below as [|prev below]; simpl.
    + eexists. split; [reflexivity|]. split; reflexivity.
    + eexists. split; [reflexivity|]. split; [reflexivity|].
      simpl. rewrite <- app_assoc. reflexivity.
  - intros fname s content HS HA HF.
    unfold push_input, input_open.
    rewrite HS, (find_input_absent _ s HA), HF.
    eexists. eexists. split; [reflexivity|]. split; [reflexivity|].
    split; [split; reflexivity | reflexivity].
  - apply gettkn_safe, I.
  - apply pop_input_safe, I.
  - apply top_level_parsetab_safe.
  - intros n fname o st' H. unfold parse_config_file in H.
    pose proof (push_input_safe E fname st I) as I1.
    destruct (push_input E fname st) as [rc st1]. simpl in I1.
    destruct rc; try (inversion H; subst; exact I1).
    pose proof (parser_loop_safeR n (top_level_parsetab E) pound_defaults
                  (fun d => d) None (top_level_parsetab_safe E) st1 I1) as I2.
    destruct (parser_loop n (top_level_parsetab E) pound_defaults
                (fun d => d) None st1) as [[[[r d] rr] st2]| |];
      try discriminate.
    simpl in I2.
    destruct r; try (inversion H; subst; exact I2).
    destruct (cur_input st2) eqn:C; inversion H; subst; [|exact I2].
    unfold Istack. simpl. rewrite C. constructor.
Qed.

Lemma include_stack_distinct_witness :
  let E := Demo.env two_files in
  Istack two_inputs /\
  exists st',
    push_input E "main.cfg" two_inputs = (-1, st') /\
    cur_input st' = cur_input two_inputs /\
    log st'
    = [(LOG_ERR, "(null):0: main.cfg already included (at top level)")].
Proof.
  intro E.
  assert (I : Istack two_inputs).
  { unfold Istack, stack_distinct. simpl.
    constructor; [|constructor; [|constructor]]; simpl.
    - intros [X|[]]. discriminate X.
    - intros []. }
  split; [exact I|].
  destruct (include_stack_distinct E two_inputs I) as (_ & C & _).
  exact (C "main.cfg" (mk_stat 10 1 false 0)
           [mk_input [] 11 1 (mk_point (Some "a.cfg") 1 0) 0 zero_token false ""]
           (mk_input [] 10 1 (mk_point (Some "main.cfg") 2 0) 0 zero_token
              false "")
           [] eq_refl eq_refl (conj eq_refl eq_refl)).
Defined.

(** ** Redirect *)


Lemma to_int_small (x : Z) : INT_MIN <= x <= INT_MAX -> to_int x = x.
Proof.
  unfold to_int, INT_MIN, INT_MAX. intros H.
  rewrite Z.mod_small by lia. lia.
Qed.







(** ** Invariants of the object under construction *)

Section ObjectInvariant.

Context {T : Type}.
Variable P : T -> Prop.
Variable strict : bool.

Definition keeps_obj (h : PARSER T) : Prop :=
  keeps (fun t (_ : state) => P t) strict h.

Lemma keeps_obj_nodata (h : state -> PARSER_RES * state) :
  keeps_obj (leaf_nodata h).
Proof.
  intros n t dfl st r t' st' H _ Pt. unfold leaf_nodata, leaf in H.
  destruct (h st) as [r1 st1]. inversion H; subst. exact Pt.
Qed.

Lemma keeps_obj_leaf
    (h : T -> POUND_DEFAULTS -> state -> PARSER_RES * T * state) :
  (forall t dfl st r t' st',
     h t dfl st = (r, t', st') ->
     strict = true \/ r <> PARSER_FAIL -> P t -> P t') ->
  keeps_obj (leaf h).
Proof.
  intros Hh n t dfl st r t' st' H S Pt. unfold leaf in H.
  inversion H as [H']. eapply Hh; eauto.
Qed.

Lemma keeps_obj_leaf0 (h : T -> state -> PARSER_RES * T * state) :
  (forall t st r t' st',
     h t st = (r, t', st') ->
     strict = true \/ r <> PARSER_FAIL -> P t -> P t') ->
  keeps_obj (leaf0 h).
Proof.
  intros Hh. apply keeps_obj_leaf. intros t dfl. apply Hh.
Qed.

(** A field that [P] does not look at. *)
Lemma keeps_obj_frame {F : Type} (get : T -> F) (set : F -> T -> T)
    (h : PARSER F) :
  (forall f t, P t -> P (set f t)) -> keeps_obj (at_field get set h).
Proof.
  intros Hs n t dfl st r t' st' H _ Pt. unfold at_field in H.
  destruct (h n (get t) dfl st) as [[[r1 f] st1]| |]; try discriminate.
  inversion H; subst. apply Hs, Pt.
Qed.

(** A field that [P] looks at. *)
Lemma keeps_obj_field {F : Type} (get : T -> F) (set : F -> T -> T)
    (h : PARSER F) :
  (forall n t dfl st r f st',
     h n (get t) dfl st = Ret (r, f, st') ->
     strict = true \/ r <> PARSER_FAIL -> P t -> P (set f t)) ->
  keeps_obj (at_field get set h).
Proof.
  intros Hh n t dfl st r t' st' H S Pt. unfold at_field in H.
  destruct (h n (get t) dfl st) as [[[r1 f] st1]| |] eqn:Q; try discriminate.
  inversion H; subst. eapply Hh; eauto.
Qed.

Lemma parser_loop_obj (ptab : list (PARSER_TABLE T))
    (sd : T -> POUND_DEFAULTS) :
  Forall (fun e => keeps_obj (pt_parser e)) ptab ->
  forall n t rr st r t' rr' st',
    parser_loop n ptab t sd rr st = Ret (r, t', rr', st') ->
    strict = true \/ r = PARSER_OK ->
    P t -> P t'.
Proof.
  intros HK n t rr st r t' rr' st' H S Pt.
  refine (parser_loop_keeps (fun t (_ : state) => P t) strict _ _ ptab sd HK
            n t rr st r t' rr' st' H S Pt); auto.
Qed.

End ObjectInvariant.

(** ** Numbers *)

Lemma digits_val_nonneg (s : string) (acc : Z) :
  0 <= acc -> 0 <= fst (digits_val acc s).
Proof.
  revert acc. induction s as [|c r IH]; intros acc H; cbn [digits_val];
    [exact H|].
  destruct (isdigit c) eqn:D; [|exact H].
  apply IH. unfold isdigit in D. apply andb_true_iff in D.
  destruct D as [D _]. apply Z.leb_le in D. lia.
Qed.

Lemma strtoul_nonneg (s : string) : 0 <= fst (fst (strtoul s)).
Proof.
  unfold strtoul.
  destruct (match skip_spaces s with
            | String "-" r => (true, r)
            | String "+" r => (false, r)
            | _ => (false, skip_spaces s)
            end) as [neg s2].
  destruct s2 as [|c r]; cbn [fst]; [lia|].
  destruct (isdigit c) eqn:D; cbn [fst]; [|lia].
  pose proof (digits_val_nonneg (String c r) 0 (Z.le_refl 0)) as V.
  destruct (digits_val 0 (String c r)) as [v rest]. cbn [fst] in V.
  destruct (v >? ULONG_MAX); cbn [fst]; [unfold ULONG_MAX; lia|].
  destruct neg; [|exact V].
  apply Z.mod_pos_bound. unfold ULONG_MAX. lia.
Qed.

(** What [assign_unsigned] stores lies in the range of [unsigned]. *)
Lemma assign_unsigned_range (v : Z) (st : state) (n : Z) (st' : state) :
  assign_unsigned v st = (PARSER_OK, n, st') -> 0 <= n <= UINT_MAX.
Proof.
  unfold assign_unsigned.
  destruct (gettkn_expect T_NUMBER st) as [[tok|] st1]; [|discriminate].
  pose proof (strtoul_nonneg (str tok)) as V.
  destruct (strtoul (str tok)) as [[m p] e]. simpl in V.
  destruct (e || negb (streq p "") || (m >? UINT_MAX)) eqn:C; [discriminate|].
  intros [= <- <-]. apply orb_false_iff in C. destruct C as [_ C].
  rewrite Z.gtb_ltb in C. apply Z.ltb_ge in C. lia.
Qed.

Lemma assign_unsigned_fail (v : Z) (st : state) (r : PARSER_RES) (n : Z)
    (st' : state) :
  assign_unsigned v st = (r, n, st') -> r = PARSER_OK \/ r = PARSER_FAIL /\ n = v.
Proof.
  unfold assign_unsigned.
  destruct (gettkn_expect T_NUMBER st) as [[tok|] st1];
    [|intros [= <- <- <-]; auto].
  destruct (strtoul (str tok)) as [[m p] e].
  destruct (e || negb (streq p "") || (m >? UINT_MAX));
    intros [= <- <- <-]; auto.
Qed.

(** ** Sessions *)

Lemma session_parsetab_ttl :
  Forall (fun e => keeps_obj (fun s => 0 <= ttl s) false (pt_parser e))
    session_parsetab.
Proof.
  repeat constructor; cbn [pt_parser entry].
  - apply keeps_obj_nodata.
  - apply keeps_obj_leaf0. intros t st r t' st' H _ Pt.
    unfold session_type_parser in H.
    destruct (gettkn_expect T_IDENT st) as [[tok|] st1];
      [|inversion H; subst; exact Pt].
    destruct (kw_to_tok session_kwtab (str tok) true);
      inversion H; subst; exact Pt.
  - apply keeps_obj_field. intros n t dfl st r f st' H S Pt.
    unfold leaf0, leaf in H. inversion H as [H'].
    destruct (assign_unsigned_fail _ _ _ _ _ H') as [-> | [-> _]].
    + apply assign_unsigned_range in H'. simpl. lia.
    + destruct S as [S|S]; [discriminate S | contradiction].
  - apply keeps_obj_frame. intros f t Pt. exact Pt.
Qed.

Lemma session_loop_ttl n dfl st sess range st1 :
  session_loop n dfl st = Ret (PARSER_OK, sess, range, st1) -> 0 <= ttl sess.
Proof.
  intros H. unfold session_loop in H.
  refine (parser_loop_obj (fun s => 0 <= ttl s) false session_parsetab _
            session_parsetab_ttl n _ _ st _ _ _ _ H (or_intror eq_refl) _).
  simpl. lia.
Qed.

(** The expressions of the model are those of the table. *)
Lemma session_exprs_table (t : SESS_TYPE) (ID : string) :
  session_exprs t (Some ID) = session_table t ID.
Proof. destruct t; reflexivity. Qed.

Lemma session_exprs_no_id (t : SESS_TYPE) (ID : string) (sid : option string) :
  is_id_session t = false -> session_exprs t sid = session_table t ID.
Proof. destruct t; intros H; try discriminate H; reflexivity. Qed.

(** [parse_session] after the section has been read. *)
Lemma parse_session_unfold E n sv dfl st :
  parse_session E n sv dfl st
  = match session_loop n dfl st with
    | Fuel => Fuel
    | Fault => Fault
    | Ret (PARSER_OK, sess, range, st) =>
        if SESS_TYPE_eqb (s_type sess) SESS_NONE then
          Ret (PARSER_FAIL, sv,
               conf_error_at_locus_range range "Session type not defined" st)
        else if ttl sess =? 0 then
          Ret (PARSER_FAIL, sv,
               conf_error_at_locus_range range "Session TTL not defined" st)
        else if is_id_session (s_type sess)
                && match id sess with None => true | Some _ => false end
        then Ret (PARSER_FAIL, sv, conf_error "Session ID not defined" st)
        else
          match session_exprs (s_type sess) (id sess) with
          | Some (e_start, e_pat) =>
              if negb (regcomp E e_start RX_ICASE_NEWLINE_EXTENDED =? 0) then
                Ret (PARSER_FAIL, sv,
                     conf_regcomp_error E
                       (regcomp E e_start RX_ICASE_NEWLINE_EXTENDED)
                       (Some e_start) st)
              else if negb (regcomp E e_pat RX_ICASE_NEWLINE_EXTENDED =? 0)
              then
                Ret (PARSER_FAIL,
                     set_sess_start
                       (mk_regex e_start RX_ICASE_NEWLINE_EXTENDED) sv,
                     conf_regcomp_error E
                       (regcomp E e_pat RX_ICASE_NEWLINE_EXTENDED)
                       (Some e_pat) st)
              else
                Ret (PARSER_OK,
                     set_sess_type (s_type sess)
                       (set_sess_ttl (ttl sess)
                          (set_sess_pat
                             (mk_regex e_pat RX_ICASE_NEWLINE_EXTENDED)
                             (set_sess_start
                                (mk_regex e_start RX_ICASE_NEWLINE_EXTENDED)
                                sv))),
                     st)
          | None =>
              Ret (PARSER_OK,
                   set_sess_type (s_type sess) (set_sess_ttl (ttl sess) sv),
                   st)
          end
    | Ret (_, _, _, st) => Ret (PARSER_FAIL, sv, st)
    end.
Proof.
  unfold parse_session, session_loop.
  destruct (parser_loop n session_parsetab (mk_session SESS_NONE None 0)
              (fun _ => dfl) (Some zero_range) st)
    as [[[[r sess] range] st1]| |]; [|reflexivity|reflexivity].
  destruct r; try reflexivity.
  destruct (SESS_TYPE_eqb (s_type sess) SESS_NONE); [reflexivity|].
  destruct (ttl sess =? 0); [reflexivity|].
  destruct (is_id_session (s_type sess)
            && match id sess with None => true | Some _ => false end);
    [reflexivity|].
  destruct (session_exprs (s_type sess) (id sess)) as [[e1 e2]|];
    [|reflexivity].
  unfold xregcomp.
  destruct (negb (regcomp E e1 RX_ICASE_NEWLINE_EXTENDED =? 0)); [reflexivity|].
  cbn [sess_pat set_sess_start].
  destruct (negb (regcomp E e2 RX_ICASE_NEWLINE_EXTENDED =? 0)); reflexivity.
Qed.

Lemma SESS_TYPE_eqb_none (t : SESS_TYPE) :
  SESS_TYPE_eqb t SESS_NONE = true <-> t = SESS_NONE.
Proof. destruct t; simpl; split; intros H; try discriminate H; reflexivity. Qed.

(** The expressions compiled for a complete session are those the table
    gives for its type and ID. *)
Lemma session_exprs_complete (sess : service_session) :
  (is_id_session (s_type sess)
   && match id sess with None => true | Some _ => false end) = false ->
  exists ID,
    (is_id_session (s_type sess) = true -> id sess = Some ID) /\
    session_exprs (s_type sess) (id sess) = session_table (s_type sess) ID.
Proof.
  intros H. destruct (is_id_session (s_type sess)) eqn:I.
  - destruct (id sess) as [ID|]; [|discriminate H].
    exists ID. split; [reflexivity|]. apply session_exprs_table.
  - exists "". split; [discriminate|]. apply session_exprs_no_id, I.
Qed.

(** C2: when [parse_session] accepts a Session section, the service
    receives the type and the TTL of the section, and the two expressions
    that the table gives for the type and the configured ID, compiled
    with REG_ICASE, REG_NEWLINE and REG_EXTENDED; for the type IP nothing
    is compiled and the two expressions of the service stay as they
    were. *)
Theorem parse_session_regexes (E : env) (n : nat) (sv : SERVICE)
    (dfl : POUND_DEFAULTS) (st : state) (sv' : SERVICE) (st' : state) :
  parse_session E n sv dfl st = Ret (PARSER_OK, sv', st') ->
  exists sess range,
    session_loop n dfl st = Ret (PARSER_OK, sess, range, st') /\
    sess_type sv' = s_type sess /\
    sess_ttl sv' = ttl sess /\
    match s_type sess with
    | SESS_NONE => False
    | SESS_IP => sess_start sv' = sess_start sv /\ sess_pat sv' = sess_pat sv
    | t =>
        exists ID e_start e_pat,
          (is_id_session t = true -> id sess = Some ID) /\
          session_table t ID = Some (e_start, e_pat) /\
          sess_start sv'
          = mk_regex e_start (Z.lor (Z.lor REG_ICASE REG_NEWLINE) REG_EXTENDED)
          /\
          sess_pat sv'
          = mk_regex e_pat (Z.lor (Z.lor REG_ICASE REG_NEWLINE) REG_EXTENDED)
    end.
Proof.
  intros H. rewrite parse_session_unfold in H.
  destruct (session_loop n dfl st) as [[[[r sess] range] st1]| |];
    try discriminate.
  destruct r; try discriminate.
  destruct (SESS_TYPE_eqb (s_type sess) SESS_NONE) eqn:TN; [discriminate|].
  destruct (ttl sess =? 0); [discriminate|].
  destruct (is_id_session (s_type sess)
            && match id sess with None => true | Some _ => false end) eqn:C;
    [discriminate|].
  destruct (session_exprs_complete sess C) as (ID & HID & HT).
  rewrite HT in H. exists sess, range.
  destruct (session_table (s_type sess) ID) as [[e1 e2]|] eqn:Tb.
  - destruct (negb (regcomp E e1 RX_ICASE_NEWLINE_EXTENDED =? 0));
      [discriminate|].
    destruct (negb (regcomp E e2 RX_ICASE_NEWLINE_EXTENDED =? 0));
      [discriminate|].
    inversion H; subst. split; [reflexivity|]. split; [reflexivity|].
    split; [reflexivity|].
    destruct (s_type sess); try discriminate Tb;
      exists ID, e1, e2; (split; [exact HID|]); (split; [exact Tb|]);
      split; reflexivity.
  - inversion H; subst. split; [reflexivity|]. split; [reflexivity|].
    split; [reflexivity|].
    destruct (s_type sess); try discriminate Tb.
    + discriminate TN.
    + split; reflexivity.
Qed.

(** When [parse_session] fails, and what an accepted session has. *)
Lemma parse_session_fails_when (E : env) (n : nat) (sv : SERVICE)
    (dfl : POUND_DEFAULTS) (st : state) (r : PARSER_RES)
    (sess : service_session) (range : option locus_range) (st1 : state) :
  session_loop n dfl st = Ret (r, sess, range, st1) ->
  (session_fails E n sv dfl st <->
   r <> PARSER_OK \/ session_incomplete sess \/ session_regex_fails E sess) /\
  (session_fails E n sv dfl st \/
   exists sv', parse_session E n sv dfl st = Ret (PARSER_OK, sv', st1)) /\
  (forall sv' st',
     parse_session E n sv dfl st = Ret (PARSER_OK, sv', st') ->
     sess_type sv' <> SESS_NONE /\
     0 < sess_ttl sv' /\
     (is_id_session (sess_type sv') = true -> exists ID, id sess = Some ID)).
Proof.
  intros L. unfold session_fails. rewrite parse_session_unfold, L.
  destruct (PARSER_RES_eq_dec r PARSER_OK) as [-> | NR].
  2: { assert (F : (let (p, st0) := (r, sess, range, st1) in
                    let (p0, range0) := p in
                    let (r0, sess0) := p0 in
                    match r0 with
                    | PARSER_OK => Fuel
                    | _ => Ret (PARSER_FAIL, sv, st0)
                    end) = Ret (PARSER_FAIL, sv, st1))
         by (destruct r; [contradiction | reflexivity ..]).
       split; [|split].
       - split; [intros _; left; exact NR|].
         intros _. exists sv, st1. destruct r; [contradiction | reflexivity ..].
       - left. exists sv, st1. destruct r; [contradiction | reflexivity ..].
       - intros sv' st' H. destruct r; [contradiction | discriminate H ..]. }
  pose proof (session_loop_ttl n dfl st sess range st1 L) as TTL.
  cbn beta iota.
  destruct (SESS_TYPE_eqb (s_type sess) SESS_NONE) eqn:TN.
  { apply SESS_TYPE_eqb_none in TN. split; [|split].
    - split; [intros _; right; left; left; exact TN|]. intros _. eauto.
    - left. eauto.
    - intros sv' st' H. discriminate H. }
  assert (TN' : s_type sess <> SESS_NONE).
  { intros X. apply SESS_TYPE_eqb_none in X. congruence. }
  destruct (ttl sess =? 0) eqn:T0.
  { apply Z.eqb_eq in T0. split; [|split].
    - split; [intros _; right; left; right; left; exact T0|]. intros _. eauto.
    - left. eauto.
    - intros sv' st' H. discriminate H. }
  apply Z.eqb_neq in T0.
  destruct (is_id_session (s_type sess)
            && match id sess with None => true | Some _ => false end) eqn:C.
  { apply andb_true_iff in C. destruct C as [C1 C2].
    assert (C3 : id sess = None) by (destruct (id sess); [discriminate|reflexivity]).
    split; [|split].
    - split; [intros _; right; left; right; right; split; assumption|].
      intros _. eauto.
    - left. eauto.
    - intros sv' st' H. discriminate H. }
  assert (NI : ~ session_incomplete sess).
  { intros [X | [X | [X1 X2]]]; [contradiction | contradiction |].
    rewrite X1, X2 in C. discriminate C. }
  destruct (session_exprs_complete sess C) as (ID & HID & HT).
  rewrite HT.
  assert (Hid : is_id_session (s_type sess) = true -> exists ID, id sess = Some ID)
    by (intros X; exists ID; apply HID, X).
  destruct (session_table (s_type sess) ID) as [[e1 e2]|] eqn:Tb.
  - assert (RF : session_regex_fails E sess ->
                 regcomp E e1 RX_ICASE_NEWLINE_EXTENDED <> 0 \/
                 regcomp E e2 RX_ICASE_NEWLINE_EXTENDED <> 0).
    { intros (ID' & a & b & HID' & Tb' & F).
      assert (X : session_table (s_type sess) ID'
                  = session_table (s_type sess) ID).
      { destruct (is_id_session (s_type sess)) eqn:I.
        - specialize (HID eq_refl). specialize (HID' eq_refl). congruence.
        - destruct (s_type sess); try discriminate I; reflexivity. }
      rewrite X, Tb in Tb'. inversion Tb'; subst. exact F. }
    destruct (regcomp E e1 RX_ICASE_NEWLINE_EXTENDED =? 0) eqn:R1; cbn [negb].
    + apply Z.eqb_eq in R1.
      destruct (regcomp E e2 RX_ICASE_NEWLINE_EXTENDED =? 0) eqn:R2; cbn [negb].
      * apply Z.eqb_eq in R2. split; [|split].
        -- split.
           ++ intros (a & b & X). discriminate X.
           ++ intros [X | [X | X]]; [contradiction | contradiction |].
              destruct (RF X); contradiction.
        -- right. eauto.
        -- intros sv' st' H. inversion H; subst. cbn.
           split; [exact TN'|]. split; [lia | exact Hid].
      * apply Z.eqb_neq in R2. split; [|split].
        -- split; [|intros _; eauto]. intros _. right. right.
           exists ID, e1, e2. auto.
        -- left. eauto.
        -- intros sv' st' H. discriminate H.
    + apply Z.eqb_neq in R1. split; [|split].
      * split; [|intros _; eauto]. intros _. right. right.
        exists ID, e1, e2. auto.
      * left. eauto.
      * intros sv' st' H. discriminate H.
  - split; [|split].
    + split.
      * intros (a & b & X). discriminate X.
      * intros [X | [X | X]]; [contradiction | contradiction |].
        destruct X as (ID' & a & b & HID' & Tb' & _).
        destruct (s_type sess); try discriminate Tb; discriminate Tb'.
    + right. eauto.
    + intros sv' st' H. inversion H; subst. cbn.
      split; [exact TN'|]. split; [lia | exact Hid].
Qed.

(** What [parse_session] logs when it fails: nothing of its own when the
    section itself does not parse, and otherwise the diagnostic of the
    first of its checks that fails. *)
Lemma parse_session_diagnostics (E : env) (n : nat) (sv : SERVICE)
    (dfl : POUND_DEFAULTS) (st : state) (r : PARSER_RES)
    (sess : service_session) (range : option locus_range) (st1 : state) :
  session_loop n dfl st = Ret (r, sess, range, st1) ->
  (r <> PARSER_OK ->
   parse_session E n sv dfl st = Ret (PARSER_FAIL, sv, st1)) /\
  (r = PARSER_OK -> s_type sess = SESS_NONE ->
   parse_session E n sv dfl st
   = Ret (PARSER_FAIL, sv,
          conf_error_at_locus_range range "Session type not defined" st1)) /\
  (r = PARSER_OK -> s_type sess <> SESS_NONE -> ttl sess = 0 ->
   parse_session E n sv dfl st
   = Ret (PARSER_FAIL, sv,
          conf_error_at_locus_range range "Session TTL not defined" st1)) /\
  (r = PARSER_OK -> s_type sess <> SESS_NONE -> ttl sess <> 0 ->
   is_id_session (s_type sess) = true -> id sess = None ->
   parse_session E n sv dfl st
   = Ret (PARSER_FAIL, sv, conf_error "Session ID not defined" st1)) /\
  (r = PARSER_OK -> ~ session_incomplete sess ->
   forall ID e_start e_pat,
     (is_id_session (s_type sess) = true -> id sess = Some ID) ->
     session_table (s_type sess) ID = Some (e_start, e_pat) ->
     (regcomp E e_start RX_ICASE_NEWLINE_EXTENDED <> 0 ->
      parse_session E n sv dfl st
      = Ret (PARSER_FAIL, sv,
             conf_regcomp_error E
               (regcomp E e_start RX_ICASE_NEWLINE_EXTENDED) (Some e_start)
               st1)) /\
     (regcomp E e_start RX_ICASE_NEWLINE_EXTENDED = 0 ->
      regcomp E e_pat RX_ICASE_NEWLINE_EXTENDED <> 0 ->
      parse_session E n sv dfl st
      = Ret (PARSER_FAIL,
             set_sess_start (mk_regex e_start RX_ICASE_NEWLINE_EXTENDED) sv,
             conf_regcomp_error E
               (regcomp E e_pat RX_ICASE_NEWLINE_EXTENDED) (Some e_pat)
               st1))).
Proof.
  intros L. rewrite parse_session_unfold, L.
  split; [intros NR; destruct r; [contradiction | reflexivity ..]|].
  split.
  { intros -> TN. apply SESS_TYPE_eqb_none in TN. rewrite TN. reflexivity. }
  assert (NotNone : s_type sess <> SESS_NONE ->
                    SESS_TYPE_eqb (s_type sess) SESS_NONE = false).
  { intros X. destruct (SESS_TYPE_eqb (s_type sess) SESS_NONE) eqn:Q;
      [|reflexivity]. apply SESS_TYPE_eqb_none in Q. contradiction. }
  split.
  { intros -> TN T0. rewrite (NotNone TN), T0. reflexivity. }
  split.
  { intros -> TN T0 I N. apply Z.eqb_neq in T0.
    rewrite (NotNone TN), T0, I, N. reflexivity. }
  intros -> NI ID e_start e_pat HID Tb.
  assert (TN : s_type sess <> SESS_NONE)
    by (intros X; apply NI; left; exact X).
  assert (T0 : (ttl sess =? 0) = false)
    by (apply Z.eqb_neq; intros X; apply NI; right; left; exact X).
  assert (C : is_id_session (s_type sess)
              && match id sess with None => true | Some _ => false end
              = false).
  { destruct (is_id_session (s_type sess)) eqn:I; [|reflexivity].
    rewrite (HID eq_refl). reflexivity. }
  assert (X : session_exprs (s_type sess) (id sess) = Some (e_start, e_pat)).
  { rewrite <- Tb. destruct (is_id_session (s_type sess)) eqn:I.
    - rewrite (HID eq_refl). apply session_exprs_table.
    - apply session_exprs_no_id, I. }
  rewrite (NotNone TN), T0, C, X. split.
  - intros R1. apply Z.eqb_neq in R1. rewrite R1. reflexivity.
  - intros R1 R2. apply Z.eqb_neq in R2. rewrite R1, R2. reflexivity.
Qed.

(** C3, as amended: [parse_session] fails exactly when the section itself
    does not parse, or when at its end the type is undefined, or the TTL
    is 0, or the type is COOKIE, URL or HEADER and no ID was given, or
    when one of the two expressions of the session does not compile.  When
    the section itself does not parse it adds nothing to what the section
    parser has logged; in the other cases it logs "Session type not
    defined" or "Session TTL not defined" at the range of the section,
    "Session ID not defined", or the error of [regcomp] with the
    expression that does not compile.  A session that is accepted has a
    defined type, a TTL above 0 and, for the types COOKIE, URL and HEADER,
    an ID. *)
Theorem parse_session_failure (E : env) (n : nat) (sv : SERVICE)
    (dfl : POUND_DEFAULTS) (st : state) (r : PARSER_RES)
    (sess : service_session) (range : option locus_range) (st1 : state) :
  session_loop n dfl st = Ret (r, sess, range, st1) ->
  (session_fails E n sv dfl st <->
   r <> PARSER_OK \/ session_incomplete sess \/ session_regex_fails E sess) /\
  (session_fails E n sv dfl st \/
   exists sv', parse_session E n sv dfl st = Ret (PARSER_OK, sv', st1)) /\
  (forall sv' st',
     parse_session E n sv dfl st = Ret (PARSER_OK, sv', st') ->
     sess_type sv' <> SESS_NONE /\
     0 < sess_ttl sv' /\
     (is_id_session (sess_type sv') = true -> exists ID, id sess = Some ID)) /\
  (r <> PARSER_OK ->
   parse_session E n sv dfl st = Ret (PARSER_FAIL, sv, st1)) /\
  (r = PARSER_OK -> s_type sess = SESS_NONE ->
   parse_session E n sv dfl st
   = Ret (PARSER_FAIL, sv,
          conf_error_at_locus_range range "Session type not defined" st1)) /\
  (r = PARSER_OK -> s_type sess <> SESS_NONE -> ttl sess = 0 ->
   parse_session E n sv dfl st
   = Ret (PARSER_FAIL, sv,
          conf_error_at_locus_range range "Session TTL not defined" st1)) /\
  (r = PARSER_OK -> s_type sess <> SESS_NONE -> ttl sess <> 0 ->
   is_id_session (s_type sess) = true -> id sess = None ->
   parse_session E n sv dfl st
   = Ret (PARSER_FAIL, sv, conf_error "Session ID not defined" st1)) /\
  (r = PARSER_OK -> ~ session_incomplete sess ->
   forall ID e_start e_pat,
     (is_id_session (s_type sess) = true -> id sess = Some ID) ->
     session_table (s_type sess) ID = Some (e_start, e_pat) ->
     (regcomp E e_start RX_ICASE_NEWLINE_EXTENDED <> 0 ->
      parse_session E n sv dfl st
      = Ret (PARSER_FAIL, sv,
             conf_regcomp_error E
               (regcomp E e_start RX_ICASE_NEWLINE_EXTENDED) (Some e_start)
               st1)) /\
     (regcomp E e_start RX_ICASE_NEWLINE_EXTENDED = 0 ->
      regcomp E e_pat RX_ICASE_NEWLINE_EXTENDED <> 0 ->
      parse_session E n sv dfl st
      = Ret (PARSER_FAIL,
             set_sess_start (mk_regex e_start RX_ICASE_NEWLINE_EXTENDED) sv,
             conf_regcomp_error E
               (regcomp E e_pat RX_ICASE_NEWLINE_EXTENDED) (Some e_pat)
               st1))).
Proof.
  intros L.
  destruct (parse_session_fails_when E n sv dfl st r sess range st1 L)
    as (A & B & C).
  split; [exact A|]. split; [exact B|]. split; [exact C|].
  exact (parse_session_diagnostics E n sv dfl st r sess range st1 L).
Qed.

Lemma parse_session_regexes_witness :
  let E := Demo.env [] in
  let st := Demo.reading cookie_session_text in
  let res := parse_session E 10%nat zero_service pound_defaults st in
  let sv' := snd (fst (returned (PARSER_FAIL, zero_service, st) res)) in
  let st' := snd (returned (PARSER_FAIL, zero_service, st) res) in
  res = Ret (PARSER_OK, sv', st') /\
  sess_type sv' = SESS_COOKIE /\
  sess_ttl sv' = 300 /\
  sess_start sv'
  = mk_regex ("Cookie[^:]*:.*[ " ++ tab ++ "]JSESSIONID=")
      (Z.lor (Z.lor REG_ICASE REG_NEWLINE) REG_EXTENDED) /\
  sess_pat sv'
  = mk_regex "([^;]*)" (Z.lor (Z.lor REG_ICASE REG_NEWLINE) REG_EXTENDED).
Proof.
  intros E st res sv' st'.
  assert (H : res = Ret (PARSER_OK, sv', st')) by (vm_compute; reflexivity).
  split; [exact H|].
  destruct (parse_session_regexes E 10%nat zero_service pound_defaults st sv'
              st' H)
    as (sess & range & L & T & TT & M).
  assert (Hs : sess = mk_session SESS_COOKIE (Some "JSESSIONID") 300).
  { vm_compute in L. injection L; intros; symmetry; assumption. }
  rewrite Hs in T, TT, M. cbn [s_type ttl id] in T, TT, M.
  destruct M as (ID & e1 & e2 & HID & Tb & S1 & S2).
  assert (HI : ID = "JSESSIONID") by (specialize (HID eq_refl); congruence).
  rewrite HI in Tb. cbn [session_table] in Tb.
  split; [exact T|]. split; [exact TT|].
  split; [rewrite S1 | rewrite S2]; injection Tb as <- <-; reflexivity.
Defined.

(** C3 as the spec states it does not hold: a section with the type
    COOKIE, a TTL of 300 and the ID "(" lacks nothing, and fails all the
    same, because the expression that embeds the ID does not compile. *)
Lemma parse_session_fail_iff_counterexample :
  ~ session_fail_iff (Demo.env []) 10 zero_service pound_defaults
      (Demo.reading paren_session_text).
Proof.
  intros C. unfold session_fail_iff in C.
  assert (L : exists rg s,
            session_loop 10 pound_defaults (Demo.reading paren_session_text)
            = Ret (PARSER_OK, mk_session SESS_COOKIE (Some "(") 300, rg, s))
    by (eexists; eexists; vm_compute; reflexivity).
  destruct L as (rg & s & L). destruct (C _ _ _ L) as [C1 _].
  assert (F : session_fails (Demo.env []) 10 zero_service pound_defaults
                (Demo.reading paren_session_text))
    by (eexists; eexists; vm_compute; reflexivity).
  destruct (C1 F) as [X | [X | [_ X]]]; discriminate X.
Qed.

Lemma parse_session_failure_witness :
  let E := Demo.env [] in
  let st := Demo.reading paren_session_text in
  let sess := mk_session SESS_COOKIE (Some "(") 300 in
  let run := returned (PARSER_FAIL, sess, None, st)
               (session_loop 10 pound_defaults st) in
  let e := "Cookie[^:]*:.*[ " ++ tab ++ "](=" in
  session_loop 10 pound_defaults st
  = Ret (PARSER_OK, sess, snd (fst run), snd run) /\
  session_regex_fails E sess /\
  session_fails E 10 zero_service pound_defaults st /\
  parse_session E 10%nat zero_service pound_defaults st
  = Ret (PARSER_FAIL, zero_service,
         conf_regcomp_error E (regcomp E e RX_ICASE_NEWLINE_EXTENDED)
           (Some e) (snd run)).
Proof.
  intros E st sess run e.
  assert (L : session_loop 10 pound_defaults st
              = Ret (PARSER_OK, sess, snd (fst run), snd run))
    by (vm_compute; reflexivity).
  assert (R : session_regex_fails E sess).
  { exists "(", e, "([^;]*)".
    split; [reflexivity|]. split; [reflexivity|].
    left. vm_compute. discriminate. }
  assert (NI : ~ session_incomplete sess).
  { intros [X | [X | [_ X]]]; discriminate X. }
  assert (R1 : regcomp E e RX_ICASE_NEWLINE_EXTENDED <> 0)
    by (vm_compute; discriminate).
  destruct (parse_session_failure E 10 zero_service pound_defaults st
              PARSER_OK sess (snd (fst run)) (snd run) L)
    as (Iff & _ & _ & _ & _ & _ & _ & Rx).
  split; [exact L|]. split; [exact R|]. split.
  - apply (proj2 Iff). right. right. exact R.
  - exact (proj1 (Rx eq_refl NI "(" e "([^;]*)" (fun _ => eq_refl) eq_refl)
             R1).
Defined.

(** ** Back-end addresses *)

Lemma set_address_socktype (a : addrinfo) :
  ai_socktype (ADDRINFO_SET_ADDRESS a) = ai_socktype a.
Proof. destruct a; reflexivity. Qed.

Lemma set_address_has_address (a : addrinfo) :
  ADDRINFO_HAS_ADDRESS (ADDRINFO_SET_ADDRESS a) = true.
Proof. destruct a; reflexivity. Qed.

(** [assign_address_internal] answers OK or FAIL; on OK the address is
    the resolver's, or the UNIX-domain one built in its place. *)
Lemma assign_address_internal_cases (E : env) (a : addrinfo)
    (tok : option token) (st : state) (r : PARSER_RES) (a' : addrinfo)
    (st' : state) :
  assign_address_internal E a tok st = (r, a', st') ->
  r = PARSER_FAIL \/
  r = PARSER_OK /\ ADDRINFO_HAS_ADDRESS a' = true /\
  exists t rc a1,
    tok = Some t /\ get_host E (str t) a PF_UNSPEC = (rc, a1) /\
    (rc = 0 /\ ai_socktype a' = ai_socktype a1 \/
     rc <> 0 /\ ai_socktype a' = SOCK_STREAM /\ ai_family a' = AF_UNIX).
Proof.
  unfold assign_address_internal. destruct tok as [t|]; [|intros [= <- _ _]; auto].
  destruct (negb (type t =? T_IDENT) && negb (type t =? T_LITERAL)
            && negb (type t =? T_STRING)); [intros [= <- _ _]; auto|].
  destruct (get_host E (str t) a PF_UNSPEC) as [rc a1] eqn:G.
  destruct (negb (rc =? 0)) eqn:R.
  - destruct (strlen (str t) >? UNIX_PATH_MAX (K E)); [intros [= <- _ _]; auto|].
    intros [= <- <- _]. right. split; [reflexivity|].
    split; [apply set_address_has_address|].
    exists t, rc, a1. split; [reflexivity|]. split; [exact G|]. right.
    apply negb_true_iff, Z.eqb_neq in R. destruct a1; auto.
  - intros [= <- <- _]. right. split; [reflexivity|].
    split; [apply set_address_has_address|].
    exists t, rc, a1. split; [reflexivity|]. split; [exact G|]. left.
    apply negb_false_iff, Z.eqb_eq in R. split; [exact R|].
    apply set_address_socktype.
Qed.

Lemma assign_address_stream (E : env) (a : addrinfo) (st : state)
    (r : PARSER_RES) (a' : addrinfo) (st' : state) :
  resolver_gives_stream E ->
  assign_address E a st = (r, a', st') -> r <> PARSER_FAIL ->
  ai_socktype a' = SOCK_STREAM.
Proof.
  intros HR H N. unfold assign_address in H.
  destruct (ADDRINFO_HAS_ADDRESS a); [inversion H; subst; contradiction|].
  destruct (gettkn_any st) as [tok st1].
  destruct (assign_address_internal_cases E a tok st1 r a' st' H)
    as [F | (_ & _ & t & rc & a1 & _ & G & [[Z S] | (_ & S & _)])];
    [contradiction | | exact S].
  rewrite S. subst rc. exact (HR _ _ _ _ G).
Qed.

Lemma assign_port_internal_socktype (E : env) (a : addrinfo)
    (tok : option token) (st : state) (r : PARSER_RES) (a' : addrinfo)
    (st' : state) :
  assign_port_internal E a tok st = (r, a', st') ->
  ai_socktype a' = ai_socktype a /\
  (r = PARSER_FAIL \/
   r = PARSER_OK /\ ADDRINFO_HAS_ADDRESS a' = ADDRINFO_HAS_ADDRESS a).
Proof.
  unfold assign_port_internal. destruct tok as [t|]; [|intros [= <- <- _]; auto].
  destruct (negb (type t =? T_IDENT) && negb (type t =? T_NUMBER));
    [intros [= <- <- _]; auto|].
  destruct (negb ((ai_family a =? AF_INET) || (ai_family a =? AF_INET6)));
    [intros [= <- <- _]; auto|].
  destruct (getaddrinfo E (str t) _) as [rc|res]; intros [= <- <- _]; [auto|].
  split; [destruct a; reflexivity|]. right. split; [reflexivity|].
  unfold ADDRINFO_HAS_ADDRESS, ADDRINFO_SET_PORT. destruct a as [fl fa so pr al ad].
  cbn. f_equal. f_equal.
  rewrite Z.land_lor_distr_l. change (Z.land AI_NUMERICSERV AI_NUMERICHOST) with 0.
  apply Z.lor_0_r.
Qed.

Lemma assign_port_stream (E : env) (a : addrinfo) (st : state)
    (r : PARSER_RES) (a' : addrinfo) (st' : state) :
  assign_port E a st = (r, a', st') -> r <> PARSER_FAIL ->
  stream_if_set a -> stream_if_set a'.
Proof.
  intros H N Pa. unfold assign_port in H.
  destruct (ADDRINFO_HAS_PORT a); [inversion H; subst; contradiction|].
  destruct (ADDRINFO_HAS_ADDRESS a) eqn:HA; cbn [negb] in H;
    [|inversion H; subst; contradiction].
  destruct (gettkn_any st) as [tok st1].
  destruct (assign_port_internal_socktype E a tok st1 r a' st' H) as [S _].
  intros _. rewrite S. apply Pa. exact HA.
Qed.

(** The statements that are handed the whole BACKEND leave its address,
    priority and flags alone. *)
Ltac core_done H :=
  inversion H; subst; unfold same_core; cbn; auto.

Lemma assign_port_internal_addr (E : env) (a : addrinfo) (tok : option token)
    (st : state) (a' : addrinfo) (st' : state) :
  assign_port_internal E a tok st = (PARSER_OK, a', st') ->
  exists p, ai_addr a' = option_map (set_sa_port p) (ai_addr a).
Proof.
  unfold assign_port_internal. intros H.
  destruct tok as [tok|]; [|discriminate H].
  destruct (negb (type tok =? T_IDENT) && negb (type tok =? T_NUMBER));
    [discriminate H|].
  destruct (negb ((ai_family a =? AF_INET) || (ai_family a =? AF_INET6)));
    [discriminate H|].
  destruct (getaddrinfo E (str tok) _) as [rc|res]; [discriminate H|].
  injection H as <- _. exists (port_of res). reflexivity.
Qed.

Lemma backend_parse_haport_core (E : env) (be : BACKEND) (st : state)
    (r : PARSER_RES) (be' : BACKEND) (st' : state) :
  backend_parse_haport E be st = (r, be', st') -> same_core be be'.
Proof.
  unfold backend_parse_haport. intros H.
  destruct (ADDRINFO_HAS_ADDRESS (ha_addr be)); [core_done H|].
  destruct (gettkn_any st) as [[saved|] st1]; [|core_done H].
  destruct (gettkn_any st1) as [[tok|] st2]; [|core_done H].
  destruct (type tok =? T_NEWLINE).
  - destruct (assign_port_internal E _ (Some saved) (putback_tkn st2))
      as [[[] a3] st3] eqn:Q; try solve [core_done H].
    destruct (assign_port_internal_addr E _ _ _ _ _ Q) as [p A].
    cbn [ha_addr set_ha_addr] in A.
    inversion H; subst. unfold same_core. cbn.
    split; [right; exists p; rewrite A; reflexivity | auto].
  - destruct (assign_address_internal E (ha_addr be) (Some saved) st2)
      as [[rc a2] st3].
    destruct rc; try solve [core_done H].
    destruct (assign_port_internal E _ (Some tok) st3) as [[[] a3] st4];
      core_done H.
Qed.

Lemma backend_parse_https_core (E : env) (be : BACKEND) (st : state)
    (r : PARSER_RES) (be' : BACKEND) (st' : state) :
  backend_parse_https E be st = (r, be', st') -> same_core be be'.
Proof.
  unfold backend_parse_https. intros H.
  destruct (SSL_CTX_new E false); [|core_done H].
  destruct (session_id E st) as [sid st1]. core_done H.
Qed.

Lemma backend_parse_cert_core (E : env) (be : BACKEND) (st : state)
    (r : PARSER_RES) (be' : BACKEND) (st' : state) :
  backend_parse_cert E be st = (r, be', st') -> same_core be be'.
Proof.
  unfold backend_parse_cert. intros H.
  destruct (ctx be) as [c|] eqn:C; [|core_done H].
  destruct (gettkn_expect T_STRING st) as [[tok|] st1]; [|core_done H].
  destruct (negb (SSL_CTX_use_certificate_chain_file E (str tok)));
    [core_done H|].
  destruct (negb (SSL_CTX_use_PrivateKey_file E (str tok)));
    [core_done H|].
  destruct (negb (SSL_CTX_check_private_key E _)); core_done H.
Qed.

Lemma backend_assign_ciphers_core (be : BACKEND) (st : state)
    (r : PARSER_RES) (be' : BACKEND) (st' : state) :
  backend_assign_ciphers be st = (r, be', st') -> same_core be be'.
Proof.
  unfold backend_assign_ciphers. intros H.
  destruct (ctx be) as [c|] eqn:C; [|core_done H].
  destruct (gettkn_expect T_STRING st) as [[tok|] st1]; core_done H.
Qed.

Lemma disable_proto_fails (E : env) (be : BACKEND) (st : state)
    (r : PARSER_RES) (be' : BACKEND) (st' : state) :
  disable_proto E be st = Ret (r, be', st') -> r = PARSER_FAIL /\ be' = be.
Proof.
  unfold disable_proto.
  destruct (set_proto_opt E 0 st) as [[[] n] st1]; intros H;
    inversion H; auto.
Qed.

Section BackendTables.

Variable E : env.
Variable P : BACKEND -> Prop.

(** [P] reads the core of the BACKEND only. *)
Hypothesis P_core : forall a b, same_core a b -> P a -> P b.
Hypothesis P_address :
  forall be a st r a' st',
    assign_address E a st = (r, a', st') -> r <> PARSER_FAIL ->
    addr be = a -> P be -> P (set_addr a' be).
Hypothesis P_port :
  forall be a st r a' st',
    assign_port E a st = (r, a', st') -> r <> PARSER_FAIL ->
    addr be = a -> P be -> P (set_addr a' be).
Hypothesis P_priority :
  forall be v st r v' st',
    backend_assign_priority v st = (r, v', st') -> r <> PARSER_FAIL ->
    P be -> P (set_priority v' be).

Lemma unstrict (r : PARSER_RES) :
  false = true \/ r <> PARSER_FAIL -> r <> PARSER_FAIL.
Proof. intros [S|S]; [discriminate S | exact S]. Qed.

Lemma keeps_whole_backend (h : BACKEND -> state -> PARSER_RES * BACKEND * state) :
  (forall be st r be' st', h be st = (r, be', st') -> same_core be be') ->
  keeps_obj P false (leaf0 h).
Proof.
  intros Hh. apply keeps_obj_leaf0. intros t st r t' st' H _ Pt.
  exact (P_core _ _ (Hh _ _ _ _ _ H) Pt).
Qed.

Lemma keeps_timeout (get : BACKEND -> Z) (set : Z -> BACKEND -> BACKEND) :
  (forall v be, same_core be (set v be)) ->
  keeps_obj P false (at_field get set (leaf0 assign_timeout)).
Proof.
  intros Hs. apply keeps_obj_frame. intros f t Pt.
  exact (P_core _ _ (Hs f t) Pt).
Qed.

Lemma keeps_disable :
  keeps_obj P false (fun _ be _ st => disable_proto E be st).
Proof.
  intros n t dfl st r t' st' H S Pt.
  destruct (disable_proto_fails E t st r t' st' H) as [-> ->]. exact Pt.
Qed.

Lemma keeps_address :
  keeps_obj P false (at_field addr set_addr (leaf0 (assign_address E))).
Proof.
  apply keeps_obj_field. intros n t dfl st r f st' H S Pt.
  unfold leaf0, leaf in H. inversion H as [H'].
  exact (P_address t _ _ _ _ _ H' (unstrict r S) eq_refl Pt).
Qed.

Lemma keeps_port :
  keeps_obj P false (at_field addr set_addr (leaf0 (assign_port E))).
Proof.
  apply keeps_obj_field. intros n t dfl st r f st' H S Pt.
  unfold leaf0, leaf in H. inversion H as [H'].
  exact (P_port t _ _ _ _ _ H' (unstrict r S) eq_refl Pt).
Qed.

Lemma keeps_priority :
  keeps_obj P false
    (at_field priority set_priority (leaf0 backend_assign_priority)).
Proof.
  apply keeps_obj_field. intros n t dfl st r f st' H S Pt.
  unfold leaf0, leaf in H. inversion H as [H'].
  exact (P_priority t _ _ _ _ _ H' (unstrict r S) Pt).
Qed.

Ltac backend_entry :=
  first
    [ apply keeps_obj_nodata
    | apply keeps_address
    | apply keeps_port
    | apply keeps_priority
    | apply keeps_timeout; intros v [];
      (split; [left; reflexivity | repeat split])
    | apply keeps_disable
    | apply keeps_whole_backend;
      first [ apply backend_parse_haport_core
            | apply backend_parse_https_core
            | apply backend_parse_cert_core
            | apply backend_assign_ciphers_core ] ].

Lemma backend_parsetab_keeps :
  Forall (fun e => keeps_obj P false (pt_parser e)) (backend_parsetab E).
Proof. repeat constructor; cbn [pt_parser entry]; backend_entry. Qed.

Lemma emergency_parsetab_keeps :
  Forall (fun e => keeps_obj P false (pt_parser e)) (emergency_parsetab E).
Proof. repeat constructor; cbn [pt_parser entry]; backend_entry. Qed.

End BackendTables.

(** What a section that [parse_backend_internal] accepts has: whatever
    the statements of its table keep, starting from the fresh BACKEND, and
    an address. *)
Lemma parse_backend_internal_keeps (P : BACKEND -> Prop) (n : nat)
    (table : list (PARSER_TABLE BACKEND)) (dfl : POUND_DEFAULTS) (st : state)
    (be : BACKEND) (st' : state) :
  Forall (fun e => keeps_obj P false (pt_parser e)) table ->
  (forall be0,
     addr be0 = zero_addrinfo -> priority be0 = 5 -> alive be0 = 1 ->
     disabled be0 = 0 -> P be0) ->
  parse_backend_internal n table dfl st = Ret (Some be, st') ->
  P be /\ ADDRINFO_HAS_ADDRESS (addr be) = true.
Proof.
  intros HK H0 H. unfold parse_backend_internal in H.
  destruct (parser_loop n table _ (fun _ => dfl) (Some zero_range) st)
    as [[[[r be1] range] st1]| |] eqn:L; try discriminate H.
  destruct r; try discriminate H.
  destruct (check_addrinfo (addr be1) range "Backend" st1) as [rc st2] eqn:C.
  destruct rc; try discriminate H. inversion H; subst be1 st2. split.
  - refine (parser_loop_obj P false table _ HK n _ _ st _ _ _ _ L
              (or_intror eq_refl) _).
    apply H0; reflexivity.
  - unfold check_addrinfo in C.
    destruct (ADDRINFO_HAS_ADDRESS (addr be)); [reflexivity | discriminate C].
Qed.

Lemma stream_if_set_tables (E : env) :
  resolver_gives_stream E ->
  Forall (fun e => keeps_obj (fun be => stream_if_set (addr be)) false
                     (pt_parser e)) (backend_parsetab E) /\
  Forall (fun e => keeps_obj (fun be => stream_if_set (addr be)) false
                     (pt_parser e)) (emergency_parsetab E).
Proof.
  intros HR.
  split; [apply backend_parsetab_keeps | apply emergency_parsetab_keeps].
  all: try (intros a b ([A | [p A]] & _) Pa; rewrite A; exact Pa).
  all: try (intros be a st r a' st' H N _ _ _;
            exact (assign_address_stream E a st r a' st' HR H N)).
  all: try (intros be a st r a' st' H N <- Pa;
            exact (assign_port_stream E _ st r a' st' H N Pa)).
  all: intros be v st r v' st' _ _ Pa; exact Pa.
Qed.

(** C9.  The address of the BACKEND that an accepted Backend section adds
    to the list, and of the one an accepted Emergency section stores, has
    socket type SOCK_STREAM, provided the addresses that [get_host]
    resolves have it; where [get_host] does not resolve the name, the
    address becomes a UNIX-domain one, of socket type SOCK_STREAM, whatever
    the resolver left in it. *)
Theorem backend_address_stream (E : env) :
  resolver_gives_stream E ->
  (forall n head dfl st head' st',
     parse_backend E n head dfl st = Ret (PARSER_OK, head', st') ->
     exists be,
       head' = SLIST_PUSH head be /\
       ADDRINFO_HAS_ADDRESS (addr be) = true /\
       ai_socktype (addr be) = SOCK_STREAM) /\
  (forall n res dfl st res' st',
     parse_emergency E n res dfl st = Ret (PARSER_OK, res', st') ->
     exists be,
       res' = Some be /\
       ADDRINFO_HAS_ADDRESS (addr be) = true /\
       ai_socktype (addr be) = SOCK_STREAM) /\
  (forall a tok st a' st' rc a1,
     get_host E (str tok) a PF_UNSPEC = (rc, a1) -> rc <> 0 ->
     assign_address_internal E a (Some tok) st = (PARSER_OK, a', st') ->
     ai_family a' = AF_UNIX /\ ai_socktype a' = SOCK_STREAM).
Proof.
  intros HR. destruct (stream_if_set_tables E HR) as [TB TE].
  assert (Z0 : forall be0 : BACKEND,
             addr be0 = zero_addrinfo -> priority be0 = 5 -> alive be0 = 1 ->
             disabled be0 = 0 -> stream_if_set (addr be0)).
  { intros be0 A _ _ _. rewrite A. intros X. discriminate X. }
  split; [|split].
  - intros n head dfl st head' st' H. unfold parse_backend in H.
    destruct (parse_backend_internal n (backend_parsetab E) dfl st)
      as [[[be|] st1]| |] eqn:Q; try discriminate H.
    inversion H; subst head' st1. exists be. split; [reflexivity|].
    destruct (parse_backend_internal_keeps _ n _ dfl st be st' TB Z0 Q)
      as [S A].
    split; [exact A | exact (S A)].
  - intros n res dfl st res' st' H. unfold parse_emergency in H.
    destruct (parse_backend_internal n (emergency_parsetab E) _ st)
      as [[[be|] st1]| |] eqn:Q; try discriminate H.
    inversion H; subst res' st1. exists be. split; [reflexivity|].
    destruct (parse_backend_internal_keeps _ n _ _ st be st' TE Z0 Q)
      as [S A].
    split; [exact A | exact (S A)].
  - intros a tok st a' st' rc a1 G N H.
    destruct (assign_address_internal_cases E a (Some tok) st _ a' st' H)
      as [F | (_ & _ & t & rc' & a2 & T & G' & C)]; [discriminate F|].
    injection T as <-. rewrite G in G'. injection G' as <- <-.
    destruct C as [[Z _] | (_ & S & F)]; [contradiction | auto].
Qed.

Lemma demo_resolver_stream (fs : list Demo.demo_file) :
  resolver_gives_stream (Demo.env fs).
Proof.
  intros nm a fam a'. cbn [get_host Demo.env]. unfold Demo.demo_get_host.
  destruct (Demo.is_numeric_host nm); intros [= <-]; reflexivity.
Qed.

Lemma backend_address_stream_witness :
  let E := Demo.env [] in
  let st := Demo.reading inet_backend_text in
  let res := parse_backend E 10%nat [] pound_defaults st in
  let head' := snd (fst (returned (PARSER_FAIL, [], st) res)) in
  let st' := snd (returned (PARSER_FAIL, [], st) res) in
  let stu := Demo.reading unix_backend_text in
  let resu := parse_emergency E 10%nat None pound_defaults stu in
  let em' := snd (fst (returned (PARSER_FAIL, None, stu) resu)) in
  let stu' := snd (returned (PARSER_FAIL, None, stu) resu) in
  resolver_gives_stream E /\
  res = Ret (PARSER_OK, head', st') /\
  resu = Ret (PARSER_OK, em', stu') /\
  (exists be,
     head' = SLIST_PUSH [] be /\ ADDRINFO_HAS_ADDRESS (addr be) = true /\
     ai_socktype (addr be) = SOCK_STREAM) /\
  (exists be,
     em' = Some be /\ ADDRINFO_HAS_ADDRESS (addr be) = true /\
     ai_socktype (addr be) = SOCK_STREAM).
Proof.
  intros E st res head' st' stu resu em' stu'.
  assert (HR : resolver_gives_stream E) by apply demo_resolver_stream.
  assert (H : res = Ret (PARSER_OK, head', st')) by (vm_compute; reflexivity).
  assert (Hu : resu = Ret (PARSER_OK, em', stu')) by (vm_compute; reflexivity).
  destruct (backend_address_stream E HR) as (B & M & _).
  split; [exact HR|]. split; [exact H|]. split; [exact Hu|].
  split.
  - exact (B 10%nat [] pound_defaults st head' st' H).
  - exact (M 10%nat None pound_defaults stu em' stu' Hu).
Defined.

(** ** Priorities of a service *)

Lemma pri_sum_nonneg (bes : list BACKEND) :
  Forall (fun be => 0 <= priority be) bes -> 0 <= pri_sum bes.
Proof.
  induction 1 as [|be bes H _ IH]; cbn [pri_sum fold_right]; [lia|].
  fold (pri_sum bes). lia.
Qed.

Lemma pri_sum_filter_le (p : BACKEND -> bool) (bes : list BACKEND) :
  Forall (fun be => 0 <= priority be) bes ->
  0 <= pri_sum (filter p bes) <= pri_sum bes.
Proof.
  induction 1 as [|be bes H _ IH]; cbn [filter pri_sum fold_right]; [lia|].
  fold (pri_sum bes).
  destruct (p be); cbn [pri_sum fold_right]; fold (pri_sum (filter p bes)); lia.
Qed.

(** The loop that sums the priorities, as long as the sums fit an [int]. *)
Lemma sum_priorities_exact (bes : list BACKEND) (tot abs : Z) :
  Forall (fun be => 0 <= priority be) bes ->
  0 <= tot <= abs -> abs + pri_sum bes <= INT_MAX ->
  sum_priorities bes tot abs
  = (tot + pri_sum (filter enabled bes), abs + pri_sum bes).
Proof.
  intros HF. revert tot abs.
  induction HF as [|be bes H HF IH]; intros tot abs B M;
    cbn [sum_priorities filter pri_sum fold_right].
  - f_equal; lia.
  - fold (pri_sum bes) in *. cbn [pri_sum fold_right] in M.
    fold (pri_sum bes) in M.
    pose proof (pri_sum_nonneg bes) as N. specialize (N HF).
    pose proof (pri_sum_filter_le enabled bes HF) as L.
    assert (A : int_add abs (priority be) = abs + priority be)
      by (apply to_int_small; unfold INT_MIN; lia).
    rewrite A. unfold enabled at 1.
    destruct (disabled be =? 0).
    + assert (T : int_add tot (priority be) = tot + priority be)
        by (apply to_int_small; unfold INT_MIN; lia).
      rewrite T, IH by lia. cbn [pri_sum fold_right].
      fold (pri_sum (filter enabled bes)). f_equal; lia.
    + rewrite IH by lia. f_equal; lia.
Qed.

Lemma fresh_filter (bes : list BACKEND) :
  Forall fresh_backend bes ->
  filter enabled bes = bes /\ filter alive_enabled bes = bes.
Proof.
  induction 1 as [|be bes (A & D & _) _ [IH1 IH2]]; [split; reflexivity|].
  cbn [filter]. unfold alive_enabled, enabled in *. rewrite A, D. cbn.
  rewrite IH1, IH2. split; reflexivity.
Qed.

Lemma fresh_nonneg (bes : list BACKEND) :
  Forall fresh_backend bes -> Forall (fun be => 0 <= priority be) bes.
Proof. apply Forall_impl. intros be (_ & _ & H). lia. Qed.

Lemma pri_sum_positive (bes : list BACKEND) :
  0 < pri_sum bes -> exists be, In be bes /\ 0 < priority be.
Proof.
  induction bes as [|be bes IH]; cbn [pri_sum fold_right]; [lia|].
  fold (pri_sum bes). intros H.
  destruct (Z.ltb_spec 0 (priority be)) as [P|P].
  - exists be. split; [left; reflexivity | exact P].
  - destruct IH as (b & I & Q); [lia|]. exists b. split; [right; exact I | exact Q].
Qed.

(** A service whose back-ends are fresh and whose sums have been taken. *)
Lemma summed_of_fresh (s : SERVICE) :
  Forall fresh_backend (backends s) ->
  tot_pri s = pri_sum (backends s) -> abs_pri s = pri_sum (backends s) ->
  priorities_summed s.
Proof.
  intros F T A. destruct (fresh_filter _ F) as [E1 E2].
  unfold priorities_summed. rewrite E1, E2.
  split; [exact A|]. split; [exact T|]. split; [exact T|]. split; [lia|].
  intros P. rewrite T in P. destruct (pri_sum_positive _ P) as (be & I & Q).
  exists be. split; [exact I|]. split; [|exact Q].
  rewrite Forall_forall in F. exact (proj1 (proj2 (F be I))).
Qed.

Lemma assign_int_cases (v : Z) (st : state) (r : PARSER_RES) (n : Z)
    (st' : state) :
  assign_int v st = (r, n, st') -> r = PARSER_OK \/ r = PARSER_FAIL.
Proof.
  unfold assign_int.
  destruct (gettkn_expect T_NUMBER st) as [[tok|] st1];
    [|intros [= <- _ _]; auto].
  destruct (strtol (str tok)) as [[m p] e].
  destruct (e || negb (streq p "") || (m <? INT_MIN) || (m >? INT_MAX));
    intros [= <- _ _]; auto.
Qed.

Lemma assign_int_range_bounds (dst lo hi : Z) (st : state) (r : PARSER_RES)
    (n : Z) (st' : state) :
  assign_int_range dst lo hi st = (r, n, st') -> r <> PARSER_FAIL ->
  lo <= n <= hi.
Proof.
  unfold assign_int_range.
  destruct (assign_int 0 st) as [[rc m] st1] eqn:A.
  destruct (assign_int_cases _ _ _ _ _ A) as [-> | ->];
    [|intros [= <- _ _] N; contradiction].
  destruct ((lo <=? m) && (m <=? hi)) eqn:B; cbn [negb];
    intros [= <- <- _] N; [|contradiction].
  apply andb_true_iff in B. destruct B as [B1 B2].
  apply Z.leb_le in B1, B2. lia.
Qed.

Lemma fresh_backend_tables (E : env) :
  Forall (fun e => keeps_obj fresh_backend false (pt_parser e))
    (backend_parsetab E).
Proof.
  apply backend_parsetab_keeps.
  - intros a b (_ & P & A & D) (Fa & Fd & Fp). unfold fresh_backend.
    rewrite P, A, D. auto.
  - intros be a st r a' st' _ _ _ F. exact F.
  - intros be a st r a' st' _ _ _ F. exact F.
  - intros be v st r v' st' H N (Fa & Fd & _).
    split; [exact Fa|]. split; [exact Fd|].
    exact (assign_int_range_bounds v 0 9 st r v' st' H N).
Qed.

(** An accepted Backend section adds a fresh back-end. *)
Lemma parse_backend_fresh (E : env) (n : nat) (head : list BACKEND)
    (dfl : POUND_DEFAULTS) (st : state) (r : PARSER_RES)
    (head' : list BACKEND) (st' : state) :
  parse_backend E n head dfl st = Ret (r, head', st') -> r <> PARSER_FAIL ->
  exists be, head' = SLIST_PUSH head be /\ fresh_backend be.
Proof.
  intros H N. unfold parse_backend in H.
  destruct (parse_backend_internal n (backend_parsetab E) dfl st)
    as [[[be|] st1]| |] eqn:Q; try discriminate H;
    inversion H; subst; [|contradiction].
  exists be. split; [reflexivity|].
  refine (proj1 (parse_backend_internal_keeps fresh_backend n _ dfl st be st'
                   (fresh_backend_tables E) _ Q)).
  intros be0 _ P A D. unfold fresh_backend. rewrite P, A, D. lia.
Qed.

Lemma assign_redirect_fresh (E : env) (head : list BACKEND) (st : state)
    (r : PARSER_RES) (head' : list BACKEND) (st' : state) :
  assign_redirect E head st = (r, head', st') -> r <> PARSER_FAIL ->
  exists be, head' = SLIST_PUSH head be /\ fresh_backend be.
Proof.
  unfold assign_redirect. intros H N.
  destruct (gettkn_any st) as [[tok|] st1];
    [|inversion H; subst; contradiction].
  destruct (if type tok =? T_NUMBER then _ else _) as [s|[[code t] s]];
    [inversion H; subst; contradiction|].
  destruct (negb (type t =? T_STRING)); [inversion H; subst; contradiction|].
  destruct (regexec E (LOCATION E) (str t) 4) as [matches|];
    [|inversion H; subst; contradiction].
  inversion H; subst. eexists. split; [reflexivity|].
  match goal with
  | |- fresh_backend (if ?c then _ else _) => destruct c
  end; unfold fresh_backend; cbn; lia.
Qed.

Lemma parse_session_same_backends (E : env) (n : nat) (sv : SERVICE)
    (dfl : POUND_DEFAULTS) (st : state) (r : PARSER_RES) (sv' : SERVICE)
    (st' : state) :
  parse_session E n sv dfl st = Ret (r, sv', st') -> same_backends sv sv'.
Proof.
  rewrite parse_session_unfold.
  destruct (session_loop n dfl st) as [[[[r1 sess] range] st1]| |];
    try discriminate.
  assert (R : same_backends sv sv) by (repeat split).
  destruct r1; try (intros [= _ <- _]; exact R).
  destruct (SESS_TYPE_eqb (s_type sess) SESS_NONE);
    [intros [= _ <- _]; exact R|].
  destruct (ttl sess =? 0); [intros [= _ <- _]; exact R|].
  destruct (is_id_session (s_type sess)
            && match id sess with None => true | Some _ => false end);
    [intros [= _ <- _]; exact R|].
  destruct (session_exprs (s_type sess) (id sess)) as [[e1 e2]|];
    [|intros [= _ <- _]; repeat split].
  destruct (negb (regcomp E e1 RX_ICASE_NEWLINE_EXTENDED =? 0));
    [intros [= _ <- _]; exact R|].
  destruct (negb (regcomp E e2 RX_ICASE_NEWLINE_EXTENDED =? 0));
    intros [= _ <- _]; repeat split.
Qed.

Section ServiceTable.

Variable E : env.

Let Q (ext : service_ext) : Prop := unsummed (svc ext).

(** An entry that points into the SERVICE at a member other than the
    back-ends and the two sums. *)
Lemma keeps_in_svc_frame {F : Type} (get : SERVICE -> F)
    (set : F -> SERVICE -> SERVICE) (h : PARSER F) :
  (forall v s, same_backends s (set v s)) ->
  keeps_obj Q false (at_field svc set_svc (at_field get set h)).
Proof.
  intros Hs. apply keeps_obj_field. intros n t dfl st r f st' H _ Pt.
  unfold at_field in H.
  destruct (h n (get (svc t)) dfl st) as [[[r1 v] st1]| |]; try discriminate H.
  inversion H; subst. destruct (Hs v (svc t)) as (B & T & A).
  unfold Q, unsummed in *. cbn [svc set_svc]. rewrite B, T, A. exact Pt.
Qed.

(** An entry that appends a fresh back-end. *)
Lemma keeps_in_svc_push (h : PARSER (list BACKEND)) :
  (forall n head dfl st r head' st',
     h n head dfl st = Ret (r, head', st') -> r <> PARSER_FAIL ->
     exists be, head' = SLIST_PUSH head be /\ fresh_backend be) ->
  keeps_obj Q false (at_field svc set_svc (at_field backends set_backends h)).
Proof.
  intros Hh. apply keeps_obj_field. intros n t dfl st r f st' H S Pt.
  unfold at_field in H.
  destruct (h n (backends (svc t)) dfl st) as [[[r1 v] st1]| |] eqn:C;
    try discriminate H.
  inversion H; subst.
  destruct (Hh _ _ _ _ _ _ _ C (unstrict r S)) as (be & -> & Fb).
  destruct Pt as (Fs & T & A). unfold Q, unsummed. cbn.
  split; [|split; assumption].
  unfold SLIST_PUSH. apply Forall_app. split; [exact Fs|].
  constructor; [exact Fb | constructor].
Qed.

Lemma service_parsetab_unsummed :
  Forall (fun e => keeps_obj Q false (pt_parser e)) (service_parsetab E).
Proof.
  unfold service_parsetab.
  repeat apply Forall_cons; try apply Forall_nil; cbn [pt_parser entry].
  - apply keeps_obj_nodata.
  - apply keeps_obj_frame. intros f t Pt. exact Pt.
  - apply keeps_obj_frame. intros f t Pt. exact Pt.
  - apply keeps_in_svc_frame. intros v s. repeat split.
  - apply keeps_in_svc_frame. intros v s. repeat split.
  - apply keeps_in_svc_frame. intros v s. repeat split.
  - apply keeps_in_svc_push. intros n head dfl st r head' st' H N.
    unfold leaf0, leaf in H. inversion H as [H'].
    exact (assign_redirect_fresh E head st r head' st' H' N).
  - apply keeps_in_svc_push. apply parse_backend_fresh.
  - apply keeps_in_svc_frame. intros v s. repeat split.
  - apply keeps_obj_field. intros n t dfl st r f st' H _ Pt.
    destruct (parse_session_same_backends E n _ dfl st r f st' H)
      as (B & T & A).
    unfold Q, unsummed in *. cbn [svc set_svc]. rewrite B, T, A. exact Pt.
Qed.

End ServiceTable.

(** C8.  The service that an accepted Service section adds to the list has
    only back-ends that are alive, not disabled and of priority 0 to 9;
    as long as the sum of their priorities fits an [int], [abs_pri] is
    that sum and [tot_pri] the sum over the back-ends whose [disabled]
    flag is unset, which are the alive enabled ones; so [tot_pri] is at
    most [abs_pri], and a positive [tot_pri] comes with a back-end that is
    not disabled and has a positive priority.  The service that an
    accepted ACME statement adds has its sums set the same way. *)
Theorem parse_service_priorities (E : env) :
  (forall n head dfl st head' st',
     parse_service E n head dfl st = Ret (PARSER_OK, head', st') ->
     exists s,
       head' = SLIST_PUSH head s /\
       Forall fresh_backend (backends s) /\
       (pri_sum (backends s) <= INT_MAX -> priorities_summed s)) /\
  (forall head st head' st',
     parse_acme E head st = (PARSER_OK, head', st') ->
     exists s, head' = SLIST_PUSH head s /\ priorities_summed s).
Proof.
  split.
  - intros n head dfl st head' st' H. unfold parse_service in H.
    destruct (gettkn_any st) as [[tok|] st1]; [|discriminate H].
    destruct (if type tok =? T_STRING then _ else _) as [ext0 st2] eqn:X.
    assert (Q0 : unsummed (svc ext0)).
    { destruct (type tok =? T_STRING); inversion X; subst;
        repeat split; constructor. }
    clear X.
    destruct (parser_loop n (service_parsetab E) _ (fun _ => dfl)
                (Some zero_range) st2)
      as [[[[r ext] range] st3]| |] eqn:L; try discriminate H.
    destruct r; try discriminate H.
    assert (Q1 : unsummed (svc ext)).
    { refine (parser_loop_obj (fun ext => unsummed (svc ext)) false _ _
                (service_parsetab_unsummed E) n _ _ st2 _ _ _ _ L
                (or_intror eq_refl) _).
      exact Q0. }
    destruct Q1 as (F & T & A).
    cbn [backends set_svc_url tot_pri abs_pri] in H.
    destruct (backends (svc ext)) as [|b bs] eqn:B.
    + destruct (compile_urls E (ext_url ext) _ _ _) as [[[] urls] st4];
        try discriminate H.
      inversion H; subst head' st4. eexists. split; [reflexivity|].
      cbn [backends set_svc_url]. rewrite B. split; [constructor|].
      intros _. apply summed_of_fresh; cbn; rewrite ?B; auto.
    + rewrite <- B in *. clear b bs B.
      destruct (sum_priorities (backends (svc ext)) (tot_pri (svc ext))
                  (abs_pri (svc ext))) as [tot abs] eqn:S.
      destruct (compile_urls E (ext_url ext) _ _ _) as [[[] urls] st4];
        try discriminate H.
      inversion H; subst head' st4. eexists. split; [reflexivity|].
      cbn [backends set_svc_url set_abs_pri set_tot_pri].
      split; [exact F|]. intros M.
      rewrite T, A in S.
      rewrite sum_priorities_exact in S;
        [|apply fresh_nonneg, F | lia | lia].
      destruct (fresh_filter _ F) as [E1 _]. rewrite E1 in S.
      injection S as <- <-.
      apply summed_of_fresh; cbn; auto.
  - intros head st head' st' H. unfold parse_acme in H.
    destruct (gettkn_expect T_STRING st) as [[tok|] st1]; [|discriminate H].
    destruct (stat E (str tok)) as [err|s]; [discriminate H|].
    destruct (negb (st_isdir s)); [discriminate H|].
    destruct (negb (regcomp E re_acme REG_EXTENDED =? 0)); [discriminate H|].
    inversion H; subst head' st1. eexists. split; [reflexivity|].
    apply summed_of_fresh; cbn; auto.
    repeat constructor; cbn; lia.
Qed.

Lemma parse_service_priorities_witness :
  let E := Demo.env [] in
  let st := Demo.reading service_text in
  let res := parse_service E 10%nat [] pound_defaults st in
  let head' := snd (fst (returned (PARSER_FAIL, [], st) res)) in
  let st' := snd (returned (PARSER_FAIL, [], st) res) in
  res = Ret (PARSER_OK, head', st') /\
  exists s,
    head' = [s] /\ map priority (backends s) = [3; 1; 5] /\
    pri_sum (backends s) <= INT_MAX /\
    priorities_summed s /\ tot_pri s = 9 /\ abs_pri s = 9.
Proof.
  intros E st res head' st'.
  assert (H : res = Ret (PARSER_OK, head', st')) by (vm_compute; reflexivity).
  split; [exact H|].
  destruct (proj1 (parse_service_priorities E) 10%nat [] pound_defaults st
              head' st' H) as (s & Hs & F & S).
  exists s.
  assert (B : map priority (backends s) = [3; 1; 5]
              /\ pri_sum (backends s) = 9).
  { assert (X : map (fun s => (map priority (backends s), pri_sum (backends s)))
                  head' = [([3; 1; 5], 9)]) by (vm_compute; reflexivity).
    rewrite Hs in X. cbn [SLIST_PUSH app map] in X.
    injection X as X1 X2. split; assumption. }
  destruct B as [B1 B2].
  assert (M : pri_sum (backends s) <= INT_MAX)
    by (rewrite B2; unfold INT_MAX; lia).
  split; [exact Hs|]. split; [exact B1|]. split; [exact M|].
  specialize (S M). split; [exact S|].
  destruct S as (A & T & _ & _ & _).
  destruct (fresh_filter (backends s) F) as [E1 _].
  rewrite E1 in T. rewrite T, A, B2. split; reflexivity.
Defined.

(** ** TLS contexts of a ListenHTTPS section *)

Lemma is_empty_nil {A : Type} (l : list A) : is_empty l = true <-> l = [].
Proof. destruct l; cbn; split; intros H; try discriminate H; reflexivity. Qed.

Lemma map_ctx_length (f : SSL_CTX -> SSL_CTX) (l : list POUND_CTX) :
  List.length (map_ctx f l) = List.length l.
Proof. apply length_map. Qed.

Lemma load_verify_locations_length (E : env) (fname : string)
    (l : list POUND_CTX) :
  List.length (snd (load_verify_locations E fname l)) = List.length l.
Proof.
  induction l as [|pc rest IH]; cbn [load_verify_locations]; [reflexivity|].
  destruct (negb (SSL_CTX_load_verify_locations E fname)); [reflexivity|].
  destruct (load_verify_locations E fname rest) as [ok rest'].
  cbn [snd List.length] in *. f_equal. exact IH.
Qed.

Lemma load_crl_length (E : env) (fname : string) (l : list POUND_CTX) :
  List.length (snd (load_crl E fname l)) = List.length l.
Proof.
  induction l as [|pc rest IH]; cbn [load_crl]; [reflexivity|].
  destruct (negb (X509_STORE_add_lookup E (pc_ctx pc))); [reflexivity|].
  destruct (negb (X509_load_crl_file E fname)); [reflexivity|].
  destruct (load_crl E fname rest) as [err rest'].
  cbn [snd List.length] in *. f_equal. exact IH.
Qed.

(** Case analysis of a handler, down to the tuples it returns. *)
Ltac handler_cases H :=
  repeat match type of H with
         | context [match ?x with _ => _ end] => destruct x eqn:?
         end.

Ltac same_tls_done H :=
  handler_cases H; inversion H; subst; unfold same_tls; cbn; auto.

Lemma listener_parse_socket_from_tls (E : env) (lst : LISTENER) (st : state)
    (r : PARSER_RES) (lst' : LISTENER) (st' : state) :
  listener_parse_socket_from E lst st = (r, lst', st') -> same_tls lst lst'.
Proof. unfold listener_parse_socket_from. intros H. same_tls_done H. Qed.

Lemma listener_parse_checkurl_tls (E : env) (lst : LISTENER)
    (dfl : POUND_DEFAULTS) (st : state) (r : PARSER_RES) (lst' : LISTENER)
    (st' : state) :
  listener_parse_checkurl E lst dfl st = (r, lst', st') -> same_tls lst lst'.
Proof. unfold listener_parse_checkurl. intros H. same_tls_done H. Qed.

Lemma https_parse_disable_tls (E : env) (lst : LISTENER) (st : state)
    (r : PARSER_RES) (lst' : LISTENER) (st' : state) :
  https_parse_disable E lst st = (r, lst', st') -> same_tls lst lst'.
Proof. unfold https_parse_disable. intros H. same_tls_done H. Qed.

Lemma https_parse_honor_cipher_order_tls (E : env) (lst : LISTENER)
    (st : state) (r : PARSER_RES) (lst' : LISTENER) (st' : state) :
  https_parse_honor_cipher_order E lst st = (r, lst', st') ->
  same_tls lst lst'.
Proof. unfold https_parse_honor_cipher_order. intros H. same_tls_done H. Qed.

Lemma https_parse_allow_client_renegotiation_tls (E : env) (lst : LISTENER)
    (st : state) (r : PARSER_RES) (lst' : LISTENER) (st' : state) :
  https_parse_allow_client_renegotiation E lst st = (r, lst', st') ->
  same_tls lst lst'.
Proof.
  unfold https_parse_allow_client_renegotiation. intros H. same_tls_done H.
Qed.

Lemma https_parse_nohttps11_tls (lst : LISTENER) (st : state)
    (r : PARSER_RES) (lst' : LISTENER) (st' : state) :
  https_parse_nohttps11 lst st = (r, lst', st') -> same_tls lst lst'.
Proof. unfold https_parse_nohttps11. intros H. same_tls_done H. Qed.

(** A Cert statement after one of the statements that follow Cert. *)
Lemma https_parse_cert_late (E : env) (lst : LISTENER) (st : state) :
  has_other lst <> 0 ->
  https_parse_cert E lst st
  = (PARSER_FAIL, lst,
     conf_error "Cert directives MUST precede other SSL-specific directives"
       st).
Proof.
  intros H. unfold https_parse_cert.
  destruct (has_other lst =? 0) eqn:Z; [|reflexivity].
  apply Z.eqb_eq in Z. contradiction.
Qed.

(** The statements that follow Cert: refused while there is no context;
    otherwise they mark the listener and keep the number of contexts. *)
Lemma after_cert_empty (E : env) (kw nm : string)
    (h : LISTENER -> state -> PARSER_RES * LISTENER * state) :
  In (kw, nm, h) (after_cert_statements E) ->
  forall lst st,
    ctx_head lst = [] ->
    h lst st
    = (PARSER_FAIL, lst, conf_error (nm ++ " may only be used after Cert") st).
Proof.
  intros I lst st C. cbn [after_cert_statements In] in I.
  repeat (destruct I as [I | I]; [injection I as <- <- <-|]);
    [.. | contradiction].
  all: cbv beta delta [https_parse_client_cert https_parse_ciphers
                       https_parse_calist https_parse_verifylist
                       https_parse_crlist];
    rewrite C; reflexivity.
Qed.

Lemma after_cert_marks (E : env) (kw nm : string)
    (h : LISTENER -> state -> PARSER_RES * LISTENER * state) :
  In (kw, nm, h) (after_cert_statements E) ->
  forall lst st r lst' st',
    ctx_head lst <> [] -> h lst st = (r, lst', st') ->
    has_other lst' = 1 /\
    List.length (ctx_head lst') = List.length (ctx_head lst).
Proof.
  intros I lst st r lst' st' C H. cbn [after_cert_statements In] in I.
  assert (N : is_empty (ctx_head lst) = false).
  { destruct (ctx_head lst); [contradiction | reflexivity]. }
  repeat (destruct I as [I | I]; [injection I as <- <- <-|]);
    [.. | contradiction].
  - unfold https_parse_client_cert in H. rewrite N in H.
    handler_cases H; inversion H; subst; cbn; rewrite ?map_ctx_length; auto.
  - unfold https_parse_ciphers in H. rewrite N in H.
    handler_cases H; inversion H; subst; cbn; rewrite ?map_ctx_length; auto.
  - unfold https_parse_calist in H. rewrite N in H.
    handler_cases H; inversion H; subst; cbn; rewrite ?map_ctx_length; auto.
  - unfold https_parse_verifylist in H. rewrite N in H.
    destruct (gettkn_expect T_STRING st) as [[tok|] st1];
      [|inversion H; subst; cbn; auto].
    cbn [ctx_head set_has_other] in H.
    pose proof (load_verify_locations_length E (str tok) (ctx_head lst)) as L.
    destruct (load_verify_locations E (str tok) (ctx_head lst)) as [[] l];
      inversion H; subst; cbn; auto.
  - unfold https_parse_crlist in H. rewrite N in H.
    destruct (gettkn_expect T_STRING st) as [[tok|] st1];
      [|inversion H; subst; cbn; auto].
    cbn [ctx_head set_has_other] in H.
    pose proof (load_crl_length E (str tok) (ctx_head lst)) as L.
    destruct (load_crl E (str tok) (ctx_head lst)) as [[msg|] l];
      inversion H; subst; cbn; auto.
Qed.

(** The keywords of the five statements select their handlers. *)
Lemma after_cert_keywords (E : env) (kw nm : string)
    (h : LISTENER -> state -> PARSER_RES * LISTENER * state) :
  In (kw, nm, h) (after_cert_statements E) ->
  option_map (fun e => pt_parser e) (parser_find (https_parsetab E) kw)
  = Some (leaf0 h).
Proof.
  intros I. cbn [after_cert_statements In] in I.
  repeat (destruct I as [I | I]; [injection I as <- <- <-|]);
    [.. | contradiction]; reflexivity.
Qed.

Section HttpsTable.

Variable E : env.
Variable P : LISTENER -> Prop.
Variable strict : bool.

Hypothesis P_tls : forall a b, same_tls a b -> P a -> P b.
Hypothesis P_after_cert :
  forall kw nm h,
    In (kw, nm, h) (after_cert_statements E) -> keeps_obj P strict (leaf0 h).

Lemma keeps_listener_field {F : Type} (get : LISTENER -> F)
    (set : F -> LISTENER -> LISTENER) (h : PARSER F) :
  (forall v l, same_tls l (set v l)) ->
  keeps_obj P strict (at_field get set h).
Proof.
  intros Hs. apply keeps_obj_frame. intros f t. apply P_tls, Hs.
Qed.

Lemma keeps_whole_listener
    (h : LISTENER -> state -> PARSER_RES * LISTENER * state) :
  (forall l st r l' st', h l st = (r, l', st') -> same_tls l l') ->
  keeps_obj P strict (leaf0 h).
Proof.
  intros Hh. apply keeps_obj_leaf0. intros t st r t' st' H _.
  apply P_tls. exact (Hh _ _ _ _ _ H).
Qed.

Lemma keeps_checkurl : keeps_obj P strict (leaf (listener_parse_checkurl E)).
Proof.
  apply keeps_obj_leaf. intros t dfl st r t' st' H _.
  apply P_tls. exact (listener_parse_checkurl_tls E _ _ _ _ _ _ H).
Qed.

Ltac https_entry :=
  first
    [ apply keeps_obj_nodata
    | apply keeps_listener_field; intros v l; split; reflexivity
    | apply keeps_checkurl
    | apply keeps_whole_listener;
      first [ apply listener_parse_socket_from_tls
            | apply https_parse_disable_tls
            | apply https_parse_honor_cipher_order_tls
            | apply https_parse_allow_client_renegotiation_tls
            | apply https_parse_nohttps11_tls ]
    | eapply P_after_cert; cbn [after_cert_statements In];
      solve [repeat (first [left; reflexivity | right])] ].

(** Every statement of the section but Cert. *)
Lemma https_parsetab_but_cert :
  Forall (fun e => pt_name e = "Cert" \/ keeps_obj P strict (pt_parser e))
    (https_parsetab E).
Proof.
  unfold https_parsetab.
  repeat apply Forall_cons; try apply Forall_nil;
    cbn [pt_parser pt_name entry];
    first [right; https_entry | left; reflexivity].
Qed.

Lemma https_parsetab_keeps :
  keeps_obj P strict (leaf0 (https_parse_cert E)) ->
  Forall (fun e => keeps_obj P strict (pt_parser e)) (https_parsetab E).
Proof.
  intros HC. unfold https_parsetab.
  repeat apply Forall_cons; try apply Forall_nil;
    cbn [pt_parser pt_name entry];
    first [https_entry | exact HC].
Qed.

End HttpsTable.

(** Once one of the statements that follow Cert has been accepted, the
    rest of the section leaves the mark and the number of contexts as
    they are. *)
Lemma cert_closed_table (E : env) (k : nat) :
  Forall (fun e => keeps_obj (cert_closed k) true (pt_parser e))
    (https_parsetab E).
Proof.
  apply https_parsetab_keeps.
  - intros a b (O & C) (Ha & Hl). unfold cert_closed. rewrite O, C. auto.
  - intros kw nm h I n t dfl st r t' st' H _ (Ho & Hl).
    unfold leaf0, leaf in H. inversion H as [H'].
    destruct (ctx_head t) as [|pc rest] eqn:C.
    + rewrite (after_cert_empty E kw nm h I t st C) in H'.
      inversion H'; subst. split; [exact Ho | rewrite C; reflexivity].
    + assert (N : ctx_head t <> []) by (rewrite C; discriminate).
      destruct (after_cert_marks E kw nm h I t st r t' st' N H') as [M L].
      split; [rewrite M; discriminate | rewrite L, C; exact Hl].
  - intros n t dfl st r t' st' H _ (Ho & Hl).
    unfold leaf0, leaf in H. inversion H as [H'].
    rewrite (https_parse_cert_late E t st Ho) in H'.
    injection H' as _ <- _. split; assumption.
Qed.

(** No statement but Cert gives a listener its first context. *)
Lemma no_context_table (E : env) :
  Forall (fun e =>
            pt_name e = "Cert" \/
            keeps_obj (fun l => ctx_head l = []) true (pt_parser e))
    (https_parsetab E).
Proof.
  apply https_parsetab_but_cert.
  - intros a b (_ & C) Ha. rewrite C. exact Ha.
  - intros kw nm h I n t dfl st r t' st' H _ C.
    unfold leaf0, leaf in H. inversion H as [H'].
    rewrite (after_cert_empty E kw nm h I t st C) in H'.
    inversion H'; subst. exact C.
Qed.

Lemma finish_contexts_length (E : env) (lst : LISTENER) (l : list POUND_CTX)
    (st : state) :
  List.length (fst (finish_contexts E lst l st)) = List.length l.
Proof.
  revert st. induction l as [|pc rest IH]; intros st; [reflexivity|].
  cbn [finish_contexts].
  destruct (session_id E st) as [sid st1]. specialize (IH st1).
  destruct (finish_contexts E lst rest st1) as [rest' st2].
  cbn [fst List.length] in *. f_equal. exact IH.
Qed.

(** C6.  A ListenHTTPS section that is accepted adds a listener with at
    least one TLS context, and a section that has been read and has an
    address but no context fails with "Cert statement is missing" at the
    range of the section.  Cert after one of ClientCert, Ciphers, CAlist,
    VerifyList and CRLlist is refused: each of the five is refused while
    the listener has no context and marks the listener otherwise, the mark
    (and with it the number of contexts) stays for the rest of the
    section, and a marked listener refuses Cert.  No statement but Cert
    gives the listener its first context. *)
Theorem https_cert_order (E : env) :
  (forall n head dfl st head' st',
     parse_listen_https E n head dfl st = Ret (PARSER_OK, head', st') ->
     exists lst, head' = SLIST_PUSH head lst /\ ctx_head lst <> []) /\
  (forall n head dfl st lst0 st0 lst range st1 st2,
     listener_alloc E dfl st = (Some lst0, st0) ->
     https_loop E n dfl lst0 st0 = Ret (PARSER_OK, lst, range, st1) ->
     check_addrinfo (l_addr lst) range "ListenHTTPS" st1 = (PARSER_OK, st2) ->
     ctx_head lst = [] ->
     parse_listen_https E n head dfl st
     = Ret (PARSER_FAIL, head,
            conf_error_at_locus_range range "Cert statement is missing" st2)) /\
  (option_map (fun e => pt_parser e) (parser_find (https_parsetab E) "Cert")
   = Some (leaf0 (https_parse_cert E)) /\
   forall lst st,
     has_other lst <> 0 ->
     https_parse_cert E lst st
     = (PARSER_FAIL, lst,
        conf_error
          "Cert directives MUST precede other SSL-specific directives" st)) /\
  (forall kw nm h,
     In (kw, nm, h) (after_cert_statements E) ->
     option_map (fun e => pt_parser e) (parser_find (https_parsetab E) kw)
     = Some (leaf0 h) /\
     (forall lst st,
        ctx_head lst = [] ->
        h lst st
        = (PARSER_FAIL, lst,
           conf_error (nm ++ " may only be used after Cert") st)) /\
     (forall lst st r lst' st',
        ctx_head lst <> [] -> h lst st = (r, lst', st') ->
        has_other lst' = 1 /\
        List.length (ctx_head lst') = List.length (ctx_head lst))) /\
  (forall n lst sd rr st r lst' rr' st',
     parser_loop n (https_parsetab E) lst sd rr st = Ret (r, lst', rr', st') ->
     has_other lst <> 0 ->
     has_other lst' <> 0 /\
     List.length (ctx_head lst') = List.length (ctx_head lst)) /\
  Forall (fun e =>
            pt_name e = "Cert" \/
            keeps_obj (fun l => ctx_head l = []) true (pt_parser e))
    (https_parsetab E).
Proof.
  split; [|split; [|split; [|split; [|split]]]].
  - intros n head dfl st head' st' H. unfold parse_listen_https in H.
    destruct (listener_alloc E dfl st) as [[lst0|] st0]; [|discriminate H].
    destruct (parser_loop n (https_parsetab E) _ (fun _ => dfl)
                (Some zero_range) st0)
      as [[[[r lst] range] st1]| |]; try discriminate H.
    destruct r; try discriminate H.
    destruct (check_addrinfo (l_addr lst) range "ListenHTTPS" st1)
      as [[] st2]; try discriminate H.
    destruct (ctx_head lst) as [|pc rest]; [discriminate H|].
    destruct (negb (SSL_CTX_set_tlsext_servername E (pc_ctx pc)));
      [discriminate H|].
    pose proof (finish_contexts_length E lst
                  (set_pc_ctx (set_ctx_sni_cb true (pc_ctx pc)) pc :: rest)
                  st2) as L.
    destruct (finish_contexts E lst _ st2) as [l st3].
    inversion H; subst head' st3. eexists. split; [reflexivity|].
    cbn [ctx_head set_ctx_head fst List.length] in *.
    intros Z. rewrite Z in L. discriminate L.
  - intros n head dfl st lst0 st0 lst range st1 st2 A L C N.
    unfold parse_listen_https. rewrite A.
    change (parser_loop n (https_parsetab E) _ (fun _ => dfl)
              (Some zero_range) st0) with (https_loop E n dfl lst0 st0).
    rewrite L, C, N. reflexivity.
  - split; [reflexivity | apply https_parse_cert_late].
  - intros kw nm h I. split; [exact (after_cert_keywords E kw nm h I)|].
    split; [exact (after_cert_empty E kw nm h I)
           | exact (after_cert_marks E kw nm h I)].
  - intros n lst sd rr st r lst' rr' st' H O.
    refine (parser_loop_obj (cert_closed (List.length (ctx_head lst))) true _
              sd (cert_closed_table E _) n lst rr st r lst' rr' st' H
              (or_introl eq_refl) _).
    split; [exact O | reflexivity].
  - apply no_context_table.
Qed.

Lemma https_cert_order_witness :
  let E := Demo.env cert_files in
  let st := Demo.reading two_certs_text in
  let res := parse_listen_https E 10%nat [] pound_defaults st in
  let head' := snd (fst (returned (PARSER_FAIL, [], st) res)) in
  let st' := snd (returned (PARSER_FAIL, [], st) res) in
  let stn := Demo.reading no_cert_text in
  let lst0 :=
    match fst (listener_alloc E pound_defaults stn) with
    | Some l => l
    | None => zero_listener
    end in
  let st0 := snd (listener_alloc E pound_defaults stn) in
  let run := returned (PARSER_FAIL, zero_listener, None, stn)
               (https_loop E 10 pound_defaults lst0 st0) in
  let lst := snd (fst (fst run)) in
  let range := snd (fst run) in
  let st2 := snd (check_addrinfo (l_addr lst) range "ListenHTTPS" (snd run)) in
  let marked := set_has_other 1 zero_listener in
  res = Ret (PARSER_OK, head', st') /\
  (exists l, head' = SLIST_PUSH [] l /\ ctx_head l <> []) /\
  parse_listen_https E 10%nat [] pound_defaults stn
  = Ret (PARSER_FAIL, [],
         conf_error_at_locus_range range "Cert statement is missing" st2) /\
  https_parse_cert E marked st
  = (PARSER_FAIL, marked,
     conf_error "Cert directives MUST precede other SSL-specific directives"
       st) /\
  https_parse_ciphers zero_listener st
  = (PARSER_FAIL, zero_listener,
     conf_error ("Ciphers" ++ " may only be used after Cert") st).
Proof.
  intros E st res head' st' stn lst0 st0 run lst range st2 marked.
  destruct (https_cert_order E) as (Acc & Miss & (_ & Late) & Five & _).
  assert (H : res = Ret (PARSER_OK, head', st')) by (vm_compute; reflexivity).
  assert (A : listener_alloc E pound_defaults stn = (Some lst0, st0))
    by (vm_compute; reflexivity).
  assert (L : https_loop E 10 pound_defaults lst0 st0
              = Ret (PARSER_OK, lst, range, snd run))
    by (vm_compute; reflexivity).
  assert (C : check_addrinfo (l_addr lst) range "ListenHTTPS" (snd run)
              = (PARSER_OK, st2))
    by (vm_compute; reflexivity).
  assert (N : ctx_head lst = []) by (vm_compute; reflexivity).
  split; [exact H|].
  split; [exact (Acc 10%nat [] pound_defaults st head' st' H)|].
  split; [exact (Miss 10%nat [] pound_defaults stn lst0 st0 lst range
                   (snd run) st2 A L C N)|].
  split.
  - apply Late. cbn. discriminate.
  - destruct (Five "Ciphers" "Ciphers" https_parse_ciphers) as (_ & Em & _).
    + cbn. auto.
    + exact (Em zero_listener st eq_refl).
Defined.

(** * Further properties of the code *)

(** ** What the section parser returns *)

Lemma input_gettkn_type (i : input) :
  fst (fst (input_gettkn i)) = type (itoken (snd (fst (input_gettkn i)))).
Proof.
  unfold input_gettkn. destruct (ready i); [reflexivity|].
  destruct (scan_token _ _ _) as [i' errs]. reflexivity.
Qed.

(** [gettkn] hands out an end-of-file token only when no input is left. *)
Lemma gettkn_loop_eof (stack : list input) (last : token) :
  type (fst (fst (gettkn_loop stack last))) = EOF ->
  snd (fst (gettkn_loop stack last)) = [].
Proof.
  revert last. induction stack as [|i prev IH]; intros last;
    cbn [gettkn_loop]; [reflexivity|].
  pose proof (input_gettkn_type i) as Ty.
  destruct (input_gettkn i) as [[t i'] errs]. cbn [fst snd] in Ty.
  destruct (t =? EOF) eqn:Q.
  - specialize (IH (itoken i')).
    destruct (gettkn_loop prev (itoken i')) as [[tok stack'] errs'].
    exact IH.
  - cbn [fst snd]. intros X. rewrite Ty, X in Q. discriminate Q.
Qed.

Lemma gettkn_eof (st : state) (tok : token) (st1 : state) :
  gettkn st = (tok, st1) -> type tok = EOF -> cur_input st1 = [].
Proof.
  unfold gettkn. intros H X.
  pose proof (gettkn_loop_eof (cur_input st) (mk_token EOF "" zero_range)) as G.
  destruct (gettkn_loop (cur_input st) _) as [[tok0 stack] errs].
  injection H as <- <-. cbn [fst snd] in G.
  rewrite log_errors_cur_input. cbn. exact (G X).
Qed.

(** A token other than the end of file comes from an input that stays
    open. *)
Lemma gettkn_loop_open (stack : list input) (last : token) :
  type last = EOF ->
  type (fst (fst (gettkn_loop stack last))) <> EOF ->
  snd (fst (gettkn_loop stack last)) <> [].
Proof.
  revert last. induction stack as [|i prev IH]; intros last L;
    cbn [gettkn_loop]; [intros N; contradiction|].
  pose proof (input_gettkn_type i) as Ty.
  destruct (input_gettkn i) as [[t i'] errs]. cbn [fst snd] in Ty.
  destruct (t =? EOF) eqn:Q.
  - apply Z.eqb_eq in Q. rewrite Ty in Q. specialize (IH (itoken i') Q).
    destruct (gettkn_loop prev (itoken i')) as [[tok stack'] errs'].
    exact IH.
  - cbn [fst snd]. intros _. discriminate.
Qed.

Lemma gettkn_open_after (st : state) (tok : token) (st1 : state) :
  gettkn st = (tok, st1) -> type tok <> EOF -> cur_input st1 <> [].
Proof.
  unfold gettkn. intros H N.
  pose proof (gettkn_loop_open (cur_input st) (mk_token EOF "" zero_range)
                eq_refl) as G.
  destruct (gettkn_loop (cur_input st) _) as [[tok0 stack] errs].
  injection H as <- <-. cbn [fst snd] in G.
  rewrite log_errors_cur_input. cbn. exact (G N).
Qed.

Lemma gettkn_open_some (st : state) :
  cur_input st <> [] -> gettkn_open st = Ret (gettkn st).
Proof.
  unfold gettkn_open. destruct (cur_input st); [contradiction | reflexivity].
Qed.

Section LoopResult.

Context {T : Type}.
Variable ptab : list (PARSER_TABLE T).
Variable sd : T -> POUND_DEFAULTS.

(** How a run of the loop ended that returned: with PARSER_OK or
    PARSER_FAIL; and when with PARSER_OK, either at the end of the input,
    which only a loop without a range accepts, or by a handler that was
    entered with an input open and returned PARSER_END. *)
Lemma parser_loop_iter_result (n : nat) (t : T) (rr : option locus_range)
    (st : state) (r : PARSER_RES) (t' : T) (rr' : option locus_range)
    (st' : state) :
  parser_loop_iter n ptab t sd rr st = Ret (r, t', rr', st') ->
  r = PARSER_FAIL \/
  r = PARSER_OK /\
  (rr = None /\ cur_input st' = [] \/
   exists ent k t0 st0,
     In ent ptab /\ cur_input st0 <> [] /\
     pt_parser ent k t0 (sd t0) st0 = Ret (PARSER_END, t', st')).
Proof.
  revert t rr st. induction n as [|n IH]; intros t rr st H; [discriminate H|].
  cbn [parser_loop_iter] in H. unfold gettkn_open in H.
  destruct (cur_input st) as [|i0 s0]; [discriminate H|].
  destruct (gettkn st) as [tok st1] eqn:G.
  destruct (type tok =? EOF) eqn:Q.
  { apply Z.eqb_eq in Q. destruct rr as [r0|]; inversion H; subst; auto.
    right. split; [reflexivity|]. left. split; [reflexivity|].
    exact (gettkn_eof _ _ _ G Q). }
  apply Z.eqb_neq in Q. pose proof (gettkn_open_after _ _ _ G Q) as Open.
  destruct (type tok =? T_ERROR); [inversion H; subst; auto|].
  assert (Next : forall rr1 t1 st2,
             parser_loop_iter n ptab t1 sd rr1 st2 = Ret (r, t', rr', st') ->
             (rr1 = None -> rr = None) ->
             r = PARSER_FAIL \/
             r = PARSER_OK /\
             (rr = None /\ cur_input st' = [] \/
              exists ent k t0 st0,
                In ent ptab /\ cur_input st0 <> [] /\
                pt_parser ent k t0 (sd t0) st0 = Ret (PARSER_END, t', st'))).
  { intros rr1 t1 st2 H1 R.
    destruct (IH _ _ _ H1) as [F | [O [[N C] | X]]];
      [left; exact F | right | right; split; [exact O | right; exact X]].
    split; [exact O|]. left. split; [exact (R N) | exact C]. }
  destruct (type tok =? T_IDENT).
  - destruct (parser_find ptab (str tok)) as [ent|] eqn:F;
      [|inversion H; subst; auto].
    apply parser_find_In in F.
    destruct (pt_parser ent n t (sd t) st1) as [[[r1 t1] st2]| |] eqn:P;
      try discriminate H.
    destruct r1.
    + destruct (cur_input st2) as [|i2 s2]; [discriminate H|].
      destruct (gettkn st2) as [tok2 st3].
      destruct (type tok2 =? T_ERROR); [inversion H; subst; auto|].
      destruct (negb (type tok2 =? T_NEWLINE) && negb (type tok2 =? EOF));
        [inversion H; subst; auto|].
      eapply Next; [exact H|]. destruct rr; [discriminate | reflexivity].
    + eapply Next; [exact H|]. destruct rr; [discriminate | reflexivity].
    + inversion H; subst; auto.
    + inversion H; subst. right. split; [reflexivity|]. right.
      exists ent, n, t, st1. split; [exact F|]. split; [exact Open | exact P].
  - destruct (type tok =? T_NEWLINE).
    + eapply Next; [exact H|]. destruct rr; [discriminate | reflexivity].
    + eapply Next; [exact H|]. destruct rr; [discriminate | reflexivity].
Qed.

(** The loop at the end of the input. *)
Lemma parser_loop_iter_eof (n : nat) (t : T) (rr : option locus_range)
    (st : state) (tok : token) (st1 : state) :
  cur_input st <> [] -> gettkn st = (tok, st1) -> type tok = EOF ->
  parser_loop_iter (S n) ptab t sd rr st
  = match rr with
    | Some r0 =>
        Ret (PARSER_FAIL, t, rr,
             conf_error_at_locus_point (Some (beg r0))
               "unexpected end of file" st1)
    | None => Ret (PARSER_OK, t, rr, st1)
    end.
Proof.
  intros O G E. cbn [parser_loop_iter].
  rewrite (gettkn_open_some st O), G, E. reflexivity.
Qed.

(** The loop at a token that begins no statement. *)
Lemma parser_loop_iter_stray (n : nat) (t : T) (rr : option locus_range)
    (st : state) (tok : token) (st1 : state) :
  cur_input st <> [] -> gettkn st = (tok, st1) -> stray_token tok ->
  parser_loop_iter (S n) ptab t sd rr st
  = parser_loop_iter n ptab t sd (range_to rr st1)
      (conf_error_at_locus_range (Some (locus tok)) "syntax error" st1).
Proof.
  intros O G S. cbn [parser_loop_iter].
  rewrite (gettkn_open_some st O), G.
  destruct S as [S | [S | S]]; rewrite S; reflexivity.
Qed.

End LoopResult.

(** ** The top level *)

Lemma never_ends_leaf {T : Type}
    (h : T -> POUND_DEFAULTS -> state -> PARSER_RES * T * state) :
  (forall t dfl st r t' st', h t dfl st = (r, t', st') -> r <> PARSER_END) ->
  never_ends (leaf h).
Proof.
  intros Hh n t dfl st r t' st' H. unfold leaf in H. inversion H as [H'].
  exact (Hh _ _ _ _ _ _ H').
Qed.

Lemma never_ends_leaf0 {T : Type} (h : T -> state -> PARSER_RES * T * state) :
  (forall t st r t' st', h t st = (r, t', st') -> r <> PARSER_END) ->
  never_ends (leaf0 h).
Proof. intros Hh. apply never_ends_leaf. intros t dfl. apply Hh. Qed.

Lemma never_ends_nodata {T : Type} (h : state -> PARSER_RES * state) :
  (forall st r st', h st = (r, st') -> r <> PARSER_END) ->
  never_ends (@leaf_nodata T h).
Proof.
  intros Hh. apply never_ends_leaf. intros t dfl st r t' st' H.
  destruct (h st) as [r1 st1] eqn:Q. inversion H; subst.
  exact (Hh _ _ _ Q).
Qed.

Lemma never_ends_at_field {T F : Type} (get : T -> F) (set : F -> T -> T)
    (h : PARSER F) :
  never_ends h -> never_ends (at_field get set h).
Proof.
  intros Hh n t dfl st r t' st' H. unfold at_field in H.
  destruct (h n (get t) dfl st) as [[[r1 f] st1]| |] eqn:Q; try discriminate H.
  inversion H; subst. exact (Hh _ _ _ _ _ _ _ Q).
Qed.

Lemma never_ends_at_global {T F : Type} (get : globals -> F)
    (set : F -> globals -> globals) (h : PARSER F) :
  never_ends h -> never_ends (@at_global T F get set h).
Proof.
  intros Hh n t dfl st r t' st' H. unfold at_global in H.
  destruct (h n (get (glob st)) dfl st) as [[[r1 f] st1]| |] eqn:Q;
    try discriminate H.
  inversion H; subst. exact (Hh _ _ _ _ _ _ _ Q).
Qed.

(** A handler whose every return names its code. *)
Ltac code_cases H :=
  handler_cases H; inversion H; subst; discriminate.

Lemma assign_string_code v st r v' st' :
  assign_string v st = (r, v', st') -> r <> PARSER_END.
Proof. unfold assign_string. intros H. code_cases H. Qed.

Lemma assign_bool_code v st r v' st' :
  assign_bool v st = (r, v', st') -> r <> PARSER_END.
Proof. unfold assign_bool. intros H. code_cases H. Qed.

Lemma assign_unsigned_code v st r v' st' :
  assign_unsigned v st = (r, v', st') -> r <> PARSER_END.
Proof.
  intros H. destruct (assign_unsigned_fail _ _ _ _ _ H) as [-> | [-> _]];
    discriminate.
Qed.

Lemma assign_log_level_code v st r v' st' :
  assign_log_level v st = (r, v', st') -> r <> PARSER_END.
Proof.
  unfold assign_log_level. intros H.
  destruct (assign_unsigned 0 st) as [[r1 n] st1] eqn:A.
  destruct (assign_unsigned_fail _ _ _ _ _ A) as [-> | [-> _]].
  - destruct (n >=? INT_MAX); inversion H; subst; discriminate.
  - inversion H; subst; discriminate.
Qed.

Lemma int_set_one_code v st r v' st' :
  int_set_one v st = (r, v', st') -> r <> PARSER_END.
Proof. unfold int_set_one. intros H. inversion H; subst. discriminate. Qed.

Lemma parse_include_code E st r st' :
  parse_include E st = (r, st') -> r <> PARSER_END.
Proof. unfold parse_include. intros H. code_cases H. Qed.

Lemma parse_ECDHCurve_code st r st' :
  parse_ECDHCurve st = (r, st') -> r <> PARSER_END.
Proof. unfold parse_ECDHCurve. intros H. code_cases H. Qed.

Lemma parse_SSLEngine_code st r st' :
  parse_SSLEngine st = (r, st') -> r <> PARSER_END.
Proof. unfold parse_SSLEngine. intros H. code_cases H. Qed.

Lemma assign_log_facility_code : never_ends (fun _ v _ st => assign_log_facility v st).
Proof.
  intros n t dfl st r t' st' H. unfold assign_log_facility in H. code_cases H.
Qed.

Lemma parse_service_code E : never_ends (parse_service E).
Proof.
  intros n t dfl st r t' st' H. unfold parse_service in H. code_cases H.
Qed.

Lemma parse_listen_http_code E : never_ends (parse_listen_http E).
Proof.
  intros n t dfl st r t' st' H. unfold parse_listen_http in H. code_cases H.
Qed.

Lemma parse_listen_https_code E : never_ends (parse_listen_https E).
Proof.
  intros n t dfl st r t' st' H. unfold parse_listen_https in H. code_cases H.
Qed.

Lemma top_level_never_ends (E : env) :
  Forall (fun e => never_ends (pt_parser e)) (top_level_parsetab E).
Proof.
  unfold top_level_parsetab.
  repeat apply Forall_cons; try apply Forall_nil; cbn [pt_parser entry];
    first
      [ apply never_ends_nodata;
        first [ apply parse_include_code | apply parse_ECDHCurve_code
              | apply parse_SSLEngine_code ]
      | apply never_ends_at_global;
        first [ apply parse_service_code | apply parse_listen_http_code
              | apply parse_listen_https_code
              | apply never_ends_leaf0;
                first [ apply assign_string_code | apply assign_bool_code
                      | apply assign_unsigned_code | apply int_set_one_code ] ]
      | apply never_ends_at_field;
        first [ apply assign_log_facility_code
              | apply never_ends_leaf0;
                first [ apply assign_log_level_code | apply assign_bool_code
                      | apply assign_unsigned_code ] ] ].
Qed.

(** ** Handlers that end a section *)

Ltac in_place H :=
  handler_cases H; inversion H; subst;
  first [discriminate | split; reflexivity].

Lemma ends_in_place_leaf {T : Type}
    (h : T -> POUND_DEFAULTS -> state -> PARSER_RES * T * state) :
  (forall t dfl st r t' st', h t dfl st = (r, t', st') -> r <> PARSER_END) ->
  ends_in_place (leaf h).
Proof.
  intros Hh n t dfl st t' st' H. unfold leaf in H. inversion H as [H'].
  exfalso. exact (Hh _ _ _ _ _ _ H' eq_refl).
Qed.

Lemma ends_in_place_leaf0 {T : Type}
    (h : T -> state -> PARSER_RES * T * state) :
  (forall t st r t' st', h t st = (r, t', st') -> r <> PARSER_END) ->
  ends_in_place (leaf0 h).
Proof. intros Hh. apply ends_in_place_leaf. intros t dfl. apply Hh. Qed.

Lemma ends_in_place_never {T : Type} (h : PARSER T) :
  never_ends h -> ends_in_place h.
Proof.
  intros Hh n t dfl st t' st' H. exfalso. exact (Hh _ _ _ _ _ _ _ H eq_refl).
Qed.

Lemma ends_in_place_at_field {T F : Type} (get : T -> F) (set : F -> T -> T)
    (h : PARSER F) :
  never_ends h -> ends_in_place (at_field get set h).
Proof.
  intros Hh. apply ends_in_place_never, never_ends_at_field, Hh.
Qed.

Lemma parse_end_in_place {T : Type} : ends_in_place (@leaf_nodata T parse_end).
Proof.
  intros n t dfl st t' st' H. unfold leaf_nodata, leaf, parse_end in H.
  inversion H; subst. split; reflexivity.
Qed.

(** The handlers of the section tables: none returns PARSER_END. *)
Ltac leaf_code :=
  intros;
  match goal with
  | H : _ = (_, _, _) |- _ =>
      cbv beta iota zeta delta
        [ assign_address assign_address_internal assign_port
          assign_port_internal listener_parse_socket_from
          listener_parse_xhttp xregcomp assign_unsigned assign_int
          assign_int_range assign_LONG assign_timeout
          listener_parse_checkurl assign_string_from_file assign_matcher
          parse_rewritelocation append_string_line parse_acme
          https_parse_cert https_parse_client_cert https_parse_disable
          set_proto_opt https_parse_ciphers https_parse_honor_cipher_order
          https_parse_allow_client_renegotiation https_parse_calist
          https_parse_verifylist https_parse_crlist https_parse_nohttps11
          assign_token_list assign_redirect session_type_parser
          backend_assign_priority backend_parse_haport backend_parse_https
          backend_parse_cert backend_assign_ciphers assign_bool
          assign_string ] in H
  end;
  repeat match goal with
         | H : context [match ?x with _ => _ end] |- _ => destruct x eqn:?
         end;
  congruence.

Lemma assign_address_code E v st r v' st' :
  assign_address E v st = (r, v', st') -> r <> PARSER_END.
Proof. leaf_code. Qed.

Lemma assign_port_code E v st r v' st' :
  assign_port E v st = (r, v', st') -> r <> PARSER_END.
Proof. leaf_code. Qed.

Lemma listener_parse_socket_from_code E v st r v' st' :
  listener_parse_socket_from E v st = (r, v', st') -> r <> PARSER_END.
Proof. leaf_code. Qed.

Lemma listener_parse_xhttp_code E v st r v' st' :
  listener_parse_xhttp E v st = (r, v', st') -> r <> PARSER_END.
Proof. leaf_code. Qed.

Lemma listener_parse_checkurl_code E v dfl st r v' st' :
  listener_parse_checkurl E v dfl st = (r, v', st') -> r <> PARSER_END.
Proof. leaf_code. Qed.

Lemma assign_string_from_file_code E v st r v' st' :
  assign_string_from_file E v st = (r, v', st') -> r <> PARSER_END.
Proof. leaf_code. Qed.

Lemma assign_LONG_code v st r v' st' :
  assign_LONG v st = (r, v', st') -> r <> PARSER_END.
Proof. leaf_code. Qed.

Lemma assign_matcher_code E v st r v' st' :
  assign_matcher E v st = (r, v', st') -> r <> PARSER_END.
Proof. leaf_code. Qed.

Lemma parse_rewritelocation_code v st r v' st' :
  parse_rewritelocation v st = (r, v', st') -> r <> PARSER_END.
Proof. leaf_code. Qed.

Lemma assign_int_code v st r v' st' :
  assign_int v st = (r, v', st') -> r <> PARSER_END.
Proof. leaf_code. Qed.

Lemma append_string_line_code v st r v' st' :
  append_string_line v st = (r, v', st') -> r <> PARSER_END.
Proof. leaf_code. Qed.

Lemma parse_acme_code E v st r v' st' :
  parse_acme E v st = (r, v', st') -> r <> PARSER_END.
Proof. leaf_code. Qed.

Lemma https_parse_cert_code E v st r v' st' :
  https_parse_cert E v st = (r, v', st') -> r <> PARSER_END.
Proof. leaf_code. Qed.

Lemma https_parse_client_cert_code E v st r v' st' :
  https_parse_client_cert E v st = (r, v', st') -> r <> PARSER_END.
Proof. leaf_code. Qed.

Lemma https_parse_disable_code E v st r v' st' :
  https_parse_disable E v st = (r, v', st') -> r <> PARSER_END.
Proof. leaf_code. Qed.

Lemma https_parse_ciphers_code v st r v' st' :
  https_parse_ciphers v st = (r, v', st') -> r <> PARSER_END.
Proof. leaf_code. Qed.

Lemma https_parse_honor_cipher_order_code E v st r v' st' :
  https_parse_honor_cipher_order E v st = (r, v', st') -> r <> PARSER_END.
Proof. leaf_code. Qed.

Lemma https_parse_allow_client_renegotiation_code E v st r v' st' :
  https_parse_allow_client_renegotiation E v st = (r, v', st') ->
  r <> PARSER_END.
Proof. leaf_code. Qed.

Lemma https_parse_calist_code E v st r v' st' :
  https_parse_calist E v st = (r, v', st') -> r <> PARSER_END.
Proof. leaf_code. Qed.

Lemma https_parse_verifylist_code E v st r v' st' :
  https_parse_verifylist E v st = (r, v', st') -> r <> PARSER_END.
Proof. leaf_code. Qed.

Lemma https_parse_crlist_code E v st r v' st' :
  https_parse_crlist E v st = (r, v', st') -> r <> PARSER_END.
Proof. leaf_code. Qed.

Lemma https_parse_nohttps11_code v st r v' st' :
  https_parse_nohttps11 v st = (r, v', st') -> r <> PARSER_END.
Proof. leaf_code. Qed.

Lemma assign_token_list_code v st r v' st' :
  assign_token_list v st = (r, v', st') -> r <> PARSER_END.
Proof. leaf_code. Qed.

Lemma assign_redirect_code E v st r v' st' :
  assign_redirect E v st = (r, v', st') -> r <> PARSER_END.
Proof. leaf_code. Qed.

Lemma session_type_parser_code v st r v' st' :
  session_type_parser v st = (r, v', st') -> r <> PARSER_END.
Proof. leaf_code. Qed.

Lemma backend_assign_priority_code v st r v' st' :
  backend_assign_priority v st = (r, v', st') -> r <> PARSER_END.
Proof. leaf_code. Qed.

Lemma backend_parse_haport_code E v st r v' st' :
  backend_parse_haport E v st = (r, v', st') -> r <> PARSER_END.
Proof. leaf_code. Qed.

Lemma backend_parse_https_code E v st r v' st' :
  backend_parse_https E v st = (r, v', st') -> r <> PARSER_END.
Proof. leaf_code. Qed.

Lemma backend_parse_cert_code E v st r v' st' :
  backend_parse_cert E v st = (r, v', st') -> r <> PARSER_END.
Proof. leaf_code. Qed.

Lemma backend_assign_ciphers_code v st r v' st' :
  backend_assign_ciphers v st = (r, v', st') -> r <> PARSER_END.
Proof. leaf_code. Qed.

Lemma disable_proto_code E :
  never_ends (fun _ be (_ : POUND_DEFAULTS) st => disable_proto E be st).
Proof.
  intros n t dfl st r t' st' H.
  destruct (disable_proto_fails E t st r t' st' H) as [-> _]. discriminate.
Qed.

Lemma parse_backend_code E : never_ends (parse_backend E).
Proof.
  intros n t dfl st r t' st' H. unfold parse_backend in H. code_cases H.
Qed.

Lemma parse_emergency_code E : never_ends (parse_emergency E).
Proof.
  intros n t dfl st r t' st' H. unfold parse_emergency in H. code_cases H.
Qed.

Lemma parse_session_code E : never_ends (parse_session E).
Proof.
  intros n t dfl st r t' st' H. rewrite parse_session_unfold in H.
  code_cases H.
Qed.

Create HintDb never_end.

#[local] Hint Resolve assign_address_code assign_port_code
  listener_parse_socket_from_code listener_parse_xhttp_code
  listener_parse_checkurl_code assign_string_from_file_code assign_LONG_code
  assign_matcher_code parse_rewritelocation_code assign_int_code
  append_string_line_code parse_acme_code https_parse_cert_code
  https_parse_client_cert_code https_parse_disable_code
  https_parse_ciphers_code https_parse_honor_cipher_order_code
  https_parse_allow_client_renegotiation_code https_parse_calist_code
  https_parse_verifylist_code https_parse_crlist_code
  https_parse_nohttps11_code assign_token_list_code assign_redirect_code
  session_type_parser_code backend_assign_priority_code
  backend_parse_haport_code backend_parse_https_code backend_parse_cert_code
  backend_assign_ciphers_code assign_bool_code assign_string_code
  assign_unsigned_code : never_end.

Ltac never_end :=
  first
    [ apply never_ends_at_field; never_end
    | apply never_ends_leaf0; solve [eauto with never_end]
    | apply never_ends_leaf; solve [eauto with never_end]
    | apply parse_service_code
    | apply parse_backend_code
    | apply parse_emergency_code
    | apply parse_session_code
    | apply disable_proto_code ].

Ltac section_table tab :=
  unfold tab;
  repeat apply Forall_cons; try apply Forall_nil; cbn [pt_parser entry];
  first [ apply parse_end_in_place | apply ends_in_place_never; never_end ].

Lemma http_parsetab_ends (E : env) :
  Forall (fun e => ends_in_place (pt_parser e)) (http_parsetab E).
Proof. section_table http_parsetab. Qed.

Lemma https_parsetab_ends (E : env) :
  Forall (fun e => ends_in_place (pt_parser e)) (https_parsetab E).
Proof. section_table https_parsetab. Qed.

Lemma service_parsetab_ends (E : env) :
  Forall (fun e => ends_in_place (pt_parser e)) (service_parsetab E).
Proof. section_table service_parsetab. Qed.

Lemma backend_parsetab_ends (E : env) :
  Forall (fun e => ends_in_place (pt_parser e)) (backend_parsetab E).
Proof. section_table backend_parsetab. Qed.

Lemma emergency_parsetab_ends (E : env) :
  Forall (fun e => ends_in_place (pt_parser e)) (emergency_parsetab E).
Proof. section_table emergency_parsetab. Qed.

Lemma session_parsetab_ends :
  Forall (fun e => ends_in_place (pt_parser e)) session_parsetab.
Proof. section_table session_parsetab. Qed.

(** X1.  [parser_loop] returns PARSER_OK or PARSER_FAIL, never one of the
    other two codes.  When it comes to read a token and no input is open,
    [gettkn] returns the value of an uninitialised variable: a fault.  At
    the end of the input a loop that was given a range (a section) logs
    "unexpected end of file" at the beginning of the range and fails,
    and a loop without a range accepts.  At a number, a quoted string or a
    literal in the place of a keyword the loop logs "syntax error" at the
    token and goes on with what follows it.  A section over a table whose
    handlers return PARSER_END without reading, as those of the six
    section tables do, therefore never accepts with the input at its end:
    if no input is open when it returns, it has failed. *)
Theorem parser_loop_result (E : env) :
  (forall (T : Type) (ptab : list (PARSER_TABLE T)) sd n t rr st r t' rr' st',
     parser_loop n ptab t sd rr st = Ret (r, t', rr', st') ->
     (r = PARSER_OK \/ r = PARSER_FAIL) /\
     (Forall (fun e => ends_in_place (pt_parser e)) ptab ->
      rr <> None -> cur_input st' = [] -> r = PARSER_FAIL)) /\
  (forall (T : Type) (ptab : list (PARSER_TABLE T)) sd n t rr st,
     cur_input st = [] -> parser_loop (S n) ptab t sd rr st = Fault) /\
  (forall (T : Type) (ptab : list (PARSER_TABLE T)) sd n t rr st tok st1,
     cur_input st <> [] -> gettkn st = (tok, st1) -> type tok = EOF ->
     parser_loop_iter (S n) ptab t sd rr st
     = match rr with
       | Some r0 =>
           Ret (PARSER_FAIL, t, rr,
                conf_error_at_locus_point (Some (beg r0))
                  "unexpected end of file" st1)
       | None => Ret (PARSER_OK, t, rr, st1)
       end) /\
  (forall (T : Type) (ptab : list (PARSER_TABLE T)) sd n t rr st tok st1,
     cur_input st <> [] -> gettkn st = (tok, st1) -> stray_token tok ->
     parser_loop_iter (S n) ptab t sd rr st
     = parser_loop_iter n ptab t sd (range_to rr st1)
         (conf_error_at_locus_range (Some (locus tok)) "syntax error" st1)) /\
  Forall (fun e => ends_in_place (pt_parser e)) (http_parsetab E) /\
  Forall (fun e => ends_in_place (pt_parser e)) (https_parsetab E) /\
  Forall (fun e => ends_in_place (pt_parser e)) (service_parsetab E) /\
  Forall (fun e => ends_in_place (pt_parser e)) (backend_parsetab E) /\
  Forall (fun e => ends_in_place (pt_parser e)) (emergency_parsetab E) /\
  Forall (fun e => ends_in_place (pt_parser e)) session_parsetab.
Proof.
  split.
  { intros T ptab sd n t rr st r t' rr' st' H. unfold parser_loop in H.
    destruct (parser_loop_iter_result ptab sd n t _ st r t' rr' st' H)
      as [F | [O [[N C] | (ent & k & t0 & st0 & I & Op & X)]]].
    - split; [right; exact F | intros _ _ _; exact F].
    - split; [left; exact O|]. intros _ R _.
      destruct rr; [discriminate N | contradiction].
    - split; [left; exact O|]. intros HE _ C.
      rewrite Forall_forall in HE.
      destruct (HE ent I _ _ _ _ _ _ X) as [_ ->]. contradiction. }
  split.
  { intros T ptab sd n t rr st C. unfold parser_loop.
    cbn [parser_loop_iter]. unfold gettkn_open. rewrite C. reflexivity. }
  split; [intros T ptab sd n t rr st tok st1; apply parser_loop_iter_eof|].
  split; [intros T ptab sd n t rr st tok st1; apply parser_loop_iter_stray|].
  split; [apply http_parsetab_ends|].
  split; [apply https_parsetab_ends|].
  split; [apply service_parsetab_ends|].
  split; [apply backend_parsetab_ends|].
  split; [apply emergency_parsetab_ends | apply session_parsetab_ends].
Qed.

Lemma parser_loop_result_witness :
  let st := Demo.reading (Demo.lines ["Type COOKIE"; "TTL 300"]) in
  let t := mk_session SESS_NONE None 0 in
  let sd := fun _ : service_session => pound_defaults in
  let res := parser_loop 10 session_parsetab t sd (Some zero_range) st in
  let run := returned (PARSER_OK, t, None, st) res in
  let st0 := Demo.reading (Demo.lines ["42"; "End"]) in
  fst (fst (fst run)) = PARSER_FAIL /\
  parser_loop_iter 10 session_parsetab t sd (Some zero_range) st0
  = parser_loop_iter 9 session_parsetab t sd
      (range_to (Some zero_range) (snd (gettkn st0)))
      (conf_error_at_locus_range (Some (locus (fst (gettkn st0))))
         "syntax error" (snd (gettkn st0))).
Proof.
  intros st t sd res run st0.
  destruct (parser_loop_result (Demo.env []))
    as (Res & _ & _ & Stray & _ & _ & _ & _ & _ & Tab).
  assert (L : res = Ret (fst (fst (fst run)), snd (fst (fst run)),
                         snd (fst run), snd run))
    by (vm_compute; reflexivity).
  assert (C : cur_input (snd run) = []) by (vm_compute; reflexivity).
  assert (R : Some zero_range <> None) by discriminate.
  split.
  - exact (proj2 (Res service_session session_parsetab sd 10%nat t
                    (Some zero_range) st (fst (fst (fst run)))
                    (snd (fst (fst run))) (snd (fst run)) (snd run) L)
             Tab R C).
  - assert (O : cur_input st0 <> []) by (vm_compute; discriminate).
    assert (G : gettkn st0 = (fst (gettkn st0), snd (gettkn st0)))
      by (vm_compute; reflexivity).
    assert (S : stray_token (fst (gettkn st0)))
      by (left; vm_compute; reflexivity).
    exact (Stray service_session session_parsetab sd 9%nat t
             (Some zero_range) st0 (fst (gettkn st0)) (snd (gettkn st0))
             O G S).
Defined.

(** X2.  [parse_config_file] never takes its [exit (1)]: whenever the
    top-level loop accepts, every input has been closed, because no
    handler of the top-level table returns PARSER_END.  When it returns,
    it returns 0 with the input stack empty, or the PARSER_FAIL of the
    loop, or -1 when the file could not be pushed, in which case the
    input stack is as it was. *)
Theorem parse_config_file_returns (E : env) (n : nat) (fname : string)
    (st : state) (o : config_outcome) (st' : state) :
  parse_config_file E n fname st = Ret (o, st') ->
  o = Returned 0 /\ cur_input st' = [] \/
  o = Returned 2 \/
  o = Returned (-1) /\ cur_input st' = cur_input st /\
  st' = snd (push_input E fname st).
Proof.
  unfold parse_config_file. intros H.
  destruct (push_input E fname st) as [rc st0] eqn:P.
  assert (Keep : rc <> 0 -> cur_input st0 = cur_input st).
  { unfold push_input in P. intros N.
    destruct (stat E fname) as [err|s]; [inversion P; subst; reflexivity|].
    destruct (find_input (cur_input st) s) as [[i [prev|]]|];
      try (inversion P; subst; reflexivity).
    unfold input_open in P.
    destruct (fopen E fname) as [err|content];
      inversion P; subst; [reflexivity | contradiction]. }
  destruct (Z.eq_dec rc 0) as [-> | N].
  - destruct (parser_loop n (top_level_parsetab E) pound_defaults
                (fun d => d) None st0)
      as [[[[r dfl] rr] st1]| |] eqn:L; try discriminate H.
    destruct (parser_loop_iter_result (top_level_parsetab E) (fun d => d) n
                pound_defaults None st0 r dfl rr st1 L)
      as [-> | [-> [[_ C] | (ent & k & t0 & s0 & I & _ & X)]]].
    + inversion H; subst. right. left. reflexivity.
    + rewrite C in H. inversion H; subst. left. split; [reflexivity | exact C].
    + pose proof (top_level_never_ends E) as NE.
      rewrite Forall_forall in NE.
      exfalso. exact (NE ent I _ _ _ _ _ _ _ X eq_refl).
  - assert (R : Ret (Returned (-1), st0) = Ret (o, st'))
      by (destruct rc as [|p|p]; [contradiction | exact H ..]).
    inversion R; subst. right. right.
    split; [reflexivity|]. split; [exact (Keep N) | reflexivity].
Qed.

Lemma parse_config_file_returns_witness :
  let E := Demo.env stray_number_files in
  let res := parse_config_file E 10 "pound.cfg" Demo.init_state in
  let st' := snd (returned (Exited 1, Demo.init_state) res) in
  res = Ret (Returned 0, st') /\
  cur_input st' = [] /\
  log st' = [(LOG_ERR, "pound.cfg:1.1-2: syntax error")].
Proof.
  intros E res st'.
  assert (H : res = Ret (Returned 0, st')) by (vm_compute; reflexivity).
  split; [exact H|].
  destruct (parse_config_file_returns E 10 "pound.cfg" Demo.init_state
              (Returned 0) st' H) as [[_ C] | [X | [X _]]].
  - split; [exact C | vm_compute; reflexivity].
  - discriminate X.
  - discriminate X.
Defined.

(** A file whose last statement is not followed by a line break: the
    statement is read, [gettkn] then closes the file at its end, and the
    loop goes on to read a token with no input open. *)
Example parse_config_file_no_final_newline :
  parse_config_file (Demo.env no_newline_files) 10 "pound.cfg"
    Demo.init_state
  = Fault.
Proof. vm_compute. reflexivity. Qed.

(** ** Addresses *)

Lemma check_addrinfo_ok (a : addrinfo) (range : option locus_range)
    (nm : string) (st : state) (r : PARSER_RES) (st' : state) :
  check_addrinfo a range nm st = (r, st') ->
  r = PARSER_OK /\ st' = st /\ address_complete a \/
  r = PARSER_FAIL /\ ~ address_complete a /\
  (ADDRINFO_HAS_ADDRESS a = true /\ ADDRINFO_HAS_PORT a = false /\
   inet_family a /\
   st' = conf_error_at_locus_range range (nm ++ " missing Port declaration")
           st
   \/
   ADDRINFO_HAS_ADDRESS a = false /\
   st' = conf_error_at_locus_range range
           (nm ++ " missing Address declaration") st).
Proof.
  unfold check_addrinfo, address_complete, inet_family.
  destruct (ADDRINFO_HAS_ADDRESS a) eqn:HA.
  - destruct (ADDRINFO_HAS_PORT a) eqn:HP; cbn [negb andb].
    + intros [= <- <-]. left. auto.
    + destruct ((ai_family a =? AF_INET) || (ai_family a =? AF_INET6)) eqn:F;
        intros [= <- <-].
      * right. split; [reflexivity|]. split.
        -- intros (_ & [X | [N4 N6]]); [discriminate X|].
           apply orb_true_iff in F. destruct F as [F|F];
             apply Z.eqb_eq in F; contradiction.
        -- left. split; [reflexivity|]. split; [reflexivity|].
           split; [|reflexivity].
           apply orb_true_iff in F. destruct F as [F|F];
             apply Z.eqb_eq in F; auto.
      * left. split; [reflexivity|]. split; [reflexivity|].
        split; [reflexivity|]. right.
        apply orb_false_iff in F. destruct F as [F4 F6].
        apply Z.eqb_neq in F4, F6. auto.
  - intros [= <- <-]. right. split; [reflexivity|]. split.
    + intros (X & _). discriminate X.
    + right. split; reflexivity.
Qed.

(** X3.  [check_addrinfo] accepts exactly the addresses that have been set
    and, for the families INET and INET6, have a port; it then leaves the
    state alone.  Otherwise it fails and logs, at the range and under the
    name it is given, " missing Port declaration" for an address of family
    INET or INET6 that is set and has no port, and " missing Address
    declaration" for an address that is not set.  So the listener of an
    accepted ListenHTTP or ListenHTTPS section and the back-end of an
    accepted Backend section have such an address. *)
Theorem accepted_address_complete (E : env) :
  (forall a range nm st r st',
     check_addrinfo a range nm st = (r, st') ->
     r = PARSER_OK /\ st' = st /\ address_complete a \/
     r = PARSER_FAIL /\ ~ address_complete a /\
     (ADDRINFO_HAS_ADDRESS a = true /\ ADDRINFO_HAS_PORT a = false /\
      inet_family a /\
      st' = conf_error_at_locus_range range
              (nm ++ " missing Port declaration") st
      \/
      ADDRINFO_HAS_ADDRESS a = false /\
      st' = conf_error_at_locus_range range
              (nm ++ " missing Address declaration") st)) /\
  (forall n head dfl st head' st',
     parse_listen_http E n head dfl st = Ret (PARSER_OK, head', st') ->
     exists lst,
       head' = SLIST_PUSH head lst /\ address_complete (l_addr lst)) /\
  (forall n head dfl st head' st',
     parse_listen_https E n head dfl st = Ret (PARSER_OK, head', st') ->
     exists lst,
       head' = SLIST_PUSH head lst /\ address_complete (l_addr lst)) /\
  (forall n head dfl st head' st',
     parse_backend E n head dfl st = Ret (PARSER_OK, head', st') ->
     exists be, head' = SLIST_PUSH head be /\ address_complete (addr be)).
Proof.
  split; [exact check_addrinfo_ok|]. split; [|split].
  - intros n head dfl st head' st' H. unfold parse_listen_http in H.
    destruct (listener_alloc E dfl st) as [[lst0|] st0]; [|discriminate H].
    destruct (parser_loop n (http_parsetab E) lst0 (fun _ => dfl)
                (Some zero_range) st0)
      as [[[[r lst] range] st1]| |]; try discriminate H.
    destruct r; try discriminate H.
    destruct (check_addrinfo (l_addr lst) range "ListenHTTP" st1)
      as [rc st2] eqn:C.
    destruct (check_addrinfo_ok _ _ _ _ _ _ C) as [(-> & _ & A) | (-> & _)];
      [|discriminate H].
    inversion H; subst. exists lst. split; [reflexivity | exact A].
  - intros n head dfl st head' st' H. unfold parse_listen_https in H.
    destruct (listener_alloc E dfl st) as [[lst0|] st0]; [|discriminate H].
    destruct (parser_loop n (https_parsetab E) _ (fun _ => dfl)
                (Some zero_range) st0)
      as [[[[r lst] range] st1]| |]; try discriminate H.
    destruct r; try discriminate H.
    destruct (check_addrinfo (l_addr lst) range "ListenHTTPS" st1)
      as [rc st2] eqn:C.
    destruct (check_addrinfo_ok _ _ _ _ _ _ C) as [(-> & _ & A) | (-> & _)];
      [|discriminate H].
    destruct (ctx_head lst) as [|pc rest]; [discriminate H|].
    destruct (negb (SSL_CTX_set_tlsext_servername E (pc_ctx pc)));
      [discriminate H|].
    destruct (finish_contexts E lst _ st2) as [l st3].
    inversion H; subst. eexists. split; [reflexivity | exact A].
  - intros n head dfl st head' st' H. unfold parse_backend in H.
    destruct (parse_backend_internal n (backend_parsetab E) dfl st)
      as [[[be|] st1]| |] eqn:Q; try discriminate H.
    inversion H; subst. exists be. split; [reflexivity|].
    unfold parse_backend_internal in Q.
    destruct (parser_loop n (backend_parsetab E) _ (fun _ => dfl)
                (Some zero_range) st)
      as [[[[r be1] range] st2]| |]; try discriminate Q.
    destruct r; try discriminate Q.
    destruct (check_addrinfo (addr be1) range "Backend" st2)
      as [rc st3] eqn:C.
    destruct (check_addrinfo_ok _ _ _ _ _ _ C) as [(-> & _ & A) | (-> & _)];
      [|discriminate Q].
    inversion Q; subst. exact A.
Qed.

Lemma accepted_address_complete_witness :
  let E := Demo.env [] in
  let st := Demo.reading http_listener_text in
  let res := parse_listen_http E 10%nat [] pound_defaults st in
  let head' := snd (fst (returned (PARSER_FAIL, [], st) res)) in
  let st' := snd (returned (PARSER_FAIL, [], st) res) in
  res = Ret (PARSER_OK, head', st') /\
  exists lst, head' = SLIST_PUSH [] lst /\ address_complete (l_addr lst).
Proof.
  intros E st res head' st'.
  assert (H : res = Ret (PARSER_OK, head', st')) by (vm_compute; reflexivity).
  split; [exact H|].
  exact (proj1 (proj2 (accepted_address_complete E)) 10%nat [] pound_defaults
           st head' st' H).
Defined.

Lemma set_port_has_port (a : addrinfo) :
  ADDRINFO_HAS_PORT (ADDRINFO_SET_PORT a) = true.
Proof.
  unfold ADDRINFO_HAS_PORT, ADDRINFO_SET_PORT. destruct a as [fl fa so pr al ad].
  cbn [ai_flags set_ai_flags]. rewrite land_lor_absorb. reflexivity.
Qed.

Lemma set_port_has_address (a : addrinfo) :
  ADDRINFO_HAS_ADDRESS (ADDRINFO_SET_PORT a) = ADDRINFO_HAS_ADDRESS a.
Proof.
  unfold ADDRINFO_HAS_ADDRESS, ADDRINFO_SET_PORT.
  destruct a as [fl fa so pr al ad]. cbn [ai_flags set_ai_flags].
  rewrite Z.land_lor_distr_l.
  change (Z.land AI_NUMERICSERV AI_NUMERICHOST) with 0.
  rewrite Z.lor_0_r. reflexivity.
Qed.

(** X4.  A Port statement is accepted only for an address that has been
    set, has no port yet and is of family INET or INET6; it then marks the
    port as set and changes nothing of the address but the port in its
    socket address.  A Port statement that fails leaves the address as it
    was, and a second Port or a Port before Address is refused before any
    token is read. *)
Theorem assign_port_spec (E : env) (a : addrinfo) (st : state) :
  (forall r a' st',
     assign_port E a st = (r, a', st') ->
     r = PARSER_FAIL /\ a' = a \/
     r = PARSER_OK /\
     ADDRINFO_HAS_ADDRESS a = true /\ ADDRINFO_HAS_PORT a = false /\
     inet_family a /\
     ADDRINFO_HAS_ADDRESS a' = true /\ ADDRINFO_HAS_PORT a' = true /\
     ai_family a' = ai_family a /\ ai_socktype a' = ai_socktype a /\
     ai_protocol a' = ai_protocol a /\ ai_addrlen a' = ai_addrlen a /\
     exists port,
       ai_addr a' = option_map (set_sa_port port) (ai_addr a)) /\
  (ADDRINFO_HAS_PORT a = true ->
   assign_port E a st
   = (PARSER_FAIL, a, conf_error "Duplicate port statement" st)) /\
  (ADDRINFO_HAS_PORT a = false -> ADDRINFO_HAS_ADDRESS a = false ->
   assign_port E a st
   = (PARSER_FAIL, a, conf_error "Address statement should precede Port" st)).
Proof.
  split; [|split].
  - intros r a' st' H. unfold assign_port in H.
    destruct (ADDRINFO_HAS_PORT a) eqn:HP; [inversion H; subst; auto|].
    destruct (ADDRINFO_HAS_ADDRESS a) eqn:HA; cbn [negb] in H;
      [|inversion H; subst; auto].
    destruct (gettkn_any st) as [tok st1].
    unfold assign_port_internal in H.
    destruct tok as [tok|]; [|inversion H; subst; auto].
    destruct (negb (type tok =? T_IDENT) && negb (type tok =? T_NUMBER));
      [inversion H; subst; auto|].
    destruct ((ai_family a =? AF_INET) || (ai_family a =? AF_INET6)) eqn:F;
      cbn [negb] in H; [|inversion H; subst; auto].
    destruct (getaddrinfo E (str tok) _) as [rc|res];
      inversion H; subst; [auto|].
    right. split; [reflexivity|]. split; [reflexivity|].
    split; [reflexivity|]. split.
    { apply orb_true_iff in F. unfold inet_family.
      destruct F as [F|F]; apply Z.eqb_eq in F; auto. }
    split.
    { rewrite set_port_has_address. destruct a; exact HA. }
    split; [apply set_port_has_port|].
    destruct a as [fl fa so pr al ad]. cbn.
    repeat (split; [reflexivity|]). eexists. reflexivity.
  - intros HP. unfold assign_port. rewrite HP. reflexivity.
  - intros HP HA. unfold assign_port. rewrite HP, HA. reflexivity.
Qed.

Lemma assign_port_spec_witness :
  let E := Demo.env [] in
  let a := mk_addrinfo AI_NUMERICHOST AF_UNIX SOCK_STREAM 0 16
             (Some (mk_sockaddr AF_UNIX 0 "/run/app.sock")) in
  let st := Demo.reading (Demo.lines ["8080"]) in
  let run := assign_port E a st in
  run = (PARSER_FAIL, a, snd run) /\
  ADDRINFO_HAS_PORT a = false /\
  assign_port E (ADDRINFO_SET_PORT a) st
  = (PARSER_FAIL, ADDRINFO_SET_PORT a,
     conf_error "Duplicate port statement" st).
Proof.
  intros E a st run.
  destruct (assign_port_spec E a st) as (Cases & _).
  destruct (assign_port_spec E (ADDRINFO_SET_PORT a) st) as (_ & Dup & _).
  assert (R : run = (fst (fst run), snd (fst run), snd run))
    by (vm_compute; reflexivity).
  destruct (Cases (fst (fst run)) (snd (fst run)) (snd run) R)
    as [[F A] | (_ & _ & _ & [I | I] & _)].
  - split; [|split; [reflexivity | exact (Dup eq_refl)]].
    rewrite R at 1. rewrite F, A. reflexivity.
  - discriminate I.
  - discriminate I.
Defined.

(** X5.  Where the resolver does not resolve the name of an Address
    statement, the name is taken for the path of a UNIX-domain socket: it
    is accepted exactly when it is not longer than UNIX_PATH_MAX, the
    address then being the UNIX-domain stream address of that path, with
    no port; a longer name fails with "UNIX path name too long".  A name
    that resolves gives the resolver's address, marked as set.  A second
    Address statement is refused before any token is read. *)
Theorem assign_address_spec (E : env) (a : addrinfo) (st : state) :
  (forall tok rc a1 r a' st',
     names_host tok ->
     get_host E (str tok) a PF_UNSPEC = (rc, a1) -> rc <> 0 ->
     assign_address_internal E a (Some tok) st = (r, a', st') ->
     (r = PARSER_OK <-> strlen (str tok) <= UNIX_PATH_MAX (K E)) /\
     (r = PARSER_OK -> unix_address (str tok) a' /\ st' = st) /\
     (r <> PARSER_OK ->
      r = PARSER_FAIL /\
      st' = conf_error_at_locus_range (Some (locus tok))
              "UNIX path name too long" st)) /\
  (forall tok a1,
     names_host tok ->
     get_host E (str tok) a PF_UNSPEC = (0, a1) ->
     assign_address_internal E a (Some tok) st
     = (PARSER_OK, ADDRINFO_SET_ADDRESS a1, st)) /\
  (ADDRINFO_HAS_ADDRESS a = true ->
   assign_address E a st
   = (PARSER_FAIL, a, conf_error "Duplicate Address statement" st)).
Proof.
  assert (Ty : forall tok, names_host tok ->
             negb (type tok =? T_IDENT) && negb (type tok =? T_LITERAL)
             && negb (type tok =? T_STRING) = false).
  { intros tok [T | [T | T]]; rewrite T; reflexivity. }
  split; [|split].
  - intros tok rc a1 r a' st' N G R H. unfold assign_address_internal in H.
    rewrite (Ty tok N), G in H.
    assert (RZ : negb (rc =? 0) = true)
      by (apply negb_true_iff, Z.eqb_neq; exact R).
    rewrite RZ in H.
    destruct (strlen (str tok) >? UNIX_PATH_MAX (K E)) eqn:L;
      inversion H; subst.
    + apply Z.gtb_lt in L. split; [|split].
      * split; [discriminate | lia].
      * discriminate.
      * intros _. split; reflexivity.
    + rewrite Z.gtb_ltb in L. apply Z.ltb_ge in L. split; [|split].
      * split; [intros _; exact L | reflexivity].
      * intros _. split; [|reflexivity].
        destruct a1 as [fl fa so pr al ad]. unfold unix_address. cbn.
        repeat (split; [reflexivity|]). reflexivity.
      * intros X. contradiction.
  - intros tok a1 N G. unfold assign_address_internal.
    rewrite (Ty tok N), G. reflexivity.
  - intros HA. unfold assign_address. rewrite HA. reflexivity.
Qed.

Lemma assign_address_spec_witness :
  let E := Demo.env [] in
  let st := Demo.init_state in
  let tok := host_token "/run/app.sock" in
  let run := assign_address_internal E zero_addrinfo (Some tok) st in
  fst (fst run) = PARSER_OK /\
  unix_address "/run/app.sock" (snd (fst run)) /\
  assign_address E (snd (fst run)) st
  = (PARSER_FAIL, snd (fst run),
     conf_error "Duplicate Address statement" st).
Proof.
  intros E st tok run.
  destruct (assign_address_spec E zero_addrinfo st) as (Unix & _).
  assert (N : names_host tok) by (right; right; reflexivity).
  assert (G : get_host E (str tok) zero_addrinfo PF_UNSPEC
              = (Demo.EAI_NONAME, zero_addrinfo)) by reflexivity.
  assert (R : Demo.EAI_NONAME <> 0) by discriminate.
  assert (H : run = (fst (fst run), snd (fst run), snd run)) by reflexivity.
  destruct (Unix tok Demo.EAI_NONAME zero_addrinfo (fst (fst run))
              (snd (fst run)) (snd run) N G R H) as ([_ Ok] & A & _).
  assert (O : fst (fst run) = PARSER_OK).
  { apply Ok. vm_compute. discriminate. }
  split; [exact O|]. split; [exact (proj1 (A O))|].
  destruct (assign_address_spec E (snd (fst run)) st) as (_ & _ & Dup).
  exact (Dup (proj1 (proj2 (proj2 (proj2 (proj2 (proj2 (proj1 (A O))))))))).
Defined.

(** ** Numeric statements *)

Lemma assign_int_within (v : Z) (st : state) :
  stores_within INT_MIN INT_MAX v (assign_int v st).
Proof.
  unfold stores_within, assign_int.
  destruct (gettkn_expect T_NUMBER st) as [[tok|] st1]; [|right; auto].
  destruct (strtol (str tok)) as [[m p] e].
  destruct (e || negb (streq p "") || (m <? INT_MIN) || (m >? INT_MAX)) eqn:C;
    [right; auto|].
  left. split; [reflexivity|]. cbn [fst snd].
  apply orb_false_iff in C. destruct C as [C Hi].
  apply orb_false_iff in C. destruct C as [_ Lo].
  apply Z.ltb_ge in Lo. rewrite Z.gtb_ltb in Hi. apply Z.ltb_ge in Hi. lia.
Qed.

Lemma assign_unsigned_within (v : Z) (st : state) :
  stores_within 0 UINT_MAX v (assign_unsigned v st).
Proof.
  unfold stores_within.
  destruct (assign_unsigned v st) as [[r n] st'] eqn:A. cbn [fst snd].
  destruct (assign_unsigned_fail _ _ _ _ _ A) as [-> | [-> ->]]; [|right; auto].
  left. split; [reflexivity|]. exact (assign_unsigned_range _ _ _ _ A).
Qed.

Lemma assign_int_range_within (dst lo hi : Z) (st : state) :
  stores_within lo hi dst (assign_int_range dst lo hi st).
Proof.
  unfold stores_within, assign_int_range.
  pose proof (assign_int_within 0 st) as W. unfold stores_within in W.
  destruct (assign_int 0 st) as [[r m] st1]. cbn [fst snd] in W.
  destruct W as [[-> _] | [-> _]]; [|right; auto].
  destruct ((lo <=? m) && (m <=? hi)) eqn:B; cbn [negb fst snd];
    [|right; auto].
  left. split; [reflexivity|].
  apply andb_true_iff in B. destruct B as [B1 B2].
  apply Z.leb_le in B1, B2. lia.
Qed.

(** X6.  The numeric statements store nothing out of range: [assign_int]
    an [int], [assign_unsigned] (and with it every time-out) an
    [unsigned], [assign_int_range] a value between its bounds, Priority a
    value from 0 to 9, RewriteLocation one from 0 to 2 and LogLevel a value
    below INT_MAX; each returns PARSER_OK or PARSER_FAIL, and a statement
    that fails gives back the value its target held. *)
Theorem numeric_statements_within (v : Z) (st : state) :
  stores_within INT_MIN INT_MAX v (assign_int v st) /\
  stores_within 0 UINT_MAX v (assign_unsigned v st) /\
  stores_within 0 UINT_MAX v (assign_timeout v st) /\
  (forall lo hi, stores_within lo hi v (assign_int_range v lo hi st)) /\
  stores_within 0 9 v (backend_assign_priority v st) /\
  stores_within 0 2 v (parse_rewritelocation v st) /\
  stores_within 0 (INT_MAX - 1) v (assign_log_level v st).
Proof.
  split; [apply assign_int_within|].
  split; [apply assign_unsigned_within|].
  split; [apply assign_unsigned_within|].
  split; [intros lo hi; apply assign_int_range_within|].
  split; [apply assign_int_range_within|].
  split; [apply assign_int_range_within|].
  unfold stores_within, assign_log_level.
  pose proof (assign_unsigned_within 0 st) as W. unfold stores_within in W.
  destruct (assign_unsigned 0 st) as [[r m] st1]. cbn [fst snd] in W.
  destruct W as [[-> B] | [-> _]]; [|right; auto].
  destruct (m >=? INT_MAX) eqn:C; cbn [fst snd]; [right; auto|].
  left. split; [reflexivity|].
  rewrite Z.geb_leb in C. apply Z.leb_gt in C. lia.
Qed.

(** ** The scanner *)

Lemma chars_all_nil (p : ascii -> bool) : chars_all p "".
Proof. constructor. Qed.

Lemma chars_all_cons (p : ascii -> bool) (c : ascii) (s : string) :
  chars_all p (String c s) <-> p c = true /\ chars_all p s.
Proof.
  unfold chars_all. cbn [list_ascii_of_string]. split.
  - intros H. inversion H; subst. auto.
  - intros [H1 H2]. constructor; assumption.
Qed.

Lemma chars_all_snoc (p : ascii -> bool) (s : string) (c : ascii) :
  chars_all p s -> p c = true -> chars_all p (s ++ String c "").
Proof.
  induction s as [|d s IH]; cbn [append]; intros H Pc.
  - apply chars_all_cons. split; [exact Pc | apply chars_all_nil].
  - apply chars_all_cons in H. destruct H as [Pd H].
    apply chars_all_cons. auto.
Qed.

Lemma append_snoc (a : string) (c : ascii) (s : string) :
  (a ++ String c "") ++ s = a ++ String c s.
Proof. induction a as [|d a IH]; cbn [append]; [reflexivity | f_equal; exact IH]. Qed.

Lemma append_nil_r (a : string) : a ++ "" = a.
Proof. induction a as [|d a IH]; cbn [append]; [reflexivity | f_equal; exact IH]. Qed.

(** The C string of a buffer that was closed with a NUL. *)
Lemma c_str_closed (p : ascii -> bool) (s : string) :
  p NUL = false -> chars_all p s -> c_str (s ++ String NUL "") = s.
Proof.
  intros PN. induction s as [|c s IH]; cbn [append c_str]; intros H.
  - reflexivity.
  - apply chars_all_cons in H. destruct H as [Pc H].
    destruct (Ascii.eqb c NUL) eqn:Q.
    + apply Ascii.eqb_eq in Q. subst c. congruence.
    + f_equal. exact (IH H).
Qed.

Lemma c_str_chars (p : ascii -> bool) (s t : string) :
  chars_all p s -> chars_all p (c_str (s ++ String NUL t)).
Proof.
  induction s as [|c s IH]; cbn [append c_str]; intros H.
  - apply chars_all_nil.
  - apply chars_all_cons in H. destruct H as [Pc H].
    destruct (Ascii.eqb c NUL); [apply chars_all_nil|].
    apply chars_all_cons. auto.
Qed.

(** What reading a character leaves alone. *)
Definition keeps_token (i j : input) : Prop :=
  buf j = buf i /\ itoken j = itoken i /\ ready j = ready i.

Lemma keeps_token_trans (i j k : input) :
  keeps_token i j -> keeps_token j k -> keeps_token i k.
Proof. unfold keeps_token. intuition congruence. Qed.

Lemma input_getc_keeps (i : input) : keeps_token i (snd (input_getc i)).
Proof.
  unfold input_getc, keeps_token. destruct (file i) as [|c rest]; [auto|].
  destruct (Ascii.eqb c NL); [cbn; auto|].
  destruct (Ascii.eqb c TAB); cbn; auto.
Qed.

Lemma input_ungetc_keeps (i : input) (c : option ascii) :
  keeps_token i (input_ungetc i c).
Proof.
  unfold input_ungetc, keeps_token. destruct c as [ch|]; [|auto].
  destruct (Ascii.eqb ch NL); cbn; auto.
Qed.

Lemma skip_comment_keeps (n : nat) (i : input) :
  keeps_token i (snd (skip_comment n i)).
Proof.
  revert i. induction n as [|n IH]; intros i; cbn [skip_comment].
  - unfold keeps_token. auto.
  - pose proof (input_getc_keeps i) as G.
    destruct (input_getc i) as [c i1]. cbn [snd] in G.
    destruct c as [ch|]; [|exact G].
    destruct (Ascii.eqb ch NL); [exact G|].
    exact (keeps_token_trans _ _ _ G (IH i1)).
Qed.

Lemma scan_ident_spec (n : nat) (c : ascii) (i : input) (c2 : option ascii)
    (j : input) :
  scan_ident n c i = (c2, j) ->
  itoken j = itoken i /\ ready j = ready i /\
  (exists r, buf j = buf i ++ String c r /\ chars_all is_ident_cont r) /\
  (forall d, c2 = Some d -> is_ident_cont d = false).
Proof.
  revert c i. induction n as [|n IH]; intros c i H; cbn [scan_ident] in H.
  - inversion H; subst. cbn. repeat split; try discriminate.
    exists "". split; [reflexivity | apply chars_all_nil].
  - pose proof (input_getc_keeps (add_char c i)) as G.
    destruct (input_getc (add_char c i)) as [o i1].
    destruct G as (Gb & Gt & Gr). cbn in Gb, Gt, Gr.
    assert (Stop : itoken i1 = itoken i /\ ready i1 = ready i /\
                   exists r, buf i1 = buf i ++ String c r
                             /\ chars_all is_ident_cont r).
    { split; [exact Gt|]. split; [exact Gr|]. exists "".
      split; [exact Gb | apply chars_all_nil]. }
    destruct o as [d|].
    + destruct (is_ident_cont d) eqn:D.
      * destruct (IH d i1 H) as (T & R & (r & B & A) & S).
        split; [congruence|]. split; [congruence|]. split; [|exact S].
        exists (String d r). split.
        -- rewrite B, Gb. unfold stringbuf_add_char. apply append_snoc.
        -- apply chars_all_cons. auto.
      * inversion H; subst. destruct Stop as (T & R & X).
        repeat split; try assumption. intros d' [= <-]. exact D.
    + inversion H; subst. destruct Stop as (T & R & X).
      repeat split; try assumption. discriminate.
Qed.

Lemma scan_literal_spec (n : nat) (c : ascii) (i : input)
    (c2 : option ascii) (j : input) :
  scan_literal n c i = (c2, j) ->
  ready j = ready i /\
  exists r,
    buf j = buf i ++ String c r /\
    (type (itoken j) = T_LITERAL \/
     type (itoken j) = type (itoken i) /\ isdigit c = true /\
     chars_all isdigit r).
Proof.
  revert c i. induction n as [|n IH]; intros c i H; cbn [scan_literal] in H.
  - inversion H; subst. destruct (isdigit c) eqn:D; cbn.
    + split; [reflexivity|]. exists "". split; [reflexivity|]. right.
      split; [reflexivity|]. split; [reflexivity | apply chars_all_nil].
    + split; [reflexivity|]. exists "". split; [reflexivity|]. left.
      reflexivity.
  - set (i0 := if isdigit c then add_char c i
               else set_ttype T_LITERAL (add_char c i)) in H.
    assert (B0 : buf i0 = buf i ++ String c "" /\ ready i0 = ready i /\
                 (type (itoken i0) = T_LITERAL \/
                  type (itoken i0) = type (itoken i) /\ isdigit c = true)).
    { subst i0. destruct (isdigit c); cbn; auto. }
    destruct B0 as (Bb & Br & Bt).
    pose proof (input_getc_keeps i0) as G.
    destruct (input_getc i0) as [o i1].
    destruct G as (Gb & Gt & Gr). cbn [snd] in Gb, Gt, Gr.
    assert (Stop : ready i1 = ready i /\
                   exists r, buf i1 = buf i ++ String c r /\
                     (type (itoken i1) = T_LITERAL \/
                      type (itoken i1) = type (itoken i) /\
                      isdigit c = true /\ chars_all isdigit r)).
    { split; [congruence|]. exists "". split; [congruence|].
      rewrite Gt. destruct Bt as [L | [T D]]; [left; exact L|].
      right. split; [exact T|]. split; [exact D | apply chars_all_nil]. }
    destruct o as [d|]; [|inversion H; subst; exact Stop].
    destruct (isspace d); [inversion H; subst; exact Stop|].
    destruct (IH d i1 H) as (R & r & B & Ty).
    split; [congruence|]. exists (String d r). split.
    + rewrite B, Gb, Bb. apply append_snoc.
    + destruct Ty as [L | (T & D & A)]; [left; exact L|].
      rewrite Gt in T. destruct Bt as [L | [T0 D0]].
      * left. congruence.
      * right. split; [congruence|]. split; [exact D0|].
        apply chars_all_cons. auto.
Qed.

Lemma scan_string_spec (n : nat) (i : input) (errs : list string)
    (closed : bool) (j : input) (errs' : list string) :
  scan_string n i errs = (closed, j, errs') ->
  ready j = ready i /\
  (closed = false -> type (itoken j) = T_ERROR) /\
  (closed = true ->
   itoken j = itoken i /\
   exists s, buf j = buf i ++ s /\ chars_all not_newline s).
Proof.
  revert i errs. induction n as [|n IH]; intros i errs H;
    cbn [scan_string] in H.
  - inversion H; subst. cbn. repeat split; discriminate.
  - pose proof (input_getc_keeps i) as G.
    destruct (input_getc i) as [o i1].
    destruct G as (Gb & Gt & Gr). cbn [snd] in Gb, Gt, Gr.
    destruct (match o with Some ch => Ascii.eqb ch DQUOTE | None => false end).
    { inversion H; subst. split; [exact Gr|]. split; [discriminate|].
      intros _. split; [exact Gt|]. exists "".
      split; [rewrite append_nil_r; exact Gb | apply chars_all_nil]. }
    assert (Body : forall (c : option ascii) (i2 : input) (e2 : list string),
               keeps_token i i2 ->
               match c with
               | None =>
                   (false, set_ttype T_ERROR i2,
                    (e2 ++ [point_error_text (Some (ilocus i2))
                              "end of file in quoted string"])%list)
               | Some ch =>
                   if Ascii.eqb ch NL then
                     (false, set_ttype T_ERROR i2,
                      (e2 ++ [point_error_text (Some (ilocus i2))
                                "end of line in quoted string"])%list)
                   else scan_string n (add_char ch i2) e2
               end = (closed, j, errs') ->
               ready j = ready i /\
               (closed = false -> type (itoken j) = T_ERROR) /\
               (closed = true ->
                itoken j = itoken i /\
                exists s, buf j = buf i ++ s /\ chars_all not_newline s)).
    { intros c i2 e2 (Kb & Kt & Kr) X. destruct c as [ch|].
      - destruct (Ascii.eqb ch NL) eqn:N.
        + inversion X; subst. cbn. repeat split; try discriminate. exact Kr.
        + destruct (IH _ _ X) as (R & F & T). cbn in R.
          split; [congruence|]. split; [exact F|]. intros C.
          destruct (T C) as (Tk & s & B & A). cbn in Tk, B.
          split; [congruence|]. exists (String ch s). split.
          * rewrite B, Kb. apply append_snoc.
          * apply chars_all_cons. split; [|exact A].
            unfold not_newline. rewrite N. reflexivity.
      - inversion X; subst. cbn. repeat split; try discriminate. exact Kr. }
    destruct (match o with Some ch => Ascii.eqb ch BACKSLASH | None => false end).
    + pose proof (input_getc_keeps i1) as G2.
      destruct (input_getc i1) as [o2 i2]. cbn [snd] in G2.
      eapply Body; [|exact H].
      exact (keeps_token_trans _ _ _ (conj Gb (conj Gt Gr)) G2).
    + eapply Body; [|exact H]. exact (conj Gb (conj Gt Gr)).
Qed.

Lemma isdigit_ident_cont (c : ascii) : isdigit c = true -> is_ident_cont c = true.
Proof. unfold is_ident_cont. intros ->. apply orb_true_r. Qed.

Lemma finish_str_token (i : input) :
  type (itoken (finish_str i)) = type (itoken i) /\
  str (itoken (finish_str i)) = c_str (buf i ++ String NUL "") /\
  ready (finish_str i) = ready i.
Proof. unfold finish_str. cbn. auto. Qed.

(** The unquoted run that ends a token: what [scan_token] makes of a
    buffer that holds [b] when the run starts with [c]. *)
Lemma literal_run (n : nat) (c : ascii) (i : input) (b : string) :
  buf i = b ->
  (b = "" \/ isdigit c = false) ->
  let i1 := set_ttype (if isdigit c then T_NUMBER else T_LITERAL) i in
  let run := scan_literal n c i1 in
  let j := finish_str (input_ungetc (snd run) (fst run)) in
  ready j = ready i /\ lexed (itoken j).
Proof.
  intros B Start i1 run j.
  destruct (scan_literal n c i1) as [c2 i2] eqn:S. subst run. cbn [fst snd] in j.
  destruct (scan_literal_spec _ _ _ _ _ S) as (R & r & Bf & Ty).
  destruct (input_ungetc_keeps i2 c2) as (Ub & Ut & Ur).
  destruct (finish_str_token (input_ungetc i2 c2)) as (Ft & Fs & Fr).
  fold j in Ft, Fs, Fr.
  split; [subst i1; cbn in R; congruence|].
  unfold lexed. rewrite Ft, Fs, Ut, Ub.
  destruct Ty as [L | (T & D & A)]; [auto|].
  subst i1. rewrite D in T. cbn in T, Bf.
  destruct Start as [-> | N]; [|congruence].
  right. right. right. right. right. left.
  assert (All : chars_all isdigit (String c r))
    by (apply chars_all_cons; auto).
  rewrite Bf, B. change ("" ++ String c r) with (String c r).
  rewrite (c_str_closed isdigit (String c r) eq_refl All).
  split; [exact T|]. split; [discriminate | exact All].
Qed.

Lemma scan_token_spec (n : nat) (i : input) (errs : list string)
    (j : input) (errs' : list string) :
  buf i = "" ->
  scan_token n i errs = (j, errs') ->
  ready j = ready i /\ lexed (itoken j).
Proof.
  revert i errs. induction n as [|n IH]; intros i errs B H.
  { inversion H; subst. cbn. split; [reflexivity | left; reflexivity]. }
  cbn [scan_token] in H.
  destruct (input_getc_keeps i) as (Gb & Gt & Gr).
  destruct (input_getc i) as [o i1]. cbn [snd] in Gb, Gt, Gr.
  destruct o as [ch|];
    [|inversion H; subst; cbn; split; [exact Gr | left; reflexivity]].
  match type of H with
  | context [if Ascii.eqb ch HASH then ?a else ?b] =>
      assert (K : keeps_token i1 (snd (if Ascii.eqb ch HASH then a else b)))
        by (destruct (Ascii.eqb ch HASH);
            [apply skip_comment_keeps | repeat split]);
      destruct (if Ascii.eqb ch HASH then a else b) as [o2 i2]
  end.
  destruct K as (Kb & Kt & Kr). cbn [snd] in Kb, Kt, Kr.
  assert (B2 : buf i2 = "") by congruence.
  assert (R2 : ready i2 = ready i) by congruence.
  clear Gb Gt Gr Kb Kt Kr.
  destruct o2 as [c|];
    [|inversion H; subst; cbn; split; [exact R2 | left; reflexivity]].
  destruct (Ascii.eqb c NL).
  { inversion H; subst. cbn. split; [exact R2 | right; left; reflexivity]. }
  destruct (isspace c).
  { destruct (IH _ _ B2 H) as [R L]. split; [congruence | exact L]. }
  destruct (Ascii.eqb c DQUOTE).
  { destruct (scan_string _ _ _) as [[closed i3] e3] eqn:Sc.
    destruct (scan_string_spec _ _ _ _ _ _ Sc) as (R & F & T). cbn in R.
    destruct closed; inversion H; subst.
    - destruct (T eq_refl) as (_ & s & Bs & A). cbn in Bs.
      split; [cbn; congruence|].
      unfold lexed. right. right. right. right. left.
      split; [reflexivity|]. cbn [finish_str itoken str set_itoken add_char
                                  buf set_buf set_ttype stringbuf_add_char].
      rewrite Bs, B2. cbn [append]. apply c_str_chars. exact A.
    - split; [congruence|]. unfold lexed. right. right. left.
      exact (F eq_refl). }
  destruct (is_ident_start c) eqn:IS.
  - destruct (scan_ident _ c _) as [c2 i3] eqn:Sc.
    destruct (scan_ident_spec _ _ _ _ _ Sc) as (T & R & (r & Bs & A) & Stop).
    cbn in T, R, Bs.
    assert (Ident : ready (finish_str (set_ttype T_IDENT (input_ungetc i3 c2)))
                    = ready i /\
                    lexed (itoken (finish_str
                                     (set_ttype T_IDENT (input_ungetc i3 c2))))).
    { destruct (input_ungetc_keeps i3 c2) as (Ub & Ut & Ur).
      split; [cbn; congruence|].
      unfold lexed. do 6 right. split; [reflexivity|].
      exists c, r. split; [|split; [exact IS | exact A]].
      cbn [finish_str itoken str set_itoken add_char buf set_buf set_ttype
           stringbuf_add_char].
      rewrite Ub, Bs, B2. change ("" ++ String c r) with (String c r).
      assert (All : chars_all is_ident_cont (String c r)).
      { apply chars_all_cons. split; [|exact A].
        unfold is_ident_cont. rewrite IS. reflexivity. }
      exact (c_str_closed is_ident_cont (String c r) eq_refl All). }
    destruct c2 as [d|]; [|inversion H; subst; exact Ident].
    destruct (isspace d); [inversion H; subst; exact Ident|].
    assert (ND : isdigit d = false).
    { destruct (isdigit d) eqn:D; [|reflexivity].
      pose proof (isdigit_ident_cont d D) as X.
      rewrite (Stop d eq_refl) in X. discriminate X. }
    pose proof (literal_run (S (List.length (file
                  (set_ttype (if isdigit d then T_NUMBER else T_LITERAL)
                     i3)))) d i3 (buf i3) eq_refl (or_intror ND))
      as [R3 L3].
    cbn zeta in R3, L3.
    destruct (scan_literal _ d _) as [c3 i4].
    inversion H; subst. cbn [fst snd] in R3, L3.
    split; [congruence | exact L3].
  - pose proof (literal_run (S (List.length (file
                  (set_ttype (if isdigit c then T_NUMBER else T_LITERAL)
                     (set_tbeg (ilocus i2) i2))))) c
                  (set_tbeg (ilocus i2) i2) "" B2 (or_introl eq_refl))
      as [R3 L3].
    cbn zeta in R3, L3.
    destruct (scan_literal _ c _) as [c3 i4].
    inversion H; subst. cbn [fst snd] in R3, L3.
    split; [rewrite R3; exact R2 | exact L3].
Qed.

(** X7.  [input_gettkn] returns the type of the token it leaves in the
    input, and clears the put-back flag.  The token it scans is of one of
    seven types: end of file, end of line, T_ERROR, a literal, a quoted
    string, whose text holds no line break, a number, whose text is a
    non-empty run of decimal digits, or an identifier, whose text starts
    with a letter or an underscore and goes on with letters, digits and
    underscores.  A token that was put back is returned as it is. *)
Theorem input_gettkn_lexed (i : input) (t : Z) (j : input)
    (errs : list string) :
  input_gettkn i = (t, j, errs) ->
  (ready i = true -> lexed (itoken i)) ->
  t = type (itoken j) /\ ready j = false /\ lexed (itoken j) /\
  (ready i = true -> itoken j = itoken i /\ errs = [] /\ file j = file i).
Proof.
  unfold input_gettkn. intros H Pre. destruct (ready i) eqn:R.
  - inversion H; subst. cbn. repeat split; try reflexivity. exact (Pre eq_refl).
  - destruct (scan_token _ (set_buf "" i) []) as [i1 e1] eqn:Sc.
    destruct (scan_token_spec _ (set_buf "" _) _ _ _ eq_refl Sc) as [R1 L1]. cbn in R1.
    inversion H; subst. cbn.
    split; [reflexivity|]. split; [congruence|].
    split; [|discriminate].
    unfold lexed in *. cbn. exact L1.
Qed.

Lemma input_gettkn_lexed_witness :
  let i := fresh_input "Threads 8" in
  let run := input_gettkn i in
  let j := snd (fst run) in
  fst (fst run) = T_IDENT /\ str (itoken j) = "Threads" /\
  ready j = false /\ lexed (itoken j).
Proof.
  intros i run j.
  assert (H : input_gettkn i = (fst (fst run), j, snd run))
    by (vm_compute; reflexivity).
  assert (Pre : ready i = true -> lexed (itoken i)) by discriminate.
  destruct (input_gettkn_lexed i (fst (fst run)) j (snd run) H Pre)
    as (_ & R & L & _).
  split; [vm_compute; reflexivity|]. split; [vm_compute; reflexivity|].
  split; [exact R | exact L].
Defined.

(** ** Putting a token back *)

Lemma gettkn_loop_top (stack : list input) (last tok : token)
    (stack' : list input) (errs : list string) :
  gettkn_loop stack last = (tok, stack', errs) ->
  type last = EOF -> type tok <> EOF ->
  exists i prev,
    stack' = i :: prev /\ itoken i = tok /\ ready i = false /\
    type (itoken i) <> EOF.
Proof.
  revert last tok stack' errs.
  induction stack as [|i0 prev IH]; intros last tok stack' errs H L N;
    cbn [gettkn_loop] in H.
  - inversion H; subst. contradiction.
  - pose proof (input_gettkn_type i0) as Ty.
    destruct (input_gettkn i0) as [[t i1] e1] eqn:G. cbn [fst snd] in Ty.
    destruct (t =? EOF) eqn:Q.
    + destruct (gettkn_loop prev (itoken i1)) as [[tok2 stack2] e2] eqn:G2.
      inversion H; subst. apply Z.eqb_eq in Q.
      exact (IH _ _ _ _ G2 Q N).
    + inversion H; subst. exists i1, prev.
      split; [reflexivity|]. split; [reflexivity|]. split; [|exact N].
      unfold input_gettkn in G. destruct (ready i0) eqn:R.
      * inversion G; subst. reflexivity.
      * destruct (scan_token _ (set_buf "" i0) []) as [i2 e2] eqn:Sc.
        destruct (scan_token_spec _ (set_buf "" _) _ _ _ eq_refl Sc) as [R1 _].
        inversion G; subst. cbn in *. congruence.
Qed.

(** X8.  A token that [gettkn] returned and [putback_tkn] put back is
    what the next [gettkn] returns, and the parser is then in the state
    in which the first [gettkn] left it: nothing is read and nothing is
    logged in between. *)
Theorem putback_gettkn (st : state) (tok : token) (st1 : state) :
  gettkn st = (tok, st1) -> type tok <> EOF ->
  gettkn (putback_tkn st1) = (tok, st1).
Proof.
  unfold gettkn. intros H N.
  destruct (gettkn_loop (cur_input st) (mk_token EOF "" zero_range))
    as [[tok0 stack] errs] eqn:G.
  injection H as <- <-.
  destruct (gettkn_loop_top _ _ _ _ _ G eq_refl N)
    as (i & prev & -> & <- & R & NE).
  unfold putback_tkn. rewrite log_errors_cur_input.
  cbn [cur_input set_cur_input gettkn_loop].
  unfold input_gettkn, input_putback. cbn [ready set_ready itoken].
  assert (Q : (type (itoken i) =? EOF) = false)
    by (apply Z.eqb_neq; exact NE).
  assert (I : set_ready false (set_ready true i) = i)
    by (destruct i; cbn in R; subst; reflexivity).
  rewrite Q, I. cbn [log_errors fold_left]. f_equal.
  destruct (log_errors errs (set_cur_input (i :: prev) st)) as [ci nl fd g lg rc]
    eqn:X.
  assert (C : ci = i :: prev).
  { pose proof (log_errors_cur_input errs (set_cur_input (i :: prev) st)) as Y.
    rewrite X in Y. exact Y. }
  subst ci. reflexivity.
Qed.

Lemma putback_gettkn_witness :
  let st := Demo.reading "Threads 8" in
  let tok := fst (gettkn st) in
  let st1 := snd (gettkn st) in
  str tok = "Threads" /\ gettkn (putback_tkn st1) = (tok, st1).
Proof.
  intros st tok st1.
  assert (H : gettkn st = (tok, st1)) by (vm_compute; reflexivity).
  assert (N : type tok <> EOF) by (vm_compute; discriminate).
  split; [vm_compute; reflexivity|].
  exact (putback_gettkn st tok st1 H N).
Defined.

(** ** Option words *)

Ltac bitwise :=
  apply Z.bits_inj'; intros k Hk;
  repeat (rewrite Z.land_spec || rewrite Z.lor_spec || rewrite Z.ldiff_spec
          || rewrite Z.bits_0);
  repeat match goal with
         | |- context [Z.testbit ?x k] => destruct (Z.testbit x k)
         end;
  reflexivity.

(** The bits of an [int] from the sign bit on are copies of the sign. *)
Lemma int_bits_high (y i : Z) :
  int_word y -> 31 <= i -> Z.testbit y i = (y <? 0).
Proof.
  unfold int_word, INT_MIN, INT_MAX. intros R I.
  destruct (y <? 0) eqn:N.
  - apply Z.ltb_lt in N.
    assert (L : Z.testbit (Z.lnot y) i = false).
    { rewrite <- (Z.mod_small (Z.lnot y) (2 ^ 31))
        by (unfold Z.lnot; lia).
      apply Z.mod_pow2_bits_high. lia. }
    rewrite Z.lnot_spec in L by lia.
    destruct (Z.testbit y i); [reflexivity | discriminate L].
  - apply Z.ltb_ge in N.
    rewrite <- (Z.mod_small y (2 ^ 31)) by lia.
    apply Z.mod_pow2_bits_high. lia.
Qed.

Lemma int_bits_range (y : Z) :
  (forall i, 31 <= i -> Z.testbit y i = Z.testbit y 31) -> int_word y.
Proof.
  intros H. unfold int_word, INT_MIN, INT_MAX.
  destruct (Z.testbit y 31) eqn:S.
  - assert (Q : Z.lnot y = Z.lnot y mod 2 ^ 31).
    { apply Z.bits_inj'. intros k Hk.
      destruct (Z_lt_le_dec k 31) as [Lo|Hi].
      - rewrite Z.mod_pow2_bits_low by lia. reflexivity.
      - rewrite Z.mod_pow2_bits_high by lia.
        rewrite Z.lnot_spec by lia. rewrite (H k Hi). reflexivity. }
    pose proof (Z.mod_pos_bound (Z.lnot y) (2 ^ 31) ltac:(lia)) as B.
    rewrite <- Q in B. unfold Z.lnot in B. lia.
  - assert (Q : y = y mod 2 ^ 31).
    { apply Z.bits_inj'. intros k Hk.
      destruct (Z_lt_le_dec k 31) as [Lo|Hi].
      - rewrite Z.mod_pow2_bits_low by lia. reflexivity.
      - rewrite Z.mod_pow2_bits_high by lia. exact (H k Hi). }
    pose proof (Z.mod_pos_bound y (2 ^ 31) ltac:(lia)) as B.
    rewrite <- Q in B. lia.
Qed.

Lemma to_int_word (x : Z) : int_word (to_int x).
Proof.
  unfold int_word, to_int, INT_MIN, INT_MAX.
  pose proof (Z.mod_pos_bound (x + 2147483648) 4294967296 ltac:(lia)). lia.
Qed.

Lemma lor_int_word (a b : Z) :
  int_word a -> 0 <= b <= INT_MAX -> int_word (Z.lor a b).
Proof.
  intros A B. assert (B' : int_word b) by (unfold int_word, INT_MIN; lia).
  apply int_bits_range. intros i I. rewrite !Z.lor_spec.
  rewrite (int_bits_high a i A I), (int_bits_high a 31 A ltac:(lia)).
  rewrite (int_bits_high b i B' I), (int_bits_high b 31 B' ltac:(lia)).
  reflexivity.
Qed.

Lemma ldiff_int_word (a b : Z) :
  int_word a -> 0 <= b <= INT_MAX -> int_word (Z.ldiff a b).
Proof.
  intros A B. assert (B' : int_word b) by (unfold int_word, INT_MIN; lia).
  apply int_bits_range. intros i I. rewrite !Z.ldiff_spec.
  rewrite (int_bits_high a i A I), (int_bits_high a 31 A ltac:(lia)).
  rewrite (int_bits_high b i B' I), (int_bits_high b 31 B' ltac:(lia)).
  reflexivity.
Qed.

Lemma op_enable_eq (bit : Z) (lst : LISTENER) :
  int_word (ssl_op_enable lst) -> int_word (ssl_op_disable lst) ->
  0 <= bit <= INT_MAX ->
  op_enable bit lst
  = set_ssl_op_disable (Z.ldiff (ssl_op_disable lst) bit)
      (set_ssl_op_enable (Z.lor (ssl_op_enable lst) bit) lst).
Proof.
  intros En Dis B. unfold op_enable.
  rewrite (to_int_small (Z.lor _ _)) by (apply lor_int_word; assumption).
  cbn [ssl_op_disable set_ssl_op_enable].
  rewrite (to_int_small (Z.ldiff _ _)) by (apply ldiff_int_word; assumption).
  reflexivity.
Qed.

Lemma op_disable_eq (bit : Z) (lst : LISTENER) :
  int_word (ssl_op_enable lst) -> int_word (ssl_op_disable lst) ->
  0 <= bit <= INT_MAX ->
  op_disable bit lst
  = set_ssl_op_enable (Z.ldiff (ssl_op_enable lst) bit)
      (set_ssl_op_disable (Z.lor (ssl_op_disable lst) bit) lst).
Proof.
  intros En Dis B. unfold op_disable.
  rewrite (to_int_small (Z.lor _ _)) by (apply lor_int_word; assumption).
  cbn [ssl_op_enable set_ssl_op_disable].
  rewrite (to_int_small (Z.ldiff _ _)) by (apply ldiff_int_word; assumption).
  reflexivity.
Qed.

Lemma op_enable_on (bit : Z) (lst : LISTENER) :
  int_word (ssl_op_enable lst) -> int_word (ssl_op_disable lst) ->
  0 <= bit <= INT_MAX ->
  option_on bit (op_enable bit lst) /\
  other_options_kept bit lst (op_enable bit lst) /\
  int_word (ssl_op_enable (op_enable bit lst)) /\
  int_word (ssl_op_disable (op_enable bit lst)).
Proof.
  intros En Dis B.
  split; [|split; [|split; apply to_int_word]];
    rewrite (op_enable_eq bit lst En Dis B);
    unfold option_on, other_options_kept, covers;
    destruct lst; cbn; repeat split; bitwise.
Qed.

Lemma op_disable_off (bit : Z) (lst : LISTENER) :
  int_word (ssl_op_enable lst) -> int_word (ssl_op_disable lst) ->
  0 <= bit <= INT_MAX ->
  option_off bit (op_disable bit lst) /\
  other_options_kept bit lst (op_disable bit lst) /\
  int_word (ssl_op_enable (op_disable bit lst)) /\
  int_word (ssl_op_disable (op_disable bit lst)).
Proof.
  intros En Dis B.
  split; [|split; [|split; apply to_int_word]];
    rewrite (op_disable_eq bit lst En Dis B);
    unfold option_off, other_options_kept, covers;
    destruct lst; cbn; repeat split; bitwise.
Qed.

(** X9.  The two option words of a listener are [int]s.  For option words
    in the range of [int] and an option that is a non-negative [int],
    SSLHonorCipherOrder and SSLAllowClientRenegotiation move their option
    between the two words, so that it is never held by both.
    SSLHonorCipherOrder fails, leaving the listener as it was, when
    [assign_bool] fails; otherwise it puts
    SSL_OP_CIPHER_SERVER_PREFERENCE into the enabled word and out of the
    disabled one when the boolean read is not 0, and the other way round
    when it is 0.  SSLAllowClientRenegotiation fails, leaving the listener
    as it was, when [assign_int_range] fails; otherwise the number read is
    0, 1 or 2 and is stored, and
    SSL_OP_ALLOW_UNSAFE_LEGACY_RENEGOTIATION is enabled for 2 and disabled
    for 0 and 1.  The other option bits stay, and the words stay in the
    range of [int]. *)
Theorem https_option_statements (E : env) (lst : LISTENER) (st : state) :
  int_word (ssl_op_enable lst) -> int_word (ssl_op_disable lst) ->
  (let bit := SSL_OP_CIPHER_SERVER_PREFERENCE (K E) in
   0 <= bit <= INT_MAX ->
   forall r bv st1,
     assign_bool 0 st = (r, bv, st1) ->
     (r <> PARSER_OK ->
      https_parse_honor_cipher_order E lst st = (PARSER_FAIL, lst, st1)) /\
     (r = PARSER_OK ->
      exists lst',
        https_parse_honor_cipher_order E lst st = (PARSER_OK, lst', st1) /\
        other_options_kept bit lst lst' /\
        int_word (ssl_op_enable lst') /\ int_word (ssl_op_disable lst') /\
        (bv <> 0 -> option_on bit lst') /\
        (bv = 0 -> option_off bit lst'))) /\
  (let bit := SSL_OP_ALLOW_UNSAFE_LEGACY_RENEGOTIATION (K E) in
   0 <= bit <= INT_MAX ->
   forall r v st1,
     assign_int_range (allow_client_reneg lst) 0 2 st = (r, v, st1) ->
     (r <> PARSER_OK ->
      https_parse_allow_client_renegotiation E lst st
      = (PARSER_FAIL, lst, st1)) /\
     (r = PARSER_OK ->
      0 <= v <= 2 /\
      exists lst',
        https_parse_allow_client_renegotiation E lst st
        = (PARSER_OK, lst', st1) /\
        allow_client_reneg lst' = v /\
        other_options_kept bit lst lst' /\
        int_word (ssl_op_enable lst') /\ int_word (ssl_op_disable lst') /\
        (v = 2 -> option_on bit lst') /\
        (v <> 2 -> option_off bit lst'))).
Proof.
  intros En Dis. split.
  - intros bit B r bv st1 A. unfold https_parse_honor_cipher_order.
    rewrite A. split.
    + intros N. destruct r; try reflexivity. contradiction N. reflexivity.
    + intros ->. destruct (bv =? 0) eqn:V; cbn [negb].
      * apply Z.eqb_eq in V.
        destruct (op_disable_off bit lst En Dis B) as (Off & Keep & I1 & I2).
        eexists. split; [reflexivity|]. split; [exact Keep|].
        split; [exact I1|]. split; [exact I2|].
        split; [intros X; contradiction | intros _; exact Off].
      * apply Z.eqb_neq in V.
        destruct (op_enable_on bit lst En Dis B) as (On & Keep & I1 & I2).
        eexists. split; [reflexivity|]. split; [exact Keep|].
        split; [exact I1|]. split; [exact I2|].
        split; [intros _; exact On | intros X; contradiction].
  - intros bit B r v st1 A.
    unfold https_parse_allow_client_renegotiation.
    pose proof (assign_int_range_within (allow_client_reneg lst) 0 2 st) as W.
    unfold stores_within in W. rewrite A in *. cbn [fst snd] in W. split.
    + intros N. destruct r; try reflexivity. contradiction N. reflexivity.
    + intros ->. destruct W as [[_ R] | [F _]]; [|discriminate F].
      split; [exact R|].
      cbn [allow_client_reneg set_allow_client_reneg].
      assert (En' : int_word (ssl_op_enable (set_allow_client_reneg v lst)))
        by exact En.
      assert (Dis' : int_word (ssl_op_disable (set_allow_client_reneg v lst)))
        by exact Dis.
      destruct (v =? 2) eqn:V.
      * apply Z.eqb_eq in V.
        destruct (op_enable_on bit _ En' Dis' B) as (On & Keep & I1 & I2).
        eexists. split; [reflexivity|].
        split; [destruct lst; reflexivity|].
        split; [exact Keep|]. split; [exact I1|]. split; [exact I2|].
        split; [intros _; exact On | intros X; contradiction].
      * apply Z.eqb_neq in V.
        destruct (op_disable_off bit _ En' Dis' B) as (Off & Keep & I1 & I2).
        eexists. split; [reflexivity|].
        split; [destruct lst; reflexivity|].
        split; [exact Keep|]. split; [exact I1|]. split; [exact I2|].
        split; [intros X; contradiction | intros _; exact Off].
Qed.

Lemma https_option_statements_witness :
  let E := Demo.env [] in
  let st := Demo.reading "yes" in
  let run := https_parse_honor_cipher_order E zero_listener st in
  let bit := SSL_OP_CIPHER_SERVER_PREFERENCE (K E) in
  snd (fst (assign_bool 0 st)) = 1 /\
  fst (fst run) = PARSER_OK /\ option_on bit (snd (fst run)).
Proof.
  intros E st run bit.
  assert (A : assign_bool 0 st = (PARSER_OK, 1, snd (assign_bool 0 st)))
    by (vm_compute; reflexivity).
  assert (En : int_word (ssl_op_enable zero_listener))
    by (vm_compute; split; discriminate).
  assert (Dis : int_word (ssl_op_disable zero_listener))
    by (vm_compute; split; discriminate).
  assert (B : 0 <= bit <= INT_MAX) by (vm_compute; split; discriminate).
  split; [vm_compute; reflexivity|].
  destruct (proj2 (proj1 (https_option_statements E zero_listener st En Dis)
                     B PARSER_OK 1 (snd (assign_bool 0 st)) A) eq_refl)
    as (lst' & R & _ & _ & _ & On & _).
  unfold run. rewrite R. cbn [fst snd].
  split; [reflexivity|]. apply On. discriminate.
Defined.

(** ** The contexts of an accepted HTTPS listener *)

Lemma finish_contexts_each (E : env) (lst : LISTENER) (l : list POUND_CTX)
    (st : state) :
  Forall2 (fun pc pc' =>
             context_finished E lst (pc_ctx pc') /\
             ctx_sni_cb (pc_ctx pc') = ctx_sni_cb (pc_ctx pc) /\
             server_name pc' = server_name pc /\
             subjectAltNames pc' = subjectAltNames pc)
    l (fst (finish_contexts E lst l st)).
Proof.
  revert st. induction l as [|pc rest IH]; intros st; cbn [finish_contexts].
  - constructor.
  - destruct (session_id E st) as [sid st1]. specialize (IH st1).
    destruct (finish_contexts E lst rest st1) as [rest' st2].
    cbn [fst] in *. constructor; [|exact IH].
    unfold context_finished, covers. destruct pc as [c sn alt].
    destruct c. cbn.
    repeat split; try reflexivity; bitwise.
Qed.

(** An [int] that is negative sets, once converted to [uint64_t], every
    bit from 32 to 63. *)
Lemma finished_high_bits (E : env) (lst : LISTENER) (c : SSL_CTX) (i : Z) :
  context_finished E lst c ->
  int_word (ssl_op_enable lst) -> ssl_op_enable lst < 0 ->
  int_word (ssl_op_disable lst) -> 0 <= ssl_op_disable lst ->
  32 <= i < 64 -> Z.testbit (ctx_options c) i = true.
Proof.
  intros (_ & Cov & _) En Neg Dis Pos I. unfold covers in Cov.
  apply (f_equal (fun v => Z.testbit v i)) in Cov.
  rewrite Z.land_spec, Z.ldiff_spec in Cov. unfold to_uint64 in Cov.
  change 18446744073709551616 with (2 ^ 64) in Cov.
  rewrite !Z.mod_pow2_bits_low in Cov by lia.
  rewrite (int_bits_high _ i En), (int_bits_high _ i Dis) in Cov by lia.
  apply Z.ltb_lt in Neg. apply Z.ltb_ge in Pos. rewrite Neg, Pos in Cov.
  destruct (Z.testbit (ctx_options c) i); [reflexivity | discriminate Cov].
Qed.

(** X10.  The option words of a listener are [int]s, and
    [parse_listen_https] hands them to [SSL_CTX_set_options] and
    [SSL_CTX_clear_options] converted to the 64-bit option type, that is
    sign-extended.  Every TLS context of the listener that an accepted
    ListenHTTPS section adds carries none of the bits of the converted
    disabled word and all of those of the converted enabled word that the
    disabled one does not hold, has SSL_MODE_AUTO_RETRY set and the
    application data, the info callback and the Pound initialisation in
    place; the first context has the SNI callback.  When the enabled word
    is a negative [int], as it is once it holds an SSL_OP_ALL that has bit
    31, and the disabled word a non-negative one, every context has all
    the option bits from 32 to 63 set. *)
Theorem https_contexts_finished (E : env) (n : nat) (head : list LISTENER)
    (dfl : POUND_DEFAULTS) (st : state) (head' : list LISTENER)
    (st' : state) :
  parse_listen_https E n head dfl st = Ret (PARSER_OK, head', st') ->
  exists lst pc rest,
    head' = SLIST_PUSH head lst /\
    ctx_head lst = pc :: rest /\
    ctx_sni_cb (pc_ctx pc) = true /\
    Forall (fun pc => context_finished E lst (pc_ctx pc)) (ctx_head lst) /\
    (int_word (ssl_op_enable lst) -> ssl_op_enable lst < 0 ->
     int_word (ssl_op_disable lst) -> 0 <= ssl_op_disable lst ->
     forall i, 32 <= i < 64 ->
     Forall (fun pc => Z.testbit (ctx_options (pc_ctx pc)) i = true)
       (ctx_head lst)).
Proof.
  intros H. unfold parse_listen_https in H.
  destruct (listener_alloc E dfl st) as [[lst0|] st0]; [|discriminate H].
  destruct (parser_loop n (https_parsetab E) _ (fun _ => dfl)
              (Some zero_range) st0)
    as [[[[r lst] range] st1]| |]; try discriminate H.
  destruct r; try discriminate H.
  destruct (check_addrinfo (l_addr lst) range "ListenHTTPS" st1)
    as [[] st2]; try discriminate H.
  destruct (ctx_head lst) as [|pc rest]; [discriminate H|].
  destruct (negb (SSL_CTX_set_tlsext_servername E (pc_ctx pc)));
    [discriminate H|].
  pose proof (finish_contexts_each E lst
                (set_pc_ctx (set_ctx_sni_cb true (pc_ctx pc)) pc :: rest)
                st2) as F.
  destruct (finish_contexts E lst _ st2) as [l st3].
  inversion H; subst head' st3. cbn [fst] in F.
  inversion F as [|pc0 pc' l0 l' (Fin & Sni & _) Rest]; subst.
  exists (set_ctx_head (pc' :: l') lst), pc', l'.
  split; [reflexivity|]. split; [reflexivity|].
  split; [rewrite Sni; destruct pc as [c sn alt]; destruct c; reflexivity|].
  cbn [ctx_head set_ctx_head].
  assert (Same : forall c,
             context_finished E lst c ->
             context_finished E (set_ctx_head (pc' :: l') lst) c)
    by (intros c X; exact X).
  clear H.
  generalize dependent (set_ctx_head (pc' :: l') lst). intros lst1 Same.
  assert (All : Forall (fun pc => context_finished E lst1 (pc_ctx pc))
                  (pc' :: l')).
  { constructor; [apply Same, Fin|].
    clear - Rest Same. induction Rest as [|a b la lb (Fin & _) _ IH];
      constructor; [apply Same, Fin | exact IH]. }
  split; [exact All|].
  intros En Neg Dis Pos i I. revert All. apply Forall_impl.
  intros a Fa. exact (finished_high_bits E lst1 _ i Fa En Neg Dis Pos I).
Qed.

Lemma https_contexts_finished_witness :
  let E := Demo.env cert_files in
  let st := Demo.reading two_certs_text in
  let res := parse_listen_https E 10%nat [] pound_defaults st in
  let head' := snd (fst (returned (PARSER_FAIL, [], st) res)) in
  let st' := snd (returned (PARSER_FAIL, [], st) res) in
  res = Ret (PARSER_OK, head', st') /\
  map (fun l => (ssl_op_enable l, ssl_op_disable l,
                 map (fun pc => ctx_options (pc_ctx pc)) (ctx_head l))) head'
  = [(-2147350448, 264196, [0xffffffff80020050; 0xffffffff80020050])] /\
  exists lst pc rest,
    head' = SLIST_PUSH [] lst /\
    ctx_head lst = pc :: rest /\
    ctx_sni_cb (pc_ctx pc) = true /\
    Forall (fun pc => context_finished E lst (pc_ctx pc)) (ctx_head lst).
Proof.
  intros E st res head' st'.
  assert (H : res = Ret (PARSER_OK, head', st')) by (vm_compute; reflexivity).
  split; [exact H|]. split; [vm_compute; reflexivity|].
  destruct (https_contexts_finished E 10%nat [] pound_defaults st head' st' H)
    as (lst & pc & rest & P & C & S & F & _).
  exists lst, pc, rest. auto.
Defined.

(** ** Common names *)





Lemma string_tail_skip (s : string) :
  exists pre, s = pre ++ string_tail s.
Proof.
  destruct s as [|c r]; [exists ""; reflexivity|].
  exists (String c ""). reflexivity.
Qed.


Lemma length_append (a b : string) :
  String.length (a ++ b) = (String.length a + String.length b)%nat.
Proof. induction a as [|c a IH]; cbn; [reflexivity | f_equal; exact IH]. Qed.





(** ** Growing a block *)

(** X12.  For an element size above 0, [mem2nrealloc] on a block that
    exists returns the block only with a number of elements that is the
    old one and half of it more (rounded up), without wrapping around,
    larger than the old one unless that was 0, and such that the size
    asked of [realloc] does not overflow [size_t]; on no block and a count
    of 0 it asks for at least one element and at most 64 bytes or one
    element.  It never divides by 0. *)
Theorem mem2nrealloc_bounds (n s : Z) (realloc : Z -> bool) :
  0 <= n <= SIZE_MAX -> 0 < s <= SIZE_MAX ->
  (forall n',
     mem2nrealloc false n s realloc = Block n' ->
     n' = n + (n + 1) / 2 /\ n' * s <= SIZE_MAX /\ n <= n' /\
     (0 < n -> n < n') /\ realloc (n' * s) = true) /\
  (forall n',
     mem2nrealloc true 0 s realloc = Block n' ->
     1 <= n' /\ n' * s <= Z.max DEFAULT_MXFAST s /\
     realloc (n' * s) = true) /\
  (forall p, mem2nrealloc p n s realloc <> Division_by_zero).
Proof.
  intros Hn Hs.
  assert (S0 : (s =? 0) = false) by (apply Z.eqb_neq; lia).
  split; [|split].
  - intros n' H. unfold mem2nrealloc in H. rewrite S0 in H.
    destruct (SIZE_MAX / 3 * 2 / s <=? n) eqn:G; [discriminate H|].
    apply Z.leb_gt in G.
    change (SIZE_MAX / 3 * 2) with 12297829382473034410 in G.
    assert (M : (n + 1) * s <= 12297829382473034410).
    { pose proof (Z.mul_div_le 12297829382473034410 s (proj1 Hs)). nia. }
    assert (N1 : to_size (n + 1) = n + 1).
    { unfold to_size. apply Z.mod_small. unfold SIZE_MAX in *. nia. }
    pose proof (Z.mul_div_le (n + 1) 2 eq_refl) as Half.
    assert (Half0 : 0 <= (n + 1) / 2) by (apply Z.div_pos; lia).
    assert (N2 : to_size (n + (n + 1) / 2) = n + (n + 1) / 2).
    { unfold to_size. apply Z.mod_small. unfold SIZE_MAX in *. nia. }
    assert (P : (n + (n + 1) / 2) * s <= SIZE_MAX).
    { unfold SIZE_MAX. nia. }
    assert (N3 : to_size ((n + (n + 1) / 2) * s) = (n + (n + 1) / 2) * s).
    { unfold to_size. apply Z.mod_small. nia. }
    rewrite N1, N2, N3 in H.
    destruct (realloc ((n + (n + 1) / 2) * s)) eqn:R; [|discriminate H].
    injection H as <-.
    split; [reflexivity|]. split; [exact P|]. split; [lia|].
    split; [|exact R].
    intros Pos. assert (1 <= (n + 1) / 2)
      by (apply Z.div_le_lower_bound; lia). lia.
  - intros n' H. unfold mem2nrealloc in H. cbn [Z.eqb] in H. rewrite S0 in H.
    set (k := DEFAULT_MXFAST / s) in H.
    assert (K0 : 0 <= k) by (apply Z.div_pos; unfold DEFAULT_MXFAST; lia).
    assert (K1 : k * s <= DEFAULT_MXFAST).
    { pose proof (Z.mul_div_le DEFAULT_MXFAST s (proj1 Hs)). subst k. nia. }
    assert (K2 : k <= DEFAULT_MXFAST).
    { subst k. apply Z.div_le_upper_bound; unfold DEFAULT_MXFAST in *; nia. }
    set (m := k + (if k =? 0 then 1 else 0)) in H.
    assert (Mm : 1 <= m <= 64 /\ m * s <= Z.max DEFAULT_MXFAST s).
    { subst m. unfold DEFAULT_MXFAST in *. destruct (k =? 0) eqn:Q.
      - apply Z.eqb_eq in Q. rewrite Q. lia.
      - apply Z.eqb_neq in Q. lia. }
    assert (N2 : to_size m = m)
      by (unfold to_size, SIZE_MAX; apply Z.mod_small; lia).
    assert (N3 : to_size (m * s) = m * s).
    { unfold to_size. apply Z.mod_small. unfold SIZE_MAX, DEFAULT_MXFAST in *.
      nia. }
    rewrite N2, N3 in H.
    destruct (realloc (m * s)) eqn:R; [|discriminate H].
    injection H as <-. split; [lia|]. split; [lia | exact R].
  - intros p. unfold mem2nrealloc. rewrite S0.
    destruct p.
    + destruct (n =? 0); destruct (realloc _); discriminate.
    + destruct (SIZE_MAX / 3 * 2 / s <=? n); [discriminate|].
      destruct (realloc _); discriminate.
Qed.

Lemma mem2nrealloc_bounds_witness :
  mem2nrealloc true 0 1 (fun _ => true) = Block 64 /\
  mem2nrealloc false 64 1 (fun _ => true) = Block 96 /\
  96 * 1 <= SIZE_MAX.
Proof.
  assert (Hn : 0 <= 64 <= SIZE_MAX) by (unfold SIZE_MAX; lia).
  assert (Hs : 0 < 1 <= SIZE_MAX) by (unfold SIZE_MAX; lia).
  destruct (mem2nrealloc_bounds 64 1 (fun _ => true) Hn Hs) as (Grow & _ & _).
  assert (G : mem2nrealloc false 64 1 (fun _ => true) = Block 96) by reflexivity.
  split; [reflexivity|]. split; [exact G|].
  exact (proj1 (proj2 (Grow 96 G))).
Defined.

(** ** Features *)

Lemma memcmp_eq_same (a b : string) :
  String.length a = String.length b ->
  memcmp_eq a b (String.length a) = true -> a = b.
Proof.
  revert b. induction a as [|x a IH]; intros b L H.
  - destruct b; [reflexivity | discriminate L].
  - destruct b as [|y b]; [discriminate L|].
    cbn [memcmp_eq String.length] in H. apply andb_true_iff in H.
    destruct H as [X H]. apply Ascii.eqb_eq in X. subst y.
    f_equal. apply IH; [injection L as L; exact L | exact H].
Qed.

Lemma strip_no_spec (s r : string) :
  strip_no s = Some r -> s = "no-" ++ r.
Proof.
  unfold strip_no. destruct s as [|c0 [|c1 [|c2 t]]]; try discriminate.
  destruct (Ascii.eqb c0 "n" && Ascii.eqb c1 "o" && Ascii.eqb c2 "-") eqn:Q;
    [|discriminate].
  intros [= <-]. apply andb_true_iff in Q. destruct Q as [Q Q2].
  apply andb_true_iff in Q. destruct Q as [Q0 Q1].
  apply Ascii.eqb_eq in Q0, Q1, Q2. subst. reflexivity.
Qed.

(** The loop finds the one feature exactly under its name. *)
Lemma feature_loop_dns (nm : string) (val : option string) (enabled : Z)
    (st : state) :
  feature_loop feature_names nm (String.length nm) val enabled st
  = if streq nm "dns" then
      match val with
      | Some _ => (-1, st)
      | None => (0, set_feature_dns enabled st)
      end
    else (-1, st).
Proof.
  cbn [feature_loop feature_names].
  destruct (Nat.eqb (String.length "dns") (String.length nm)
            && memcmp_eq "dns" nm (String.length nm)) eqn:Q.
  - apply andb_true_iff in Q. destruct Q as [L M].
    apply Nat.eqb_eq in L. rewrite <- L in M.
    rewrite <- (memcmp_eq_same "dns" nm L M). reflexivity.
  - destruct (streq nm "dns") eqn:S; [|reflexivity].
    apply String.eqb_eq in S. subst nm. discriminate Q.
Qed.

(** X13.  [feature_set] accepts exactly the names "dns" and "no-dns": the
    first turns the feature on and the second off, and it returns 0; for
    every other name, among them the empty one, "no-" and a name with a
    value ("dns=1"), it returns -1 and changes nothing. *)
Theorem feature_set_spec (nm : string) (st : state) :
  (nm = "dns" ->
   feature_set nm st = (0, set_feature_dns F_ON st) /\
   feature_is_set (snd (feature_set nm st)) = true) /\
  (nm = "no-dns" ->
   feature_set nm st = (0, set_feature_dns F_OFF st) /\
   feature_is_set (snd (feature_set nm st)) = false) /\
  (nm <> "dns" -> nm <> "no-dns" -> feature_set nm st = (-1, st)).
Proof.
  split; [intros ->; split; reflexivity|].
  split; [intros ->; split; reflexivity|].
  intros N1 N2. unfold feature_set.
  destruct (strchr_eq nm) as [[k v]|] eqn:C.
  - destruct nm as [|c r]; [reflexivity|].
    cbn [feature_loop feature_names].
    destruct (Nat.eqb (String.length "dns") k
              && memcmp_eq "dns" (String c r) k); reflexivity.
  - destruct (strip_no nm) as [r|] eqn:P.
    + apply strip_no_spec in P. subst nm.
      destruct r as [|c r]; [reflexivity|].
      replace (String.length ("no-" ++ String c r) - 3)%nat
        with (String.length (String c r)) by (cbn; lia).
      rewrite feature_loop_dns.
      destruct (streq (String c r) "dns") eqn:S; [|reflexivity].
      apply String.eqb_eq in S. rewrite S in N2. contradiction N2. reflexivity.
    + destruct nm as [|c r]; [reflexivity|].
      rewrite feature_loop_dns.
      destruct (streq (String c r) "dns") eqn:S; [|reflexivity].
      apply String.eqb_eq in S. contradiction.
Qed.

Lemma feature_set_spec_witness :
  feature_set "dns=1" Demo.init_state = (-1, Demo.init_state) /\
  feature_is_set (snd (feature_set "no-dns" Demo.init_state)) = false.
Proof.
  destruct (feature_set_spec "dns=1" Demo.init_state) as (_ & _ & Other).
  destruct (feature_set_spec "no-dns" Demo.init_state) as (_ & Off & _).
  split.
  - apply Other; discriminate.
  - exact (proj2 (Off eq_refl)).
Defined.

(** ** Server name indication *)

Lemma sni_search_first (fnmatch : string -> string -> Z) (nm : string)
    (l : list POUND_CTX) :
  match sni_search fnmatch nm l with
  | Some c =>
      exists before pc after,
        l = (before ++ pc :: after)%list /\ c = pc_ctx pc /\
        sni_matches fnmatch nm pc = true /\
        forallb (fun q => negb (sni_matches fnmatch nm q)) before = true
  | None => forallb (fun q => negb (sni_matches fnmatch nm q)) l = true
  end.
Proof.
  induction l as [|pc rest IH]; cbn [sni_search]; [reflexivity|].
  destruct (fnmatch (server_name pc) nm =? 0) eqn:A.
  - exists [], pc, rest. unfold sni_matches. rewrite A. repeat split.
  - destruct (existsb (fun alt => fnmatch alt nm =? 0) (subjectAltNames pc))
      eqn:B.
    + exists [], pc, rest. unfold sni_matches. rewrite A, B. repeat split.
    + assert (NM : sni_matches fnmatch nm pc = false)
        by (unfold sni_matches; rewrite A, B; reflexivity).
      destruct (sni_search fnmatch nm rest) as [c|].
      * destruct IH as (before & q & after & -> & -> & M & Nb).
        exists (pc :: before), q, after. split; [reflexivity|].
        split; [reflexivity|]. split; [exact M|].
        cbn [forallb]. rewrite NM, Nb. reflexivity.
      * cbn [forallb]. rewrite NM, IH. reflexivity.
Qed.

(** X14.  Without a server name [SNI_server_name] answers NOACK.  With
    one, and a list of contexts that is not empty, it selects a context
    of the list: that of the first entry whose server name, or one of
    whose alternative names, matches, and the first context of the list
    when no entry matches.  On an empty list it would follow a NULL
    pointer. *)
Theorem sni_selects (fnmatch : string -> string -> Z) (nm : string)
    (l : list POUND_CTX) :
  SNI_server_name fnmatch None l = Ret SSL_TLSEXT_ERR_NOACK /\
  SNI_server_name fnmatch (Some nm) [] = Fault /\
  (l <> [] ->
   exists before pc after,
     l = (before ++ pc :: after)%list /\
     SNI_server_name fnmatch (Some nm) l
     = Ret (SSL_TLSEXT_ERR_OK (pc_ctx pc)) /\
     forallb (fun q => negb (sni_matches fnmatch nm q)) before = true /\
     (sni_matches fnmatch nm pc = true \/
      before = [] /\
      forallb (fun q => negb (sni_matches fnmatch nm q)) l = true)).
Proof.
  split; [reflexivity|]. split; [reflexivity|].
  intros NE. unfold SNI_server_name.
  pose proof (sni_search_first fnmatch nm l) as F.
  destruct (sni_search fnmatch nm l) as [c|].
  - destruct F as (before & pc & after & -> & -> & M & Nb).
    exists before, pc, after. repeat split; auto.
  - destruct l as [|pc rest]; [contradiction|].
    exists [], pc, rest. repeat split. right. split; [reflexivity | exact F].
Qed.

Lemma sni_selects_witness :
  two_contexts <> [] /\
  exists before pc after,
    two_contexts = (before ++ pc :: after)%list /\
    SNI_server_name exact_match (Some "c.example.org") two_contexts
    = Ret (SSL_TLSEXT_ERR_OK (pc_ctx pc)) /\
    forallb (fun q => negb (sni_matches exact_match "c.example.org" q)) before
    = true /\
    (sni_matches exact_match "c.example.org" pc = true \/
     before = [] /\
     forallb (fun q => negb (sni_matches exact_match "c.example.org" q))
       two_contexts = true).
Proof.
  assert (NE : two_contexts <> []) by discriminate.
  split; [exact NE|].
  destruct (sni_selects exact_match "c.example.org" two_contexts)
    as (_ & _ & Sel).
  exact (Sel NE).
Defined.

(** ** Descriptions of token masks *)

Lemma strlen_append (a b : string) : strlen (a ++ b) = strlen a + strlen b.
Proof. unfold strlen. rewrite length_append. lia. Qed.

Lemma truncate_length (n : nat) (s : string) :
  (String.length (truncate n s) <= n)%nat.
Proof.
  revert s. induction n as [|n IH]; intros s; cbn [truncate String.length];
    [lia|].
  destruct s as [|c r]; cbn [String.length]; [lia|].
  specialize (IH r). lia.
Qed.

Lemma truncate_all (n : nat) (s : string) :
  (String.length s <= n)%nat -> truncate n s = s.
Proof.
  revert s. induction n as [|n IH]; intros s L.
  - destruct s; [reflexivity | cbn in L; lia].
  - destruct s as [|c r]; [reflexivity|]. cbn [truncate]. f_equal.
    apply IH. cbn in L. lia.
Qed.

(** The loop never writes at or beyond [end], the last byte of the buffer,
    which then takes the closing NUL. *)
Lemma token_mask_loop_fits (types : list Z) (mask : TOKENMASK) (q : string)
    (size : Z) :
  strlen q <= size - 1 ->
  strlen (token_mask_loop types mask q size) <= size - 1.
Proof.
  revert mask q. induction types as [|i rest IH]; intros mask q Q;
    cbn [token_mask_loop]; [exact Q|].
  destruct (negb (Z.land mask (T_BIT i) =? 0)); [|apply IH; exact Q].
  assert (Step : forall s,
    strlen (q ++ s) <= size - 1 ->
    strlen (token_mask_loop rest (Z.ldiff mask (T_BIT i))
              ((q ++ s)
               ++ truncate (Z.to_nat (size - 1 - strlen (q ++ s)))
                    (token_type_str i)) size) <= size - 1).
  { intros s L. apply IH. rewrite strlen_append.
    pose proof (truncate_length (Z.to_nat (size - 1 - strlen (q ++ s)))
                  (token_type_str i)) as T.
    unfold strlen at 2. lia. }
  destruct (0 <? strlen q).
  - destruct (negb (Z.ldiff mask (T_BIT i) =? 0)).
    + destruct (size - 1 - strlen q <=? 2) eqn:R; [exact Q|].
      apply Z.leb_gt in R. apply Step. rewrite strlen_append.
      change (strlen ", ") with 2. lia.
    + destruct (size - 1 - strlen q <=? 4) eqn:R; [exact Q|].
      apply Z.leb_gt in R. apply Step. rewrite strlen_append.
      change (strlen " or ") with 4. lia.
  - apply Step. rewrite append_nil_r. exact Q.
Qed.

(** Once the mask is exhausted nothing more is written. *)
Lemma token_mask_loop_done (types : list Z) (q : string) (size : Z) :
  token_mask_loop types 0 q size = q.
Proof.
  induction types as [|i rest IH]; cbn [token_mask_loop]; [reflexivity|].
  rewrite Z.land_0_l. exact IH.
Qed.

(** One type of the mask, when the buffer has room for a separator and all
    of the description. *)
Lemma token_mask_loop_room (i : Z) (rest : list Z) (mask : TOKENMASK)
    (q : string) (size : Z) :
  (Z.land mask (T_BIT i) =? 0) = false ->
  0 < strlen (token_type_str i) ->
  strlen q + 4 + strlen (token_type_str i) <= size - 1 ->
  token_mask_loop (i :: rest) mask q size
  = token_mask_loop rest (Z.ldiff mask (T_BIT i))
      ((q ++ (if 0 <? strlen q
              then if negb (Z.ldiff mask (T_BIT i) =? 0) then ", " else " or "
              else ""))
       ++ token_type_str i) size.
Proof.
  intros B P L. cbn [token_mask_loop]. rewrite B. cbn [negb].
  assert (T : forall s, strlen s <= 4 ->
    truncate (Z.to_nat (size - 1 - strlen (q ++ s))) (token_type_str i)
    = token_type_str i).
  { intros s S4. apply truncate_all. rewrite strlen_append.
    unfold strlen in *. lia. }
  destruct (0 <? strlen q).
  - destruct (negb (Z.ldiff mask (T_BIT i) =? 0)).
    + replace (size - 1 - strlen q <=? 2) with false
        by (symmetry; apply Z.leb_gt; unfold strlen in *; lia).
      rewrite T by (cbn; lia). reflexivity.
    + replace (size - 1 - strlen q <=? 4) with false
        by (symmetry; apply Z.leb_gt; unfold strlen in *; lia).
      rewrite T by (cbn; lia). reflexivity.
  - rewrite T by (cbn; lia). reflexivity.
Qed.

Lemma token_mask_loop_skip (i : Z) (rest : list Z) (mask : TOKENMASK)
    (q : string) (size : Z) :
  (Z.land mask (T_BIT i) =? 0) = true ->
  token_mask_loop (i :: rest) mask q size = token_mask_loop rest mask q size.
Proof. intros B. cbn [token_mask_loop]. rewrite B. reflexivity. Qed.

(** Both runs take the same step: the type is skipped, or it is the last
    of the mask, or its description is written in full. *)
Ltac mask_step size H :=
  match goal with
  | |- token_mask_loop (?i :: ?rest) ?m ?q size
       = token_mask_loop (?i :: ?rest) ?m ?q MAX_TOKEN_BUF_SIZE =>
      let B := fresh "B" in
      let Zr := fresh "Zr" in
      let n := eval vm_compute in (strlen q) in
      let k := eval vm_compute in (strlen (token_type_str i)) in
      let p := eval vm_compute in (0 <? strlen q) in
      destruct (Z.land m (T_BIT i) =? 0) eqn:B;
      [ rewrite (token_mask_loop_skip i rest m q size B),
                (token_mask_loop_skip i rest m q MAX_TOKEN_BUF_SIZE B)
      | rewrite (token_mask_loop_room i rest m q size B),
                (token_mask_loop_room i rest m q MAX_TOKEN_BUF_SIZE B)
          by (try reflexivity; change (strlen q) with n;
              change (strlen (token_type_str i)) with k;
              unfold MAX_TOKEN_BUF_SIZE in *; lia);
        change (0 <? strlen q) with p; cbv iota;
        destruct (Z.ldiff m (T_BIT i) =? 0) eqn:Zr;
        [ apply Z.eqb_eq in Zr; rewrite Zr;
          rewrite !token_mask_loop_done; reflexivity
        | cbn [negb];
          match goal with
          | |- token_mask_loop _ _ ?q' _ = _ =>
              let v := eval vm_compute in q' in change q' with v
          end ] ]
  end.

(** X15.  [token_mask_str] never writes beyond the buffer it is given: the
    description is shorter than the buffer, whatever the mask.  A buffer
    of [MAX_TOKEN_BUF_SIZE] bytes is enough for every mask, since a larger
    one receives the same text; and it is the least such size, since the
    mask of all four types needs all of it. *)
Theorem token_mask_str_fits (mask : TOKENMASK) (size : Z) :
  (1 <= size -> strlen (token_mask_str mask size) <= size - 1) /\
  (MAX_TOKEN_BUF_SIZE <= size ->
   token_mask_str mask size = token_mask_str mask MAX_TOKEN_BUF_SIZE) /\
  strlen (token_mask_str (Z.lor T_UNQ (T_BIT T_STRING)) MAX_TOKEN_BUF_SIZE)
  = MAX_TOKEN_BUF_SIZE - 1.
Proof.
  split; [|split; [|reflexivity]].
  - intros S1. apply token_mask_loop_fits. change (strlen "") with 0. lia.
  - intros H. unfold token_mask_str.
    mask_step size H.
    + mask_step size H.
      * mask_step size H.
        -- mask_step size H.
           ++ reflexivity.
           ++ reflexivity.
        -- mask_step size H.
           ++ reflexivity.
           ++ reflexivity.
      * mask_step size H.
        -- mask_step size H.
           ++ reflexivity.
           ++ reflexivity.
        -- mask_step size H.
           ++ reflexivity.
           ++ reflexivity.
    + mask_step size H.
      * mask_step size H.
        -- mask_step size H.
           ++ reflexivity.
           ++ reflexivity.
        -- mask_step size H.
           ++ reflexivity.
           ++ reflexivity.
      * mask_step size H.
        -- mask_step size H.
           ++ reflexivity.
           ++ reflexivity.
        -- mask_step size H.
           ++ reflexivity.
           ++ reflexivity.
Qed.

Lemma token_mask_str_fits_witness :
  strlen (token_mask_str T_UNQ 16) <= 16 - 1 /\
  token_mask_str T_UNQ 100 = token_mask_str T_UNQ MAX_TOKEN_BUF_SIZE.
Proof.
  destruct (token_mask_str_fits T_UNQ 16) as (Fit & _ & _).
  destruct (token_mask_str_fits T_UNQ 100) as (_ & Same & _).
  split; [apply Fit; lia | apply Same; unfold MAX_TOKEN_BUF_SIZE; lia].
Defined.

(** ** Expected tokens *)

Lemma T_BIT_same (t u : Z) :
  T__BASE <= t -> T_MASK_ISSET (T_BIT t) u = true -> u = t.
Proof.
  unfold T_MASK_ISSET, T_BIT, T__BASE. intros T H.
  apply negb_true_iff, Z.eqb_neq in H.
  destruct (Z.eq_dec u t) as [|N]; [assumption|]. exfalso. apply H.
  apply Z.bits_inj'. intros n Hn.
  rewrite Z.land_spec, Z.bits_0.
  destruct (Z.le_gt_cases 256 u) as [U|U].
  - rewrite !Z.shiftl_spec by assumption.
    destruct (Z.eq_dec n (t - 256)) as [->|N1].
    + rewrite andb_comm.
      replace (Z.testbit 1 (t - 256 - (u - 256))) with false; [reflexivity|].
      symmetry. destruct (Z.lt_ge_cases (t - 256 - (u - 256)) 0) as [L|L].
      * apply Z.testbit_neg_r. assumption.
      * change 1 with (2 ^ 0). apply Z.pow2_bits_false. lia.
    + replace (Z.testbit 1 (n - (t - 256))) with false; [reflexivity|].
      symmetry. destruct (Z.lt_ge_cases (n - (t - 256)) 0) as [L|L].
      * apply Z.testbit_neg_r. assumption.
      * change 1 with (2 ^ 0). apply Z.pow2_bits_false. lia.
  - replace (Z.shiftl 1 (u - 256)) with 0;
      [rewrite Z.bits_0; apply andb_false_r|].
    symmetry. rewrite <- (Z.opp_involutive (u - 256)), Z.shiftl_opp_r.
    apply Z.shiftr_eq_0; [lia|]. change (Z.log2 1) with 0. lia.
Qed.

(** X16.  A token that [gettkn_expect_mask] hands out is the one [gettkn]
    has just read, is neither the end of file nor an error, and has one of
    the expected types when a mask is given; so [gettkn_expect] hands out
    tokens of the one type asked for only.  When it hands out none, the
    token was read all the same. *)
Theorem expected_token_only (st : state) :
  (forall expect tok st',
     gettkn_expect_mask expect st = (Some tok, st') ->
     (tok, st') = gettkn st /\
     type tok <> EOF /\ type tok <> T_ERROR /\
     (expect <> T_ANY -> T_MASK_ISSET expect (type tok) = true)) /\
  (forall t tok st',
     T__BASE <= t < T__END ->
     gettkn_expect t st = (Some tok, st') -> type tok = t) /\
  (forall expect st',
     gettkn_expect_mask expect st = (None, st') ->
     cur_input st' = cur_input (snd (gettkn st))).
Proof.
  assert (A : forall expect tok st',
     gettkn_expect_mask expect st = (Some tok, st') ->
     (tok, st') = gettkn st /\
     type tok <> EOF /\ type tok <> T_ERROR /\
     (expect <> T_ANY -> T_MASK_ISSET expect (type tok) = true)).
  { intros expect tok st' H. unfold gettkn_expect_mask in H.
    destruct (gettkn st) as [tk st1].
    destruct (type tk =? EOF) eqn:E1; [discriminate H|].
    destruct (type tk =? T_ERROR) eqn:E2; [discriminate H|].
    apply Z.eqb_neq in E1, E2.
    destruct (expect =? 0) eqn:E3.
    - injection H as <- <-. apply Z.eqb_eq in E3.
      repeat split; auto; intros N; contradiction.
    - destruct (negb (T_MASK_ISSET expect (type tk))) eqn:M; [discriminate H|].
      injection H as <- <-. apply negb_false_iff in M.
      repeat split; auto. }
  split; [exact A|]. split.
  - intros t tok st' T H. unfold gettkn_expect in H.
    destruct (A _ _ _ H) as (_ & _ & _ & M).
    apply T_BIT_same; [lia|]. apply M.
    unfold T_BIT, T_ANY, T__BASE in *. intros Z0.
    apply Z.shiftl_eq_0_iff in Z0; [discriminate Z0 | lia].
  - intros expect st' H. unfold gettkn_expect_mask in H.
    destruct (gettkn st) as [tk st1]. cbn [snd].
    destruct (type tk =? EOF); [injection H as <-; reflexivity|].
    destruct (type tk =? T_ERROR); [injection H as <-; reflexivity|].
    destruct (expect =? 0); [discriminate H|].
    destruct (negb (T_MASK_ISSET expect (type tk)));
      [injection H as <-; reflexivity | discriminate H].
Qed.

Lemma expected_token_only_witness :
  let st := Demo.reading "Threads 8" in
  let tok := fst (gettkn st) in
  let st1 := snd (gettkn st) in
  type tok = T_IDENT /\ gettkn_expect T_NUMBER st = (None, snd (gettkn_expect T_NUMBER st)).
Proof.
  intros st tok st1.
  assert (R : T__BASE <= T_IDENT < T__END) 
    by (unfold T_IDENT, T__BASE, T__END; lia).
  assert (H : gettkn_expect T_IDENT st = (Some tok, st1))
    by (vm_compute; reflexivity).
  destruct (expected_token_only st) as (_ & Ty & _).
  split; [exact (Ty T_IDENT tok st1 R H) | vm_compute; reflexivity].
Defined.

(** ** ACME services *)

Lemma last_char_slash (d : string) : last_char (d ++ "/") = Some "/"%char.
Proof.
  induction d as [|c d IH]; [reflexivity|].
  change (String c d ++ "/") with (String c (d ++ "/")).
  cbn [last_char]. rewrite IH.
  destruct (d ++ "/") eqn:X; [discriminate IH | reflexivity].
Qed.

Lemma truncate_append (a b : string) : truncate (String.length a) (a ++ b) = a.
Proof.
  induction a as [|c a IH]; [reflexivity|].
  cbn [String.length append truncate]. f_equal. exact IH.
Qed.

(** X17.  An ACME statement that is accepted adds one service to the end
    of the list and reads nothing but the name of the directory.  The
    service has one back-end, of type ACME, alive, enabled and of
    priority 1, and its two priority sums are those of its back-ends, as
    for the services of Service sections.  The URL of the back-end is the
    name of the directory followed by "/$1", whether or not the name was
    written with a slash at its end.  A statement that fails leaves the
    list as it was. *)
Theorem acme_service (E : env) (head : list SERVICE) (st : state)
    (r : PARSER_RES) (head' : list SERVICE) (st' : state) :
  parse_acme E head st = (r, head', st') ->
  r = PARSER_FAIL /\ head' = head \/
  r = PARSER_OK /\
  exists tok sv be,
    gettkn_expect T_STRING st = (Some tok, st') /\
    head' = SLIST_PUSH head sv /\
    backends sv = [be] /\ be_type be = BE_ACME /\
    fresh_backend be /\ priority be = 1 /\
    priorities_summed sv /\ sess_type sv = SESS_NONE /\
    List.length (svc_url sv) = 1%nat /\
    (forall dir, str tok = dir ++ "/" -> url be = Some (acme_url dir)) /\
    (str tok <> "" -> last_char (str tok) <> Some "/"%char ->
     url be = Some (acme_url (str tok))).
Proof.
  unfold parse_acme. intros H.
  destruct (gettkn_expect T_STRING st) as [[tok|] st1];
    [|injection H as <- <- <-; left; split; reflexivity].
  destruct (stat E (str tok)) as [err|s];
    [injection H as <- <- <-; left; split; reflexivity|].
  destruct (negb (st_isdir s));
    [injection H as <- <- <-; left; split; reflexivity|].
  destruct (negb (regcomp E re_acme REG_EXTENDED =? 0));
    [injection H as <- <- <-; left; split; reflexivity|].
  injection H as <- <- <-. right. split; [reflexivity|].
  eexists tok, _, _. split; [reflexivity|]. split; [reflexivity|].
  split; [reflexivity|]. split; [reflexivity|].
  split; [unfold fresh_backend; cbn; repeat split; lia|].
  split; [reflexivity|].
  split.
  { unfold priorities_summed. cbn. repeat split; try lia.
    intros _. eexists. split; [left; reflexivity|]. cbn. split; [reflexivity | lia]. }
  split; [reflexivity|]. split; [reflexivity|].
  cbn [url set_url]. split.
  - intros dir D. rewrite D, last_char_slash, Ascii.eqb_refl.
    assert (P : pred (String.length (dir ++ "/")) = String.length dir)
      by (rewrite length_append; cbn; lia).
    rewrite P, truncate_append. reflexivity.
  - intros NE L.
    assert (T : truncate (String.length (str tok)) (str tok) = str tok)
      by (apply truncate_all; lia).
    destruct (last_char (str tok)) as [c|] eqn:Lc.
    + destruct (Ascii.eqb c "/") eqn:C.
      * apply Ascii.eqb_eq in C. subst c. contradiction L. reflexivity.
      * rewrite T. reflexivity.
    + rewrite T. reflexivity.
Qed.

Lemma acme_service_witness :
  let st := Demo.reading (Demo.quoted "/var/www/acme/") in
  let run := parse_acme directories [] st in
  exists tok sv be,
    gettkn_expect T_STRING st = (Some tok, snd run) /\
    snd (fst run) = SLIST_PUSH [] sv /\
    backends sv = [be] /\ be_type be = BE_ACME /\
    fresh_backend be /\ priority be = 1 /\
    priorities_summed sv /\ sess_type sv = SESS_NONE /\
    List.length (svc_url sv) = 1%nat /\
    (forall dir, str tok = dir ++ "/" -> url be = Some (acme_url dir)) /\
    (str tok <> "" -> last_char (str tok) <> Some "/"%char ->
     url be = Some (acme_url (str tok))).
Proof.
  intros st run.
  assert (H : parse_acme directories [] st
              = (PARSER_OK, snd (fst run), snd run))
    by (vm_compute; reflexivity).
  destruct (acme_service directories [] st PARSER_OK (snd (fst run)) (snd run) H)
    as [[F _] | [_ R]]; [discriminate F | exact R].
Defined.

(** ** Statements that are given once *)

(** X18.  A CheckURL statement is accepted only in a listener that has no
    pattern yet, and after it every further CheckURL of the listener is
    refused, before any token is read and leaving the listener as it is.
    A SocketFrom statement is accepted only in a listener with no address
    yet; the address it obtains counts as set, port included, so that
    every further SocketFrom, Address and Port statement of the listener
    is refused in the same way. *)
Theorem statements_given_once (E : env) :
  (forall lst dfl st lst' st',
     listener_parse_checkurl E lst dfl st = (PARSER_OK, lst', st') ->
     has_pat lst = 0 /\
     forall dfl2 st2,
       listener_parse_checkurl E lst' dfl2 st2
       = (PARSER_FAIL, lst', conf_error "CheckURL multiple pattern" st2)) /\
  (forall lst st lst' st',
     listener_parse_socket_from E lst st = (PARSER_OK, lst', st') ->
     ADDRINFO_HAS_ADDRESS (l_addr lst) = false /\
     address_complete (l_addr lst') /\
     forall st2,
       listener_parse_socket_from E lst' st2
       = (PARSER_FAIL, lst',
          conf_error "Duplicate Address or SocketFrom statement" st2) /\
       assign_address E (l_addr lst') st2
       = (PARSER_FAIL, l_addr lst',
          conf_error "Duplicate Address statement" st2) /\
       assign_port E (l_addr lst') st2
       = (PARSER_FAIL, l_addr lst',
          conf_error "Duplicate port statement" st2)).
Proof.
  split.
  - intros lst dfl st lst' st' H. unfold listener_parse_checkurl in H.
    destruct (has_pat lst =? 0) eqn:P; cbn [negb] in H; [|discriminate H].
    apply Z.eqb_eq in P. split; [exact P|].
    destruct (gettkn_expect T_STRING st) as [[tok|] st1]; [|discriminate H].
    destruct (negb (regcomp E (str tok) _ =? 0)); [discriminate H|].
    injection H as <- _. intros dfl2 st2. reflexivity.
  - intros lst st lst' st' H. unfold listener_parse_socket_from in H.
    destruct (ADDRINFO_HAS_ADDRESS (l_addr lst)) eqn:A; [discriminate H|].
    split; [reflexivity|].
    destruct (gettkn_expect T_STRING st) as [[tok|] st1]; [|discriminate H].
    destruct (assign_address_internal E zero_addrinfo (Some tok) st1)
      as [[r a] st2].
    destruct r; try discriminate H.
    destruct (sys_socket E) as [err|sfd]; [discriminate H|].
    destruct (sys_connect E sfd (ai_addr a)) as [err|u]; [discriminate H|].
    destruct (read_fd E sfd =? -1); [discriminate H|].
    destruct (getsockname E (read_fd E sfd)) as [err|[ss sslen]];
      [discriminate H|].
    injection H as <- _.
    match goal with
    | |- context [ADDRINFO_SET_PORT (ADDRINFO_SET_ADDRESS ?x)] =>
        set (la := ADDRINFO_SET_PORT (ADDRINFO_SET_ADDRESS x))
    end.
    assert (HA : ADDRINFO_HAS_ADDRESS la = true).
    { unfold la. rewrite set_port_has_address.
      apply set_address_has_address. }
    assert (HP : ADDRINFO_HAS_PORT la = true)
      by (unfold la; apply set_port_has_port).
    cbn [l_addr set_sock set_l_addr].
    split; [split; [exact HA | left; exact HP]|].
    intros st3. unfold listener_parse_socket_from, assign_address, assign_port.
    cbn [l_addr set_sock set_l_addr]. rewrite HA, HP.
    repeat split; reflexivity.
Qed.

Lemma statements_given_once_witness :
  let st := Demo.reading (Demo.quoted "/run/pound.sock") in
  let run := listener_parse_socket_from socket_passed zero_listener st in
  let lst' := snd (fst run) in
  ADDRINFO_HAS_ADDRESS (l_addr zero_listener) = false /\
  address_complete (l_addr lst') /\
  forall st2,
    listener_parse_socket_from socket_passed lst' st2
    = (PARSER_FAIL, lst',
       conf_error "Duplicate Address or SocketFrom statement" st2) /\
    assign_address socket_passed (l_addr lst') st2
    = (PARSER_FAIL, l_addr lst',
       conf_error "Duplicate Address statement" st2) /\
    assign_port socket_passed (l_addr lst') st2
    = (PARSER_FAIL, l_addr lst',
       conf_error "Duplicate port statement" st2).
Proof.
  intros st run lst'.
  assert (H : listener_parse_socket_from socket_passed zero_listener st
              = (PARSER_OK, lst', snd run))
    by (vm_compute; reflexivity).
  exact (proj2 (statements_given_once socket_passed) zero_listener st lst'
           (snd run) H).
Defined.

(** ** URL patterns of a service *)

(** The patterns are compiled in the order of the list and appended in
    that order; the first that does not compile ends the loop. *)
Lemma compile_urls_spec (E : env) (urls : list token) (flags : Z)
    (acc : list MATCHER) (st : state) (r : PARSER_RES) (ms : list MATCHER)
    (st' : state) :
  compile_urls E urls flags acc st = (r, ms, st') ->
  r = PARSER_OK /\ st' = st /\
  ms = (acc ++ map (url_matcher flags) urls)%list /\
  Forall (fun te => regcomp E (str te) flags = 0) urls \/
  r = PARSER_FAIL /\
  exists before te after,
    urls = (before ++ te :: after)%list /\
    Forall (fun te => regcomp E (str te) flags = 0) before /\
    regcomp E (str te) flags <> 0 /\
    ms = (acc ++ map (url_matcher flags) before)%list /\
    st' = regcomp_error_at_locus_range E (Some (locus te))
            (regcomp E (str te) flags) None st.
Proof.
  revert acc. induction urls as [|te rest IH]; intros acc H;
    cbn [compile_urls] in H.
  - injection H as <- <- <-. left. rewrite app_nil_r. repeat split. constructor.
  - destruct (regcomp E (str te) flags =? 0) eqn:C; cbn [negb] in H.
    + apply Z.eqb_eq in C.
      destruct (IH _ H) as [(-> & -> & -> & F) | (-> & b & t & a & -> & F & N & -> & ->)].
      * left. unfold SLIST_PUSH. rewrite <- app_assoc. repeat split.
        constructor; assumption.
      * right. split; [reflexivity|]. exists (te :: b), t, a.
        unfold SLIST_PUSH. rewrite <- app_assoc. repeat split; auto.
    + apply Z.eqb_neq in C. injection H as <- <- <-. right.
      split; [reflexivity|]. exists [], te, rest.
      rewrite app_nil_r. repeat split; auto.
Qed.

(** X19.  With the session table of the service created (the model does
    not cover a failure of [lh_TABNODE_new]): a Service section that is
    not accepted leaves the list of services as it was.  One that is
    accepted has read its statements with [parser_loop] over
    [service_parsetab], after the name of the service or, when there is
    none, with the token read for it put back, starting from no URL and
    from the default of IgnoreCase, and has appended one service.  The URL
    patterns of that
    service are the URL statements the loop has collected, in their
    order, each compiled with the same flags: newline-aware, extended,
    and ignoring case exactly when the value of IgnoreCase at the end of
    the section is not 0, whatever the place of an IgnoreCase statement
    among the URL statements; and each of them did compile. *)
Theorem service_url_patterns (E : env) (n : nat) (head : list SERVICE)
    (dfl : POUND_DEFAULTS) (st : state) (r : PARSER_RES)
    (head' : list SERVICE) (st' : state) :
  parse_service E n head dfl st = Ret (r, head', st') ->
  (r <> PARSER_OK -> head' = head) /\
  (r = PARSER_OK ->
   exists tok st1 ext0 st2 ext range st3 sv,
     gettkn_any st = (Some tok, st1) /\
     (type tok = T_STRING ->
      st2 = if strlen (str tok) >? SERVICE_NAME_SIZE (K E) - 1
            then conf_error "service name too long: truncated" st1
            else st1) /\
     (type tok <> T_STRING -> st2 = putback_tkn st1) /\
     ext_url ext0 = [] /\ ext_ignore_case ext0 = ignore_case dfl /\
     parser_loop n (service_parsetab E) ext0 (fun _ => dfl)
       (Some zero_range) st2
     = Ret (PARSER_OK, ext, range, st3) /\
     head' = SLIST_PUSH head sv /\
     svc_url sv
     = map (url_matcher (url_flags (negb (ext_ignore_case ext =? 0))))
         (ext_url ext) /\
     Forall (fun te =>
               regcomp E (str te)
                 (url_flags (negb (ext_ignore_case ext =? 0))) = 0)
       (ext_url ext)).
Proof.
  intros H. unfold parse_service in H.
  destruct (gettkn_any st) as [[tok|] st1] eqn:G;
    [|injection H as <- <- <-; split;
      [reflexivity | intros X; discriminate X]].
  set (p := if type tok =? T_STRING then _ else _) in H.
  assert (U : ext_url (fst p) = [] /\
              (type tok = T_STRING ->
               snd p = if strlen (str tok) >? SERVICE_NAME_SIZE (K E) - 1
                       then conf_error "service name too long: truncated" st1
                       else st1) /\
              (type tok <> T_STRING -> snd p = putback_tkn st1)).
  { subst p. destruct (type tok =? T_STRING) eqn:TS; cbn [fst snd].
    - apply Z.eqb_eq in TS. split; [reflexivity|].
      split; [reflexivity | intros N; contradiction].
    - apply Z.eqb_neq in TS. split; [reflexivity|].
      split; [intros N; contradiction | reflexivity]. }
  destruct p as [ext0 st2]. cbn [fst snd] in U.
  destruct U as (U & S1 & S2).
  destruct (parser_loop n (service_parsetab E) _ (fun _ => dfl)
              (Some zero_range) st2)
    as [[[[r1 ext] range] st3]| |] eqn:L; try discriminate H.
  destruct r1;
    try (injection H as <- <- <-; split;
         [reflexivity | intros X; discriminate X]).
  set (icase := negb (ext_ignore_case ext =? 0)) in *.
  change (Z.lor (Z.lor REG_NEWLINE REG_EXTENDED)
            (if icase then REG_ICASE else 0)) with (url_flags icase) in H.
  destruct (match backends (set_svc_url [] (svc ext)) with
            | [] => _ | _ :: _ => _ end) as [s st4] eqn:B.
  destruct (compile_urls E (ext_url ext) (url_flags icase) (svc_url s) st4)
    as [[rc urls] st5] eqn:C.
  assert (S0 : svc_url s = []).
  { destruct (backends (set_svc_url [] (svc ext)));
      [injection B as <- _; reflexivity|].
    destruct (sum_priorities _ _ _) as [tot abs].
    injection B as <- _. reflexivity. }
  rewrite S0 in C.
  destruct (compile_urls_spec E _ _ _ _ _ _ _ C)
    as [(-> & -> & -> & F) | (-> & _)].
  - injection H as <- <- <-. split; [intros X; contradiction X; reflexivity|].
    intros _.
    exists tok, st1, (set_ext_ignore_case (ignore_case dfl) ext0), st2, ext,
      range, st3,
      (set_svc_url ([] ++ map (url_matcher (url_flags icase)) (ext_url ext)) s).
    split; [reflexivity|]. split; [exact S1|]. split; [exact S2|].
    split; [exact U|]. split; [reflexivity|].
    split; [exact L|]. split; [reflexivity|]. split; [reflexivity|].
    exact F.
  - injection H as <- <- <-. split; [reflexivity | intros X; discriminate X].
Qed.

Lemma service_url_patterns_witness :
  let E := Demo.env [] in
  let st := Demo.reading url_service_text in
  let res := parse_service E 10%nat [] pound_defaults st in
  let head' := snd (fst (returned (PARSER_FAIL, [], st) res)) in
  let st' := snd (returned (PARSER_FAIL, [], st) res) in
  map (fun sv => map pat (svc_url sv)) head'
  = [[mk_regex "^/app/" (url_flags true);
      mk_regex "^/static/" (url_flags true)]] /\
  exists ext sv,
    head' = SLIST_PUSH [] sv /\
    svc_url sv
    = map (url_matcher (url_flags (negb (ext_ignore_case ext =? 0))))
        (ext_url ext).
Proof.
  intros E st res head' st'.
  assert (H : res = Ret (PARSER_OK, head', st')) by (vm_compute; reflexivity).
  split; [vm_compute; reflexivity|].
  destruct (proj2 (service_url_patterns E 10%nat [] pound_defaults st
                     PARSER_OK head' st' H) eq_refl)
    as (_ & _ & _ & _ & ext & _ & _ & sv & _ & _ & _ & _ & _ & _ & P & U
        & _).
  exists ext, sv. split; [exact P | exact U].
Defined.

(** ** TLS contexts of back-ends *)

Lemma ldiff_clears (a x : Z) : Z.land (Z.ldiff a x) x = 0.
Proof. bitwise. Qed.

Lemma ldiff_stays_clear (a x y : Z) :
  Z.land a x = 0 -> Z.land (Z.ldiff a y) x = 0.
Proof.
  intros H. apply Z.bits_inj'. intros k Hk.
  rewrite Z.land_spec, Z.ldiff_spec, Z.bits_0.
  apply (f_equal (fun v => Z.testbit v k)) in H.
  rewrite Z.land_spec, Z.bits_0 in H.
  destruct (Z.testbit a k), (Z.testbit x k), (Z.testbit y k);
    try reflexivity; discriminate H.
Qed.

Lemma backend_parse_https_tls (E : env) (be : BACKEND) (st : state)
    (r : PARSER_RES) (be' : BACKEND) (st' : state) :
  backend_parse_https E be st = (r, be', st') -> backend_tls E be'.
Proof.
  unfold backend_parse_https. intros H.
  destruct (SSL_CTX_new E false) as [c0|];
    [|injection H as _ <- _; intros c C; discriminate C].
  destruct (session_id E st) as [sid st1]. injection H as _ <- _.
  intros c C. cbn [ctx set_ctx] in C. injection C as <-.
  unfold client_context. destruct c0. cbn.
  repeat split.
  - apply ldiff_stays_clear, ldiff_clears.
  - apply ldiff_clears.
Qed.

Lemma backend_parse_cert_tls (E : env) (be : BACKEND) (st : state)
    (r : PARSER_RES) (be' : BACKEND) (st' : state) :
  backend_parse_cert E be st = (r, be', st') -> r <> PARSER_FAIL ->
  backend_tls E be -> backend_tls E be'.
Proof.
  unfold backend_parse_cert. intros H N J.
  destruct (ctx be) as [c0|] eqn:C0;
    [|injection H as <- _ _; contradiction].
  destruct (gettkn_expect T_STRING st) as [[tok|] st1];
    [|injection H as <- _ _; contradiction].
  destruct (negb (SSL_CTX_use_certificate_chain_file E (str tok)));
    [injection H as <- _ _; contradiction|].
  destruct (negb (SSL_CTX_use_PrivateKey_file E (str tok)));
    [injection H as <- _ _; contradiction|].
  destruct (negb (SSL_CTX_check_private_key E _));
    [injection H as <- _ _; contradiction|].
  injection H as _ <- _. intros c C. cbn [ctx set_ctx] in C.
  injection C as <-.
  destruct (J c0 C0) as (V & Cb & A & I & O1 & O2).
  unfold client_context. destruct c0. cbn in *. repeat split; assumption.
Qed.

Lemma backend_assign_ciphers_tls (E : env) (be : BACKEND) (st : state)
    (r : PARSER_RES) (be' : BACKEND) (st' : state) :
  backend_assign_ciphers be st = (r, be', st') -> r <> PARSER_FAIL ->
  backend_tls E be -> backend_tls E be'.
Proof.
  unfold backend_assign_ciphers. intros H N J.
  destruct (ctx be) as [c0|] eqn:C0;
    [|injection H as <- _ _; contradiction].
  destruct (gettkn_expect T_STRING st) as [[tok|] st1];
    [|injection H as <- _ _; contradiction].
  injection H as _ <- _. intros c C. cbn [ctx set_ctx] in C.
  injection C as <-.
  destruct (J c0 C0) as (V & Cb & A & I & O1 & O2).
  unfold client_context. destruct c0. cbn in *. repeat split; assumption.
Qed.

Lemma backend_parse_haport_ctx (E : env) (be : BACKEND) (st : state)
    (r : PARSER_RES) (be' : BACKEND) (st' : state) :
  backend_parse_haport E be st = (r, be', st') -> ctx be' = ctx be.
Proof.
  unfold backend_parse_haport. intros H.
  destruct (ADDRINFO_HAS_ADDRESS (ha_addr be));
    [injection H as _ <- _; reflexivity|].
  destruct (gettkn_any st) as [[saved|] st1];
    [|injection H as _ <- _; reflexivity].
  destruct (gettkn_any st1) as [[tok|] st2];
    [|injection H as _ <- _; reflexivity].
  destruct (type tok =? T_NEWLINE).
  - destruct (assign_port_internal E _ (Some saved) (putback_tkn st2))
      as [[[] a3] st3]; injection H as _ <- _; reflexivity.
  - destruct (assign_address_internal E (ha_addr be) (Some saved) st2)
      as [[rc a2] st3].
    destruct rc; try solve [injection H as _ <- _; reflexivity].
    destruct (assign_port_internal E _ (Some tok) st3) as [[[] a3] st4];
      injection H as _ <- _; reflexivity.
Qed.

Section BackendTls.

Variable E : env.

Let J : BACKEND -> Prop := backend_tls E.

Lemma keeps_tls_leaf (h : BACKEND -> state -> PARSER_RES * BACKEND * state) :
  (forall be st r be' st',
     h be st = (r, be', st') -> r <> PARSER_FAIL -> J be -> J be') ->
  keeps_obj J false (leaf0 h).
Proof.
  intros Hh. apply keeps_obj_leaf0. intros t st r t' st' H S Pt.
  exact (Hh _ _ _ _ _ H (unstrict r S) Pt).
Qed.

Ltac tls_entry :=
  first
    [ apply keeps_obj_nodata
    | apply keeps_obj_frame; intros f t Pt; exact Pt
    | apply keeps_tls_leaf; intros be st r be' st' H N Pt;
      first
        [ exact (backend_parse_https_tls E be st r be' st' H)
        | exact (backend_parse_cert_tls E be st r be' st' H N Pt)
        | exact (backend_assign_ciphers_tls E be st r be' st' H N Pt)
        | intros c C; apply Pt;
          rewrite <- (backend_parse_haport_ctx E be st r be' st' H); exact C ]
    | intros n t dfl st r t' st' H S Pt;
      destruct (disable_proto_fails E t st r t' st' H) as [-> ->]; exact Pt ].

Lemma backend_parsetab_tls :
  Forall (fun e => keeps_obj J false (pt_parser e)) (backend_parsetab E).
Proof.
  unfold backend_parsetab.
  repeat apply Forall_cons; try apply Forall_nil; cbn [pt_parser entry];
    tls_entry.
Qed.

Lemma emergency_parsetab_tls :
  Forall (fun e => keeps_obj J false (pt_parser e)) (emergency_parsetab E).
Proof.
  unfold emergency_parsetab.
  repeat apply Forall_cons; try apply Forall_nil; cbn [pt_parser entry];
    tls_entry.
Qed.

Lemma parse_backend_internal_tls (n : nat)
    (table : list (PARSER_TABLE BACKEND)) (dfl : POUND_DEFAULTS) (st : state)
    (be : BACKEND) (st' : state) :
  Forall (fun e => keeps_obj J false (pt_parser e)) table ->
  parse_backend_internal n table dfl st = Ret (Some be, st') -> J be.
Proof.
  intros HK H. unfold parse_backend_internal in H.
  destruct (parser_loop n table _ (fun _ => dfl) (Some zero_range) st)
    as [[[[r be1] range] st1]| |] eqn:L; try discriminate H.
  destruct r; try discriminate H.
  destruct (check_addrinfo (addr be1) range "Backend" st1) as [rc st2].
  destruct rc; try discriminate H. injection H as <- _.
  refine (parser_loop_obj J false table _ HK n _ _ st _ _ _ _ L
            (or_intror eq_refl) _).
  intros c C. discriminate C.
Qed.

End BackendTls.

(** The statements other than HTTPS give no context to a back-end that
    has none. *)
Lemma backend_parse_cert_no_ctx (E : env) (be : BACKEND) (st : state)
    (r : PARSER_RES) (be' : BACKEND) (st' : state) :
  backend_parse_cert E be st = (r, be', st') -> ctx be = None ->
  r = PARSER_FAIL /\ be' = be.
Proof.
  unfold backend_parse_cert. intros H C. rewrite C in H.
  injection H as <- <- _. split; reflexivity.
Qed.

Lemma backend_assign_ciphers_no_ctx (be : BACKEND) (st : state)
    (r : PARSER_RES) (be' : BACKEND) (st' : state) :
  backend_assign_ciphers be st = (r, be', st') -> ctx be = None ->
  r = PARSER_FAIL /\ be' = be.
Proof.
  unfold backend_assign_ciphers. intros H C. rewrite C in H.
  injection H as <- <- _. split; reflexivity.
Qed.

Ltac no_ctx_entry E :=
  first
    [ left; reflexivity
    | right;
      first
        [ apply keeps_obj_nodata
        | apply keeps_obj_frame; intros f t Pt; exact Pt
        | apply keeps_obj_leaf0; intros be st r be' st' H S Pt;
          first
            [ rewrite (backend_parse_haport_ctx E be st r be' st' H); exact Pt
            | destruct (backend_parse_cert_no_ctx E be st r be' st' H Pt)
                as [_ ->]; exact Pt
            | destruct (backend_assign_ciphers_no_ctx be st r be' st' H Pt)
                as [_ ->]; exact Pt ]
        | intros n t dfl st r t' st' H S Pt;
          destruct (disable_proto_fails E t st r t' st' H) as [-> ->];
          exact Pt ] ].

Lemma backend_parsetab_no_ctx (E : env) :
  Forall (fun e => pt_name e = "HTTPS" \/
                   keeps_obj (fun be => ctx be = None) false (pt_parser e))
    (backend_parsetab E).
Proof.
  unfold backend_parsetab.
  repeat apply Forall_cons; try apply Forall_nil;
    cbn [pt_name pt_parser entry]; no_ctx_entry E.
Qed.

Lemma emergency_parsetab_no_ctx (E : env) :
  Forall (fun e => pt_name e = "HTTPS" \/
                   keeps_obj (fun be => ctx be = None) false (pt_parser e))
    (emergency_parsetab E).
Proof.
  unfold emergency_parsetab.
  repeat apply Forall_cons; try apply Forall_nil;
    cbn [pt_name pt_parser entry]; no_ctx_entry E.
Qed.

Lemma parse_backend_internal_no_ctx (n : nat)
    (table : list (PARSER_TABLE BACKEND)) (dfl : POUND_DEFAULTS) (st : state)
    (be : BACKEND) (st' : state) :
  Forall (fun e => keeps_obj (fun be => ctx be = None) false (pt_parser e))
    table ->
  parse_backend_internal n table dfl st = Ret (Some be, st') ->
  ctx be = None.
Proof.
  intros HK H. unfold parse_backend_internal in H.
  destruct (parser_loop n table _ (fun _ => dfl) (Some zero_range) st)
    as [[[[r be1] range] st1]| |] eqn:L; try discriminate H.
  destruct r; try discriminate H.
  destruct (check_addrinfo (addr be1) range "Backend" st1) as [rc st2].
  destruct rc; try discriminate H. injection H as <- _.
  refine (parser_loop_obj (fun be => ctx be = None) false table _ HK n _ _ st
            _ _ _ _ L (or_intror eq_refl) _).
  reflexivity.
Qed.

(** X20.  A back-end starts without a TLS context, and no statement of
    the Backend and Emergency tables other than HTTPS gives it one: each
    of them leaves a back-end without a context without one, so a section
    read with statements that all do so ends without a context.  HTTPS
    itself leaves the back-end with a context as it prepares it or, when
    the context cannot be created, without one.  When the back-end of an
    accepted Backend or Emergency section has a context, the context is
    as HTTPS prepares it, whatever Cert and Ciphers statements follow: the
    certificate of the peer is not verified and no verify callback is set,
    and the two options for unsafe legacy renegotiation are cleared.
    Without a context, Cert and Ciphers are refused before any token is
    read. *)
Theorem backend_tls_context (E : env) :
  (forall n head dfl st head' st',
     parse_backend E n head dfl st = Ret (PARSER_OK, head', st') ->
     exists be, head' = SLIST_PUSH head be /\ backend_tls E be) /\
  (forall n res dfl st res' st',
     parse_emergency E n res dfl st = Ret (PARSER_OK, res', st') ->
     exists be, res' = Some be /\ backend_tls E be) /\
  (forall be st,
     ctx be = None ->
     backend_parse_cert E be st
     = (PARSER_FAIL, be,
        conf_error "HTTPS must be used before this statement" st) /\
     backend_assign_ciphers be st
     = (PARSER_FAIL, be,
        conf_error "HTTPS must be used before this statement" st)) /\
  Forall (fun e => pt_name e = "HTTPS" \/
                   keeps_obj (fun be => ctx be = None) false (pt_parser e))
    (backend_parsetab E) /\
  Forall (fun e => pt_name e = "HTTPS" \/
                   keeps_obj (fun be => ctx be = None) false (pt_parser e))
    (emergency_parsetab E) /\
  (forall n table dfl st be st',
     Forall (fun e => keeps_obj (fun be => ctx be = None) false (pt_parser e))
       table ->
     parse_backend_internal n table dfl st = Ret (Some be, st') ->
     ctx be = None) /\
  (forall be st r be' st',
     backend_parse_https E be st = (r, be', st') ->
     r = PARSER_FAIL /\ ctx be' = None \/
     r = PARSER_OK /\ exists c, ctx be' = Some c /\ client_context E c).
Proof.
  split; [|split; [|split; [|split; [|split; [|split]]]]].
  - intros n head dfl st head' st' H. unfold parse_backend in H.
    destruct (parse_backend_internal n (backend_parsetab E) dfl st)
      as [[[be|] st1]| |] eqn:Q; try discriminate H.
    injection H as <- _. exists be. split; [reflexivity|].
    exact (parse_backend_internal_tls E n _ dfl st be st1
             (backend_parsetab_tls E) Q).
  - intros n res dfl st res' st' H. unfold parse_emergency in H.
    destruct (parse_backend_internal n (emergency_parsetab E) _ st)
      as [[[be|] st1]| |] eqn:Q; try discriminate H.
    injection H as <- _. exists be. split; [reflexivity|].
    exact (parse_backend_internal_tls E n _ _ st be st1
             (emergency_parsetab_tls E) Q).
  - intros be st C. unfold backend_parse_cert, backend_assign_ciphers.
    rewrite C. split; reflexivity.
  - apply backend_parsetab_no_ctx.
  - apply emergency_parsetab_no_ctx.
  - apply parse_backend_internal_no_ctx.
  - intros be st r be' st' H.
    pose proof (backend_parse_https_tls E be st r be' st' H) as T.
    unfold backend_parse_https in H.
    destruct (SSL_CTX_new E false) as [c0|].
    + destruct (session_id E st) as [sid st1].
      right. injection H as <- B _. split; [reflexivity|].
      destruct (ctx be') as [c|] eqn:C.
      * exists c. split; [reflexivity | exact (T c C)].
      * rewrite <- B in C. discriminate C.
    + injection H as <- <- _. left. split; reflexivity.
Qed.

Lemma backend_tls_context_witness :
  let E := Demo.env https_backend_files in
  let st := Demo.reading https_backend_text in
  let res := parse_backend E 10%nat [] pound_defaults st in
  let head' := snd (fst (returned (PARSER_FAIL, [], st) res)) in
  let st' := snd (returned (PARSER_FAIL, [], st) res) in
  map (fun be => option_map ctx_cert_chain (ctx be)) head'
  = [Some (Some "/etc/pound/be.pem")] /\
  exists be, head' = SLIST_PUSH [] be /\ backend_tls E be.
Proof.
  intros E st res head' st'.
  assert (H : res = Ret (PARSER_OK, head', st')) by (vm_compute; reflexivity).
  split; [vm_compute; reflexivity|].
  exact (proj1 (backend_tls_context E) 10%nat [] pound_defaults st head' st' H).
Defined.

(** ** Reading a character and putting it back *)

(** X21.  [input_ungetc] undoes [input_getc]: the character is back in the
    stream and the line number is what it was.  So is the column, and the
    whole input but for the remembered last column of the previous line
    after a newline, unless the character is a tab: [input_getc]
    advances the column by 8 for a tab and [input_ungetc] takes 1 back,
    which leaves the column 7 too far. *)
Theorem getc_ungetc (i : input) (c : option ascii) (i1 : input) :
  input_getc i = (c, i1) ->
  file (input_ungetc i1 c) = file i /\
  line (ilocus (input_ungetc i1 c)) = line (ilocus i) /\
  (c <> Some TAB -> ilocus (input_ungetc i1 c) = ilocus i) /\
  (c = Some TAB ->
   col (ilocus (input_ungetc i1 c)) = col (ilocus i) + 7) /\
  (c <> Some TAB -> c <> Some NL -> input_ungetc i1 c = i) /\
  (c = Some NL ->
   input_ungetc i1 c = set_prev_col (col (ilocus i)) i).
Proof.
  intros H. unfold input_getc in H.
  destruct i as [f ino dev [fn ln cl] pc tk rd bf].
  destruct f as [|ch rest]; cbn -[Ascii.eqb NL TAB] in H.
  - injection H as <- <-. cbn.
    repeat split; intros; try reflexivity; discriminate.
  - destruct (Ascii.eqb ch NL) eqn:N.
    + injection H as <- <-. unfold input_ungetc. cbn -[Ascii.eqb NL TAB]. rewrite N.
      cbn -[Ascii.eqb NL TAB].
      apply Ascii.eqb_eq in N. subst ch. rewrite Z.add_simpl_r.
      repeat split; intros; try reflexivity.
      * match goal with X : Some NL = Some TAB |- _ =>
          vm_compute in X; discriminate X end.
      * match goal with X : Some NL <> Some NL |- _ =>
          contradiction X; reflexivity end.
    + destruct (Ascii.eqb ch TAB) eqn:T.
      * injection H as <- <-. unfold input_ungetc. cbn -[Ascii.eqb NL TAB]. rewrite N.
      cbn -[Ascii.eqb NL TAB].
        apply Ascii.eqb_eq in T. subst ch.
        repeat split; intros; try reflexivity.
        -- match goal with X : Some TAB <> Some TAB |- _ =>
             contradiction X; reflexivity end.
        -- lia.
        -- match goal with X : Some TAB <> Some TAB |- _ =>
             contradiction X; reflexivity end.
        -- match goal with X : Some TAB = Some NL |- _ =>
             vm_compute in X; discriminate X end.
      * injection H as <- <-. unfold input_ungetc. cbn -[Ascii.eqb NL TAB]. rewrite N.
      cbn -[Ascii.eqb NL TAB].
        rewrite Z.add_simpl_r.
        apply Ascii.eqb_neq in N, T.
        repeat split; intros; try reflexivity.
        -- match goal with X : Some ch = Some TAB |- _ =>
             injection X as X; contradiction end.
        -- match goal with X : Some ch = Some NL |- _ =>
             injection X as X; contradiction end.
Qed.

Lemma getc_ungetc_witness :
  let i := snd (input_getc (fresh_input (String "a" (String TAB "b")))) in
  let run := input_getc i in
  fst run = Some TAB /\
  col (ilocus (input_ungetc (snd run) (fst run))) = col (ilocus i) + 7.
Proof.
  intros i run.
  assert (H : input_getc i = (fst run, snd run)) by (vm_compute; reflexivity).
  assert (T : fst run = Some TAB) by (vm_compute; reflexivity).
  split; [exact T|].
  destruct (getc_ungetc i (fst run) (snd run) H) as (_ & _ & _ & Tab & _).
  exact (Tab T).
Defined.

(** ** Keywords *)

Lemma parser_find_case {T : Type} (tab : list (PARSER_TABLE T))
    (a b : string) :
  lowercase a = lowercase b -> parser_find tab a = parser_find tab b.
Proof.
  intros L. induction tab as [|ent rest IH]; cbn [parser_find];
    [reflexivity|].
  unfold strcaseeq. rewrite L, IH. reflexivity.
Qed.

Lemma parser_find_first {T : Type} (tab : list (PARSER_TABLE T))
    (nm : string) :
  match parser_find tab nm with
  | Some ent =>
      exists before after,
        tab = (before ++ ent :: after)%list /\
        strcaseeq (pt_name ent) nm = true /\
        Forall (fun e => strcaseeq (pt_name e) nm = false) before
  | None => Forall (fun e => strcaseeq (pt_name e) nm = false) tab
  end.
Proof.
  induction tab as [|ent rest IH]; cbn [parser_find]; [constructor|].
  destruct (strcaseeq (pt_name ent) nm) eqn:C.
  - exists [], rest. repeat split; [exact C | constructor].
  - destruct (parser_find rest nm) as [e|].
    + destruct IH as (before & after & -> & M & F).
      exists (ent :: before), after. repeat split; [exact M|].
      constructor; assumption.
    + constructor; assumption.
Qed.

Ltac own_keyword tab :=
  unfold tab; repeat apply Forall_cons; try apply Forall_nil; reflexivity.

(** X22.  Keywords are looked up without regard to the case of their
    letters: two names that differ in case only find the same entry.  The
    entry found is the first of the table whose name matches, and none is
    found only if no name matches.  No entry of the tables of the
    configuration file is hidden behind an earlier one: each is found
    under its own name. *)
Theorem keyword_lookup (E : env) :
  (forall T (tab : list (PARSER_TABLE T)) a b,
     lowercase a = lowercase b -> parser_find tab a = parser_find tab b) /\
  (forall T (tab : list (PARSER_TABLE T)) nm ent,
     parser_find tab nm = Some ent ->
     exists before after,
       tab = (before ++ ent :: after)%list /\
       strcaseeq (pt_name ent) nm = true /\
       Forall (fun e => strcaseeq (pt_name e) nm = false) before) /\
  (forall T (tab : list (PARSER_TABLE T)) nm,
     parser_find tab nm = None ->
     Forall (fun e => strcaseeq (pt_name e) nm = false) tab) /\
  Forall (fun e => parser_find (top_level_parsetab E) (pt_name e) = Some e)
    (top_level_parsetab E) /\
  Forall (fun e => parser_find (http_parsetab E) (pt_name e) = Some e)
    (http_parsetab E) /\
  Forall (fun e => parser_find (https_parsetab E) (pt_name e) = Some e)
    (https_parsetab E) /\
  Forall (fun e => parser_find (service_parsetab E) (pt_name e) = Some e)
    (service_parsetab E) /\
  Forall (fun e => parser_find (backend_parsetab E) (pt_name e) = Some e)
    (backend_parsetab E) /\
  Forall (fun e => parser_find (emergency_parsetab E) (pt_name e) = Some e)
    (emergency_parsetab E) /\
  Forall (fun e => parser_find session_parsetab (pt_name e) = Some e)
    session_parsetab.
Proof.
  split; [intros T tab a b; apply parser_find_case|].
  split.
  { intros T tab nm ent H. pose proof (parser_find_first tab nm) as F.
    rewrite H in F. exact F. }
  split.
  { intros T tab nm H. pose proof (parser_find_first tab nm) as F.
    rewrite H in F. exact F. }
  split; [own_keyword top_level_parsetab|].
  split; [own_keyword http_parsetab|].
  split; [own_keyword https_parsetab|].
  split; [own_keyword service_parsetab|].
  split; [own_keyword backend_parsetab|].
  split; [own_keyword emergency_parsetab|].
  own_keyword session_parsetab.
Qed.

Lemma keyword_lookup_witness :
  let tab := top_level_parsetab (Demo.env []) in
  parser_find tab "LISTENHTTPS" = parser_find tab "ListenHTTPS" /\
  option_map (fun e => pt_name e) (parser_find tab "listenhttps")
  = Some "ListenHTTPS".
Proof.
  intros tab.
  destruct (keyword_lookup (Demo.env [])) as (Case & _).
  split.
  - apply Case. reflexivity.
  - rewrite (Case _ tab "listenhttps" "ListenHTTPS" eq_refl). reflexivity.
Defined.
